(* ===== verification/_CoqProject ===== *)
-Q . S2P
Prelude.v
GoBytes.v
MacAddr.v
Protocol.v
Seq.v
GoHash.v
BigInt.v
Primality.v
Auth.v
Mtwei.v
Curve25519.v
Frame.v
Receiver.v
Sockets.v
Session.v
RxLoop.v
SessionOps.v
Records.v
Handshake.v
Typing.v
Teardown.v
Open.v
Wire.v
Mndp.v
Discover.v
GoText.v
GoFlag.v
SshExec.v
Relay.v
Keystrokes.v
GoOS.v
Ifaces.v
ExecCmds.v
Keys.v
SshServer.v
System.v
Cmd.v
