(* ===== verification/Prelude.v ===== *)
(** * mactelnet-proxy: a verification development

    mactelnet-proxy (src/src/) is a Go program that reaches MikroTik routers
    by MAC address: an SSH server whose [exec] commands open MAC-Telnet
    sessions (UDP port 20561 in raw Ethernet frames) and list the routers
    announced by MNDP (UDP port 5678).  This library models its code as
    executable functions and proves what the parts promise.

    ** The parts and where they are modelled

    - Prelude (this file): machine words, outcomes of Go code, automation.
      GoBytes: slices, [copy] and encoding/binary with their run-time
      checks.  GoHash: crypto/md5 and crypto/sha256.  BigInt: math/big.
      These four are the language and its standard library, as far as the
      program uses them.
    - Protocol (mactelnet/protocol.go): [encode] and [decodeHeader],
      [encodePing], [encodeControl], and [iterateControl], whose callback is
      a function that may ask to stop; with the wire format of control
      records as an inductive grammar of its own ([wire_records]).
    - Seq (mactelnet/seq.go): [buildRetransmitSchedule] on int64 durations
      with wrap-around, the [counters] with [reserveOut], [acceptIncoming]
      and [ackCounterFor] on 32-bit words.
    - Auth (mactelnet/auth.go): [detectAuthMode], [computeMD5Response],
      [mtweiID], [buildAuthInit], [buildAuthFinish].
    - Mtwei (mactelnet/mtwei.go): the EC-SRP arithmetic, a point's
      coordinates being optional because Go's are nil at infinity.
      Primality certifies the field prime; Curve25519 instantiates the
      theory at the constants of [newMtweiState].
    - Frame and Receiver (mactelnet/conn.go): [buildFrame],
      [internetChecksum], the sender, and the receiver's frame filter and
      read loop over any sequence of kernel answers.
    - Sockets (mactelnet/conn.go, mndp/conn.go): the descriptors of the
      process and the system calls on them: [openSockets] with [openRecv],
      [openRawReceiver] and [openRawSender], the [Close] methods,
      [SetReadDeadline], and MNDP's [openListener].
    - MacAddr (conn.go, mndp/discover.go): [parseMAC] and [formatMAC].
    - Session (mactelnet/session.go, loop.go): the state the goroutines of a
      session share, and the steps of [rxLoop], [processInboundData],
      [keepaliveLoop], [Read], [Close], [fail] and the parent's
      cancellation; [apply_step] is the whole step function.  [Close] and
      [fail] are not one step each: the swap of [closed], the END, [cancel],
      and the closing of each socket and pipe end are steps of their own
      ([Close], [Close_next], [fail], with their places in [close_pc] and
      [rx_pc]), so that every other goroutine can run between two of them;
      what every such state keeps is [teardown_ok], and that the teardown of
      the one winner of the swap comes to its end is [winner_releases].
      RxLoop holds its theorems, Records where its control records come
      from.
    - SessionOps (session.go): [Open], [handshake], [sendDataAndWaitAck],
      [waitForAck], [awaitControl], [Write], [Resize], [Close] as
      computations against an arbitrary schedule of those steps.  An error of
      [Open] carries what remains: nothing, or the closed session with its
      goroutines, whose teardown [Open]'s own [Close] may have lost to
      [fail].  The theorems on [handshake] are in Handshake; Open proves that every such
      computation is a sequence of the session's steps, and with that what
      [Open] leaves behind; Teardown, that [Close] returns; Wire follows a
      frame of the device to the terminal and its acknowledgement back.
    - Mndp (mndp/parser.go): [ParsePacket].  Discover (mndp/discover.go,
      conn.go): the listening loop, the deduplicating map, the sorted
      listing, [resolveBroadcast].
    - Typing: the typing invariant of everything a session stores and sends.
    - GoText, GoFlag and GoOS: UTF-8, package strings and number printing;
      package flag with [strconv] and [time.ParseDuration]; paths, a file
      system and the printing of addresses.  Again the standard library.
    - SshExec (sshserver/exec.go): [splitCmd], and the password prompt over
      [bufio] reads that arrive in arbitrary pieces.  Relay (exec.go and
      cmd/mactelnet-proxy/mactelnet.go): what both programs do with an open
      session, up to its deferred [Close], as one state machine: the pumps,
      the resizer, [dataMu] between them, a call in progress one event at a
      time ([call_event], the loop of SessionOps by [attempts_event]).
      Keystrokes shows what a relay sends to the device.
    - Ifaces (sshserver/ifaces.go): the interface listing and its table.
      ExecCmds (exec.go): [dispatchExec] with [execMactelnet], [execMndp]
      and [execIfaces].
    - Keys (sshserver/keys.go, server.go): host key, authorized keys, [New],
      [reload], [authPublicKey].  SshServer (server.go): the session channel
      [handleSession] as a state machine with the command's goroutine, and
      the accept loops of [handleConn] and [Serve].  System composes them
      with ExecCmds into the server process: connections, channels,
      commands, SIGHUPs and the shutdown as steps ([apply_sys]); a command
      runs with the window changes its channel has handed over as what the
      resizer of its session is given ([with_winch], [se_winch]).
    - Cmd (cmd/mactelnet-proxy): [main] with [runServe] (up to the process
      of System), [runMactelnet], [runMndp], and the environment readers.

    A command line goes from [SshServer.handleReq] (the [Launch] output)
    through [System.apply_sys] to [ExecCmds.dispatchExec], from there through
    [Relay.run_session] to [SessionOps.Open], which opens its sockets by
    Sockets, whose steps are those of Session, whose datagrams are built by
    Protocol and leave through Frame.

    ** How code and model correspond

    A Go integer is a [Z] kept in range by the conversion of its width
    ([u8], [u16], [u32], [i64], ...) wherever an operation can wrap.  A
    [[]byte], array or string is the list of its bytes.  A function that can
    return an error or panic returns an [outcome]: [Val], [Fail] with a
    constructor per error the source makes, or [Panic] for an index, slice
    or nil check of the run time; every such check is in the model.
    Goroutines are interleaved: each atomic action is a step on the shared
    state ([Session.apply_step]), channels are lists bounded by their
    capacity, a blocked goroutine is a program counter ([rx_pc]), and a
    caller of the session is a computation that consumes a schedule of
    events at each of its blocking points.  What the kernel answers to a
    system call, the random bytes and the clock are inputs of the
    definitions, so the theorems hold for all of them.

    ** What the theorems show

    - Codecs: the header, control records, authentication payloads, frames,
      MAC addresses and MNDP announcements round-trip; decoders are total
      on every input of bytes, fail exactly where documented and never
      panic.
    - Arithmetic: the Internet checksum verifies; the curve operations stay
      on the curve; lifting finds the point with the wanted parity exactly
      when there is one; a public key determines its point; the challenge
      response is the stated hash; retransmit schedules fit their budget.
    - Reliability: an in-order retransmitting sender is delivered exactly
      once and in order; every DATA datagram is acknowledged once; a DATA
      packet is retransmitted identically, a bounded number of times, and
      succeeds only on its own acknowledgement.
    - Session life: the handshake succeeds only through the whole exchange,
      on records the device sent; END is sent at most once, by the one
      [Close] that wins the swap, and the winner's teardown ends
      ([end_sent_at_most_once]); [Open] owns two fresh descriptors, or leaves
      every descriptor as it was, at once or once a bounded number of calls
      of the teardown in progress are made ([Open_outcome], [settles],
      [openSockets_descriptors]); [Close] comes back ([Close_returns]).
    - The whole way: terminal output in a frame of the session's VLAN
      reaches the terminal and is acknowledged by a frame the device accepts
      ([wire_to_terminal]).  In the other direction, what the user types is
      sent in order, no chunk before the one before it was acknowledged, over
      every interleaving with resizes and the session's goroutines
      ([keystrokes_in_order]).
    - Discovery: the listing is the last announcement of each address,
      sorted, independent of map order; the loop returns by its deadline.
    - Types: every state a session reaches is well typed ([session_typed]).
    - The SSH server: a session channel refines the abstract channel of RFC
      4254 ([handleSession_refines]); a key is accepted exactly when the last
      readable authorized_keys grants it; the host key survives restarts;
      commands end with a documented exit code, their session closed and its
      descriptors settling; every exit status a client sees is the code of the
      command line it sent, over a connection whose key was accepted, and
      its session is resized as the client asked ([server_commands]);
      the splitter agrees with its grammar, quoted arguments arrive
      unaltered; the password prompt does not depend on how its input is cut.
    - The command line: options win over the environment, which wins over
      the defaults ([runServe_precedence]); every run of the program exits
      with 0, 1 or 2 or serves what its settings describe ([main_outcome]).
    - Panics: the goroutines of a session never panic; a call of [Open]
      panics only in [keygen], or in [docrypto] on a challenge its own device
      sent it ([open_panics]); a command or the program only where the call
      of [Open] it has made does ([session_panics], [command_panics]).
    - Where the code departs from its comments, a theorem shows the
      behaviour it has (a full control channel stalls the receive loop,
      output behind END_AUTH races with the switch to terminal mode, a
      wire type 0xff is plain data, a stale counter is accepted across a
      wrap, a maximal budget never ends, a late resize is sent through a
      descriptor already closed, [Open] returns an error with its sockets
      still open).

    ** Fuel and bounds

    Loops that are not structural take fuel, and the theorems say how much
    is enough or that more never matters: three checksum folds
    ([internetChecksum_total]), the padding loop of a schedule (one unit per
    second of budget, [buildRetransmitSchedule_budget], and
    [buildRetransmitSchedule_diverges] for the budget no fuel is enough
    for), one unit per byte for the record and attribute walks (inside
    [iterateControl_run] and [ParsePacket_reads_tlvs]), for the password
    prompt and for durations, the validator search of [tangle] (the caller's
    bound; [docrypto_response] states the result for every fuel).  Blocking
    operations consume their schedule instead: [Blk] is "still blocked", and
    [sendDataAndWaitAck_reliable] and [Discover_returns] say when an
    operation cannot stay so.

    ** What is not modelled

    What the kernel answers to a system call is an input; the descriptors
    a process holds are state (Sockets), but what other parts of the process
    do with theirs while a session runs is left out, and so are the options
    package net sets by itself.  Log lines and the usage texts of the flag
    sets are left out.
    The JSON encoder is a parameter of the definitions that call it, and
    golang.org/x/crypto/ssh is the classes [SshKeys], [SshWire] and [SshConn],
    with the laws that a marshalled private key is parsed back and that an
    authenticated key was accepted by the callback.  Signals appear as the
    context's end; the goroutine that reloads on SIGHUP is the step [Hup].
    Between two of its blocking points a caller of the session runs alone:
    of what the others could do there, only an acknowledgement that arrives
    between the drain of [ackCh] and the first transmission reaches the
    caller's own state, and it leaves what it leaves right after the
    transmission ([late_ack_commutes]).  A datagram another goroutine sends
    there is one it sends just before or just after.
    A relay is followed until its deferred [Close] has returned; a pump that
    still waits then is not, nor is a teardown [fail] has not finished, whose
    end is part of the theorems ([settles]).  A chunk's size is the input pump's to choose,
    [io.Copy]'s buffers being left out.  [sort.Slice] is a stable sort here,
    which shows only for equal indices. *)

From stdpp Require Export prelude list numbers option strings gmap sorting relations.
From Stdlib Require Export ZArith Lia.

#[local] Open Scope Z_scope.

(** ** Machine words

    Go's fixed-width integers are [Z]s; every arithmetic operation that can
    wrap is followed by the conversion of its width. *)

Definition u8 (x : Z) : Z := x mod 2 ^ 8.
Definition u16 (x : Z) : Z := x mod 2 ^ 16.
Definition u32 (x : Z) : Z := x mod 2 ^ 32.
Definition u64 (x : Z) : Z := x mod 2 ^ 64.

(** Two's complement conversions: Go's [int8(x)] and [int64(x)]. *)
Definition i8 (x : Z) : Z := (x + 2 ^ 7) mod 2 ^ 8 - 2 ^ 7.
Definition i64 (x : Z) : Z := (x + 2 ^ 63) mod 2 ^ 64 - 2 ^ 63.

Definition is_u8 (x : Z) : Prop := 0 <= x < 2 ^ 8.
Definition is_u16 (x : Z) : Prop := 0 <= x < 2 ^ 16.
Definition is_u32 (x : Z) : Prop := 0 <= x < 2 ^ 32.
Definition is_i64 (x : Z) : Prop := - 2 ^ 63 <= x < 2 ^ 63.

#[export] Instance is_u8_dec x : Decision (is_u8 x).
Proof. unfold is_u8. apply _. Defined.
#[export] Instance is_u16_dec x : Decision (is_u16 x).
Proof. unfold is_u16. apply _. Defined.
#[export] Instance is_u32_dec x : Decision (is_u32 x).
Proof. unfold is_u32. apply _. Defined.

(** A Go [[]byte], [string] or [[n]byte] value: the list of its bytes. *)
Abbreviation bytes := (list Z).
Abbreviation bytes_ok := (Forall is_u8).

(** ** Outcomes of Go code

    [Val a] is a normal return, [Fail e] a return whose [error] result is
    [e], [Panic] a run-time panic (index or slice bounds out of range, nil
    dereference). *)

Inductive outcome (E A : Type) : Type :=
| Val (a : A)
| Fail (e : E)
| Panic.
Arguments Val {E A} a.
Arguments Fail {E A} e.
Arguments Panic {E A}.

#[export] Instance outcome_ret E : MRet (outcome E) := fun _ a => Val a.
#[export] Instance outcome_bind E : MBind (outcome E) := fun _ _ k m =>
  match m with
  | Val a => k a
  | Fail e => Fail e
  | Panic => Panic
  end.
#[export] Instance outcome_fmap E : FMap (outcome E) := fun _ _ f m =>
  match m with
  | Val a => Val (f a)
  | Fail e => Fail e
  | Panic => Panic
  end.

#[export] Instance outcome_eq_dec E A `{EqDecision E, EqDecision A} :
  EqDecision (outcome E A).
Proof. solve_decision. Defined.

Definition no_panic {E A} (m : outcome E A) : Prop :=
  match m with Panic => False | _ => True end.

Lemma outcome_bind_val {E A B} (m : outcome E A) (k : A -> outcome E B) b :
  mbind k m = Val b <-> exists a, m = Val a /\ k a = Val b.
Proof. destruct m; cbn; naive_solver. Qed.

Lemma bind_val {E A B} (k : A -> outcome E B) a : mbind k (Val a) = k a.
Proof. done. Qed.
Lemma bind_bind {E A B C} (k : B -> outcome E C) (j : A -> outcome E B) m :
  mbind k (mbind j m) = mbind (fun a => mbind k (j a)) m.
Proof. by destruct m. Qed.

Lemma no_panic_bind {E A B} (m : outcome E A) (k : A -> outcome E B) :
  no_panic m -> (forall a, m = Val a -> no_panic (k a)) -> no_panic (mbind k m).
Proof. destruct m; cbn; auto. Qed.

(** ** The development's automation *)

Create HintDb mt discriminated.
Create Rewrite HintDb mt.

(** Normalise word predicates and let [lia] finish, with powers of two
    computed and [mod]/[/] by constants eliminated. *)
Ltac word_unfold :=
  unfold u8, u16, u32, u64, i8, i64, is_u8, is_u16, is_u32, is_i64 in *;
  change (2 ^ 7) with 128 in *; change (2 ^ 8) with 256 in *;
  change (2 ^ 16) with 65536 in *;
  change (2 ^ 32) with 4294967296 in *;
  change (2 ^ 63) with 9223372036854775808 in *;
  change (2 ^ 64) with 18446744073709551616 in *.
Ltac word_lia :=
  word_unfold; Z.to_euclidean_division_equations; lia.

(** Split a [Forall] hypothesis over a concrete spine. *)
Ltac inv_Forall :=
  repeat match goal with
    | H : Forall _ (_ :: _) |- _ => apply Forall_cons_1 in H as [??]
    | H : Forall _ (_ ++ _) |- _ => apply Forall_app in H as [??]
    | H : Forall _ [] |- _ => clear H
    end.

(** Build a [Forall] over a concrete spine, leaving to [mt] what it can. *)
Ltac bytes_tac :=
  repeat first
    [ apply Forall_nil_2 | apply Forall_cons_2 | apply Forall_app_2 ];
  auto with mt.

(** Expose the first [n] elements of a list known to be long enough. *)
Tactic Notation "expose" integer(n) ident(l) :=
  do n (destruct l as [|? l]; [cbn in *; lia|]).

Ltac case_bool_lia :=
  repeat match goal with
    | |- context [if decide ?P then _ else _] => destruct (decide P); try lia
    | |- context [(?a <? ?b)%nat] => destruct (Nat.ltb_spec a b); try lia
    | |- context [(?a <=? ?b)%nat] => destruct (Nat.leb_spec a b); try lia
    | |- context [(?a =? ?b)%nat] => destruct (Nat.eqb_spec a b); try lia
    | |- context [?a <? ?b] => destruct (Z.ltb_spec a b); try lia
    | |- context [?a <=? ?b] => destruct (Z.leb_spec a b); try lia
    | |- context [?a =? ?b] => destruct (Z.eqb_spec a b); try lia
    end.

(** ** Word lemmas *)

Lemma u8_range x : is_u8 (u8 x). Proof. apply Z.mod_pos_bound. lia. Qed.
Lemma u16_range x : is_u16 (u16 x). Proof. apply Z.mod_pos_bound. lia. Qed.
Lemma u32_range x : is_u32 (u32 x). Proof. apply Z.mod_pos_bound. lia. Qed.
Lemma i64_range x : is_i64 (i64 x). Proof. word_lia. Qed.
Lemma u8_id x : is_u8 x -> u8 x = x. Proof. apply Z.mod_small. Qed.
Lemma u16_id x : is_u16 x -> u16 x = x. Proof. apply Z.mod_small. Qed.
Lemma u32_id x : is_u32 x -> u32 x = x. Proof. apply Z.mod_small. Qed.
Lemma i64_id x : is_i64 x -> i64 x = x. Proof. word_lia. Qed.

#[export] Hint Resolve u8_range u16_range u32_range i64_range : mt.
#[export] Hint Rewrite u8_id u16_id u32_id i64_id using (solve [auto with mt | word_lia]) : mt.

(** Disjoint bits: or-ing a high part onto a low part is addition. *)
Lemma lor_shiftl_add a b n :
  0 <= n -> 0 <= a < 2 ^ n -> Z.lor a (Z.shiftl b n) = a + b * 2 ^ n.
Proof.
  intros Hn Ha.
  assert (Hland : Z.land a (Z.shiftl b n) = 0).
  { apply Z.bits_inj'. intros i Hi. rewrite Z.land_spec, Z.bits_0.
    destruct (Z.lt_ge_cases i n).
    - rewrite Z.shiftl_spec_low by lia. apply andb_false_r.
    - replace a with (a mod 2 ^ n) by (apply Z.mod_small; lia).
      rewrite Z.mod_pow2_bits_high by lia. reflexivity. }
  pose proof (Z.add_lor_land a (Z.shiftl b n)) as Hadd.
  rewrite Hland, Z.shiftl_mul_pow2 in Hadd by lia.
  rewrite Z.shiftl_mul_pow2 by lia. lia.
Qed.

(** ** List lemmas *)

Lemma bytes_ok_replicate n : bytes_ok (replicate n 0).
Proof. apply Forall_replicate. unfold is_u8. lia. Qed.
#[export] Hint Resolve bytes_ok_replicate : mt.

Lemma bytes_ok_take n (l : bytes) : bytes_ok l -> bytes_ok (take n l).
Proof. apply Forall_take. Qed.
Lemma bytes_ok_drop n (l : bytes) : bytes_ok l -> bytes_ok (drop n l).
Proof. apply Forall_drop. Qed.
#[export] Hint Resolve bytes_ok_take bytes_ok_drop : mt.

(** ASCII text as Go sees it: the bytes of a string literal. *)
Definition bytes_of_string (s : string) : bytes :=
  (fun a => Z.of_N (Ascii.N_of_ascii a)) <$> String.list_ascii_of_string s.

Lemma bytes_of_string_ok s : bytes_ok (bytes_of_string s).
Proof.
  unfold bytes_of_string. apply Forall_fmap, Forall_true. intros a.
  cbn. pose proof (Ascii.N_ascii_bounded a) as H. unfold is_u8. lia.
Qed.
#[export] Hint Resolve bytes_of_string_ok : mt.

(** A decidable property of bytes, checked on all of them. *)
Lemma byte_forall (P : Z -> bool) :
  forallb P (Z.of_nat <$> seq 0 256) = true -> forall x, is_u8 x -> P x = true.
Proof.
  intros Hall x Hx. rewrite forallb_forall in Hall. apply Hall.
  apply list_elem_of_In, list_elem_of_fmap. exists (Z.to_nat x).
  unfold is_u8 in Hx. change (2 ^ 8) with 256 in Hx. rewrite elem_of_seq. lia.
Qed.
