(* ===== verification/GoBytes.v ===== *)
(** * Go byte slices and encoding/binary

    The operations of the language and its standard library the program's
    wire code is written with: indexing, slicing, [copy], [make], and the
    [encoding/binary] big- and little-endian accessors.  Every access that
    Go checks at run time is checked here and yields [Panic]; a slice is
    bounded by its length (re-slicing up to a larger capacity is refused,
    which can only add panics to the model). *)

From S2P Require Import Prelude.

#[local] Open Scope Z_scope.

(** ** Slices *)

(** [b[i]] *)
Definition index {E} (b : bytes) (i : nat) : outcome E Z :=
  match b !! i with Some x => Val x | None => Panic end.

(** [b[lo:hi]] *)
Definition slice {E} (b : bytes) (lo hi : nat) : outcome E bytes :=
  if decide (lo <= hi <= length b)%nat then Val (take (hi - lo) (drop lo b))
  else Panic.

(** [b[lo:]] *)
Definition slice_from {E} (b : bytes) (lo : nat) : outcome E bytes :=
  slice b lo (length b).

(** [copy(b[lo:hi], src)]: the contents of [b] afterwards. *)
Definition copy_at {E} (b : bytes) (lo hi : nat) (src : bytes) : outcome E bytes :=
  if decide (lo <= hi <= length b)%nat then
    let n := Nat.min (hi - lo) (length src) in
    Val (take lo b ++ take n src ++ drop (lo + n) b)
  else Panic.

(** [b[i] = x] *)
Definition set_index {E} (b : bytes) (i : nat) (x : Z) : outcome E bytes :=
  if decide (i < length b)%nat then Val (<[i := x]> b) else Panic.

(** [make([]byte, n)] *)
Definition make (n : nat) : bytes := replicate n 0.

(** ** encoding/binary *)

Definition put_be16 (v : Z) : bytes := [u8 (Z.shiftr v 8); u8 v].
Definition put_le16 (v : Z) : bytes := [u8 v; u8 (Z.shiftr v 8)].
Definition put_be32 (v : Z) : bytes :=
  [u8 (Z.shiftr v 24); u8 (Z.shiftr v 16); u8 (Z.shiftr v 8); u8 v].
Definition put_le32 (v : Z) : bytes := rev (put_be32 v).

Definition be16 {E} (b : bytes) : outcome E Z :=
  match b with
  | b0 :: b1 :: _ => Val (Z.lor b1 (Z.shiftl b0 8))
  | _ => Panic
  end.
Definition be32 {E} (b : bytes) : outcome E Z :=
  match b with
  | b0 :: b1 :: b2 :: b3 :: _ =>
      Val (Z.lor b3 (Z.lor (Z.shiftl b2 8) (Z.lor (Z.shiftl b1 16) (Z.shiftl b0 24))))
  | _ => Panic
  end.
Definition le16 {E} (b : bytes) : outcome E Z :=
  match b with
  | b0 :: b1 :: _ => Val (Z.lor b0 (Z.shiftl b1 8))
  | _ => Panic
  end.
Definition le32 {E} (b : bytes) : outcome E Z :=
  match b with
  | b0 :: b1 :: b2 :: b3 :: _ =>
      Val (Z.lor b0 (Z.lor (Z.shiftl b1 8) (Z.lor (Z.shiftl b2 16) (Z.shiftl b3 24))))
  | _ => Panic
  end.

(** ** Lemmas on the accessors *)

Lemma put_be16_ok v : bytes_ok (put_be16 v).
Proof. bytes_tac. Qed.
Lemma put_le16_ok v : bytes_ok (put_le16 v).
Proof. bytes_tac. Qed.
Lemma put_be32_ok v : bytes_ok (put_be32 v).
Proof. bytes_tac. Qed.
Lemma put_le32_ok v : bytes_ok (put_le32 v).
Proof. unfold put_le32. cbn. bytes_tac. Qed.
#[export] Hint Resolve put_be16_ok put_le16_ok put_be32_ok put_le32_ok : mt.

(** Byte recombination as arithmetic. *)
Lemma lor16_arith b0 b1 :
  is_u8 b0 -> is_u8 b1 -> Z.lor b1 (Z.shiftl b0 8) = b0 * 256 + b1.
Proof. intros. rewrite lor_shiftl_add; word_lia. Qed.

Lemma lor32_arith b0 b1 b2 b3 :
  is_u8 b0 -> is_u8 b1 -> is_u8 b2 -> is_u8 b3 ->
  Z.lor b3 (Z.lor (Z.shiftl b2 8) (Z.lor (Z.shiftl b1 16) (Z.shiftl b0 24)))
  = b0 * 16777216 + b1 * 65536 + b2 * 256 + b3.
Proof.
  intros.
  rewrite !Z.lor_assoc, (lor_shiftl_add b3) by word_lia.
  rewrite (lor_shiftl_add (b3 + b2 * 2 ^ 8)) by word_lia.
  rewrite lor_shiftl_add; change (2 ^ 24) with 16777216; word_lia.
Qed.

Lemma be16_arith {E} b0 b1 l :
  is_u8 b0 -> is_u8 b1 -> be16 (E := E) (b0 :: b1 :: l) = Val (b0 * 256 + b1).
Proof. intros. cbn. by rewrite lor16_arith. Qed.
Lemma le16_arith {E} b0 b1 l :
  is_u8 b0 -> is_u8 b1 -> le16 (E := E) (b0 :: b1 :: l) = Val (b1 * 256 + b0).
Proof. intros. cbn. by rewrite lor16_arith. Qed.
Lemma be32_arith {E} b0 b1 b2 b3 l :
  is_u8 b0 -> is_u8 b1 -> is_u8 b2 -> is_u8 b3 ->
  be32 (E := E) (b0 :: b1 :: b2 :: b3 :: l)
  = Val (b0 * 16777216 + b1 * 65536 + b2 * 256 + b3).
Proof. intros. cbn. by rewrite lor32_arith. Qed.
Lemma le32_arith {E} b0 b1 b2 b3 l :
  is_u8 b0 -> is_u8 b1 -> is_u8 b2 -> is_u8 b3 ->
  le32 (E := E) (b0 :: b1 :: b2 :: b3 :: l)
  = Val (b3 * 16777216 + b2 * 65536 + b1 * 256 + b0).
Proof. intros. cbn. by rewrite lor32_arith. Qed.

(** Round trips, in the form the codecs use them. *)
Lemma be16_put {E} v l : is_u16 v -> be16 (E := E) (put_be16 v ++ l) = Val v.
Proof.
  intros. cbn [put_be16 app]. rewrite be16_arith by auto with mt.
  f_equal. rewrite Z.shiftr_div_pow2 by lia. word_lia.
Qed.
Lemma le16_put {E} v l : is_u16 v -> le16 (E := E) (put_le16 v ++ l) = Val v.
Proof.
  intros. cbn [put_le16 app]. rewrite le16_arith by auto with mt.
  f_equal. rewrite Z.shiftr_div_pow2 by lia. word_lia.
Qed.
Lemma be32_put {E} v l : is_u32 v -> be32 (E := E) (put_be32 v ++ l) = Val v.
Proof.
  intros. cbn [put_be32 app]. rewrite be32_arith by auto with mt.
  f_equal. rewrite !Z.shiftr_div_pow2 by lia.
  change (2 ^ 24) with 16777216. word_lia.
Qed.
Lemma le32_put {E} v l : is_u32 v -> le32 (E := E) (put_le32 v ++ l) = Val v.
Proof.
  intros. unfold put_le32. cbn [put_be32 rev app]. rewrite le32_arith by auto with mt.
  f_equal. rewrite !Z.shiftr_div_pow2 by lia.
  change (2 ^ 24) with 16777216. word_lia.
Qed.

Lemma be16_range {E} b v : bytes_ok b -> be16 (E := E) b = Val v -> is_u16 v.
Proof.
  destruct b as [|b0 [|b1 b]]; try done. intros Hb.
  inv_Forall. rewrite be16_arith by done. intros [= <-]. word_lia.
Qed.
Lemma be32_range {E} b v : bytes_ok b -> be32 (E := E) b = Val v -> is_u32 v.
Proof.
  destruct b as [|b0 [|b1 [|b2 [|b3 b]]]]; try done. intros Hb.
  inv_Forall. rewrite be32_arith by done. intros [= <-]. word_lia.
Qed.

(** Accesses inside the bounds do not panic. *)
Lemma index_lt {E} b i : (i < length b)%nat -> exists x, index (E := E) b i = Val x /\ b !! i = Some x.
Proof.
  intros Hi. destruct (lookup_lt_is_Some_2 b i Hi) as [x Hx].
  exists x. unfold index. by rewrite Hx.
Qed.
Lemma slice_val {E} b lo hi :
  (lo <= hi <= length b)%nat -> slice (E := E) b lo hi = Val (take (hi - lo) (drop lo b)).
Proof. intros. unfold slice. by rewrite decide_True. Qed.
Lemma slice_from_val {E} b lo :
  (lo <= length b)%nat -> slice_from (E := E) b lo = Val (drop lo b).
Proof.
  intros. unfold slice_from. rewrite slice_val by lia.
  rewrite take_ge; [done|]. rewrite length_drop. lia.
Qed.
Lemma be16_len {E} b : (2 <= length b)%nat -> exists v, be16 (E := E) b = Val v.
Proof. destruct b as [|? [|? ?]]; cbn; try lia. eauto. Qed.
Lemma be32_len {E} b : (4 <= length b)%nat -> exists v, be32 (E := E) b = Val v.
Proof. destruct b as [|? [|? [|? [|? ?]]]]; cbn; try lia. eauto. Qed.

(** [copy] of a source that fits, onto the front of what follows a prefix:
    the form in which encoders that fill a buffer left to right are reasoned
    about. *)
Lemma copy_at_app {E} pre old post src lo hi :
  lo = length pre -> (hi - lo)%nat = length src -> length old = length src ->
  (lo <= hi)%nat ->
  copy_at (E := E) (pre ++ old ++ post) lo hi src = Val (pre ++ src ++ post).
Proof.
  intros -> Hhi Hold Hle. unfold copy_at.
  rewrite decide_True by (rewrite !length_app; lia). cbn zeta.
  rewrite Hhi, Nat.min_id, firstn_all, take_app_length.
  rewrite drop_app_ge by lia.
  replace (length pre + length src - length pre)%nat with (length old) by lia.
  by rewrite drop_app_length.
Qed.

(** An exact-length copy or a byte store into a long enough buffer. *)
Lemma copy_at_val {E} b lo hi src :
  (lo <= hi <= length b)%nat -> length src = (hi - lo)%nat ->
  copy_at (E := E) b lo hi src = Val (take lo b ++ src ++ drop hi b).
Proof.
  intros Hb Hsrc. unfold copy_at. rewrite decide_True by done. cbn zeta.
  rewrite Hsrc, Nat.min_id, (take_ge src) by lia.
  by replace (lo + (hi - lo))%nat with hi by lia.
Qed.
(** A copy whose source fits in what is left of the buffer. *)
Lemma copy_at_fit {E} b lo hi src :
  hi = length b -> (lo + length src <= length b)%nat ->
  copy_at (E := E) b lo hi src
  = Val (take lo b ++ src ++ drop (lo + length src) b).
Proof.
  intros -> Hb. unfold copy_at. rewrite decide_True by lia. cbn zeta.
  by rewrite Nat.min_r, firstn_all by lia.
Qed.
Lemma set_index_val {E} b i x :
  (i < length b)%nat -> set_index (E := E) b i x = Val (<[i := x]> b).
Proof. intros. unfold set_index. by rewrite decide_True. Qed.

(** Run a straight-line sequence of stores into a buffer whose leading
    elements are explicit: each store is replaced by the buffer it leaves,
    one bind at a time, so that the kernel compares small terms. *)
Ltac store_step :=
  match goal with
  | |- context [copy_at ?b ?lo ?hi ?src] =>
      first [ rewrite (copy_at_fit b lo hi src) by (cbn in *; rewrite ?length_replicate; lia)
            | rewrite (copy_at_val b lo hi src) by (cbn in *; lia) ]
  | |- context [set_index ?b ?i ?x] => rewrite (set_index_val b i x) by (cbn in *; lia)
  end.
Ltac simp_bytes l :=
  let l' := eval cbn -[u8 u16 u32 Z.shiftr Z.land Z.of_nat] in l in change l with l';
  rewrite ?drop_0.
Ltac run_stores :=
  repeat (cbv beta iota zeta;
    lazymatch goal with
    | |- mbind _ (mbind _ _) = _ => rewrite bind_bind
    | |- mbind _ (Val _) = _ => rewrite bind_val
    | |- mbind _ (copy_at _ _ _ _) = _ => store_step
    | |- mbind _ (set_index _ _ _) = _ => store_step
    | |- mbind _ (index ?b ?i) = _ =>
        let v := eval cbn in (b !! i) in
        lazymatch v with Some ?x => change (index b i) with (Val (E := _) x) end
    | |- copy_at _ _ _ _ = _ => store_step
    end;
    try match goal with
    | |- mbind _ (Val ?l) = _ => simp_bytes l
    | |- Val ?l = _ => simp_bytes l
    end).

(** The round trips on computed spines. *)
Lemma be16_cons {E} v l :
  is_u16 v -> be16 (E := E) (u8 (Z.shiftr v 8) :: u8 v :: l) = Val v.
Proof. apply be16_put. Qed.
Lemma be32_cons {E} v l :
  is_u32 v ->
  be32 (E := E) (u8 (Z.shiftr v 24) :: u8 (Z.shiftr v 16) :: u8 (Z.shiftr v 8) :: u8 v :: l)
  = Val v.
Proof. apply be32_put. Qed.

(** Splitting what was just combined gives the same bytes back. *)
Lemma put_be16_arith b0 b1 :
  is_u8 b0 -> is_u8 b1 -> put_be16 (b0 * 256 + b1) = [b0; b1].
Proof.
  intros. unfold put_be16. rewrite Z.shiftr_div_pow2 by lia.
  f_equal; [word_lia|f_equal; word_lia].
Qed.
Lemma put_be32_arith b0 b1 b2 b3 :
  is_u8 b0 -> is_u8 b1 -> is_u8 b2 -> is_u8 b3 ->
  put_be32 (b0 * 16777216 + b1 * 65536 + b2 * 256 + b3) = [b0; b1; b2; b3].
Proof.
  intros. unfold put_be32. rewrite !Z.shiftr_div_pow2 by lia.
  change (2 ^ 24) with 16777216.
  f_equal; [word_lia|]. f_equal; [word_lia|]. f_equal; [word_lia|]. f_equal. word_lia.
Qed.

(** Accesses that stay inside a prefix do not see what follows it. *)
Lemma slice_app {E} b junk lo hi :
  (hi <= length b)%nat -> slice (E := E) (b ++ junk) lo hi = slice b lo hi.
Proof.
  intros Hhi. unfold slice. rewrite length_app.
  destruct (decide (lo <= hi <= length b)%nat).
  - rewrite decide_True by lia. f_equal. rewrite drop_app_le by lia.
    apply take_app_le. rewrite length_drop. lia.
  - by rewrite decide_False by lia.
Qed.
Lemma slice_from_app {E} b junk lo :
  (lo <= length b)%nat -> slice_from (E := E) (b ++ junk) lo = Val (drop lo b ++ junk).
Proof. intros. by rewrite slice_from_val, drop_app_le by (rewrite ?length_app; lia). Qed.
Lemma index_app {E} b junk i :
  (i < length b)%nat -> index (E := E) (b ++ junk) i = index b i.
Proof. intros. unfold index. by rewrite lookup_app_l. Qed.
