(* ===== verification/MacAddr.v ===== *)
(** * MAC addresses as text

    [net.ParseMAC] with its three notations, the program's [parseMAC]
    (mactelnet/conn.go) and [formatMAC] (mndp/discover.go): the address a
    neighbour listing prints is the address the session code parses. *)

From S2P Require Import Prelude GoBytes.

#[local] Open Scope Z_scope.

(** ** The standard library's part *)

(** The value of a hexadecimal digit. *)
Definition hex_value (c : Z) : option Z :=
  if (48 <=? c) && (c <=? 57) then Some (c - 48)
  else if (97 <=? c) && (c <=? 102) then Some (c - 97 + 10)
  else if (65 <=? c) && (c <=? 70) then Some (c - 65 + 10)
  else None.

(** [xtoi2(s, e)]: two hexadecimal digits, followed by [e] if by anything. *)
Definition xtoi2 (s : bytes) (e : Z) : option Z :=
  match s with
  | c1 :: c2 :: rest =>
      if (match rest with c3 :: _ => negb (c3 =? e) | [] => false end) then None
      else
        h ← hex_value c1;
        l ← hex_value c2;
        Some (h * 16 + l)
  | _ => None
  end.

(** [n] groups of two digits and a separator. *)
Fixpoint parse_pairs (n : nat) (s : bytes) (sep : Z) : option bytes :=
  match n with
  | O => Some []
  | S n =>
      b ← xtoi2 s sep;
      l ← parse_pairs n (drop 3 s) sep;
      Some (b :: l)
  end.

(** [n] groups of four digits and a dot. *)
Fixpoint parse_quads (n : nat) (s : bytes) (sep : Z) : option bytes :=
  match n with
  | O => Some []
  | S n =>
      b1 ← xtoi2 (take 2 s) 0;
      b2 ← xtoi2 (drop 2 s) sep;
      l ← parse_quads n (drop 5 s) sep;
      Some (b1 :: b2 :: l)
  end.

Definition hw_length_ok (n : nat) : bool :=
  (n =? 6)%nat || (n =? 8)%nat || (n =? 20)%nat.

(** [net.ParseMAC], [None] for its [*AddrError]. *)
Definition ParseMAC (s : bytes) : option bytes :=
  if (length s <? 14)%nat then None
  else
    let s2 := nth 2 s 0 in
    let s4 := nth 4 s 0 in
    if (s2 =? 58) || (s2 =? 45) then
      let n := ((length s + 1) / 3)%nat in
      if negb ((length s + 1) mod 3 =? 0)%nat || negb (hw_length_ok n) then None
      else parse_pairs n s s2
    else if s4 =? 46 then
      let n := (2 * (length s + 1) / 5)%nat in
      if negb ((length s + 1) mod 5 =? 0)%nat || negb (hw_length_ok n) then None
      else parse_quads (n / 2) s s4
    else None.

(** [fmt]'s [%02x] of a byte. *)
Definition hex_digit (d : Z) : Z := if d <? 10 then 48 + d else 87 + d.
Definition hex2 (x : Z) : bytes := [hex_digit (x / 16); hex_digit (x mod 16)].

(** ** The program's part *)

Inductive mac_error :=
| errParseMAC                   (* mactelnet: parse MAC %q: %w *)
| errMACLength (n : nat).       (* mactelnet: MAC %q is %d bytes, want 6 *)

Definition parseMAC (s : bytes) : outcome mac_error bytes :=
  match ParseMAC s with
  | None => Fail errParseMAC
  | Some hw =>
      if decide (length hw <> 6%nat) then Fail (errMACLength (length hw)) else Val hw
  end.

Definition formatMAC (b : bytes) : bytes :=
  hex2 (nth 0 b 0) ++ [58] ++ hex2 (nth 1 b 0) ++ [58] ++ hex2 (nth 2 b 0) ++ [58]
  ++ hex2 (nth 3 b 0) ++ [58] ++ hex2 (nth 4 b 0) ++ [58] ++ hex2 (nth 5 b 0).

(** ** Lemmas *)

Definition is_hex (c : Z) : bool := (48 <=? c) && (c <=? 57) || (97 <=? c) && (c <=? 102).

Lemma hex2_digits x : is_u8 x ->
  exists c1 c2, hex2 x = [c1; c2]
    /\ hex_value c1 = Some (x / 16) /\ hex_value c2 = Some (x mod 16)
    /\ is_hex c1 = true /\ is_hex c2 = true.
Proof.
  intros Hx. exists (hex_digit (x / 16)), (hex_digit (x mod 16)). split; [done|].
  assert (forallb (fun x => bool_decide (hex_value (hex_digit (x / 16)) = Some (x / 16))
            && bool_decide (hex_value (hex_digit (x mod 16)) = Some (x mod 16))
            && is_hex (hex_digit (x / 16)) && is_hex (hex_digit (x mod 16)))
            (Z.of_nat <$> seq 0 256) = true) as Hall by (vm_compute; reflexivity).
  pose proof (byte_forall _ Hall x Hx) as H. cbv beta in H.
  rewrite !andb_true_iff, !bool_decide_eq_true in H. tauto.
Qed.

Lemma xtoi2_hex2 x sep rest : is_u8 x ->
  (forall c, head rest = Some c -> c = sep) -> xtoi2 (hex2 x ++ rest) sep = Some x.
Proof.
  intros Hx Hsep. destruct (hex2_digits x Hx) as (c1 & c2 & -> & H1 & H2 & _).
  cbn [app xtoi2]. replace (match rest with c3 :: _ => negb (c3 =? sep) | [] => false end) with false.
  - rewrite H1, H2. cbn. f_equal. rewrite (Z.div_mod x 16) at 3 by lia. lia.
  - destruct rest as [|c rest]; [done|]. rewrite (Hsep c) by done. by rewrite Z.eqb_refl.
Qed.

Lemma parse_pairs_cons n x sep rest : is_u8 x ->
  parse_pairs (S n) (hex2 x ++ [sep] ++ rest) sep
  = (l ← parse_pairs n rest sep; Some (x :: l)).
Proof.
  intros Hx. cbn [parse_pairs]. rewrite xtoi2_hex2; [reflexivity|done|]. by intros c [= <-].
Qed.
Lemma parse_pairs_last x sep : is_u8 x -> parse_pairs 1 (hex2 x) sep = Some [x].
Proof.
  intros Hx. cbn [parse_pairs]. rewrite <- (app_nil_r (hex2 x)) at 1.
  by rewrite xtoi2_hex2.
Qed.

Lemma formatMAC_length m : length (formatMAC m) = 17%nat.
Proof. done. Qed.

(** What is parsed is six bytes. *)
Lemma hex_value_range c v : hex_value c = Some v -> 0 <= v < 16.
Proof. unfold hex_value. repeat case_match; intros [= <-]; lia. Qed.
Lemma xtoi2_ok s e b : xtoi2 s e = Some b -> is_u8 b.
Proof.
  unfold xtoi2. destruct s as [|c1 [|c2 rest]]; try done. case_match; [done|].
  destruct (hex_value c1) as [h|] eqn:H1; [|done]. destruct (hex_value c2) as [l|] eqn:H2; [|done].
  intros [= <-]. apply hex_value_range in H1, H2. word_lia.
Qed.
Lemma parse_pairs_ok n : forall s sep l, parse_pairs n s sep = Some l -> bytes_ok l.
Proof.
  induction n as [|n IH]; intros s sep l; cbn [parse_pairs]; [by intros [= <-]|].
  destruct (xtoi2 s sep) as [b|] eqn:Hb; [|done].
  destruct (parse_pairs n (drop 3 s) sep) as [l'|] eqn:Hl; [|done].
  intros [= <-]. apply Forall_cons_2; [by eapply xtoi2_ok|by eapply IH].
Qed.
Lemma parse_quads_ok n : forall s sep l, parse_quads n s sep = Some l -> bytes_ok l.
Proof.
  induction n as [|n IH]; intros s sep l; cbn [parse_quads]; [by intros [= <-]|].
  destruct (xtoi2 (take 2 s) 0) as [b1|] eqn:Hb1; [|done].
  destruct (xtoi2 (drop 2 s) sep) as [b2|] eqn:Hb2; [|done].
  destruct (parse_quads n (drop 5 s) sep) as [l'|] eqn:Hl; [|done].
  intros [= <-]. repeat (apply Forall_cons_2; [by eapply xtoi2_ok|]). by eapply IH.
Qed.
Lemma parseMAC_ok s m : parseMAC s = Val m -> length m = 6%nat /\ bytes_ok m.
Proof.
  unfold parseMAC. destruct (ParseMAC s) as [hw|] eqn:Hp; [|done]. case_decide as Hlen; [done|].
  intros [= <-]. split; [lia|]. unfold ParseMAC in Hp. repeat case_match; try done.
  - by eapply parse_pairs_ok.
  - by eapply parse_quads_ok.
Qed.

(** Printing and parsing back. *)
Lemma parseMAC_format m : length m = 6%nat -> bytes_ok m -> parseMAC (formatMAC m) = Val m.
Proof.
  intros Hlen Hok. do 6 (destruct m as [|? m]; [done|]). destruct m; [|done]. inv_Forall.
  unfold parseMAC, ParseMAC. rewrite formatMAC_length. cbn [Nat.ltb Nat.leb].
  unfold formatMAC. cbn [nth].
  match goal with |- context [nth 2 ?l 0] => change (nth 2 l 0) with 58 end.
  cbn [Z.eqb Pos.eqb orb]. change ((17 + 1) / 3)%nat with 6%nat.
  change (negb ((17 + 1) mod 3 =? 0)%nat || negb (hw_length_ok 6)) with false. cbv beta iota zeta.
  by rewrite !parse_pairs_cons, parse_pairs_last by done.
Qed.

Lemma formatMAC_inj m1 m2 :
  length m1 = 6%nat -> bytes_ok m1 -> length m2 = 6%nat -> bytes_ok m2 ->
  formatMAC m1 = formatMAC m2 -> m1 = m2.
Proof.
  intros. enough (Val (E := mac_error) m1 = Val m2) as [= ->] by done.
  rewrite <- (parseMAC_format m1), <- (parseMAC_format m2) by done. congruence.
Qed.

(** ** Properties *)

(** C40. Every address printed in a neighbour listing is accepted by the
    session code and denotes the same six bytes; in particular distinct
    addresses print differently. *)
Theorem parseMAC_formatMAC m :
  length m = 6%nat -> bytes_ok m -> parseMAC (formatMAC m) = Val m.
Proof. apply parseMAC_format. Qed.

Lemma parseMAC_formatMAC_witness :
  parseMAC (formatMAC [0x4c; 0x5e; 0x0c; 0; 0xab; 0xff]) = Val [0x4c; 0x5e; 0x0c; 0; 0xab; 0xff].
Proof.
  apply (parseMAC_formatMAC [0x4c; 0x5e; 0x0c; 0; 0xab; 0xff]); [reflexivity|].
  repeat constructor; discriminate.
Defined.

(** The dotted and hyphenated notations, an EUI-64 address and a bare
    string. *)
Example parseMAC_dots :
  parseMAC (bytes_of_string "4c5e.0c00.abff") = Val [0x4c; 0x5e; 0x0c; 0; 0xab; 0xff].
Proof. reflexivity. Qed.
Example parseMAC_hyphens :
  parseMAC (bytes_of_string "4C-5E-0C-00-AB-FF") = Val [0x4c; 0x5e; 0x0c; 0; 0xab; 0xff].
Proof. reflexivity. Qed.
Example parseMAC_eui64 :
  parseMAC (bytes_of_string "02:00:5e:10:00:00:00:01") = Fail (errMACLength 8).
Proof. reflexivity. Qed.
Example parseMAC_bare : parseMAC (bytes_of_string "4c5e0c00abff") = Fail errParseMAC.
Proof. reflexivity. Qed.
