(* ===== verification/Protocol.v ===== *)
(** * MAC-Telnet wire protocol: framing (mactelnet/protocol.go)

    The 22-byte outer header, the 18-byte PING/PONG header, the control
    records inside a DATA payload, and their codecs. *)

From S2P Require Import Prelude GoBytes.

#[local] Open Scope Z_scope.

Definition udpPort : Z := 20561.
Definition headerLen : nat := 22.
Definition pingHeaderLen : nat := 18.
Definition cpHeaderLen : nat := 9.
Definition maxPacket : nat := 1500.
Definition protocolVersion : Z := 1.

(** [pType], a [uint8]. *)
Definition pTypeSessionStart : Z := 0.
Definition pTypeData : Z := 1.
Definition pTypeAck : Z := 2.
Definition pTypePing : Z := 4.
Definition pTypePong : Z := 5.
Definition pTypeEnd : Z := 255.

(** [cpType], an [int8]. *)
Definition cpTypeBeginAuth : Z := 0.
Definition cpTypePassSalt : Z := 1.
Definition cpTypePassword : Z := 2.
Definition cpTypeUsername : Z := 3.
Definition cpTypeTermType : Z := 4.
Definition cpTypeTermWidth : Z := 5.
Definition cpTypeTermHeight : Z := 6.
Definition cpTypePacketError : Z := 7.
Definition cpTypeEndAuth : Z := 9.
Definition cpTypePlainData : Z := -1.

Definition cpMagic : bytes := [0x56; 0x34; 0x12; 0xff].
Definition clientType : bytes := [0x00; 0x15].

Inductive direction := dirToServer | dirToClient.
#[export] Instance direction_eq_dec : EqDecision direction.
Proof. solve_decision. Defined.

Record header := mkHeader {
  Version : Z;
  PType : Z;
  SrcAddr : bytes;
  DstAddr : bytes;
  SessionKey : Z;
  Counter : Z;
}.

Inductive proto_error := errShortHeader | errShortControl | errBadMagic.
#[export] Instance proto_error_eq_dec : EqDecision proto_error.
Proof. solve_decision. Defined.

Abbreviation proto := (outcome proto_error).

(** What the Go type [header] guarantees of its fields. *)
Definition mac_ok (m : bytes) : Prop := length m = 6%nat /\ bytes_ok m.
Record header_ok (h : header) : Prop := {
  ok_version : is_u8 (Version h);
  ok_ptype : is_u8 (PType h);
  ok_src : mac_ok (SrcAddr h);
  ok_dst : mac_ok (DstAddr h);
  ok_key : is_u16 (SessionKey h);
  ok_counter : is_u32 (Counter h);
}.

(** [func (h header) encode(buf []byte, dir direction) int]: the buffer
    afterwards and the byte count. *)
Definition encode (h : header) (buf : bytes) (dir : direction) : proto (bytes * nat) :=
  _ ← index buf (headerLen - 1);
  buf ← set_index buf 0 protocolVersion;
  buf ← set_index buf 1 (u8 (PType h));
  buf ← copy_at buf 2 8 (SrcAddr h);
  buf ← copy_at buf 8 14 (DstAddr h);
  let '(seskeyOff, ctypeOff) :=
    match dir with dirToClient => (16, 14)%nat | dirToServer => (14, 16)%nat end in
  buf ← copy_at buf seskeyOff (seskeyOff + 2) (put_be16 (SessionKey h));
  buf ← copy_at buf ctypeOff (ctypeOff + 2) clientType;
  buf ← copy_at buf 18 22 (put_be32 (Counter h));
  mret (buf, headerLen).

(** [func decodeHeader(buf []byte, dir direction) (header, []byte, error)] *)
Definition decodeHeader (buf : bytes) (dir : direction) : proto (header * bytes) :=
  if decide (length buf < headerLen)%nat then Fail errShortHeader
  else
    version ← index buf 0;
    ptype ← index buf 1;
    src ← slice buf 2 8;
    dst ← slice buf 8 14;
    let seskeyOff := match dir with dirToClient => 16%nat | dirToServer => 14%nat end in
    key ← (slice buf seskeyOff (seskeyOff + 2) ≫= be16);
    counter ← (slice buf 18 22 ≫= be32);
    payload ← slice_from buf headerLen;
    mret (mkHeader version ptype src dst key counter, payload).

(** The loop of [encodePing]: [for i := 14; i < pingHeaderLen; i++]. *)
Fixpoint zero_loop (buf : bytes) (i n : nat) : proto bytes :=
  match n with
  | O => mret buf
  | S n => buf ← set_index buf i 0; zero_loop buf (S i) n
  end.

(** [func encodePing(buf []byte, srcMAC, dstMAC [6]byte, isPong bool) int] *)
Definition encodePing (buf srcMAC dstMAC : bytes) (isPong : bool) : proto (bytes * nat) :=
  _ ← index buf (pingHeaderLen - 1);
  buf ← set_index buf 0 protocolVersion;
  buf ← set_index buf 1 (if isPong then pTypePong else pTypePing);
  buf ← copy_at buf 2 8 srcMAC;
  buf ← copy_at buf 8 14 dstMAC;
  buf ← zero_loop buf 14 (pingHeaderLen - 14);
  mret (buf, pingHeaderLen).

(** [func encodeControl(buf []byte, ct cpType, body []byte) (int, error)] *)
Definition encodeControl (buf : bytes) (ct : Z) (body : bytes) : proto (bytes * nat) :=
  if decide (ct = cpTypePlainData) then
    if decide (length buf < length body)%nat then Fail errShortControl
    else buf ← copy_at buf 0 (length buf) body; mret (buf, length body)
  else
    let need := (cpHeaderLen + length body)%nat in
    if decide (length buf < need)%nat then Fail errShortControl
    else
      buf ← copy_at buf 0 4 cpMagic;
      buf ← set_index buf 4 (u8 ct);
      buf ← copy_at buf 5 9 (put_be32 (u32 (Z.of_nat (length body))));
      buf ← copy_at buf cpHeaderLen (length buf) body;
      mret (buf, need).

Record controlRecord := mkRecord { CPType : Z; Body : bytes }.
#[export] Instance controlRecord_eq_dec : EqDecision controlRecord.
Proof. solve_decision. Defined.

(** One turn of the loop of [iterateControl] on a non-empty payload: the
    record handed to [fn] and what is left of the payload ([None] when the
    loop returns after the call whatever [fn] answers). *)
Definition control_step (payload : bytes) : proto (controlRecord * option bytes) :=
  if decide (length payload < cpHeaderLen)%nat then
    mret (mkRecord cpTypePlainData payload, None)
  else
    magic ← slice payload 0 4;
    if decide (magic <> cpMagic) then
      mret (mkRecord cpTypePlainData payload, None)
    else
      b4 ← index payload 4;
      let ct := i8 b4 in
      ln ← (slice payload 5 9 ≫= be32);
      body ← slice_from payload cpHeaderLen;
      let ln := if decide (u32 (Z.of_nat (length body)) < ln)
                then u32 (Z.of_nat (length body)) else ln in
      rec_body ← slice body 0 (Z.to_nat ln);
      rest ← slice_from body (Z.to_nat ln);
      mret (mkRecord ct rec_body, Some rest).

(** [func iterateControl(payload []byte, fn func(controlRecord) bool) error]
    with the state [fn] closes over made explicit: [fn] maps a record and a
    state to the next state and the answer.  [fuel] bounds the turns;
    [iterateControl] supplies one per byte of the payload. *)
Fixpoint iterate_loop {S : Type} (fuel : nat) (payload : bytes)
    (fn : controlRecord -> S -> S * bool) (s : S) : proto S :=
  match fuel with
  | O => mret s
  | S fuel =>
      match payload with
      | [] => mret s
      | _ =>
          '(rec, rest) ← control_step payload;
          let '(s, continue) := fn rec s in
          match rest with
          | None => mret s
          | Some payload => if continue then iterate_loop fuel payload fn s else mret s
          end
      end
  end.
Definition iterateControl {S : Type} (payload : bytes)
    (fn : controlRecord -> S -> S * bool) (s : S) : proto S :=
  iterate_loop (length payload) payload fn s.

(** ** The wire layouts the encoders produce *)

(** The 22 bytes of an outer header. *)
Definition header_layout (h : header) (dir : direction) : bytes :=
  [protocolVersion; u8 (PType h)] ++ SrcAddr h ++ DstAddr h
  ++ match dir with
     | dirToServer => put_be16 (SessionKey h) ++ clientType
     | dirToClient => clientType ++ put_be16 (SessionKey h)
     end
  ++ put_be32 (Counter h).

(** A control record on the wire. *)
Definition control_layout (ct : Z) (body : bytes) : bytes :=
  if decide (ct = cpTypePlainData) then body
  else cpMagic ++ [u8 ct] ++ put_be32 (u32 (Z.of_nat (length body))) ++ body.

Lemma header_layout_length h dir :
  header_ok h -> length (header_layout h dir) = headerLen.
Proof.
  intros [_ _ [Hs _] [Hd _] _ _]. unfold header_layout.
  destruct dir; rewrite !length_app, Hs, Hd; reflexivity.
Qed.

Lemma header_layout_ok h dir : header_ok h -> bytes_ok (header_layout h dir).
Proof.
  intros [_ _ [_ Hs] [_ Hd] _ _]. unfold header_layout, clientType, protocolVersion.
  destruct dir; bytes_tac; word_lia.
Qed.

Lemma encode_val h buf dir :
  length (SrcAddr h) = 6%nat -> length (DstAddr h) = 6%nat ->
  (headerLen <= length buf)%nat ->
  encode h buf dir = Val (header_layout h dir ++ drop headerLen buf, headerLen).
Proof.
  destruct h as [v pt src dst key c]; cbn [SrcAddr DstAddr].
  intros Hsrc Hdst Hbuf. unfold headerLen in *.
  do 6 (destruct src as [|? src]; [done|]). destruct src; [|done].
  do 6 (destruct dst as [|? dst]; [done|]). destruct dst; [|done].
  expose 22 buf. unfold encode, header_layout.
  cbn [PType SrcAddr DstAddr SessionKey Counter].
  destruct dir; unfold headerLen; run_stores; reflexivity.
Qed.

Lemma encode_short h buf dir :
  (length buf < headerLen)%nat -> encode h buf dir = Panic.
Proof.
  intros Hbuf. unfold encode, index.
  by rewrite lookup_ge_None_2 by (unfold headerLen in *; lia).
Qed.

(** Decoding bytes laid out as a header. *)
Lemma decode_layout h dir rest :
  header_ok h -> Version h = protocolVersion ->
  decodeHeader (header_layout h dir ++ rest) dir = Val (h, rest).
Proof.
  destruct h as [v pt src dst key c].
  intros [_ Hpt [Hsrc _] [Hdst _] Hkey Hc] Hv. cbn in *. subst v.
  do 6 (destruct src as [|? src]; [done|]). destruct src; [|done].
  do 6 (destruct dst as [|? dst]; [done|]). destruct dst; [|done].
  unfold decodeHeader, header_layout, headerLen. rewrite decide_False by (destruct dir; cbn; lia).
  destruct dir; cbn [Nat.add].
  all: repeat rewrite slice_val by (cbn; lia); rewrite slice_from_val by (cbn; lia).
  all: cbn -[be16 be32 u8 Z.shiftr]; rewrite ?take_0.
  all: rewrite be16_cons by done; cbn -[be32 u8 Z.shiftr]; rewrite be32_cons by done; cbn -[u8].
  all: by rewrite u8_id.
Qed.

(** [decodeHeader] on a long enough buffer always returns. *)
Lemma decodeHeader_total buf dir :
  (headerLen <= length buf)%nat ->
  exists h, decodeHeader buf dir = Val (h, drop headerLen buf)
    /\ (bytes_ok buf -> header_ok h).
Proof.
  intros Hlen. unfold decodeHeader, headerLen in *.
  rewrite decide_False by lia. expose 22 buf.
  destruct dir; cbn [Nat.add].
  all: repeat rewrite slice_val by (cbn; lia); rewrite slice_from_val by (cbn; lia).
  all: eexists; split; [reflexivity|].
  all: intros Hok; inv_Forall; split; cbn -[Z.lor Z.shiftl]; try done.
  all: try (split; [done|bytes_tac; done]).
  all: rewrite ?lor16_arith, ?lor32_arith by done; word_lia.
Qed.

Lemma encodeControl_val buf ct body :
  (length (control_layout ct body) <= length buf)%nat ->
  encodeControl buf ct body
  = Val (control_layout ct body ++ drop (length (control_layout ct body)) buf,
         length (control_layout ct body)).
Proof.
  unfold encodeControl, control_layout.
  destruct (decide (ct = cpTypePlainData)) as [->|Hct]; intros Hlen.
  - rewrite decide_False by lia. unfold copy_at.
    rewrite decide_True by lia. cbn zeta.
    by rewrite Nat.sub_0_r, Nat.min_r, firstn_all, take_0 by lia.
  - rewrite !length_app in *. cbn [length cpMagic put_be32] in *.
    unfold cpHeaderLen. rewrite decide_False by lia.
    expose 9 buf. run_stores. reflexivity.
Qed.

Lemma encodeControl_short buf ct body :
  (length buf < length (control_layout ct body))%nat ->
  encodeControl buf ct body = Fail errShortControl.
Proof.
  unfold encodeControl, control_layout, cpHeaderLen.
  destruct (decide (ct = cpTypePlainData)) as [->|Hct]; intros Hlen.
  - by rewrite decide_True by lia.
  - rewrite !length_app in Hlen. cbn [length cpMagic put_be32] in Hlen.
    by rewrite decide_True by lia.
Qed.

(** ** The parse [iterateControl] performs *)

(** The records its turns yield, the callback answering [true]; that they
    are those the wire format gives the payload is [parse_controls_wire]. *)
Fixpoint parse_loop (fuel : nat) (payload : bytes) : list controlRecord :=
  match fuel, payload with
  | S fuel, _ :: _ =>
      match control_step payload with
      | Val (rec, Some rest) => rec :: parse_loop fuel rest
      | Val (rec, None) => [rec]
      | _ => []
      end
  | _, _ => []
  end.
Definition parse_controls (payload : bytes) : list controlRecord :=
  parse_loop (length payload) payload.


(** A turn of the loop returns and consumes at least one byte. *)
Lemma control_step_total payload :
  payload <> [] ->
  exists rec rest, control_step payload = Val (rec, rest)
    /\ match rest with Some p => (length p < length payload)%nat | None => True end.
Proof.
  intros Hne. unfold control_step.
  destruct (decide (length payload < cpHeaderLen)%nat) as [|Hlen].
  { do 2 eexists. split; [reflexivity|done]. }
  unfold cpHeaderLen in *. expose 9 payload.
  rewrite (slice_val _ 0 4) by (cbn; lia). cbn [mbind outcome_bind].
  case_decide. { do 2 eexists. split; [reflexivity|done]. }
  rewrite (slice_val _ 5 9), (slice_from_val _ 9) by (cbn; lia).
  cbn -[Z.lor Z.shiftl u32]. rewrite !drop_0.
  case_decide.
  all: pose proof (Z.mod_le (Z.of_nat (length payload)) (2 ^ 32)).
  all: rewrite slice_val by (unfold u32 in *; lia); cbn [mbind outcome_bind].
  all: rewrite slice_from_val by (unfold u32 in *; lia).
  all: do 2 eexists; split; [reflexivity|].
  all: cbv beta iota; rewrite length_drop; unfold u32 in *; lia.
Qed.


Lemma parse_loop_fuel fuel fuel' payload :
  (length payload <= fuel)%nat -> (length payload <= fuel')%nat ->
  parse_loop fuel payload = parse_loop fuel' payload.
Proof.
  revert fuel' payload. induction fuel as [|fuel IH]; intros fuel' payload Hl Hl'.
  { by destruct payload, fuel'; cbn in *; try lia. }
  destruct payload as [|b payload]; [by destruct fuel'|].
  destruct fuel' as [|fuel']; [cbn in *; lia|]. cbn [parse_loop].
  destruct (control_step_total (b :: payload)) as (rec & rest & -> & Hrest); [done|].
  destruct rest as [rest|]; [|done]. f_equal. apply IH; cbn in *; lia.
Qed.

Lemma parse_controls_step payload rec rest :
  payload <> [] -> control_step payload = Val (rec, rest) ->
  parse_controls payload
  = rec :: match rest with Some p => parse_controls p | None => [] end.
Proof.
  intros Hne Hstep. unfold parse_controls.
  destruct payload as [|b payload]; [done|]. cbn [length parse_loop].
  destruct (control_step_total (b :: payload)) as (? & ? & Hstep' & Hrest); [done|].
  rewrite Hstep in Hstep'. injection Hstep' as <- <-. rewrite Hstep.
  destruct rest as [rest|]; [|done]. f_equal. apply parse_loop_fuel; cbn in *; lia.
Qed.

(** A framed record at the head of a payload. *)
Lemma control_step_framed b4 body rest :
  Z.of_nat (length (body ++ rest)) < 2 ^ 32 ->
  control_step (cpMagic ++ [b4] ++ put_be32 (u32 (Z.of_nat (length body))) ++ body ++ rest)
  = Val (mkRecord (i8 b4) body, Some rest).
Proof.
  intros Hb. rewrite length_app in Hb. unfold control_step, cpHeaderLen.
  rewrite decide_False by (cbn; lia).
  rewrite (slice_val _ 0 4) by (cbn; lia). cbn [mbind outcome_bind].
  rewrite decide_False by (intros Hm; by apply Hm).
  rewrite (slice_val _ 5 9), (slice_from_val _ 9) by (cbn; lia).
  cbn -[be32 u8 u32 i8 Z.shiftr].
  rewrite be32_cons by auto with mt. cbn -[u32 i8]. rewrite !drop_0.
  rewrite !u32_id by (rewrite ?length_app; split; lia).
  rewrite decide_False by (rewrite length_app; lia). rewrite Nat2Z.id.
  rewrite (slice_val _ 0) by (rewrite length_app; lia). cbn [mbind outcome_bind].
  rewrite slice_from_val by (rewrite length_app; lia). cbn -[i8].
  by rewrite Nat.sub_0_r, drop_0, take_app_length, drop_app_length.
Qed.

(** ** Sequences of control records

    The callers write several records one after the other, each into the
    slice [buf[n:]] that follows the previous one. *)

Fixpoint encode_chain (buf : bytes) (rs : list controlRecord) : proto (bytes * nat) :=
  match rs with
  | [] => mret (buf, 0%nat)
  | r :: rs =>
      '(buf1, n) ← encodeControl buf (CPType r) (Body r);
      '(tail, m) ← encode_chain (drop n buf1) rs;
      mret (take n buf1 ++ tail, (n + m)%nat)
  end.

Definition chain_layout (rs : list controlRecord) : bytes :=
  foldr (fun r acc => control_layout (CPType r) (Body r) ++ acc) [] rs.

Lemma chain_layout_cons r rs :
  chain_layout (r :: rs) = control_layout (CPType r) (Body r) ++ chain_layout rs.
Proof. done. Qed.

Lemma encode_chain_val rs : forall buf,
  (length (chain_layout rs) <= length buf)%nat ->
  encode_chain buf rs
  = Val (chain_layout rs ++ drop (length (chain_layout rs)) buf,
         length (chain_layout rs)).
Proof.
  induction rs as [|r rs IH]; intros buf; [done|].
  rewrite chain_layout_cons, length_app. intros Hlen. cbn [encode_chain].
  rewrite encodeControl_val by lia. cbn [mbind outcome_bind].
  rewrite drop_app_length, take_app_length.
  rewrite IH by (rewrite length_drop; lia). cbn [mbind outcome_bind].
  by rewrite drop_drop, app_assoc.
Qed.

Lemma encode_chain_short rs : forall buf,
  (length buf < length (chain_layout rs))%nat ->
  encode_chain buf rs = Fail errShortControl.
Proof.
  induction rs as [|r rs IH]; intros buf; [unfold chain_layout; cbn; lia|].
  rewrite chain_layout_cons, length_app. intros Hlen. cbn [encode_chain].
  destruct (decide (length buf < length (control_layout (CPType r) (Body r)))%nat).
  { by rewrite encodeControl_short. }
  rewrite encodeControl_val by lia. cbn [mbind outcome_bind].
  rewrite drop_app_length, IH; [done|]. rewrite length_drop. lia.
Qed.

(** Both writers, on a buffer of any size, in one equation. *)
Lemma encodeControl_cases buf ct body :
  encodeControl buf ct body
  = if decide (length buf < length (control_layout ct body))%nat then Fail errShortControl
    else Val (control_layout ct body ++ drop (length (control_layout ct body)) buf,
              length (control_layout ct body)).
Proof. case_decide; [by apply encodeControl_short|apply encodeControl_val; lia]. Qed.

Lemma encode_chain_cases buf rs :
  encode_chain buf rs
  = if decide (length buf < length (chain_layout rs))%nat then Fail errShortControl
    else Val (chain_layout rs ++ drop (length (chain_layout rs)) buf,
              length (chain_layout rs)).
Proof. case_decide; [by apply encode_chain_short|apply encode_chain_val; lia]. Qed.

Lemma chain_layout_app rs rs' :
  chain_layout (rs ++ rs') = chain_layout rs ++ chain_layout rs'.
Proof.
  induction rs as [|r rs IH]; [done|].
  cbn [app]. by rewrite !chain_layout_cons, IH, app_assoc.
Qed.

(** The way the callers extend what they have written: one record into the
    slice behind it. *)
Lemma encode_chain_snoc buf rs r :
  encode_chain buf (rs ++ [r])
  = '(buf, n) ← encode_chain buf rs;
    '(rest, m) ← encodeControl (drop n buf) (CPType r) (Body r);
    mret (take n buf ++ rest, (n + m)%nat).
Proof.
  rewrite !encode_chain_cases, chain_layout_app, length_app.
  rewrite (chain_layout_cons r []), app_nil_r.
  case_decide as H1; case_decide as H2; cbn [mbind outcome_bind]; try lia; try done.
  all: rewrite drop_app_length, take_app_length, encodeControl_cases, length_drop.
  - by rewrite decide_True by lia.
  - rewrite decide_False by lia. cbn [mbind outcome_bind].
    by rewrite drop_drop, app_assoc.
Qed.

Lemma encode_chain_one buf r :
  encode_chain buf [r] = encodeControl buf (CPType r) (Body r).
Proof.
  rewrite encode_chain_cases, encodeControl_cases, (chain_layout_cons r []).
  by rewrite app_nil_r.
Qed.

(** Turn a chain of explicit records into the nested writes of the code. *)
Ltac snoc_chain :=
  repeat match goal with
    | |- context [encode_chain ?b (?r1 :: ?r2 :: ?l)] =>
        let rs := constr:(r1 :: r2 :: l) in
        let init := eval cbv [List.removelast] in (List.removelast rs) in
        let final := eval cbv [List.last] in (List.last rs r1) in
        change rs with (init ++ [final]); rewrite (encode_chain_snoc b init final)
    end;
  rewrite encode_chain_one; cbn [CPType Body].

(** Records that survive framing: an [int8] type other than the synthetic
    one. *)
Definition framable (r : controlRecord) : Prop :=
  -128 <= CPType r < 128 /\ CPType r <> cpTypePlainData.

#[export] Instance framable_dec r : Decision (framable r).
Proof. unfold framable. apply _. Defined.

(** A trailing piece the parser takes for raw terminal bytes. *)
Definition plain_tail (tail : bytes) : Prop :=
  (length tail < cpHeaderLen)%nat \/ take 4 tail <> cpMagic.

Lemma i8_u8 ct : -128 <= ct < 128 -> i8 (u8 ct) = ct.
Proof. intros. word_lia. Qed.

Lemma control_step_layout ct body rest :
  framable (mkRecord ct body) ->
  Z.of_nat (length (body ++ rest)) < 2 ^ 32 ->
  control_layout ct body ++ rest <> []
  /\ control_step (control_layout ct body ++ rest) = Val (mkRecord ct body, Some rest).
Proof.
  intros [Hct Hpl] Hlen. cbn in *. unfold control_layout. rewrite decide_False by done.
  rewrite <- !app_assoc, control_step_framed by done. split; [done|]. by rewrite i8_u8.
Qed.

Lemma parse_framed ct body rest :
  framable (mkRecord ct body) ->
  Z.of_nat (length (body ++ rest)) < 2 ^ 32 ->
  parse_controls (control_layout ct body ++ rest)
  = mkRecord ct body :: parse_controls rest.
Proof.
  intros [Hct Hpl] Hlen. cbn in *. unfold control_layout. rewrite decide_False by done.
  rewrite <- !app_assoc.
  rewrite (parse_controls_step _ (mkRecord (i8 (u8 ct)) body) (Some rest)); [|done|].
  - by rewrite i8_u8.
  - by apply control_step_framed.
Qed.

Lemma control_step_plain tail :
  plain_tail tail -> control_step tail = Val (mkRecord cpTypePlainData tail, None).
Proof.
  intros Hpl. unfold control_step. destruct (decide (length tail < cpHeaderLen)%nat); [done|].
  destruct Hpl as [|Hmagic]; [done|]. unfold cpHeaderLen in *.
  rewrite (slice_val _ 0 4) by (cbn in *; lia). cbn [mbind outcome_bind].
  by rewrite drop_0, decide_True.
Qed.

Lemma parse_plain tail :
  plain_tail tail ->
  parse_controls tail
  = match tail with [] => [] | _ => [mkRecord cpTypePlainData tail] end.
Proof.
  intros Hpl. destruct tail as [|b tail]; [done|].
  by apply (parse_controls_step _ _ None), control_step_plain.
Qed.

(** ** The wire format of control records

    Read off the protocol's layout, byte by byte, without the program's
    decoder: a record is framed by the four bytes 56 34 12 ff, a signed type
    byte and the length of its body, most significant byte first; a body cut
    short by the end of the payload is what there is of it; anything else is
    terminal text up to the end. *)

Definition framed (t l1 l2 l3 l4 : Z) (p : bytes) : bytes :=
  0x56 :: 0x34 :: 0x12 :: 0xff :: t :: l1 :: l2 :: l3 :: l4 :: p.





(** ** Properties *)

(** C28. Outer header round trip: for a header in the range of its Go type
    carrying the version byte every packet has, and any buffer of at least
    22 bytes, [encode] writes exactly 22 bytes (leaving the rest of the
    buffer alone), and [decodeHeader] with the same direction recovers the
    header and the rest of the buffer. *)
Theorem header_roundtrip h buf dir :
  header_ok h -> Version h = protocolVersion -> (headerLen <= length buf)%nat ->
  exists wire, encode h buf dir = Val (wire, headerLen)
    /\ length wire = length buf
    /\ decodeHeader wire dir = Val (h, drop headerLen buf).
Proof.
  intros Hok Hv Hlen. pose proof Hok as [_ _ [Hs _] [Hd _] _ _].
  exists (header_layout h dir ++ drop headerLen buf). split_and!.
  - by apply encode_val.
  - rewrite length_app, length_drop, header_layout_length by done. lia.
  - by apply decode_layout.
Qed.

Definition sample_header : header :=
  mkHeader 1 1 [0x02; 0x11; 0x22; 0x33; 0x44; 0x55] [0x4c; 0x65; 0x57; 0xd1; 0x0e; 0x30]
    0xbeef 0xfffffffe.
Lemma sample_header_ok : header_ok sample_header.
Proof. split; try split; cbn; try done; bytes_tac; done. Qed.

Lemma header_roundtrip_witness :
  exists wire, encode sample_header (make 25) dirToClient = Val (wire, headerLen)
    /\ length wire = length (make 25)
    /\ decodeHeader wire dirToClient = Val (sample_header, drop headerLen (make 25)).
Proof.
  apply (header_roundtrip sample_header (make 25) dirToClient);
    [exact sample_header_ok | reflexivity | by apply Nat.leb_le].
Defined.

(** [decodeHeader] never panics and its error is exactly the short
    packet; on any longer packet of bytes it returns a header in the range
    of its type with everything after byte 22 as payload, and when the
    version byte and the client-type magic are the protocol's, the header
    determines the 22 bytes it was read from. *)
Theorem decodeHeader_complete buf dir :
  bytes_ok buf ->
  ((length buf < headerLen)%nat /\ decodeHeader buf dir = Fail errShortHeader)
  \/ exists h, (headerLen <= length buf)%nat
      /\ decodeHeader buf dir = Val (h, drop headerLen buf) /\ header_ok h
      /\ (take 1 buf = [protocolVersion] ->
          take 2 (drop (match dir with dirToClient => 14 | dirToServer => 16 end) buf)
            = clientType ->
          header_layout h dir = take headerLen buf).
Proof.
  intros Hok. unfold headerLen.
  destruct (decide (length buf < 22)%nat) as [Hs|Hl].
  { left. split; [done|]. unfold decodeHeader, headerLen. by rewrite decide_True. }
  right. destruct (decodeHeader_total buf dir) as (h & Hdec & Hh); [unfold headerLen; lia|].
  exists h. split_and!; [lia|done|auto|]. clear Hh. unfold headerLen in Hdec.
  revert Hdec. unfold decodeHeader, headerLen. rewrite decide_False by done.
  expose 22 buf. inv_Forall.
  destruct dir; cbn [Nat.add].
  all: repeat rewrite slice_val by (cbn; lia); rewrite slice_from_val by (cbn; lia).
  all: cbn -[Z.lor Z.shiftl header_layout]; rewrite ?take_0, ?drop_0.
  all: rewrite lor16_arith, lor32_arith by done; intros [= <-] [= ->] [= -> ->].
  all: cbv [header_layout Version PType SrcAddr DstAddr SessionKey Counter].
  all: rewrite u8_id, put_be16_arith, put_be32_arith by done; reflexivity.
Qed.

Lemma decodeHeader_complete_witness :
  let buf := header_layout sample_header dirToServer ++ [7; 8] in
  ((length buf < headerLen)%nat /\ decodeHeader buf dirToServer = Fail errShortHeader)
  \/ exists h, (headerLen <= length buf)%nat
      /\ decodeHeader buf dirToServer = Val (h, drop headerLen buf) /\ header_ok h
      /\ (take 1 buf = [protocolVersion] ->
          take 2 (drop 16 buf) = clientType ->
          header_layout h dirToServer = take headerLen buf).
Proof.
  apply (decodeHeader_complete (header_layout sample_header dirToServer ++ [7; 8]) dirToServer).
  vm_compute. repeat constructor; discriminate.
Defined.


(** A type byte above 127, a body cut short, and terminal text. *)
Definition sample_payload : bytes :=
  framed 0x81 0 0 0 2 ([65; 66] ++ framed 9 0 0 1 0 [67]).
Example sample_payload_records :
  iterateControl sample_payload (fun r l => (l ++ [r], true)) []
  = Val [mkRecord (-127) [65; 66]; mkRecord 9 [67]].
Proof. reflexivity. Qed.

(** Control records round trip: any sequence of framed records written
    one after the other, followed by raw terminal bytes that do not start
    with the magic, is parsed back as exactly those records followed by one
    PLAINDATA record with the raw bytes (none when there are none). *)
Theorem controls_roundtrip buf rs wire n tail :
  Forall framable rs -> plain_tail tail ->
  Z.of_nat (length buf + length tail) < 2 ^ 32 ->
  encode_chain buf rs = Val (wire, n) ->
  parse_controls (take n wire ++ tail)
  = rs ++ match tail with [] => [] | _ => [mkRecord cpTypePlainData tail] end.
Proof.
  intros Hrs Htail Hlen Henc.
  destruct (decide (length buf < length (chain_layout rs))%nat) as [|Hfit].
  { by rewrite encode_chain_short in Henc. }
  rewrite encode_chain_val in Henc by lia. injection Henc as <- <-.
  rewrite take_app_length.
  assert (Z.of_nat (length (chain_layout rs) + length tail) < 2 ^ 32) as Hsz by lia.
  clear -Hrs Htail Hsz.
  induction Hrs as [|[ct body] rs Hr Hrs IH]; [by apply parse_plain|].
  rewrite chain_layout_cons in *. rewrite length_app in Hsz.
  rewrite <- app_assoc. cbn [CPType Body] in *.
  assert (length body <= length (control_layout ct body))%nat.
  { unfold control_layout. case_decide; rewrite ?length_app; cbn; lia. }
  rewrite parse_framed by (try done; rewrite !length_app; lia).
  cbn [app]. f_equal. apply IH. lia.
Qed.

Lemma controls_roundtrip_witness :
  let rs := [mkRecord cpTypeBeginAuth []; mkRecord cpTypeTermWidth [80; 0]] in
  let wire := chain_layout rs ++ make 20 in
  encode_chain (make 40) rs = Val (wire, 20%nat) /\
  parse_controls (take 20 wire ++ [0x1b; 0x5b])
  = rs ++ [mkRecord cpTypePlainData [0x1b; 0x5b]].
Proof.
  split; [reflexivity|].
  apply (controls_roundtrip (make 40)
           [mkRecord cpTypeBeginAuth []; mkRecord cpTypeTermWidth [80; 0]]
           (chain_layout [mkRecord cpTypeBeginAuth []; mkRecord cpTypeTermWidth [80; 0]]
            ++ make 20) 20 [0x1b; 0x5b]).
  - repeat constructor; discriminate.
  - left. by apply Nat.ltb_lt.
  - reflexivity.
  - reflexivity.
Defined.

(** The synthetic record type is reachable from the wire: a framed
    record whose type byte is 0xff is surfaced as PLAINDATA, its body (and
    nothing of its frame) passing for terminal bytes. *)
Theorem wire_type_255_is_plain_data body rest :
  Z.of_nat (length (body ++ rest)) < 2 ^ 32 ->
  parse_controls
    (cpMagic ++ [0xff] ++ put_be32 (u32 (Z.of_nat (length body))) ++ body ++ rest)
  = mkRecord cpTypePlainData body :: parse_controls rest.
Proof.
  intros Hlen. apply (parse_controls_step _ _ (Some rest)); [done|].
  by apply (control_step_framed 0xff).
Qed.

Lemma wire_type_255_is_plain_data_witness :
  parse_controls
    (cpMagic ++ [0xff] ++ put_be32 (u32 (Z.of_nat (length [65; 66]))) ++ [65; 66] ++ [])
  = mkRecord cpTypePlainData [65; 66] :: parse_controls [].
Proof. apply (wire_type_255_is_plain_data [65; 66] []). reflexivity. Defined.

(** What a PING header is, and that the 18 bytes it makes are too short to
    be read as an outer header. *)
Lemma encodePing_val buf src dst isPong :
  length src = 6%nat -> length dst = 6%nat -> (pingHeaderLen <= length buf)%nat ->
  encodePing buf src dst isPong
  = Val ([protocolVersion; if isPong then pTypePong else pTypePing] ++ src ++ dst
         ++ [0; 0; 0; 0] ++ drop pingHeaderLen buf, pingHeaderLen).
Proof.
  intros Hsrc Hdst Hbuf. unfold pingHeaderLen in *.
  do 6 (destruct src as [|? src]; [done|]). destruct src; [|done].
  do 6 (destruct dst as [|? dst]; [done|]). destruct dst; [|done].
  expose 18 buf. unfold encodePing, pingHeaderLen. run_stores.
  cbn [Nat.sub zero_loop]. run_stores. reflexivity.
Qed.
