(* ===== verification/Seq.v ===== *)
(** * Sequencing and retransmission (mactelnet/seq.go)

    The retransmit schedules and the byte-offset counters of the
    stop-and-wait layer. *)

From S2P Require Import Prelude.

#[local] Open Scope Z_scope.

(** ** Retransmit schedules

    [time.Duration] is an [int64] count of nanoseconds. *)

Definition Millisecond : Z := 1000000.
Definition Second : Z := 1000 * Millisecond.

Definition upstreamRamp : list Z :=
  [15 * Millisecond; 20 * Millisecond; 30 * Millisecond; 50 * Millisecond;
   90 * Millisecond; 170 * Millisecond; 330 * Millisecond; 660 * Millisecond;
   1000 * Millisecond].

(** [for _, iv := range upstreamRamp { if sum+iv > budget { break } ... }] *)
Fixpoint ramp_loop (ramp : list Z) (budget : Z) (out : list Z) (sum : Z) : list Z * Z :=
  match ramp with
  | [] => (out, sum)
  | iv :: ramp =>
      if budget <? i64 (sum + iv) then (out, sum)
      else ramp_loop ramp budget (out ++ [iv]) (i64 (sum + iv))
  end.

(** [for sum+time.Second <= budget { ... }]; [None] when [fuel] turns were
    not enough. *)
Fixpoint pad_loop (fuel : nat) (budget : Z) (out : list Z) (sum : Z) : option (list Z * Z) :=
  match fuel with
  | O => None
  | S fuel =>
      if i64 (sum + Second) <=? budget
      then pad_loop fuel budget (out ++ [Second]) (i64 (sum + Second))
      else Some (out, sum)
  end.

(** [func buildRetransmitSchedule(budget time.Duration) []time.Duration] *)
Definition buildRetransmitSchedule (fuel : nat) (budget : Z) : option (list Z) :=
  if budget <=? 0 then Some upstreamRamp
  else
    let '(out, sum) := ramp_loop upstreamRamp budget [] 0 in
    '(out, sum) ← pad_loop fuel budget out sum;
    let rem := i64 (budget - sum) in
    Some (if 0 <? rem then out ++ [rem] else out).

(** The package variables [authSchedule] and [dataSchedule], and
    [Configure].  [None] when a schedule's construction does not end within
    [fuel]. *)
Record schedules := mkSchedules { authSchedule : list Z; dataSchedule : list Z }.

Definition Configure (fuel : nat) (authBudget dataBudget : Z) : option schedules :=
  a ← buildRetransmitSchedule fuel authBudget;
  d ← buildRetransmitSchedule fuel dataBudget;
  Some (mkSchedules a d).

(** One turn per second of budget, and one to leave the loop. *)
Definition pad_fuel (budget : Z) : nat := S (Z.to_nat (budget / Second)).

Definition default_schedules : option schedules :=
  Configure (pad_fuel (10 * Second)) (10 * Second) 0.

(** ** Counters *)

Record counters := mkCounters { out : Z; in_ : Z; inSeen : bool }.
#[export] Instance counters_eq_dec : EqDecision counters.
Proof. solve_decision. Defined.

Definition init_counters : counters := mkCounters 0 0 false.

Record counters_ok (c : counters) : Prop := {
  ok_out : is_u32 (out c);
  ok_in : is_u32 (in_ c);
}.

(** [func (c *counters) reserveOut(n uint32) uint32] *)
Definition reserveOut (c : counters) (n : Z) : counters * Z :=
  (mkCounters (u32 (out c + n)) (in_ c) (inSeen c), out c).

(** [func (c *counters) acceptIncoming(seq uint32) bool] *)
Definition acceptIncoming (c : counters) (seq : Z) : counters * bool :=
  if negb (inSeen c) then (mkCounters (out c) seq true, true)
  else if in_ c <? seq then (mkCounters (out c) seq (inSeen c), true)
  else if 65535 <? u32 (in_ c - seq) then (mkCounters (out c) seq (inSeen c), true)
  else (c, false).

(** [func ackCounterFor(inboundSeq uint32, payloadLen uint32) uint32] *)
Definition ackCounterFor (inboundSeq payloadLen : Z) : Z := u32 (inboundSeq + payloadLen).

(** ** Lemmas: schedules *)

Ltac dur_lia := unfold is_i64, Second, Millisecond in *; word_lia.

Fixpoint sumZ (l : list Z) : Z := match l with [] => 0 | x :: l => x + sumZ l end.

Lemma sumZ_app l k : sumZ (l ++ k) = sumZ l + sumZ k.
Proof. induction l as [|x l IH]; cbn in *; lia. Qed.

Definition interval_ok (d : Z) : Prop := 0 < d <= Second.

Lemma ramp_loop_spec ramp budget : forall out0 sum,
  Forall interval_ok ramp -> Forall interval_ok out0 -> sumZ out0 = sum ->
  0 <= sum <= budget -> budget < 2 ^ 63 - Second ->
  let '(out1, sum1) := ramp_loop ramp budget out0 sum in
  Forall interval_ok out1 /\ sumZ out1 = sum1 /\ sum <= sum1 <= budget
  /\ exists k, out1 = out0 ++ take k ramp.
Proof.
  induction ramp as [|iv ramp IH]; intros out0 sum Hramp Hout Hsum Hb Hmax; cbn [ramp_loop].
  { split_and!; try lia; [done..|]. exists 0%nat. by rewrite app_nil_r. }
  apply Forall_cons_1 in Hramp as [[Hiv Hiv'] Hramp].
  rewrite i64_id by dur_lia.
  destruct (Z.ltb_spec budget (sum + iv)).
  { split_and!; try lia; [done..|]. exists 0%nat. by rewrite app_nil_r. }
  specialize (IH (out0 ++ [iv]) (sum + iv)).
  destruct (ramp_loop ramp budget (out0 ++ [iv]) (sum + iv)) as [out1 sum1].
  destruct IH as (H1 & H2 & H3 & k & H4); try done; try lia.
  - apply Forall_app_2; [done|]. repeat constructor; lia.
  - rewrite sumZ_app. cbn. lia.
  - split_and!; try done; try lia. exists (S k). rewrite H4. cbn. by rewrite <- app_assoc.
Qed.

Lemma pad_loop_spec budget : forall fuel out0 sum,
  0 <= sum <= budget -> budget < 2 ^ 63 - Second ->
  budget - sum < Z.of_nat fuel * Second ->
  exists k, pad_loop fuel budget out0 sum
            = Some (out0 ++ replicate k Second, sum + Z.of_nat k * Second)
    /\ sum + Z.of_nat k * Second <= budget < sum + Z.of_nat k * Second + Second.
Proof.
  induction fuel as [|fuel IH]; intros out0 sum Hs Hmax Hfuel; [lia|].
  cbn [pad_loop]. rewrite i64_id by dur_lia.
  destruct (Z.leb_spec (sum + Second) budget).
  - destruct (IH (out0 ++ [Second]) (sum + Second)) as (k & -> & Hk);
      [unfold Second, Millisecond in *; lia|done|lia|].
    exists (S k). split; [|lia]. rewrite <- app_assoc. cbn [replicate app].
    do 2 f_equal. lia.
  - exists 0%nat. cbn. rewrite app_nil_r. split; [do 2 f_equal; lia|lia].
Qed.

Lemma sumZ_replicate k x : sumZ (replicate k x) = Z.of_nat k * x.
Proof. induction k as [|k IH]; [done|]. cbn [replicate sumZ]. lia. Qed.

Lemma upstreamRamp_ok : Forall interval_ok upstreamRamp.
Proof. unfold interval_ok. repeat constructor; vm_compute; discriminate. Qed.

Lemma buildRetransmitSchedule_fits fuel budget :
  0 < budget < 2 ^ 63 - Second -> (pad_fuel budget <= fuel)%nat ->
  exists sched, buildRetransmitSchedule fuel budget = Some sched
    /\ sumZ sched = budget /\ Forall interval_ok sched
    /\ exists k j tail, sched = take k upstreamRamp ++ replicate j Second ++ tail
         /\ (length tail <= 1)%nat.
Proof.
  intros Hb Hfuel. unfold buildRetransmitSchedule.
  destruct (Z.leb_spec budget 0); [lia|].
  pose proof (ramp_loop_spec upstreamRamp budget [] 0 upstreamRamp_ok) as Hramp.
  destruct (ramp_loop upstreamRamp budget [] 0) as [out1 sum1].
  destruct Hramp as (Hout & Hsum & Hle & k & Hk); [by constructor|done|lia|lia|].
  destruct (pad_loop_spec budget fuel out1 sum1) as (j & -> & Hj); [lia|lia| |].
  { unfold pad_fuel, Second, Millisecond in *.
    Z.to_euclidean_division_equations. lia. }
  cbn [mbind option_bind]. rewrite i64_id by dur_lia.
  assert (Forall interval_ok (replicate j Second)) as Hrep.
  { apply Forall_replicate. split; [done|lia]. }
  destruct (Z.ltb_spec 0 (budget - (sum1 + Z.of_nat j * Second))).
  - eexists. split; [reflexivity|]. split_and!.
    + rewrite !sumZ_app, sumZ_replicate. cbn. lia.
    + repeat apply Forall_app_2; [done..|]. repeat constructor; lia.
    + exists k, j, [budget - (sum1 + Z.of_nat j * Second)].
      rewrite Hk. cbn. split; [by rewrite <- app_assoc|lia].
  - eexists. split; [reflexivity|]. split_and!.
    + rewrite !sumZ_app, sumZ_replicate. lia.
    + by apply Forall_app_2.
    + exists k, j, []. rewrite Hk, app_nil_r. cbn. split; [done|lia].
Qed.

(** ** Lemmas: counters *)

Lemma acceptIncoming_true c seq :
  inSeen c = true ->
  snd (acceptIncoming c seq) = true <-> in_ c < seq \/ 65535 < u32 (in_ c - seq).
Proof.
  unfold acceptIncoming. intros ->. cbn [negb].
  destruct (Z.ltb_spec (in_ c) seq); [cbn; naive_solver|].
  destruct (Z.ltb_spec 65535 (u32 (in_ c - seq))); cbn; naive_solver lia.
Qed.

Lemma acceptIncoming_state c seq :
  fst (acceptIncoming c seq)
  = if snd (acceptIncoming c seq) then mkCounters (out c) seq true else c.
Proof.
  unfold acceptIncoming. destruct c as [o i []]; cbn [negb inSeen in_ out]; [|done].
  repeat case_match; done.
Qed.

Lemma acceptIncoming_ok c seq :
  counters_ok c -> is_u32 seq -> counters_ok (fst (acceptIncoming c seq)).
Proof.
  intros [Ho Hi] Hs. rewrite acceptIncoming_state.
  destruct (snd _); by split.
Qed.
Lemma reserveOut_ok c n : counters_ok c -> counters_ok (fst (reserveOut c n)).
Proof. intros [Ho Hi]. split; cbn; auto with mt. Qed.
#[export] Hint Resolve acceptIncoming_ok reserveOut_ok : mt.

(** ** The inbound stream

    The peer is a stop-and-wait sender: chunk [i] of its stream carries the
    byte offset of its first byte, and a chunk is first sent once the one
    before it is acknowledged.  The network may deliver any packet again. *)

Section Inbound.
Context (base : Z) (chunks : list bytes).

(** Byte offset of chunk [i] in the peer's stream (unbounded), and its
    wire counter. *)
Definition offset (i : nat) : Z := base + Z.of_nat (length (mjoin (take i chunks))).
Definition wire_seq (i : nat) : Z := u32 (offset i).

(** [arrivals m l m']: with the first [m] chunks already received, packets
    [l] (by chunk index) arrive and leave the first [m'] received.  An
    arrival is the next chunk, or a repeat of a chunk no more than 65535
    bytes behind the newest one and on the same side of a 2^32 wrap. *)
Inductive arrivals : nat -> list nat -> nat -> Prop :=
| arrivals_nil m : arrivals m [] m
| arrivals_new m l m' :
    (m < length chunks)%nat -> arrivals (S m) l m' -> arrivals m (m :: l) m'
| arrivals_again m i l m' :
    (i < m)%nat -> offset (m - 1) - offset i <= 65535 ->
    offset (m - 1) / 2 ^ 32 = offset i / 2 ^ 32 ->
    arrivals m l m' -> arrivals m (i :: l) m'.

(** What [processInboundData] keeps of a sequence of DATA packets. *)
Fixpoint deliver (c : counters) (l : list nat) : counters * list bytes :=
  match l with
  | [] => (c, [])
  | i :: l =>
      let '(c, accepted) := acceptIncoming c (wire_seq i) in
      let '(c, ds) := deliver c l in
      (c, if accepted then chunks !!! i :: ds else ds)
  end.

Context (Hbase : 0 <= base).
Context (Hchunks : Forall (fun p => 0 < Z.of_nat (length p) <= 65535) chunks).

Lemma offset_S i :
  (i < length chunks)%nat ->
  offset (S i) = offset i + Z.of_nat (length (chunks !!! i)).
Proof.
  intros Hi. unfold offset.
  rewrite (take_S_r _ _ (chunks !!! i)) by (by apply list_lookup_lookup_total_lt).
  rewrite join_app, length_app. cbn. rewrite app_nil_r. lia.
Qed.

Lemma chunk_size i : (i < length chunks)%nat ->
  0 < Z.of_nat (length (chunks !!! i)) <= 65535.
Proof.
  intros Hi. apply (Forall_lookup_1 _ _ i _ Hchunks).
  by apply list_lookup_lookup_total_lt.
Qed.

Lemma offset_mono i j :
  (i <= j <= length chunks)%nat -> 0 <= offset i <= offset j.
Proof.
  intros [Hij Hj]. split; [unfold offset; lia|].
  induction Hij as [|j Hij IH]; [lia|].
  rewrite offset_S by lia. pose proof (chunk_size j). lia.
Qed.

(** The receiver's state once the first [m] chunks are in. *)
Definition received (m : nat) (c : counters) : Prop :=
  (m <= length chunks)%nat
  /\ match m with O => inSeen c = false | S m => inSeen c = true /\ in_ c = wire_seq m end.

Lemma accept_next m c :
  received m c -> (m < length chunks)%nat ->
  snd (acceptIncoming c (wire_seq m)) = true
  /\ received (S m) (fst (acceptIncoming c (wire_seq m))).
Proof.
  intros [_ Hc] Hm.
  assert (snd (acceptIncoming c (wire_seq m)) = true) as Hacc.
  { destruct m as [|m].
    - unfold acceptIncoming. by rewrite Hc.
    - destruct Hc as [Hseen Hin]. apply acceptIncoming_true; [done|].
      rewrite Hin. unfold wire_seq. rewrite offset_S by lia.
      pose proof (chunk_size m). word_lia. }
  split; [done|]. rewrite acceptIncoming_state, Hacc. split; [lia|done].
Qed.

Lemma drop_again m i c :
  received m c -> (i < m)%nat -> offset (m - 1) - offset i <= 65535 ->
  offset (m - 1) / 2 ^ 32 = offset i / 2 ^ 32 ->
  acceptIncoming c (wire_seq i) = (c, false).
Proof.
  intros [Hm Hc] Hi Hwin Hwrap. destruct m as [|m]; [lia|].
  replace (S m - 1)%nat with m in * by lia. destruct Hc as [Hseen Hin].
  pose proof (offset_mono i m). unfold acceptIncoming. rewrite Hseen, Hin. cbn [negb].
  unfold wire_seq. rewrite (proj2 (Z.ltb_ge _ _)) by word_lia.
  by rewrite (proj2 (Z.ltb_ge _ _)) by word_lia.
Qed.

Lemma deliver_arrivals m l m' :
  arrivals m l m' -> forall c, received m c ->
  received m' (fst (deliver c l))
  /\ take m chunks ++ snd (deliver c l) = take m' chunks.
Proof.
  induction 1 as [m|m l m' Hm Harr IH|m i l m' Hi Hwin Hwrap Harr IH]; intros c Hc; cbn [deliver].
  - split; [done|]. apply app_nil_r.
  - destruct (accept_next m c Hc Hm) as [Hacc Hrec].
    destruct (acceptIncoming c (wire_seq m)) as [c' ok]. cbn in Hacc, Hrec. subst ok.
    destruct (IH c' Hrec) as [IH1 IH2]. destruct (deliver c' l) as [c'' ds]. cbn in *.
    split; [done|]. rewrite <- IH2.
    rewrite (take_S_r _ _ (chunks !!! m)) by (by apply list_lookup_lookup_total_lt).
    by rewrite <- app_assoc.
  - rewrite (drop_again m i c) by done.
    destruct (IH c Hc) as [IH1 IH2]. by destruct (deliver c l) as [c'' ds].
Qed.
End Inbound.

(** ** Properties *)

(** C38. Retransmit schedules for every sane budget: a budget of zero or less
    gives the upstream ramp; otherwise (up to a second short of the int64
    range) the construction ends, the intervals sum exactly to the budget,
    each is positive and at most one second, and they are a prefix of the
    ramp, then one-second entries, then at most one remainder. *)
Theorem buildRetransmitSchedule_budget budget :
  budget < 2 ^ 63 - Second ->
  exists sched, buildRetransmitSchedule (pad_fuel budget) budget = Some sched
    /\ Forall interval_ok sched /\ sched <> []
    /\ sumZ sched = (if budget <=? 0 then sumZ upstreamRamp else budget)
    /\ exists k j tail, sched = take k upstreamRamp ++ replicate j Second ++ tail
         /\ (length tail <= 1)%nat.
Proof.
  intros Hmax. destruct (Z.leb_spec budget 0).
  - exists upstreamRamp. unfold buildRetransmitSchedule.
    rewrite (proj2 (Z.leb_le _ _)) by done. split_and!; try done.
    + exact upstreamRamp_ok.
    + exists 9%nat, 0%nat, []. split; [done|cbn; lia].
  - destruct (buildRetransmitSchedule_fits (pad_fuel budget) budget)
      as (sched & H1 & H2 & H3 & H4); [lia|done|].
    exists sched. split_and!; try done. intros ->. cbn in H2. lia.
Qed.

Lemma buildRetransmitSchedule_budget_witness :
  exists sched, buildRetransmitSchedule (pad_fuel (100 * Millisecond)) (100 * Millisecond) = Some sched
    /\ Forall interval_ok sched /\ sched <> []
    /\ sumZ sched = (if 100 * Millisecond <=? 0 then sumZ upstreamRamp else 100 * Millisecond)
    /\ exists k j tail, sched = take k upstreamRamp ++ replicate j Second ++ tail
         /\ (length tail <= 1)%nat.
Proof. apply (buildRetransmitSchedule_budget (100 * Millisecond)). reflexivity. Defined.

(** The padding loop wraps at the top of the int64 range: for the
    largest duration the schedule's construction never ends, whatever the
    number of turns. *)
Theorem buildRetransmitSchedule_diverges fuel :
  buildRetransmitSchedule fuel (2 ^ 63 - 1) = None.
Proof.
  unfold buildRetransmitSchedule.
  replace (2 ^ 63 - 1 <=? 0) with false by reflexivity.
  destruct (ramp_loop upstreamRamp (2 ^ 63 - 1) [] 0) as [out0 sum0].
  assert (forall fuel out sum, pad_loop fuel (2 ^ 63 - 1) out sum = None) as Hnone.
  { clear. induction fuel as [|fuel IH]; intros out sum; [done|]. cbn [pad_loop].
    rewrite (proj2 (Z.leb_le _ _)); [apply IH|].
    pose proof (i64_range (sum + Second)). unfold is_i64 in *. lia. }
  by rewrite Hnone.
Qed.

(** C13. Inbound DATA is taken exactly once and in order: whatever repeats of
    already received packets arrive among the new ones (within the 65535-byte
    window and not across a counter wrap), for a peer whose chunks hold
    between 1 and 65535 bytes, on a session of any length (the 32-bit
    counter wrapping as it goes), the payloads accepted are the first
    chunks of the peer's stream, in order, each once. *)
Theorem inbound_exactly_once base chunks l m :
  0 <= base ->
  Forall (fun p => 0 < Z.of_nat (length p) <= 65535) chunks ->
  arrivals base chunks 0 l m ->
  snd (deliver base chunks init_counters l) = take m chunks.
Proof.
  intros Hbase Hchunks Harr.
  destruct (deliver_arrivals base chunks Hbase Hchunks 0 l m Harr init_counters)
    as [_ <-]; [|by rewrite take_0].
  split; [lia|done].
Qed.

(** Three packets whose counters wrap, the middle one delivered twice. *)
Lemma inbound_exactly_once_witness :
  let base := 2 ^ 32 - 3 in
  let chunks := [[1; 2]; [3; 4]; [5]] in
  snd (deliver base chunks init_counters [0; 0; 1; 2; 2]%nat) = chunks.
Proof.
  apply (inbound_exactly_once (2 ^ 32 - 3) [[1; 2]; [3; 4]; [5]] [0; 0; 1; 2; 2]%nat 3).
  - discriminate.
  - repeat constructor; discriminate.
  - apply arrivals_new; [by apply Nat.ltb_lt|].
    apply arrivals_again; [by apply Nat.ltb_lt|discriminate|reflexivity|].
    apply arrivals_new; [by apply Nat.ltb_lt|].
    apply arrivals_new; [by apply Nat.ltb_lt|].
    apply arrivals_again; [by apply Nat.ltb_lt|discriminate|reflexivity|].
    apply arrivals_nil.
Defined.

(** The window does not protect across the wrap of the counter: a
    retransmitted packet that is at most 65535 bytes behind the newest one,
    but was sent before the 32-bit counter wrapped, is accepted as new and
    moves the high-water mark back to it. *)
Theorem stale_across_wrap_accepted c d :
  counters_ok c -> inSeen c = true -> 0 < d <= 65535 -> in_ c < d ->
  u32 (in_ c - u32 (in_ c - d)) = d
  /\ acceptIncoming c (u32 (in_ c - d)) = (mkCounters (out c) (u32 (in_ c - d)) true, true).
Proof.
  intros [_ Hin] Hseen Hd Hlt. split; [word_lia|].
  unfold acceptIncoming. rewrite Hseen. cbn [negb].
  by rewrite (proj2 (Z.ltb_lt _ _)) by word_lia.
Qed.

Lemma stale_across_wrap_accepted_witness :
  u32 (10 - u32 (10 - 26)) = 26
  /\ acceptIncoming (mkCounters 0 10 true) 0xfffffff0 = (mkCounters 0 0xfffffff0 true, true).
Proof.
  apply (stale_across_wrap_accepted (mkCounters 0 10 true) 26);
    [split; split; (discriminate || reflexivity)|reflexivity|split;(discriminate || reflexivity)|reflexivity].
Defined.

(** Outgoing bookkeeping: the counter a DATA packet carries plus its
    length is both the ACK the sender waits for and the counter the next
    packet will carry, for any number of reservations and across wraps; the
    receive side is untouched. *)
Theorem reserveOut_ack c n m :
  counters_ok c -> 0 <= n ->
  let '(c1, seq1) := reserveOut c n in
  let '(c2, seq2) := reserveOut c1 m in
  seq1 = out c /\ seq2 = ackCounterFor seq1 n /\ out c1 = ackCounterFor seq1 n
  /\ in_ c2 = in_ c /\ inSeen c2 = inSeen c /\ counters_ok c2.
Proof.
  intros Hc Hn. cbn. split_and!; try done.
  split; cbn; [auto with mt|]. by destruct Hc.
Qed.

Lemma reserveOut_ack_witness :
  let '(c1, seq1) := reserveOut (mkCounters 0xfffffffe 0 false) 5 in
  let '(c2, seq2) := reserveOut c1 9 in
  seq1 = 0xfffffffe /\ seq2 = ackCounterFor seq1 5 /\ out c1 = ackCounterFor seq1 5
  /\ in_ c2 = 0 /\ inSeen c2 = false /\ counters_ok c2.
Proof.
  apply (reserveOut_ack (mkCounters 0xfffffffe 0 false) 5 9);
    [split; split; (discriminate || reflexivity)|discriminate].
Defined.
