(* ===== verification/GoHash.v ===== *)
(** * crypto/md5 and crypto/sha256

    The two hashes of Go's standard library the authentication code calls,
    as executable functions on byte lists (RFC 1321 and FIPS 180-4), with
    the facts the program relies on: digest lengths and byte ranges.  The
    published test vectors are checked below. *)

From S2P Require Import Prelude GoBytes.

#[local] Open Scope Z_scope.

(** ** Words *)

Definition add32 (x y : Z) : Z := u32 (x + y).
Definition not32 (x : Z) : Z := Z.lxor x 0xffffffff.
Definition rotl (n x : Z) : Z := u32 (Z.lor (Z.shiftl x n) (Z.shiftr x (32 - n))).
Definition rotr (n x : Z) : Z := rotl (32 - n) x.

Definition be_word (b : bytes) : Z := foldl (fun acc x => acc * 256 + x) 0 b.
Definition le_word (b : bytes) : Z := be_word (rev b).

(** The message followed by 0x80, zeros up to 56 modulo 64, and the bit
    length in eight bytes. *)
Definition pad_message (len_bytes : Z -> bytes) (msg : bytes) : bytes :=
  let n := Z.of_nat (length msg) in
  msg ++ [0x80] ++ replicate (Z.to_nat ((55 - n) mod 64)) 0 ++ len_bytes (n * 8).

Definition be64 (v : Z) : bytes := put_be32 (u32 (Z.shiftr v 32)) ++ put_be32 (u32 v).
Definition le64 (v : Z) : bytes := rev (be64 v).

(** Consecutive pieces of [k] bytes, [n] of them. *)
Fixpoint chunk (k n : nat) (b : bytes) : list bytes :=
  match n with
  | O => []
  | S n => take k b :: chunk k n (drop k b)
  end.

(** ** SHA-256 *)

Module Sha256.
(** FIPS 180-4 derives its constants from the primes: the first 32 bits of
    the fractional parts of their cube roots (round constants) and square
    roots (initial state). *)
Definition primes : list Z :=
  [2; 3; 5; 7; 11; 13; 17; 19; 23; 29; 31; 37; 41; 43; 47; 53; 59; 61; 67; 71; 73; 79; 83;
   89; 97; 101; 103; 107; 109; 113; 127; 131; 137; 139; 149; 151; 157; 163; 167; 173; 179;
   181; 191; 193; 197; 199; 211; 223; 227; 229; 233; 239; 241; 251; 257; 263; 269; 271; 277;
   281; 283; 293; 307; 311].

(** The integer cube root, a bit at a time from bit [n - 1] down. *)
Fixpoint cbrt (n : nat) (acc x : Z) : Z :=
  match n with
  | O => acc
  | S n =>
      let c := acc + 2 ^ Z.of_nat n in
      cbrt n (if c * c * c <=? x then c else acc) x
  end.

Definition K : list Z :=
  Eval vm_compute in (fun p => u32 (cbrt 36 0 (p * 2 ^ 96))) <$> primes.

Record regs := mkRegs { ra : Z; rb : Z; rc : Z; rd : Z; re : Z; rf : Z; rg : Z; rh : Z }.

Definition init : regs :=
  Eval vm_compute in
    let h i := u32 (Z.sqrt (nth i primes 0 * 2 ^ 64)) in
    mkRegs (h 0%nat) (h 1%nat) (h 2%nat) (h 3%nat)
      (h 4%nat) (h 5%nat) (h 6%nat) (h 7%nat).

Definition Sigma0 x := Z.lxor (rotr 2 x) (Z.lxor (rotr 13 x) (rotr 22 x)).
Definition Sigma1 x := Z.lxor (rotr 6 x) (Z.lxor (rotr 11 x) (rotr 25 x)).
Definition sigma0 x := Z.lxor (rotr 7 x) (Z.lxor (rotr 18 x) (Z.shiftr x 3)).
Definition sigma1 x := Z.lxor (rotr 17 x) (Z.lxor (rotr 19 x) (Z.shiftr x 10)).
Definition Ch x y z := Z.lxor (Z.land x y) (Z.land (not32 x) z).
Definition Maj x y z := Z.lxor (Z.land x y) (Z.lxor (Z.land x z) (Z.land y z)).

(** One more schedule word from the last sixteen (newest first). *)
Definition next_word (w : list Z) : Z :=
  add32 (add32 (sigma1 (nth 1 w 0)) (nth 6 w 0))
        (add32 (sigma0 (nth 14 w 0)) (nth 15 w 0)).

Definition round (r : regs) (k w : Z) : regs :=
  let t1 := add32 (add32 (rh r) (Sigma1 (re r)))
              (add32 (Ch (re r) (rf r) (rg r)) (add32 k w)) in
  let t2 := add32 (Sigma0 (ra r)) (Maj (ra r) (rb r) (rc r)) in
  mkRegs (add32 t1 t2) (ra r) (rb r) (rc r) (add32 (rd r) t1) (re r) (rf r) (rg r).

Fixpoint rounds (ks block w : list Z) (r : regs) : regs :=
  match ks with
  | [] => r
  | k :: ks =>
      let '(x, block) := match block with
                         | x :: block => (x, block)
                         | [] => (next_word w, [])
                         end in
      rounds ks block (x :: w) (round r k x)
  end.

Definition compress (r : regs) (block : bytes) : regs :=
  let s := rounds K (be_word <$> chunk 4 16 block) [] r in
  mkRegs (add32 (ra r) (ra s)) (add32 (rb r) (rb s)) (add32 (rc r) (rc s)) (add32 (rd r) (rd s))
         (add32 (re r) (re s)) (add32 (rf r) (rf s)) (add32 (rg r) (rg s)) (add32 (rh r) (rh s)).

Definition digest (r : regs) : bytes :=
  put_be32 (ra r) ++ put_be32 (rb r) ++ put_be32 (rc r) ++ put_be32 (rd r)
  ++ put_be32 (re r) ++ put_be32 (rf r) ++ put_be32 (rg r) ++ put_be32 (rh r).
End Sha256.

(** [sha256.Sum256(msg)], and [h.Sum(nil)] after writing [msg] in any
    number of pieces. *)
Definition sha256 (msg : bytes) : bytes :=
  let m := pad_message be64 msg in
  Sha256.digest (foldl Sha256.compress Sha256.init (chunk 64 (length m / 64) m)).

(** ** MD5 *)

Module Md5.
Definition K : list Z :=
  [0xd76aa478; 0xe8c7b756; 0x242070db; 0xc1bdceee; 0xf57c0faf; 0x4787c62a; 0xa8304613; 0xfd469501;
   0x698098d8; 0x8b44f7af; 0xffff5bb1; 0x895cd7be; 0x6b901122; 0xfd987193; 0xa679438e; 0x49b40821;
   0xf61e2562; 0xc040b340; 0x265e5a51; 0xe9b6c7aa; 0xd62f105d; 0x02441453; 0xd8a1e681; 0xe7d3fbc8;
   0x21e1cde6; 0xc33707d6; 0xf4d50d87; 0x455a14ed; 0xa9e3e905; 0xfcefa3f8; 0x676f02d9; 0x8d2a4c8a;
   0xfffa3942; 0x8771f681; 0x6d9d6122; 0xfde5380c; 0xa4beea44; 0x4bdecfa9; 0xf6bb4b60; 0xbebfbc70;
   0x289b7ec6; 0xeaa127fa; 0xd4ef3085; 0x04881d05; 0xd9d4d039; 0xe6db99e5; 0x1fa27cf8; 0xc4ac5665;
   0xf4292244; 0x432aff97; 0xab9423a7; 0xfc93a039; 0x655b59c3; 0x8f0ccc92; 0xffeff47d; 0x85845dd1;
   0x6fa87e4f; 0xfe2ce6e0; 0xa3014314; 0x4e0811a1; 0xf7537e82; 0xbd3af235; 0x2ad7d2bb; 0xeb86d391].

Definition shifts (i : nat) : Z :=
  let row := match (i / 16)%nat with
             | O => [7; 12; 17; 22] | 1%nat => [5; 9; 14; 20]
             | 2%nat => [4; 11; 16; 23] | _ => [6; 10; 15; 21] end in
  nth (i mod 4) row 0.

Record regs := mkRegs { ra : Z; rb : Z; rc : Z; rd : Z }.
Definition init : regs := mkRegs 0x67452301 0xefcdab89 0x98badcfe 0x10325476.

Definition step (block : list Z) (r : regs) (ik : nat * Z) : regs :=
  let '(i, k) := ik in
  let '(b, c, d) := (rb r, rc r, rd r) in
  let '(f, g) := match (i / 16)%nat with
    | O => (Z.lor (Z.land b c) (Z.land (not32 b) d), i)
    | 1%nat => (Z.lor (Z.land d b) (Z.land (not32 d) c), (5 * i + 1) mod 16)%nat
    | 2%nat => (Z.lxor b (Z.lxor c d), (3 * i + 5) mod 16)%nat
    | _ => (Z.lxor c (Z.lor b (not32 d)), (7 * i) mod 16)%nat
    end in
  let t := add32 (add32 f (ra r)) (add32 k (nth g block 0)) in
  mkRegs d (add32 b (rotl (shifts i) t)) b c.

Definition compress (r : regs) (block : bytes) : regs :=
  let s := foldl (step (le_word <$> chunk 4 16 block)) r (zip (seq 0 64) K) in
  mkRegs (add32 (ra r) (ra s)) (add32 (rb r) (rb s)) (add32 (rc r) (rc s)) (add32 (rd r) (rd s)).

Definition digest (r : regs) : bytes :=
  put_le32 (ra r) ++ put_le32 (rb r) ++ put_le32 (rc r) ++ put_le32 (rd r).
End Md5.

(** [md5.New()], the writes, and [Sum(nil)]. *)
Definition md5 (msg : bytes) : bytes :=
  let m := pad_message le64 msg in
  Md5.digest (foldl Md5.compress Md5.init (chunk 64 (length m / 64) m)).

(** ** What the callers use *)

Lemma sha256_length msg : length (sha256 msg) = 32%nat.
Proof. reflexivity. Qed.
Lemma md5_length msg : length (md5 msg) = 16%nat.
Proof. reflexivity. Qed.
Lemma sha256_ok msg : bytes_ok (sha256 msg).
Proof. unfold sha256, Sha256.digest. bytes_tac. Qed.
Lemma md5_ok msg : bytes_ok (md5 msg).
Proof. unfold md5, Md5.digest. bytes_tac. Qed.
#[export] Hint Resolve sha256_ok md5_ok : mt.

(** ** Test vectors *)

Example sha256_empty :
  be_word (sha256 []) = 0xe3b0c44298fc1c149afbf4c8996fb92427ae41e4649b934ca495991b7852b855.
Proof. vm_compute. reflexivity. Qed.
Example sha256_abc :
  be_word (sha256 (bytes_of_string "abc"))
  = 0xba7816bf8f01cfea414140de5dae2223b00361a396177a9cb410ff61f20015ad.
Proof. vm_compute. reflexivity. Qed.
Example sha256_two_blocks :
  be_word (sha256 (bytes_of_string "abcdbcdecdefdefgefghfghighijhijkijkljklmklmnlmnomnopnopq"))
  = 0x248d6a61d20638b8e5c026930c3e6039a33ce45964ff2167f6ecedd419db06c1.
Proof. vm_compute. reflexivity. Qed.
Example md5_empty : be_word (md5 []) = 0xd41d8cd98f00b204e9800998ecf8427e.
Proof. vm_compute. reflexivity. Qed.
Example md5_abc : be_word (md5 (bytes_of_string "abc")) = 0x900150983cd24fb0d6963f7d28e17f72.
Proof. vm_compute. reflexivity. Qed.
Example md5_two_blocks :
  be_word (md5 (bytes_of_string
    "12345678901234567890123456789012345678901234567890123456789012345678901234567890"))
  = 0x57edf4a22be3c955ac49da2e2107b67a.
Proof. vm_compute. reflexivity. Qed.
