(* ===== verification/BigInt.v ===== *)
(** * math/big

    The arbitrary-precision operations the EC-SRP code uses, on [Z]: modular
    inverse, exponentiation and square root, and conversion from and to
    big-endian bytes; and congruence modulo a number as a setoid, in which
    the arithmetic proofs rewrite. *)

From S2P Require Import Prelude GoBytes GoHash.
From Stdlib Require Import Zcong Znumtheory.
From Stdlib Require ZmodInv.

#[local] Open Scope Z_scope.

(** ** The operations *)

(** [new(big.Int).ModInverse(g, n)]: nil when [g] and [n] are not coprime. *)
Definition ModInverse (g n : Z) : option Z :=
  if Z.gcd g n =? 1 then Some (Z.invmod g n) else None.

(** Modular exponentiation by squaring, the exponent's bits from the
    lowest. *)
Fixpoint pow_mod_pos (x : Z) (e : positive) (n : Z) : Z :=
  match e with
  | xH => x mod n
  | xO e => pow_mod_pos ((x * x) mod n) e n
  | xI e => (x * pow_mod_pos ((x * x) mod n) e n) mod n
  end.
Definition Exp (x e n : Z) : Z :=
  match e with Zpos e => pow_mod_pos (x mod n) e n | _ => 1 mod n end.

(** [Jacobi(x, p)] for an odd prime [p], where it is the Legendre symbol. *)
Definition Jacobi (x p : Z) : Z :=
  if x mod p =? 0 then 0 else if Exp x ((p - 1) / 2) p =? 1 then 1 else -1.

(** [ModSqrt] for a prime [p] = 5 mod 8, the branch 2^255 - 19 takes. *)
Definition modSqrt5Mod8Prime (x p : Z) : Z :=
  let e := Z.shiftr p 3 in
  let tx := Z.shiftl x 1 in
  let alpha := Exp tx e p in
  let beta := (alpha * alpha) mod p in
  let beta := (beta * tx) mod p in
  let beta := beta - 1 in
  let beta := (beta * x) mod p in
  (beta * alpha) mod p.
Definition ModSqrt (x p : Z) : option Z :=
  let j := Jacobi x p in
  if j =? -1 then None
  else if j =? 0 then Some 0
  else Some (modSqrt5Mod8Prime (x mod p) p).

(** [x.SetBytes(b)], [x.BitLen()] and [x.Bit(i)] of a non-negative [x]. *)
Definition SetBytes (b : bytes) : Z := be_word b.
Definition BitLen (x : Z) : nat := Z.to_nat (if x =? 0 then 0 else Z.log2 x + 1).
Definition Bit (x : Z) (i : nat) : Z := Z.b2z (Z.testbit x (Z.of_nat i)).

(** The big-endian digits of [x] on [n] bytes. *)
Fixpoint be_digits (n : nat) (x : Z) : bytes :=
  match n with
  | O => []
  | S n => be_digits n (x / 256) ++ [x mod 256]
  end.
(** [x.FillBytes(buf[:n])]: panics when [x] does not fit. *)
Definition FillBytes {E} (n : nat) (x : Z) : outcome E bytes :=
  if decide (Z.abs x < 256 ^ Z.of_nat n) then Val (be_digits n (Z.abs x)) else Panic.

(** ** Congruence modulo [q] *)

Definition eqm (q x y : Z) : Prop := (q | x - y).
Notation "x =[ q ]= y" := (eqm q x y)
  (at level 70, q at level 50, y at next level, format "x  =[ q ]=  y") : Z_scope.

#[export] Instance eqm_equiv q : Equivalence (eqm q).
Proof.
  split.
  - intros x. exists 0. lia.
  - intros x y [k Hk]. exists (- k). lia.
  - intros x y z [k Hk] [l Hl]. exists (k + l). lia.
Qed.
#[export] Instance add_eqm q : Proper (eqm q ==> eqm q ==> eqm q) Z.add.
Proof. intros x x' [k Hk] y y' [l Hl]. exists (k + l). lia. Qed.
#[export] Instance sub_eqm q : Proper (eqm q ==> eqm q ==> eqm q) Z.sub.
Proof. intros x x' [k Hk] y y' [l Hl]. exists (k - l). lia. Qed.
#[export] Instance opp_eqm q : Proper (eqm q ==> eqm q) Z.opp.
Proof. intros x x' [k Hk]. exists (- k). lia. Qed.
#[export] Instance mul_eqm q : Proper (eqm q ==> eqm q ==> eqm q) Z.mul.
Proof.
  intros x x' [k Hk] y y' [l Hl]. exists (k * y + x' * l).
  replace (x * y - x' * y') with ((x - x') * y + x' * (y - y')) by ring.
  rewrite Hk, Hl. ring.
Qed.

Lemma mod_eqm q x : x mod q =[q]= x.
Proof.
  unfold eqm. destruct (Z.eq_dec q 0) as [->|Hq].
  - rewrite Z.mod_0_r. exists 0. lia.
  - exists (- (x / q)). rewrite Z.mod_eq by done. lia.
Qed.

Lemma eqm_mod q x y : 0 < q -> x =[q]= y <-> x mod q = y mod q.
Proof.
  intros Hq. split.
  - intros [k Hk]. replace x with (y + k * q) by lia. by rewrite Z_mod_plus_full.
  - intros Heq. by rewrite <- (mod_eqm q x), Heq, mod_eqm.
Qed.
Lemma eqm_small q x y : 0 <= x < q -> 0 <= y < q -> x =[q]= y -> x = y.
Proof. intros Hx Hy H. apply eqm_mod in H; [|lia]. rewrite !Z.mod_small in H; done. Qed.

(** Multiply a congruence out, or combine several of them linearly. *)
Lemma eqm_lin1 q u x y r s :
  x =[q]= y -> r - s = u * (x - y) -> r =[q]= s.
Proof. unfold eqm. intros [k ->] ->. exists (u * k). ring. Qed.
Lemma eqm_lin2 q u1 x1 y1 u2 x2 y2 r s :
  x1 =[q]= y1 -> x2 =[q]= y2 ->
  r - s = u1 * (x1 - y1) + u2 * (x2 - y2) -> r =[q]= s.
Proof. unfold eqm. intros [k1 ->] [k2 ->] ->. exists (u1 * k1 + u2 * k2). ring. Qed.

(** ** Exponentiation, inverse, square root *)

Lemma pow_mod_pos_spec x e q : pow_mod_pos x e q = x ^ Zpos e mod q.
Proof.
  revert x. induction e as [e IH|e IH|]; intros x; cbn [pow_mod_pos].
  - rewrite IH, Z.mod_pow_l, Zmult_mod_idemp_r.
    f_equal. rewrite Pos2Z.inj_xI, Z.pow_add_r, Z.pow_mul_r, Z.pow_1_r, Z.pow_2_r by lia. ring.
  - by rewrite IH, Z.mod_pow_l, Pos2Z.inj_xO, Z.pow_mul_r, Z.pow_2_r by lia.
  - by rewrite Z.pow_1_r.
Qed.

Lemma Exp_spec x e q : 0 <= e -> Exp x e q = x ^ e mod q.
Proof.
  intros He. destruct e as [|e|e]; [done| |lia]. cbn [Exp].
  by rewrite pow_mod_pos_spec, Z.mod_pow_l.
Qed.

Lemma ModInverse_spec g q i : ModInverse g q = Some i -> i * g =[q]= 1.
Proof.
  unfold ModInverse. destruct (Z.eqb_spec (Z.gcd g q) 1) as [Hg|]; [|done].
  intros [= <-]. rewrite <- (mod_eqm q (_ * g)). by rewrite Z.invmod_ok, Hg, mod_eqm.
Qed.

(** The root computed for [q] = 5 mod 8 squares back, for [2] a non-residue
    and [x] a residue in the sense of Euler's criterion. *)
Lemma modSqrt_algebra q x e :
  0 <= e -> q = 8 * e + 5 ->
  2 ^ (4 * e + 2) =[q]= -1 -> x ^ (4 * e + 2) =[q]= 1 ->
  let y := modSqrt5Mod8Prime x q in y * y =[q]= x.
Proof.
  intros He Hq H2 Hx. cbv zeta. unfold modSqrt5Mod8Prime.
  assert (Z.shiftr q 3 = e) as ->.
  { rewrite Z.shiftr_div_pow2, Hq by lia. change (2 ^ 3) with 8.
    rewrite Z.mul_comm, Z.div_add_l by lia. apply Z.add_0_r. }
  rewrite Z.shiftl_mul_pow2, Z.pow_1_r, Exp_spec by lia.
  assert (((x * 2) ^ e) ^ 4 * (x * 2) ^ 2 =[q]= -1) as Hbeta.
  { rewrite <- Z.pow_mul_r, <- Z.pow_add_r, Z.mul_comm, Z.pow_mul_l by lia.
    replace (e * 4 + 2) with (4 * e + 2) by lia. by rewrite Hx, H2. }
  rewrite !mod_eqm. revert Hbeta. generalize ((x * 2) ^ e). intros A Hbeta.
  apply (eqm_lin1 _ (x * x * A * A - x) _ _ _ _ Hbeta). ring.
Qed.

(** What the square root needs of the modulus; [2 ^ 255 - 19] has it. *)
Record sqrt_modulus (q : Z) : Prop := {
  sm_gt : 2 < q;
  sm_mod8 : q mod 8 = 5;
  sm_two : Exp 2 ((q - 1) / 2) q = q - 1;
}.

Lemma sqrt_modulus_form q : sqrt_modulus q -> exists e, 0 <= e /\ q = 8 * e + 5 /\ (q - 1) / 2 = 4 * e + 2.
Proof.
  intros [Hq H8 _]. exists (q / 8). pose proof (Z.div_mod q 8 ltac:(lia)) as Hd.
  rewrite H8 in Hd. split_and!; [apply Z.div_pos; lia|done|].
  rewrite Hd at 1. replace (8 * (q / 8) + 5 - 1) with ((4 * (q / 8) + 2) * 2) by ring.
  by rewrite Z.div_mul.
Qed.

Lemma ModSqrt_sound q x y :
  sqrt_modulus q -> ModSqrt x q = Some y -> y * y =[q]= x /\ 0 <= y < q.
Proof.
  intros Hq. destruct (sqrt_modulus_form q Hq) as (e & He & Hqe & Hhalf). destruct Hq as [Hgt _ H2].
  unfold ModSqrt, Jacobi. rewrite Hhalf in *.
  destruct (Z.eqb_spec (x mod q) 0) as [H0|H0].
  { intros [= <-]. split; [|lia]. by rewrite <- (mod_eqm q x), H0. }
  destruct (Z.eqb_spec (Exp x (4 * e + 2) q) 1) as [H1|H1]; cbn [Z.eqb]; [|done].
  intros [= <-]. split.
  - rewrite <- (mod_eqm q x) at 3. apply (modSqrt_algebra q (x mod q) e); [lia|done| |].
    + rewrite Exp_spec in H2 by lia. rewrite <- (mod_eqm q (2 ^ _)), H2. exists 1. lia.
    + rewrite <- (mod_eqm q (_ ^ _)), Z.mod_pow_l, <- Exp_spec, H1 by lia. done.
  - apply Z.mod_pos_bound. lia.
Qed.

(** For a prime modulus it finds a root whenever there is one. *)
Lemma ModSqrt_complete q x z :
  sqrt_modulus q -> Z.prime q -> z * z =[q]= x -> exists y, ModSqrt x q = Some y.
Proof.
  intros Hq Hprime Hz. destruct (sqrt_modulus_form q Hq) as (e & He & Hqe & Hhalf).
  destruct Hq as [Hgt _ _]. unfold ModSqrt, Jacobi. rewrite Hhalf.
  destruct (Z.eqb_spec (x mod q) 0) as [|H0]; [by eexists|].
  assert (Exp x (4 * e + 2) q = 1) as ->; [|by eexists].
  apply eqm_mod in Hz; [|lia].
  rewrite Exp_spec, <- Z.mod_pow_l, <- Hz, Z.mod_pow_l, <- Z.pow_2_r, <- Z.pow_mul_r by lia.
  replace (2 * (4 * e + 2)) with (q - 1) by lia.
  apply ZmodInv.Z.fermat_nz; [done|]. intros Hz0. apply H0. rewrite <- Hz.
  by rewrite Zmult_mod, Hz0.
Qed.

(** ** Byte conversions *)

Lemma be_digits_length n x : length (be_digits n x) = n.
Proof.
  revert x. induction n as [|n IH]; intros x; [done|]. cbn. rewrite length_app, IH. cbn. lia.
Qed.
Lemma be_digits_ok n x : bytes_ok (be_digits n x).
Proof.
  revert x. induction n as [|n IH]; intros x; [apply Forall_nil_2|]. cbn.
  apply Forall_app_2; [apply IH|]. apply Forall_singleton. word_unfold. word_lia.
Qed.
#[export] Hint Resolve be_digits_ok : mt.

Lemma be_word_snoc l x : be_word (l ++ [x]) = be_word l * 256 + x.
Proof. unfold be_word. by rewrite foldl_app. Qed.

Lemma be_word_digits n x : 0 <= x < 256 ^ Z.of_nat n -> be_word (be_digits n x) = x.
Proof.
  revert x. induction n as [|n IH]; intros x Hx.
  - cbn in *. lia.
  - cbn [be_digits]. rewrite Nat2Z.inj_succ, Z.pow_succ_r in Hx by lia.
    rewrite be_word_snoc, IH by (split; [apply Z.div_pos; lia|apply Z.div_lt_upper_bound; lia]).
    rewrite (Z.div_mod x 256) at 3 by lia. ring.
Qed.

Lemma be_word_range b : bytes_ok b -> 0 <= be_word b < 256 ^ Z.of_nat (length b).
Proof.
  induction b as [|x b IH] using rev_ind; intros Hb.
  - cbn. lia.
  - inv_Forall. rewrite be_word_snoc, length_app, Nat2Z.inj_add, Z.pow_add_r by lia.
    cbn [length]. change (256 ^ Z.of_nat 1) with 256. specialize (IH ltac:(done)).
    assert (is_u8 x) as Hx by done. unfold is_u8 in Hx. change (2 ^ 8) with 256 in Hx. lia.
Qed.

Lemma FillBytes_val {E} n x :
  0 <= x < 256 ^ Z.of_nat n -> FillBytes (E := E) n x = Val (be_digits n x).
Proof. intros Hx. unfold FillBytes. by rewrite Z.abs_eq, decide_True by lia. Qed.

Lemma be_digits_word b : bytes_ok b -> be_digits (length b) (be_word b) = b.
Proof.
  induction b as [|x b IH] using rev_ind; intros Hb; [done|]. inv_Forall.
  rewrite length_app, Nat.add_1_r, be_word_snoc. cbn [be_digits].
  assert (is_u8 x) as Hx by done. unfold is_u8 in Hx. change (2 ^ 8) with 256 in Hx.
  rewrite Z.div_add_l, Z.div_small, Z.add_0_r, IH by (done || lia).
  by rewrite Z.add_comm, Z_mod_plus_full, Z.mod_small by lia.
Qed.
