(* ===== verification/Primality.v ===== *)
(** * Primality certificates

    Pocklington's criterion, with modular powers computed on [Bignums] so
    that the field prime of the EC-SRP curve can be certified by evaluation,
    and the certificate for 2^255 - 19. *)

From S2P Require Import Prelude BigInt.
From Stdlib Require Import Zcong Znumtheory.
From Stdlib Require ZmodInv.
From Bignums Require Import BigZ.BigZ.

#[local] Open Scope Z_scope.

(** ** Fast modular powers *)

Fixpoint big_pow (x : BigZ.t) (e : positive) (q : BigZ.t) : BigZ.t :=
  match e with
  | xH => BigZ.modulo x q
  | xO e => big_pow (BigZ.modulo (BigZ.mul x x) q) e q
  | xI e => BigZ.modulo (BigZ.mul x (big_pow (BigZ.modulo (BigZ.mul x x) q) e q)) q
  end.

Lemma big_pow_spec e : forall x q,
  BigZ.to_Z (big_pow x e q) = pow_mod_pos (BigZ.to_Z x) e (BigZ.to_Z q).
Proof.
  induction e as [e IH|e IH|]; intros x q; cbn [big_pow pow_mod_pos].
  - by rewrite BigZ.spec_modulo, BigZ.spec_mul, IH, BigZ.spec_modulo, BigZ.spec_mul.
  - by rewrite IH, BigZ.spec_modulo, BigZ.spec_mul.
  - by rewrite BigZ.spec_modulo.
Qed.

Definition fast_exp (x e q : Z) : Z :=
  match e with
  | Zpos e => BigZ.to_Z (big_pow (BigZ.modulo (BigZ.of_Z x) (BigZ.of_Z q)) e (BigZ.of_Z q))
  | _ => 1 mod q
  end.

Lemma fast_exp_spec x e q : fast_exp x e q = Exp x e q.
Proof.
  destruct e as [|e|e]; [done| |done]. cbn [fast_exp Exp].
  by rewrite big_pow_spec, BigZ.spec_modulo, !BigZ.spec_of_Z.
Qed.

(** ** Prime factors *)

(** Trial division by [d], [d + 1], ... [d + k - 1]. *)
Fixpoint no_divisor (k : nat) (d q : Z) : bool :=
  match k with
  | O => true
  | S k => negb (q mod d =? 0) && no_divisor k (d + 1) q
  end.

Lemma no_divisor_spec k : forall d q m,
  0 < d -> no_divisor k d q = true -> d <= m < d + Z.of_nat k -> ~ (m | q).
Proof.
  induction k as [|k IH]; intros d q m Hd Hk Hm; [lia|].
  cbn [no_divisor] in Hk. apply andb_prop in Hk as [H0 Hk].
  destruct (Z.eq_dec m d) as [->|Hne].
  - intros Hdiv. apply Z.mod_divide in Hdiv; [|lia]. by rewrite Hdiv in H0.
  - apply (IH (d + 1)); [lia|done|lia].
Qed.

Lemma composite_factor q :
  1 < q -> ~ Z.prime q -> exists r, Z.prime r /\ (r | q) /\ r * r <= q.
Proof.
  revert q. apply (well_founded_induction (Z.lt_wf 0)
    (fun q => 1 < q -> ~ Z.prime q -> exists r, Z.prime r /\ (r | q) /\ r * r <= q)).
  intros q IH Hq Hnp. rewrite prime_alt in Hnp.
  destruct (not_prime_divide q Hq Hnp) as (m & Hm & k & Hk).
  assert (1 < k < q) as Hkq by nia.
  assert (exists t, 1 < t < q /\ (t | q) /\ t * t <= q) as (t & Ht & Hdt & Htt).
  { destruct (Z.le_gt_cases m k).
    - exists m. split_and!; [lia|lia|by exists k|nia].
    - exists k. split_and!; [lia|lia|exists m; lia|nia]. }
  destruct (prime_dec t) as [Hp|Hnt].
  - exists t. by rewrite prime_alt.
  - destruct (IH t) as (r & Hr & Hdr & Hrr); [lia|lia|by rewrite prime_alt|].
    exists r. split_and!; [done|by transitivity t|lia].
Qed.

Lemma trial_prime q k :
  1 < q -> q < (2 + Z.of_nat k) * (2 + Z.of_nat k) -> no_divisor k 2 q = true -> Z.prime q.
Proof.
  intros Hq Hk Hd. destruct (prime_dec q) as [H|H]; [by apply prime_alt|].
  destruct (composite_factor q) as (r & Hr & Hdr & Hrr); [done|by rewrite prime_alt|].
  pose proof (Z.prime_ge_2 r Hr). exfalso.
  apply (no_divisor_spec k 2 q r); [lia|done|nia|done].
Qed.

(** ** Pocklington's criterion *)

(** Every prime factor of [q] is 1 modulo [f]. *)
Definition factors_1_mod (q f : Z) : Prop := forall r, Z.prime r -> (r | q) -> (f | r - 1).

Lemma pow_mod_1 r b k : 0 <= k -> b =[r]= 1 -> b ^ k =[r]= 1.
Proof.
  intros Hk Hb. pattern k. apply natlike_ind; [done| |done].
  intros j Hj IH. rewrite Z.pow_succ_r by done. by rewrite IH, Hb.
Qed.

Lemma pocklington_step q f x :
  1 < q -> Z.prime f -> (q - 1) mod f = 0 ->
  fast_exp x (q - 1) q = 1 -> Z.gcd (fast_exp x ((q - 1) / f) q - 1) q = 1 ->
  factors_1_mod q f.
Proof.
  intros Hq Hf Hfq H1 Hg r Hr Hrq. rewrite !fast_exp_spec in *.
  pose proof (Z.prime_ge_2 r Hr). pose proof (Z.prime_ge_2 f Hf).
  assert (0 <= (q - 1) / f) by (apply Z.div_pos; lia).
  rewrite Exp_spec in H1, Hg by lia.
  set (c := x ^ ((q - 1) / f)) in *.
  assert (forall u v, u =[q]= v -> u =[r]= v) as Hmod
    by (intros ?? Huv; apply (Z.divide_trans _ q); done).
  assert (c ^ f =[r]= 1) as Hcf.
  { apply Hmod. unfold c. rewrite <- Z.pow_mul_r, Z.mul_comm by lia.
    rewrite <- (proj2 (Z.div_exact (q - 1) f ltac:(lia)) Hfq).
    rewrite <- (mod_eqm q (x ^ _)), H1. done. }
  assert (~ c =[r]= 1) as Hc1.
  { intros Hc. assert (r | 1) as Hr1.
    { rewrite <- Hg. apply Z.gcd_greatest; [|done].
      change (c mod q =[r]= 1). rewrite <- Hc. apply Hmod, mod_eqm. }
    apply Z.divide_1_r_nonneg in Hr1; lia. }
  destruct (Z.eq_dec ((r - 1) mod f) 0) as [Hd|Hnd]; [by apply Z.mod_divide; [lia|]|].
  rewrite Z.mod_divide in Hnd by lia. exfalso. apply Hc1.
  assert (c mod r <> 0) as Hc0.
  { intros Hc0. apply (Z.neq_succ_diag_l 0). apply (eqm_small r); [lia..|].
    change (Z.succ 0) with 1. rewrite <- Hcf, <- (mod_eqm r (c ^ f)), <- Z.mod_pow_l, Hc0.
    by rewrite Z.pow_0_l, mod_eqm by lia. }
  assert (c ^ (r - 1) =[r]= 1) as Hferm.
  { rewrite <- (mod_eqm r (c ^ _)), ZmodInv.Z.fermat_nz by done. done. }
  destruct (Z.eq_dec (r - 1) 1) as [Hr1|Hr1].
  { by rewrite Hr1, Z.pow_1_r in Hferm. }
  pose proof (Z.invmod_coprime f (r - 1) ltac:(lia) (Z.coprime_prime_l f (r - 1) Hf Hnd)) as Hi.
  pose proof (Z.mod_invmod (r - 1) f) as Hrange.
  set (i := Z.invmod f (r - 1)) in *.
  pose proof (Z.mod_pos_bound i (r - 1) ltac:(lia)) as Hpos. rewrite Hrange in Hpos.
  pose proof (Z.div_mod (i * f) (r - 1) ltac:(lia)) as Hdm. rewrite Hi in Hdm.
  assert (0 <= i * f / (r - 1)) by (apply Z.div_pos; nia).
  transitivity (c ^ (i * f)).
  - rewrite Hdm, Z.pow_add_r, Z.pow_mul_r, Z.pow_1_r by nia.
    rewrite (pow_mod_1 r (c ^ (r - 1))) by done. by rewrite Z.mul_1_l.
  - rewrite Z.mul_comm, Z.pow_mul_r by lia. by apply pow_mod_1; [lia|].
Qed.

Lemma factors_1_mod_prime q f :
  1 < q -> 0 < f -> q < (f + 1) * (f + 1) -> factors_1_mod q f -> Z.prime q.
Proof.
  intros Hq Hf Hsq Hfac. destruct (prime_dec q) as [H|H]; [by apply prime_alt|].
  destruct (composite_factor q) as (r & Hr & Hdr & Hrr); [done|by rewrite prime_alt|].
  pose proof (Z.prime_ge_2 r Hr).
  assert (f <= r - 1) by (apply Z.divide_pos_le; [lia|by apply Hfac]). nia.
Qed.

Lemma factors_1_mod_mul q f g :
  Z.gcd f g = 1 -> factors_1_mod q f -> factors_1_mod q g -> factors_1_mod q (f * g).
Proof.
  intros Hg Hf Hg' r Hr Hrq. destruct (Hf r Hr Hrq) as [k Hk]. destruct (Hg' r Hr Hrq) as [l Hl].
  assert (f | l) as [m Hm].
  { apply (Z.gauss f g l); [exists k; lia|done]. }
  exists m. rewrite Hl, Hm. ring.
Qed.

(** A certified prime: the conditions are closed computations. *)
Ltac pocklington_by f x Hf :=
  apply (pocklington_step _ f x); [reflexivity|exact Hf|vm_compute; reflexivity..].
Ltac certify1 f x Hf :=
  apply (factors_1_mod_prime _ f); [reflexivity|reflexivity|vm_compute; reflexivity|];
  pocklington_by f x Hf.
Ltac certify2 f x Hf g y Hg :=
  apply (factors_1_mod_prime _ (f * g)); [reflexivity|reflexivity|vm_compute; reflexivity|];
  apply factors_1_mod_mul; [vm_compute; reflexivity|pocklington_by f x Hf|pocklington_by g y Hg].
Ltac certify_small k := apply (trial_prime _ k); [reflexivity|vm_compute; reflexivity..].

(** ** 2^255 - 19 is prime *)

Lemma prime_97 : Z.prime 97. Proof. certify_small 9%nat. Qed.
Lemma prime_103 : Z.prime 103. Proof. certify_small 9%nat. Qed.
Lemma prime_127 : Z.prime 127. Proof. certify_small 10%nat. Qed.
Lemma prime_419 : Z.prime 419. Proof. certify_small 19%nat. Qed.
Lemma prime_991 : Z.prime 991. Proof. certify_small 30%nat. Qed.
Lemma prime_1723 : Z.prime 1723. Proof. certify_small 40%nat. Qed.
Lemma prime_4153 : Z.prime 4153. Proof. certify_small 63%nat. Qed.
Lemma prime_8574133 : Z.prime 8574133.
Proof. certify2 991 2 prime_991 103 2 prime_103. Qed.
Lemma prime_569003 : Z.prime 569003.
Proof. certify2 419 2 prime_419 97 2 prime_97. Qed.
Lemma prime_2773320623 : Z.prime 2773320623.
Proof. certify1 569003 2 prime_569003. Qed.
Lemma prime_72106336199 : Z.prime 72106336199.
Proof. certify1 2773320623 2 prime_2773320623. Qed.
Lemma prime_1919519569386763 : Z.prime 1919519569386763.
Proof. certify2 8574133 2 prime_8574133 127 2 prime_127. Qed.
Lemma prime_116_bits : Z.prime 75445702479781427272750846543864801.
Proof. certify2 1919519569386763 2 prime_1919519569386763 72106336199 2 prime_72106336199. Qed.
Lemma prime_430751 : Z.prime 430751.
Proof. certify1 1723 2 prime_1723. Qed.
Lemma prime_31757755568855353 : Z.prime 31757755568855353.
Proof. certify2 430751 2 prime_430751 4153 2 prime_4153. Qed.
Lemma prime_236_bits :
  Z.prime 74058212732561358302231226437062788676166966415465897661863160754340907.
Proof.
  certify2 75445702479781427272750846543864801 2 prime_116_bits
           31757755568855353 2 prime_31757755568855353.
Qed.
Lemma prime_25519 : Z.prime (2 ^ 255 - 19).
Proof.
  certify1 74058212732561358302231226437062788676166966415465897661863160754340907 2 prime_236_bits.
Qed.

Lemma sqrt_modulus_25519 : sqrt_modulus (2 ^ 255 - 19).
Proof.
  split; [reflexivity|reflexivity|]. rewrite <- fast_exp_spec. vm_compute. reflexivity.
Qed.
