(* ===== verification/Auth.v ===== *)
(** * Authentication payloads (mactelnet/auth.go)

    Mode detection, the MD5 challenge response, the EC-SRP validator, and
    the control-record sequences of the two client DATA packets of the
    handshake. *)

From S2P Require Import Prelude GoBytes GoHash Protocol.

#[local] Open Scope Z_scope.

Inductive authMode := authModeMD5 | authModeECSRP.
#[export] Instance authMode_eq_dec : EqDecision authMode.
Proof. solve_decision. Defined.

Definition md5SaltLen : nat := 16.
Definition ecsrpSaltLen : nat := 49.
Definition ecsrpPubkeyLen : nat := 33.
Definition md5ResponseLen : nat := 17.
Definition ecsrpResponseLen : nat := 32.
Definition mtweiValidatorLen : nat := 32.

(** The formatted error of [detectAuthMode], with the length it reports. *)
Inductive auth_error := errPassSaltLength (n : nat).

(** [func detectAuthMode(passSaltBody []byte) (authMode, error)] *)
Definition detectAuthMode (passSaltBody : bytes) : outcome auth_error authMode :=
  if decide (length passSaltBody = md5SaltLen) then mret authModeMD5
  else if decide (length passSaltBody = ecsrpSaltLen) then mret authModeECSRP
  else Fail (errPassSaltLength (length passSaltBody)).

(** [func computeMD5Response(password string, salt []byte) [17]byte] *)
Definition computeMD5Response (password salt : bytes) : bytes :=
  0x00 :: md5 ([0x00] ++ password ++ salt).

(** [func mtweiID(username, password string, salt []byte) [32]byte] *)
Definition mtweiID (username password salt : bytes) : bytes :=
  let innerSum := sha256 (username ++ bytes_of_string ":" ++ password) in
  sha256 (salt ++ innerSum).

(** [func buildAuthInit(buf []byte, username string, clientPub *[33]byte)
    (int, error)]: the buffer afterwards and the count. *)
Definition buildAuthInit (buf username clientPub : bytes) : proto (bytes * nat) :=
  '(buf, n) ← encodeControl buf cpTypeBeginAuth [];
  let body := username ++ [0] ++ clientPub in
  '(rest, m) ← encodeControl (drop n buf) cpTypePassSalt body;
  mret (take n buf ++ rest, (n + m)%nat).

(** [func buildAuthFinish(buf []byte, response, username, termType []byte,
    cols, rows uint16) (int, error)] *)
Definition buildAuthFinish (buf response username termType : bytes) (cols rows : Z)
    : proto (bytes * nat) :=
  '(buf, n) ← encodeControl buf cpTypePassword response;
  '(rest, m) ← encodeControl (drop n buf) cpTypeUsername username;
  let buf := take n buf ++ rest in let n := (n + m)%nat in
  '(rest, m) ← encodeControl (drop n buf) cpTypeTermType termType;
  let buf := take n buf ++ rest in let n := (n + m)%nat in
  let dim := put_le16 cols in
  '(rest, m) ← encodeControl (drop n buf) cpTypeTermWidth dim;
  let buf := take n buf ++ rest in let n := (n + m)%nat in
  let dim := put_le16 rows in
  '(rest, m) ← encodeControl (drop n buf) cpTypeTermHeight dim;
  let buf := take n buf ++ rest in let n := (n + m)%nat in
  mret (buf, n).

(** ** The record sequences the builders stand for *)

Definition auth_init_records (username clientPub : bytes) : list controlRecord :=
  [mkRecord cpTypeBeginAuth []; mkRecord cpTypePassSalt (username ++ [0] ++ clientPub)].

Definition auth_finish_records (response username termType : bytes) (cols rows : Z)
    : list controlRecord :=
  [mkRecord cpTypePassword response; mkRecord cpTypeUsername username;
   mkRecord cpTypeTermType termType; mkRecord cpTypeTermWidth (put_le16 cols);
   mkRecord cpTypeTermHeight (put_le16 rows)].

Lemma buildAuthInit_chain buf username clientPub :
  buildAuthInit buf username clientPub
  = encode_chain buf (auth_init_records username clientPub).
Proof.
  unfold buildAuthInit, auth_init_records.
  snoc_chain.
  by destruct (encodeControl buf cpTypeBeginAuth []) as [[b n]| |].
Qed.

Lemma buildAuthFinish_chain buf response username termType cols rows :
  buildAuthFinish buf response username termType cols rows
  = encode_chain buf (auth_finish_records response username termType cols rows).
Proof.
  unfold buildAuthFinish, auth_finish_records.
  snoc_chain.
  destruct (encodeControl buf cpTypePassword response) as [[b n]| |];
    cbn [mbind outcome_bind]; [|done..].
  do 4 (lazymatch goal with
    | |- context [encodeControl ?b ?ct ?bd] =>
        destruct (encodeControl b ct bd) as [[? ?]| |];
          cbn [mbind outcome_bind mret outcome_ret]; [|done..]
    end).
  done.
Qed.

Lemma auth_init_framable username clientPub :
  Forall framable (auth_init_records username clientPub).
Proof. repeat constructor; discriminate. Qed.
Lemma auth_finish_framable response username termType cols rows :
  Forall framable (auth_finish_records response username termType cols rows).
Proof. repeat constructor; discriminate. Qed.
#[export] Hint Resolve auth_init_framable auth_finish_framable : mt.

(** The parse of a framed chain, standing alone. *)
Lemma parse_chain rs :
  Forall framable rs -> Z.of_nat (length (chain_layout rs)) < 2 ^ 32 ->
  parse_controls (chain_layout rs) = rs.
Proof.
  induction 1 as [|[ct body] rs Hr Hrs IH]; [done|].
  rewrite chain_layout_cons, length_app. cbn [CPType Body]. intros Hsz.
  assert (length body <= length (control_layout ct body))%nat.
  { unfold control_layout. case_decide; rewrite ?length_app; cbn; lia. }
  rewrite parse_framed by (try done; rewrite !length_app; lia).
  f_equal. apply IH. lia.
Qed.

Lemma control_layout_length ct body :
  ct <> cpTypePlainData -> length (control_layout ct body) = (cpHeaderLen + length body)%nat.
Proof. intros. unfold control_layout. rewrite decide_False by done. reflexivity. Qed.

Lemma auth_init_length username clientPub :
  length clientPub = ecsrpPubkeyLen ->
  length (chain_layout (auth_init_records username clientPub)) = (52 + length username)%nat.
Proof.
  intros Hpub. unfold auth_init_records. rewrite !chain_layout_cons. cbn [CPType Body].
  rewrite !length_app, !control_layout_length, !length_app, Hpub by done.
  unfold ecsrpPubkeyLen, cpHeaderLen, chain_layout. cbn. lia.
Qed.

Lemma auth_finish_length response username termType cols rows :
  length (chain_layout (auth_finish_records response username termType cols rows))
  = (49 + length response + length username + length termType)%nat.
Proof.
  unfold auth_finish_records. rewrite !chain_layout_cons. cbn [CPType Body].
  rewrite !length_app, !control_layout_length by done.
  unfold cpHeaderLen, chain_layout. cbn. lia.
Qed.

(** ** Properties *)

(** The first DATA packet of the handshake: whatever the username, the
    builder fails with the truncation error exactly when 52 bytes plus the
    username do not fit, and otherwise writes that many bytes, which the
    peer's parser reads back as BEGINAUTH and then PASSSALT carrying
    username, NUL and public key. *)
Theorem buildAuthInit_spec buf username clientPub :
  length clientPub = ecsrpPubkeyLen -> Z.of_nat (length buf) < 2 ^ 32 ->
  (length buf < 52 + length username /\
     buildAuthInit buf username clientPub = Fail errShortControl)%nat
  \/ exists wire n,
       buildAuthInit buf username clientPub = Val (wire, n)
       /\ n = (52 + length username)%nat /\ length wire = length buf
       /\ drop n wire = drop n buf
       /\ parse_controls (take n wire)
          = [mkRecord cpTypeBeginAuth [];
             mkRecord cpTypePassSalt (username ++ [0] ++ clientPub)].
Proof.
  intros Hpub Hbuf. pose proof (auth_init_length username clientPub Hpub) as Hlen.
  rewrite buildAuthInit_chain, encode_chain_cases. case_decide; [left; split; [lia|done]|right].
  do 2 eexists. split; [reflexivity|]. split_and!.
  - done.
  - rewrite length_app, length_drop. lia.
  - apply drop_app_length.
  - rewrite take_app_length, parse_chain; [done|auto with mt|lia].
Qed.

Lemma buildAuthInit_spec_witness :
  (length (make 1478) < 52 + length (bytes_of_string "admin") /\
     buildAuthInit (make 1478) (bytes_of_string "admin") (make 33) = Fail errShortControl)%nat
  \/ exists wire n,
       buildAuthInit (make 1478) (bytes_of_string "admin") (make 33) = Val (wire, n)
       /\ n = (52 + length (bytes_of_string "admin"))%nat /\ length wire = length (make 1478)
       /\ drop n wire = drop n (make 1478)
       /\ parse_controls (take n wire)
          = [mkRecord cpTypeBeginAuth [];
             mkRecord cpTypePassSalt (bytes_of_string "admin" ++ [0] ++ make 33)].
Proof.
  apply (buildAuthInit_spec (make 1478) (bytes_of_string "admin") (make 33)); reflexivity.
Defined.

(** C24. The second DATA packet: the builder fails with the truncation
    error exactly when its five records do not fit, and otherwise the peer
    reads back password response, username, terminal type and the two
    terminal dimensions, the dimensions as little-endian 16-bit words. *)
Theorem buildAuthFinish_spec buf response username termType cols rows :
  is_u16 cols -> is_u16 rows -> Z.of_nat (length buf) < 2 ^ 32 ->
  let need := (49 + length response + length username + length termType)%nat in
  ((length buf < need)%nat /\
     buildAuthFinish buf response username termType cols rows = Fail errShortControl)
  \/ exists wire w h,
       buildAuthFinish buf response username termType cols rows = Val (wire, need)
       /\ length wire = length buf
       /\ parse_controls (take need wire)
          = [mkRecord cpTypePassword response; mkRecord cpTypeUsername username;
             mkRecord cpTypeTermType termType; mkRecord cpTypeTermWidth w;
             mkRecord cpTypeTermHeight h]
       /\ le16 (E := proto_error) w = Val cols /\ le16 (E := proto_error) h = Val rows.
Proof.
  intros Hc Hr Hbuf. cbn zeta.
  pose proof (auth_finish_length response username termType cols rows) as Hlen.
  rewrite buildAuthFinish_chain, encode_chain_cases. case_decide; [left; split; [lia|done]|right].
  exists (chain_layout (auth_finish_records response username termType cols rows)
          ++ drop (length (chain_layout (auth_finish_records response username termType cols rows))) buf).
  exists (put_le16 cols), (put_le16 rows). split_and!.
  - by rewrite Hlen.
  - rewrite length_app, length_drop. lia.
  - rewrite <- Hlen, take_app_length, parse_chain; [done|auto with mt|lia].
  - rewrite <- (app_nil_r (put_le16 cols)). by apply le16_put.
  - rewrite <- (app_nil_r (put_le16 rows)). by apply le16_put.
Qed.

Lemma buildAuthFinish_spec_witness :
  let user := bytes_of_string "admin" in let term := bytes_of_string "xterm-256color" in
  let need := (49 + length (make 32) + length user + length term)%nat in
  ((length (make 1478) < need)%nat /\
     buildAuthFinish (make 1478) (make 32) user term 80 300 = Fail errShortControl)
  \/ exists wire w h,
       buildAuthFinish (make 1478) (make 32) user term 80 300 = Val (wire, need)
       /\ length wire = length (make 1478)
       /\ parse_controls (take need wire)
          = [mkRecord cpTypePassword (make 32); mkRecord cpTypeUsername user;
             mkRecord cpTypeTermType term; mkRecord cpTypeTermWidth w;
             mkRecord cpTypeTermHeight h]
       /\ le16 (E := proto_error) w = Val 80 /\ le16 (E := proto_error) h = Val 300.
Proof.
  apply (buildAuthFinish_spec (make 1478) (make 32) (bytes_of_string "admin")
           (bytes_of_string "xterm-256color") 80 300); (split; (discriminate || reflexivity)) || reflexivity.
Defined.

Lemma computeMD5Response_length password salt :
  length (computeMD5Response password salt) = md5ResponseLen.
Proof. reflexivity. Qed.
Lemma computeMD5Response_ok password salt : bytes_ok (computeMD5Response password salt).
Proof. unfold computeMD5Response. bytes_tac. word_lia. Qed.
Lemma mtweiID_length username password salt :
  length (mtweiID username password salt) = mtweiValidatorLen.
Proof. reflexivity. Qed.
Lemma mtweiID_ok username password salt : bytes_ok (mtweiID username password salt).
Proof. unfold mtweiID. auto with mt. Qed.
#[export] Hint Resolve computeMD5Response_ok mtweiID_ok : mt.
