(* ===== verification/Mtwei.v ===== *)
(** * EC-SRP on Curve25519 in Weierstrass form (internal/mactelnet/mtwei.go)

    The curve constants, affine point arithmetic, x-coordinate lifting, the
    validator tangle, client key generation and the client's challenge
    response, over [math/big] integers modelled as [Z].  A Go [*big.Int]
    that may be nil is an [option Z]; dereferencing nil is [Panic]. *)

From S2P Require Import Prelude GoBytes GoHash BigInt Auth.

#[local] Open Scope Z_scope.

(** ** The curve *)

Record mtweiState := mkMtwei {
  p : Z; a : Z; b : Z; gx : Z; gy : Z; n : Z; w2m : Z; m2w : Z
}.

Definition newMtweiState : mtweiState := {|
  p := 0x7fffffffffffffffffffffffffffffffffffffffffffffffffffffffffffffed;
  a := 0x2aaaaaaaaaaaaaaaaaaaaaaaaaaaaaaaaaaaaaaaaaaaaaaaaaaaaa984914a144;
  b := 0x7b425ed097b425ed097b425ed097b425ed097b425ed097b4260b5e9c7710c864;
  gx := 0x2aaaaaaaaaaaaaaaaaaaaaaaaaaaaaaaaaaaaaaaaaaaaaaaaaaaaaaaaaad245a;
  gy := 0x5f51e65e475f794b1fe122d388b72eb36dc2b28192839e4dd6163a5d81312c14;
  n := 0x1000000000000000000000000000000014def9dea2f79cd65812631a5cf5d3ed;
  w2m := 0x555555555555555555555555555555555555555555555555555555555552db9c;
  m2w := 0x2aaaaaaaaaaaaaaaaaaaaaaaaaaaaaaaaaaaaaaaaaaaaaaaaaaaaaaaaaad2451;
|}.

Record point := mkPoint { X : option Z; Y : option Z; Inf : bool }.

Definition infinity : point := mkPoint None None true.
Definition affine (x y : Z) : point := mkPoint (Some x) (Some y) false.

#[export] Instance point_eq_dec : EqDecision point.
Proof. solve_decision. Defined.

Inductive mtwei_error :=
| errRand                  (* mtwei: keygen rand: ... *)
| errServerKey             (* mtwei: server pubkey x-coordinate not on curve *)
| fuel_exhausted.          (* the model's bound on the search of [tangle] *)

Abbreviation ec := (outcome mtwei_error).

(** [new(big.Int).SetString(s, 16)]: an optional sign and digits. *)
Definition hex_digit (c : Z) : option Z :=
  if decide (48 <= c <= 57) then Some (c - 48)
  else if decide (97 <= c <= 102) then Some (c - 87)
  else if decide (65 <= c <= 70) then Some (c - 55)
  else None.
Fixpoint hex_digits (acc : Z) (s : bytes) : option Z :=
  match s with
  | [] => Some acc
  | c :: s => d ← hex_digit c; hex_digits (acc * 16 + d) s
  end.
Definition SetString16 (s : bytes) : option Z :=
  let '(sign, digits) :=
    match s with
    | c :: s => if decide (c = 45) then (-1, s) else if decide (c = 43) then (1, s) else (1, c :: s)
    | [] => (1, [])
    end in
  match digits with [] => None | _ => v ← hex_digits 0 digits; Some (sign * v) end.

Definition mustHex (s : bytes) : ec Z :=
  match SetString16 s with Some n => Val n | None => Panic end.

(** The constants of [newMtweiState] from their text: none panics. *)
Example newMtweiState_text :
  mustHex <$> (bytes_of_string <$>
    ["7fffffffffffffffffffffffffffffffffffffffffffffffffffffffffffffed";
     "2aaaaaaaaaaaaaaaaaaaaaaaaaaaaaaaaaaaaaaaaaaaaaaaaaaaaa984914a144";
     "7b425ed097b425ed097b425ed097b425ed097b425ed097b4260b5e9c7710c864";
     "2aaaaaaaaaaaaaaaaaaaaaaaaaaaaaaaaaaaaaaaaaaaaaaaaaaaaaaaaaad245a";
     "5f51e65e475f794b1fe122d388b72eb36dc2b28192839e4dd6163a5d81312c14";
     "1000000000000000000000000000000014def9dea2f79cd65812631a5cf5d3ed";
     "555555555555555555555555555555555555555555555555555555555552db9c";
     "2aaaaaaaaaaaaaaaaaaaaaaaaaaaaaaaaaaaaaaaaaaaaaaaaaaaaaaaaaad2451"]%string)
  = Val <$> [p newMtweiState; a newMtweiState; b newMtweiState; gx newMtweiState; gy newMtweiState;
             n newMtweiState; w2m newMtweiState; m2w newMtweiState].
Proof. vm_compute. reflexivity. Qed.

(** Use of a [*big.Int]. *)
Definition deref (x : option Z) : ec Z :=
  match x with Some x => Val x | None => Panic end.

Definition generator (s : mtweiState) : point := affine (gx s) (gy s).

Definition double (s : mtweiState) (pt : point) : ec point :=
  if Inf pt then Val infinity
  else
    y ← deref (Y pt);
    if decide (y = 0) then Val infinity
    else
      x ← deref (X pt);
      let num := (x * x * 3 + a s) mod p s in
      let den := Z.shiftl y 1 mod p s in
      match ModInverse den (p s) with
      | None => Val infinity
      | Some inv =>
          let lam := (num * inv) mod p s in
          let rx := (lam * lam - x - x) mod p s in
          let ry := ((x - rx) * lam - y) mod p s in
          Val (affine rx ry)
      end.

(** [&point{X: new(big.Int).Set(q.X), Y: new(big.Int).Set(q.Y), Inf: q.Inf}] *)
Definition copy_point (q : point) : ec point :=
  x ← deref (X q);
  y ← deref (Y q);
  Val (mkPoint (Some x) (Some y) (Inf q)).

Definition add (s : mtweiState) (p1 p2 : point) : ec point :=
  if Inf p1 then copy_point p2
  else if Inf p2 then copy_point p1
  else
    x1 ← deref (X p1);
    x2 ← deref (X p2);
    if decide (x1 = x2) then
      y1 ← deref (Y p1);
      y2 ← deref (Y p2);
      if decide (y1 = y2) then double s p1 else Val infinity
    else
      y2 ← deref (Y p2);
      y1 ← deref (Y p1);
      let num := (y2 - y1) mod p s in
      let den := (x2 - x1) mod p s in
      match ModInverse den (p s) with
      | None => Val infinity
      | Some inv =>
          let lam := (num * inv) mod p s in
          let rx := (lam * lam - x1 - x2) mod p s in
          let ry := ((x1 - rx) * lam - y1) mod p s in
          Val (affine rx ry)
      end.

(** The loop of [scalarMult] over bit positions [i], [i + 1], ... *)
Fixpoint mult_loop (s : mtweiState) (k : Z) (todo i : nat) (res cur : point) : ec point :=
  match todo with
  | O => Val res
  | S todo =>
      res ← (if decide (Bit k i = 1) then add s res cur else Val res);
      cur ← double s cur;
      mult_loop s k todo (S i) res cur
  end.

Definition scalarMult (s : mtweiState) (k : Z) (pt : point) : ec point :=
  cur ← copy_point pt;
  mult_loop s k (BitLen k) 0 infinity cur.

Definition liftX (s : mtweiState) (x yParity : Z) : option point :=
  let rhs := (x * x) mod p s in
  let rhs := rhs * x in
  let rhs := (rhs + a s * x + b s) mod p s in
  y ← ModSqrt rhs (p s);
  let y := if decide (u8 (Bit y 0) <> yParity) then p s - y else y in
  Some (affine x y).

(** The search of [tangle] for an x-coordinate on the curve, from the seed
    [edpx] up. *)
Fixpoint lift_search (fuel : nat) (s : mtweiState) (negate edpx : Z) : ec point :=
  match fuel with
  | O => Fail fuel_exhausted
  | S fuel =>
      edpxBuf ← FillBytes 32 edpx;
      let h := sha256 edpxBuf in
      let edpxm := (SetBytes h + m2w s) mod p s in
      match liftX s edpxm negate with
      | Some pt => Val pt
      | None => lift_search fuel s negate (edpx + 1)
      end
  end.

(** [tangle] returns the updated target and the validator as a scalar. *)
Definition tangle (fuel : nat) (s : mtweiState) (target : point) (validator : bytes) (negate : Z)
    : ec (point * Z) :=
  let v := SetBytes validator in
  valPt ← scalarMult s v (generator s);
  vx ← deref (X valPt);
  let vpubX := (vx + w2m s) mod p s in
  buf ← FillBytes 32 vpubX;
  let seed := sha256 buf in
  lifted ← lift_search fuel s negate (SetBytes seed);
  sum ← add s target lifted;
  Val (sum, v).

(** The 32 random bytes with the masks of [keygen] applied. *)
Definition clamp (raw : bytes) : ec bytes :=
  r0 ← index raw 0;
  raw ← set_index raw 0 (Z.land r0 248);
  r31 ← index raw 31;
  raw ← set_index raw 31 (Z.land r31 127);
  r31 ← index raw 31;
  set_index raw 31 (Z.lor r31 64).

(** The private scalar and the 33-byte public key. [rand] is what
    [io.ReadFull] stored, or [None] when it failed. *)
Definition keygen (fuel : nat) (s : mtweiState) (rand validator : option bytes)
    : ec (Z * bytes) :=
  match rand with
  | None => Fail errRand
  | Some raw =>
      raw ← clamp raw;
      let priv := SetBytes raw in
      pub ← scalarMult s priv (generator s);
      pub ← match validator with
            | Some v => '(t, _) ← tangle fuel s pub v 0; Val t
            | None => Val pub
            end;
      px ← deref (X pub);
      pubKey ← FillBytes 32 ((px + w2m s) mod p s);
      py ← deref (Y pub);
      Val (priv, pubKey ++ [u8 (Bit py 0)])
  end.

Definition docrypto (fuel : nat) (s : mtweiState) (priv : Z) (serverKey clientKey validator : bytes)
    : ec bytes :=
  let serverPubX := (SetBytes (take 32 serverKey) + m2w s) mod p s in
  parity ← index serverKey 32;
  match liftX s serverPubX parity with
  | None => Fail errServerKey
  | Some serverPub =>
      '(serverPub, v) ← tangle fuel s serverPub validator 1;
      let hSum := sha256 (take 32 clientKey ++ take 32 serverKey) in
      let h := SetBytes hSum in
      let vh := (v * h) mod n s in
      let vh := (vh + priv) mod n s in
      pt ← scalarMult s vh serverPub;
      px ← deref (X pt);
      let zInput := (px + w2m s) mod p s in
      zBytes ← FillBytes 32 zInput;
      Val (sha256 (hSum ++ zBytes))
  end.


(** ** Points on the curve *)

Definition cubic (s : mtweiState) (x : Z) : Z := x * x * x + a s * x + b s.

(** A finite point satisfies the equation, its x-coordinate is reduced and
    its y-coordinate is at most [p] (the negated root of 0 is [p] itself);
    infinity has nil coordinates. *)
Definition on_curve (s : mtweiState) (pt : point) : Prop :=
  match pt with
  | mkPoint (Some x) (Some y) false =>
      0 <= x < p s /\ 0 <= y <= p s /\ y * y =[p s]= cubic s x
  | mkPoint None None true => True
  | _ => False
  end.

Lemma on_curve_inv s pt :
  on_curve s pt ->
  (pt = infinity) \/ exists x y, pt = affine x y /\ 0 <= x < p s /\ 0 <= y <= p s /\ y * y =[p s]= cubic s x.
Proof. destruct pt as [[x|] [y|] []]; cbn; try done; [|by left]. right. by exists x, y. Qed.

Lemma infinity_on_curve s : on_curve s infinity.
Proof. done. Qed.
#[export] Hint Resolve infinity_on_curve : mt.

(** The tangent (or chord) of slope [l] meets the curve again at
    [x = l^2 - ...]; mirrored, that is the sum. *)
Lemma tangent_algebra s x y l rx ry :
  y * y =[p s]= cubic s x -> y * 2 * l =[p s]= x * x * 3 + a s ->
  rx =[p s]= l * l - x - x -> ry =[p s]= (x - rx) * l - y ->
  ry * ry =[p s]= cubic s rx.
Proof.
  intros Hy Hl Hrx Hry. rewrite Hry.
  assert (cubic s rx - (y + l * (rx - x)) * (y + l * (rx - x))
          =[p s]= (rx - x) * (rx - x) * (rx - (l * l - x - x))) as Hline.
  { apply (eqm_lin2 _ (-1) _ _ (- (rx - x)) _ _ _ _ Hy Hl). unfold cubic. ring. }
  apply (eqm_lin2 _ (-1) _ _ (- (rx - x) * (rx - x)) _ _ _ _ Hline Hrx). ring.
Qed.

Lemma chord_algebra s x1 y1 x2 y2 l i rx ry :
  y1 * y1 =[p s]= cubic s x1 -> y2 * y2 =[p s]= cubic s x2 ->
  i * (x2 - x1) =[p s]= 1 -> (x2 - x1) * l =[p s]= y2 - y1 ->
  rx =[p s]= l * l - x1 - x2 -> ry =[p s]= (x1 - rx) * l - y1 ->
  ry * ry =[p s]= cubic s rx.
Proof.
  intros H1 H2 Hi Hl Hrx Hry. rewrite Hry.
  (* The difference of the cubic, the squared line and the product of the
     three linear factors is linear in the variable, and vanishes at x1. *)
  set (r0 := l * l - x1 - x2) in *.
  set (e1 := a s - 2 * y1 * l + 2 * l * l * x1 - x1 * x2 - (x1 + x2) * r0).
  assert (forall t, cubic s t - (y1 + l * (t - x1)) * (y1 + l * (t - x1))
            = (t - x1) * (t - x2) * (t - r0) + (cubic s x1 - y1 * y1) + e1 * (t - x1)) as Hlin.
  { intros t. unfold cubic, e1, r0. ring. }
  assert (e1 * (x2 - x1) =[p s]= 0) as He.
  { pose proof (Hlin x2) as Hx2.
    apply (eqm_lin2 _ 1 (cubic s x2 - (y1 + l * (x2 - x1)) * (y1 + l * (x2 - x1))) 0
             1 (y1 * y1) (cubic s x1)); [|done|].
    - rewrite (Z.mul_comm l), Hl, <- H2. replace (y1 + (y2 - y1)) with y2 by ring.
      by rewrite Z.sub_diag.
    - rewrite Hx2. ring. }
  assert (e1 =[p s]= 0) as He0.
  { apply (eqm_lin2 _ i (e1 * (x2 - x1)) 0 (- e1) _ _ _ _ He Hi). ring. }
  pose proof (Hlin rx) as Hrx'.
  apply (eqm_lin2 _ (- ((rx - x1) * (rx - x2))) _ _ (-1)
           ((cubic s x1 - y1 * y1) + e1 * (rx - x1)) 0 _ _ Hrx).
  - rewrite He0, <- H1. replace (y1 * y1 - y1 * y1 + 0 * (rx - x1)) with 0 by ring. done.
  - transitivity (- (cubic s rx - (y1 + l * (rx - x1)) * (y1 + l * (rx - x1)))); [ring|].
    rewrite Hrx'. ring.
Qed.

(** The slope computed with a modular inverse solves its equation. *)
Lemma slope_spec q num d i :
  ModInverse (d mod q) q = Some i ->
  d * ((num mod q * i) mod q) =[q]= num /\ i * d =[q]= 1.
Proof.
  intros Hi. apply ModInverse_spec in Hi. rewrite mod_eqm in Hi.
  split; [|done]. rewrite !mod_eqm.
  apply (eqm_lin1 _ num _ _ _ _ Hi). ring.
Qed.

Lemma reduced_on_curve s rx ry :
  0 < p s -> (ry mod p s) * (ry mod p s) =[p s]= cubic s (rx mod p s) ->
  on_curve s (affine (rx mod p s) (ry mod p s)).
Proof.
  intros Hp Hc. pose proof (Z.mod_pos_bound rx (p s) Hp). pose proof (Z.mod_pos_bound ry (p s) Hp).
  cbn. split_and!; lia || done.
Qed.

Lemma double_on_curve s pt :
  0 < p s -> on_curve s pt -> exists pt', double s pt = Val pt' /\ on_curve s pt'.
Proof.
  intros Hp Hpt. apply on_curve_inv in Hpt as [->|(x & y & -> & Hx & Hy & Hc)]; [by exists infinity|].
  unfold double. cbn [Inf affine X Y deref]. rewrite bind_val.
  case_decide; [by exists infinity|]. rewrite bind_val. cbv zeta.
  destruct (ModInverse _ _) as [i|] eqn:Hi; [|by exists infinity].
  eexists. split; [reflexivity|]. apply reduced_on_curve; [done|].
  rewrite Z.shiftl_mul_pow2, Z.pow_1_r in Hi by lia.
  destruct (slope_spec _ (x * x * 3 + a s) _ _ Hi) as [Hl _].
  eapply tangent_algebra; [exact Hc|exact Hl|apply mod_eqm|apply mod_eqm].
Qed.

Lemma copy_point_affine x y : copy_point (affine x y) = Val (affine x y).
Proof. done. Qed.

(** [add] is total on the curve except where both operands are infinity. *)
Lemma add_on_curve s p1 p2 :
  0 < p s -> on_curve s p1 -> on_curve s p2 -> Inf p1 = false \/ Inf p2 = false ->
  exists pt', add s p1 p2 = Val pt' /\ on_curve s pt'.
Proof.
  intros Hp H1 H2 Hinf.
  pose proof H1 as [->|(x1 & y1 & -> & Hx1 & Hy1 & Hc1)]%on_curve_inv.
  { apply on_curve_inv in H2 as [->|(x2 & y2 & -> & ?)]; [by destruct Hinf|].
    exists (affine x2 y2). done. }
  apply on_curve_inv in H2 as [->|(x2 & y2 & -> & Hx2 & Hy2 & Hc2)].
  { exists (affine x1 y1). done. }
  unfold add. cbn [Inf affine X Y deref]. rewrite !bind_val.
  case_decide as Hx.
  { case_decide; [by apply double_on_curve|by exists infinity]. }
  cbv zeta. destruct (ModInverse _ _) as [i|] eqn:Hi; [|by exists infinity].
  eexists. split; [reflexivity|]. apply reduced_on_curve; [done|].
  destruct (slope_spec _ (y2 - y1) _ _ Hi) as [Hl Hid].
  eapply (chord_algebra s x1 y1 x2 y2); [exact Hc1|exact Hc2|exact Hid|exact Hl|apply mod_eqm|apply mod_eqm].
Qed.

Lemma add_infinities s p1 p2 :
  on_curve s p1 -> on_curve s p2 -> Inf p1 = true -> Inf p2 = true -> add s p1 p2 = Panic.
Proof.
  intros [->|(? & ? & -> & ?)]%on_curve_inv [->|(? & ? & -> & ?)]%on_curve_inv; by intros.
Qed.

(** The doubling chain of a point: [2^i P]. *)
Fixpoint doublings (s : mtweiState) (i : nat) (pt : point) : ec point :=
  match i with
  | O => Val pt
  | S i => pt' ← double s pt; doublings s i pt'
  end.

(** What [scalarMult] computes, bit by bit from the lowest, as a value. *)
Lemma mult_loop_on_curve s k todo : forall i res cur,
  0 < p s -> on_curve s res -> on_curve s cur ->
  match mult_loop s k todo i res cur with
  | Val pt => on_curve s pt
  | Fail _ => False
  | Panic => exists j q, (j < todo)%nat /\ doublings s j cur = Val q /\ Inf q = true
  end.
Proof.
  induction todo as [|todo IH]; intros i res cur Hp Hres Hcur; [done|].
  cbn [mult_loop]. destruct (double_on_curve s cur Hp Hcur) as (cur' & Hd & Hcur').
  assert (forall res', on_curve s res' ->
    match mult_loop s k todo (S i) res' cur' with
    | Val pt => on_curve s pt | Fail _ => False
    | Panic => exists j q, (j < S todo)%nat /\ doublings s j cur = Val q /\ Inf q = true end) as Hnext.
  { intros res' Hr. specialize (IH (S i) res' cur' Hp Hr Hcur').
    destruct (mult_loop _ _ _ _ _ _); [done..|].
    destruct IH as (j & q & Hj & Hq & Hinf). exists (S j), q.
    split_and!; [lia| |done]. cbn [doublings]. by rewrite Hd. }
  case_decide.
  - destruct (Inf res) eqn:Hri, (Inf cur) eqn:Hci.
    1: { rewrite add_infinities by done. exists 0%nat, cur. split_and!; [lia|done..]. }
    all: destruct (add_on_curve s res cur Hp Hres Hcur) as (res' & -> & Hr'); [tauto|].
    all: rewrite bind_val, Hd, bind_val; by apply Hnext.
  - rewrite bind_val, Hd, bind_val. by apply Hnext.
Qed.

Lemma BitLen_bound k m : 0 <= k < 2 ^ Z.of_nat m -> (BitLen k <= m)%nat.
Proof.
  intros Hk. unfold BitLen. destruct (Z.eqb_spec k 0); [lia|].
  assert (Z.log2 k < Z.of_nat m) by (apply Z.log2_lt_pow2; lia). lia.
Qed.

Lemma scalarMult_on_curve s k x y :
  0 < p s -> on_curve s (affine x y) ->
  match scalarMult s k (affine x y) with
  | Val pt => on_curve s pt
  | Fail _ => False
  | Panic => exists j q, (j < BitLen k)%nat /\ doublings s j (affine x y) = Val q /\ Inf q = true
  end.
Proof.
  intros Hp Hc. unfold scalarMult. rewrite copy_point_affine, bind_val.
  by apply mult_loop_on_curve.
Qed.

(** ** Lifting an x-coordinate *)

(** What the curve parameters must satisfy; discharged for the program's
    constants in Curve25519.v. *)
Record curve_ok (s : mtweiState) : Prop := {
  co_prime : Z.prime (p s);
  co_sqrt : sqrt_modulus (p s);
  co_size : p s < 256 ^ 32;
  co_shift : w2m s + m2w s =[p s]= 0;
  co_generator : on_curve s (generator s);
  co_order : 0 < n s;
}.

Section Lift.
Context (s : mtweiState) (Hs : curve_ok s).

Lemma p_pos : 0 < p s.
Proof. pose proof (sm_gt _ (co_sqrt _ Hs)). lia. Qed.
Lemma p_odd : p s mod 2 = 1.
Proof.
  pose proof (sm_mod8 _ (co_sqrt _ Hs)) as H. pose proof (Z.div_mod (p s) 8 ltac:(lia)) as Hd.
  rewrite Hd, H. replace (8 * (p s / 8) + 5) with (1 + (4 * (p s / 8) + 2) * 2) by ring.
  by rewrite Z_mod_plus_full.
Qed.

Lemma Bit_0 y : Bit y 0 = y mod 2.
Proof. unfold Bit. by rewrite Z.bit0_mod. Qed.

Lemma Bit_0_u8 y : u8 (Bit y 0) = y mod 2.
Proof. rewrite Bit_0, u8_id; [done|]. pose proof (Z.mod_pos_bound y 2). word_lia. Qed.

(** The right-hand side as [liftX] reduces it. *)
Lemma lift_rhs x : (x * x) mod p s * x + a s * x + b s =[p s]= cubic s x.
Proof. rewrite mod_eqm. reflexivity. Qed.

(** The parity of the other root. *)
Lemma other_parity y par :
  0 <= y < p s -> par = 0 \/ par = 1 -> y mod 2 <> par -> (p s - y) mod 2 = par.
Proof.
  intros Hy Hpar Hne. pose proof p_odd. rewrite Zminus_mod, p_odd.
  pose proof (Z.mod_pos_bound y 2 ltac:(lia)).
  assert (y mod 2 = 0 \/ y mod 2 = 1) as [E|E] by lia; rewrite E in *;
    destruct Hpar; subst; done.
Qed.

Lemma liftX_sound x yParity pt :
  0 <= x < p s -> liftX s x yParity = Some pt ->
  exists y, pt = affine x y /\ on_curve s pt
    /\ (yParity = 0 \/ yParity = 1 -> Bit y 0 = yParity).
Proof.
  intros Hx. unfold liftX. cbv zeta.
  destruct (ModSqrt _ _) as [y|] eqn:Hy; [|done]. cbn [mbind option_bind].
  apply ModSqrt_sound in Hy as [Hy Hr]; [|apply Hs]. rewrite mod_eqm, lift_rhs in Hy.
  intros [= <-]. eexists. split; [reflexivity|]. rewrite Bit_0_u8.
  case_decide as Hpar.
  - split; [|rewrite Bit_0; intros; by apply other_parity].
    cbn. split_and!; try lia. rewrite <- Hy.
    exists (p s - 2 * y). ring.
  - split; [cbn; split_and!; lia || done|]. rewrite Bit_0. intros _.
    by destruct (decide (y mod 2 = yParity)).
Qed.

Lemma liftX_complete x y yParity :
  y * y =[p s]= cubic s x -> exists pt, liftX s x yParity = Some pt.
Proof.
  intros Hy. unfold liftX. cbv zeta.
  destruct (ModSqrt_complete (p s) (((x * x) mod p s * x + a s * x + b s) mod p s) y) as [z ->];
    [apply Hs|apply Hs| |by eexists].
  by rewrite mod_eqm, lift_rhs.
Qed.

(** Two square roots of the same parity are equal, [p] standing for the
    negated root of 0. *)
Lemma root_unique y z :
  0 <= y <= p s -> 0 <= z <= p s -> y * y =[p s]= z * z -> y mod 2 = z mod 2 -> z = y.
Proof.
  intros Hy Hz Heq Hpar. pose proof p_pos. pose proof p_odd as Hodd.
  assert (p s | (y - z) * (y + z)) as Hdiv.
  { unfold eqm in Heq. by replace ((y - z) * (y + z)) with (y * y - z * z) by ring. }
  apply Z.divide_prime_mul in Hdiv; [|apply Hs].
  assert ((p s - y) mod 2 <> y mod 2) as Hother.
  { rewrite Zminus_mod, Hodd. pose proof (Z.mod_pos_bound y 2 ltac:(lia)).
    assert (y mod 2 = 0 \/ y mod 2 = 1) as [E|E] by lia; by rewrite E. }
  destruct Hdiv as [[k Hk]|[k Hk]].
  - assert (k = -1 \/ k = 0 \/ k = 1) as [->|[->| ->]] by nia; [|lia|].
    + exfalso. apply Hother. rewrite Hpar. f_equal. lia.
    + exfalso. apply Hother. rewrite Hpar. f_equal. lia.
  - assert (k = 0 \/ k = 1 \/ k = 2) as [->|[->| ->]] by nia; [lia| |lia].
    exfalso. apply Hother. rewrite Hpar. f_equal. lia.
Qed.

(** A point is recovered from its x-coordinate and the parity of y. *)
Lemma liftX_affine x y :
  on_curve s (affine x y) -> liftX s x (u8 (Bit y 0)) = Some (affine x y).
Proof.
  intros (Hx & Hy & Hc). rewrite Bit_0_u8. destruct (liftX_complete x y (y mod 2) Hc) as [pt Hpt].
  rewrite Hpt. destruct (liftX_sound x (y mod 2) pt Hx Hpt) as (z & -> & (_ & Hz & Hcz) & Hpar).
  pose proof (Z.mod_pos_bound y 2 ltac:(lia)). rewrite Bit_0 in Hpar.
  rewrite (root_unique y z); [done|lia|lia|by rewrite Hc, Hcz|]. rewrite Hpar; lia.
Qed.

(** The Montgomery x-coordinate on the wire is shifted back exactly. *)
Lemma shift_back x : 0 <= x < p s -> ((x + w2m s) mod p s + m2w s) mod p s = x.
Proof.
  intros Hx. apply (eqm_small (p s)); [apply Z.mod_pos_bound; lia|lia|].
  rewrite !mod_eqm. apply (eqm_lin1 _ 1 _ _ _ _ (co_shift _ Hs)). ring.
Qed.
End Lift.

(** ** The search of [tangle] *)

#[local] Opaque sha256.

Lemma sha256_word_range m : 0 <= be_word (sha256 m) < 256 ^ 32.
Proof.
  pose proof (be_word_range (sha256 m) (sha256_ok m)) as H. rewrite sha256_length in H. exact H.
Qed.


(** The x-coordinate tried for the seed [edpx]. *)
Definition candidate (s : mtweiState) (edpx : Z) : Z :=
  (SetBytes (sha256 (be_digits 32 edpx)) + m2w s) mod p s.

(** [edpx + i] is the first seed whose candidate lifts. *)
Definition first_lift (s : mtweiState) (par edpx : Z) (pt : point) : Prop :=
  exists i : nat, edpx + Z.of_nat i < 256 ^ 32
    /\ liftX s (candidate s (edpx + Z.of_nat i)) par = Some pt
    /\ forall j : nat, (j < i)%nat -> liftX s (candidate s (edpx + Z.of_nat j)) par = None.

Lemma lift_search_spec fuel s par : forall edpx,
  0 <= edpx ->
  match lift_search fuel s par edpx with
  | Val pt => first_lift s par edpx pt
  | Fail e => e = fuel_exhausted
      /\ forall j : nat, (j < fuel)%nat -> liftX s (candidate s (edpx + Z.of_nat j)) par = None
  | Panic => 256 ^ 32 < edpx + Z.of_nat fuel
  end.
Proof.
  induction fuel as [|fuel IH]; intros edpx He; [split; [done|lia]|].
  cbn [lift_search].
  assert (edpx = edpx + Z.of_nat 0) as E0 by lia.
  destruct (decide (edpx < 256 ^ 32)) as [Hlt|Hge].
  2: { unfold FillBytes. rewrite Z.abs_eq, decide_False by (change (Z.of_nat 32) with 32; lia).
       cbn [mbind outcome_bind]. lia. }
  rewrite FillBytes_val, bind_val by (change (Z.of_nat 32) with 32; lia). cbv zeta.
  fold (candidate s edpx).
  destruct (liftX s (candidate s edpx) par) as [pt|] eqn:Hl.
  - exists 0%nat. rewrite <- E0. split_and!; [done|done|lia].
  - specialize (IH (edpx + 1) ltac:(lia)).
    assert (forall j : nat, edpx + 1 + Z.of_nat j = edpx + Z.of_nat (S j)) as Hj by lia.
    destruct (lift_search fuel s par (edpx + 1)) as [pt|e|].
    + destruct IH as (i & Hi & Hpt & Hbefore). exists (S i). rewrite <- Hj. split_and!; [done..|].
      intros [|j] Hlt'; [by rewrite <- E0|]. rewrite <- Hj. apply Hbefore. lia.
    + destruct IH as [-> Hbefore]. split; [done|].
      intros [|j] Hlt'; [by rewrite <- E0|]. rewrite <- Hj. apply Hbefore. lia.
    + lia.
Qed.

(** Infinity comes up while computing [k P]. *)
Definition meets_infinity (s : mtweiState) (k : Z) (pt : point) : Prop :=
  (exists j q, (j < BitLen k)%nat /\ doublings s j pt = Val q /\ Inf q = true)
  \/ scalarMult s k pt = Val infinity.

Section Protocol.
Context (s : mtweiState) (Hs : curve_ok s).

Lemma mult_affine k x y :
  on_curve s (affine x y) -> ~ meets_infinity s k (affine x y) ->
  exists x' y', scalarMult s k (affine x y) = Val (affine x' y') /\ on_curve s (affine x' y').
Proof.
  intros Hc Hm. unfold meets_infinity in Hm.
  pose proof (scalarMult_on_curve s k x y (p_pos s Hs) Hc) as H.
  destruct (scalarMult s k (affine x y)) as [pt| |]; [|done|tauto].
  pose proof H as [->|(x' & y' & -> & _)]%on_curve_inv; [tauto|]. by exists x', y'.
Qed.

Lemma FillBytes_coord z : FillBytes (E := mtwei_error) 32 (z mod p s) = Val (be_digits 32 (z mod p s)).
Proof.
  pose proof (Z.mod_pos_bound z (p s) (p_pos s Hs)). pose proof (co_size s Hs).
  apply FillBytes_val. change (Z.of_nat 32) with 32. lia.
Qed.

Lemma generator_affine : on_curve s (affine (gx s) (gy s)).
Proof. apply (co_generator s Hs). Qed.

(** The seed from which [tangle] searches: the hash of the validator
    point's Montgomery x-coordinate. *)
Definition tangle_seed (validator : bytes) (seed : Z) : Prop :=
  exists vx vy, scalarMult s (be_word validator) (generator s) = Val (affine vx vy)
    /\ seed = be_word (sha256 (be_digits 32 ((vx + w2m s) mod p s))).

Lemma tangle_spec fuel target validator par :
  on_curve s target -> ~ meets_infinity s (be_word validator) (generator s) ->
  exists seed, tangle_seed validator seed /\ 0 <= seed < 256 ^ 32
    /\ match tangle fuel s target validator par with
       | Val (sum, v) => v = be_word validator /\ on_curve s sum
           /\ exists L, first_lift s par seed L /\ on_curve s L /\ add s target L = Val sum
       | Fail e => e = fuel_exhausted
           /\ forall j : nat, (j < fuel)%nat -> liftX s (candidate s (seed + Z.of_nat j)) par = None
       | Panic => 256 ^ 32 < seed + Z.of_nat fuel
       end.
Proof.
  intros Ht Hinf.
  destruct (mult_affine _ _ _ generator_affine Hinf) as (vx & vy & Hv & _).
  exists (be_word (sha256 (be_digits 32 ((vx + w2m s) mod p s)))).
  split; [by exists vx, vy|]. set (seed := be_word _).
  assert (0 <= seed < 256 ^ 32) as Hseed.
  { subst seed. apply sha256_word_range. }
  split; [done|]. unfold tangle. cbv zeta. unfold SetBytes, generator.
  rewrite Hv. cbn [mbind outcome_bind deref affine X].
  rewrite FillBytes_coord, bind_val. fold seed.
  pose proof (lift_search_spec fuel s par seed (proj1 Hseed)) as Hl.
  destruct (lift_search fuel s par seed) as [L| |]; [|done|done].
  rewrite bind_val. pose proof Hl as (i & Hi & HL & _).
  apply (liftX_sound s Hs) in HL as (ly & -> & HLc & _);
    [|apply Z.mod_pos_bound, p_pos, Hs].
  destruct (add_on_curve s target _ (p_pos s Hs) Ht HLc ltac:(by right)) as (sum & Hsum & Hsc).
  rewrite Hsum, bind_val. split; [done|]. split; [done|].
  exists (affine (candidate s (seed + Z.of_nat i)) ly). by split_and!.
Qed.
End Protocol.

(** ** Key generation *)

(** The big-endian value of 32 bytes, by its first and last byte. *)
Lemma be_word_ends r0 mid r31 :
  length mid = 30%nat -> be_word (r0 :: mid ++ [r31]) = (r0 * 256 ^ 30 + be_word mid) * 256 + r31.
Proof.
  intros Hmid. rewrite app_comm_cons, be_word_snoc. do 2 f_equal.
  assert (forall l acc, foldl (fun acc x => acc * 256 + x) acc l
            = acc * 256 ^ Z.of_nat (length l) + be_word l) as Hfold.
  { induction l as [|x l IH] using rev_ind; intros acc; [cbn; lia|].
    rewrite be_word_snoc, foldl_app, IH, length_app, Nat2Z.inj_add, Z.pow_add_r by lia.
    cbn [foldl length]. change (256 ^ Z.of_nat 1) with 256. ring. }
  unfold be_word at 1. cbn [foldl]. rewrite Hfold, Hmid. change (Z.of_nat 30) with 30. ring.
Qed.

Lemma clamp_val raw :
  length raw = 32%nat ->
  exists r0 mid r31, raw = r0 :: mid ++ [r31] /\ length mid = 30%nat
    /\ clamp raw = Val (Z.land r0 248 :: mid ++ [Z.lor (Z.land r31 127) 64]).
Proof.
  intros Hlen. destruct raw as [|r0 raw]; [done|].
  destruct (exists_last (l := raw)) as (mid & r31 & ->); [by intros ->|].
  exists r0, mid, r31. cbn [length] in Hlen. rewrite length_app in Hlen. cbn [length] in Hlen.
  assert (length mid = 30%nat) as Hmid by lia. split_and!; [done|done|].
  do 30 (destruct mid as [|? mid]; [discriminate|]). destruct mid; [|discriminate]. reflexivity.
Qed.

Lemma clamp_first r : is_u8 r -> is_u8 (Z.land r 248) /\ Z.land r 248 mod 8 = 0.
Proof.
  intros Hr. assert (((0 <=? Z.land r 248) && (Z.land r 248 <? 256)
                      && (Z.land r 248 mod 8 =? 0)) = true) as H.
  { revert r Hr. apply byte_forall. vm_compute. reflexivity. }
  unfold is_u8. change (2 ^ 8) with 256. lia.
Qed.
Lemma clamp_last r : is_u8 r -> 64 <= Z.lor (Z.land r 127) 64 < 128.
Proof.
  intros Hr. assert (((64 <=? Z.lor (Z.land r 127) 64) && (Z.lor (Z.land r 127) 64 <? 128)) = true) as H.
  { revert r Hr. apply byte_forall. vm_compute. reflexivity. }
  lia.
Qed.

(** The shape of a clamped scalar: the three lowest bits of its most
    significant byte are clear, and its least significant byte is in
    [64, 128). *)
Lemma clamp_spec raw :
  length raw = 32%nat -> bytes_ok raw ->
  exists c, clamp raw = Val c /\ length c = 32%nat /\ bytes_ok c
    /\ (be_word c / 256 ^ 31) mod 8 = 0 /\ 64 <= be_word c mod 256 < 128.
Proof.
  intros Hlen Hok. destruct (clamp_val raw Hlen) as (r0 & mid & r31 & -> & Hmid & Hc).
  inv_Forall. assert (is_u8 r0 /\ is_u8 r31 /\ bytes_ok mid) as (Hr0 & Hr31 & Hm) by done.
  eexists. split; [exact Hc|].
  destruct (clamp_first r0 Hr0) as [Hb Hb8]. pose proof (clamp_last r31 Hr31) as Hl.
  set (c0 := Z.land r0 248) in *. set (c31 := Z.lor (Z.land r31 127) 64) in *.
  pose proof (be_word_range mid Hm) as Hw. rewrite Hmid in Hw. change (Z.of_nat 30) with 30 in Hw.
  split; [cbn; rewrite length_app, Hmid; reflexivity|].
  split; [apply Forall_cons_2; [done|]; apply Forall_app_2; [done|apply Forall_singleton; word_lia]|].
  rewrite be_word_ends by done. set (w := be_word mid) in *.
  assert (((c0 * 256 ^ 30 + w) * 256 + c31) / 256 ^ 31 = c0) as ->.
  { change (256 ^ 31) with (256 ^ 30 * 256). symmetry.
    apply (Z.div_unique _ _ _ (w * 256 + c31)); [nia|ring]. }
  split; [done|]. rewrite Z.add_comm, Z_mod_plus_full, Z.mod_small; lia.
Qed.
