(* ===== verification/Curve25519.v ===== *)
(** * The EC-SRP curve's constants

    The literals of [newMtweiState] are a curve on which the arithmetic of
    Mtwei.v is correct: the modulus is the prime 2^255 - 19, the generator
    satisfies the equation, and the two x-coordinate shifts cancel. *)

From S2P Require Import Prelude GoBytes GoHash BigInt Primality Auth Mtwei.

#[local] Open Scope Z_scope.
#[local] Opaque sha256.

Lemma newMtweiState_p : p newMtweiState = 2 ^ 255 - 19.
Proof. reflexivity. Qed.

Lemma newMtweiState_ok : curve_ok newMtweiState.
Proof.
  split.
  - rewrite newMtweiState_p. exact prime_25519.
  - rewrite newMtweiState_p. exact sqrt_modulus_25519.
  - reflexivity.
  - exists 1. reflexivity.
  - cbn -[p a b gx gy]. split_and!; try (vm_compute; discriminate) || reflexivity.
    apply eqm_mod; [reflexivity|]. vm_compute. reflexivity.
  - reflexivity.
Qed.

(** The program's curve: [s] below is always [newMtweiState]. *)
Abbreviation st := newMtweiState.

(** ** Properties *)

(** C23. The group operations stay on the curve. Doubling never panics;
    addition panics only for two infinities, whose nil coordinates it
    copies; [scalarMult] of a finite curve point by any scalar returns a
    curve point, unless some doubling of the point inside the scalar's bit
    length is infinity. *)
Theorem point_arithmetic_on_curve P Q k :
  on_curve st P -> on_curve st Q ->
  (exists R, double st P = Val R /\ on_curve st R)
  /\ match add st P Q with
     | Val R => on_curve st R
     | Panic => P = infinity /\ Q = infinity
     | Fail _ => False
     end
  /\ match scalarMult st k P with
     | Val R => on_curve st R
     | Panic => P = infinity \/ exists j R, (j < BitLen k)%nat /\ doublings st j P = Val R /\ Inf R = true
     | Fail _ => False
     end.
Proof.
  intros HP HQ. assert (0 < p st) as Hp by done. split_and!.
  - by apply double_on_curve.
  - destruct (Inf P) eqn:HiP, (Inf Q) eqn:HiQ.
    1: { rewrite add_infinities by done. split.
         - by apply on_curve_inv in HP as [->|(? & ? & -> & _)].
         - by apply on_curve_inv in HQ as [->|(? & ? & -> & _)]. }
    all: by destruct (add_on_curve st P Q Hp HP HQ) as (R & -> & HR); [tauto|].
  - pose proof HP as [->|(x & y & -> & _)]%on_curve_inv; [by left|].
    pose proof (scalarMult_on_curve st k x y Hp HP) as H.
    destruct (scalarMult st k (affine x y)); [done|done|by right].
Qed.

Lemma point_arithmetic_on_curve_witness :
  let G := generator st in
  (exists R, double st G = Val R /\ on_curve st R)
  /\ match add st G infinity with
     | Val R => on_curve st R
     | Panic => G = infinity /\ infinity = infinity
     | Fail _ => False
     end
  /\ match scalarMult st 5 G with
     | Val R => on_curve st R
     | Panic => G = infinity \/ exists j R, (j < BitLen 5)%nat /\ doublings st j G = Val R /\ Inf R = true
     | Fail _ => False
     end.
Proof.
  apply (point_arithmetic_on_curve (generator st) infinity 5);
    [exact (co_generator st newMtweiState_ok)|exact I].
Defined.

(** C22. [liftX] decides whether an x-coordinate is on the curve and returns
    the point with the parity asked for: it fails exactly when the
    right-hand side is not a square. *)
Theorem liftX_correct x yParity :
  0 <= x < p st -> yParity = 0 \/ yParity = 1 ->
  match liftX st x yParity with
  | Some pt => exists y, pt = affine x y /\ on_curve st pt /\ Bit y 0 = yParity
  | None => forall y, ~ y * y =[p st]= cubic st x
  end.
Proof.
  intros Hx Hpar. destruct (liftX st x yParity) as [pt|] eqn:Hl.
  - destruct (liftX_sound st newMtweiState_ok x yParity pt Hx Hl) as (y & ? & ? & ?). eauto.
  - intros y Hy. destruct (liftX_complete st newMtweiState_ok x y yParity Hy) as [pt Hpt].
    by rewrite Hl in Hpt.
Qed.

Lemma liftX_correct_witness :
  match liftX st 9 1 with
  | Some pt => exists y, pt = affine 9 y /\ on_curve st pt /\ Bit y 0 = 1
  | None => forall y, ~ y * y =[p st]= cubic st 9
  end.
Proof. apply (liftX_correct 9 1); [split; [discriminate|reflexivity]|by right]. Defined.

(** C21. Key generation, for a client ([validator] nil): on 32 random bytes
    the scalar is the clamped bytes read big-endian, and the 33-byte public
    key identifies the public point: shifting its x-coordinate back and
    lifting with its parity byte recovers exactly [priv * G]. The only
    panic is a scalar multiple that meets infinity. *)
Theorem keygen_pubkey_decodes fuel raw :
  length raw = 32%nat -> bytes_ok raw ->
  match keygen fuel st (Some raw) None with
  | Val (priv, pubKey) =>
      length pubKey = 33%nat /\ bytes_ok pubKey
      /\ clamp raw = Val (be_digits 32 priv)
      /\ (priv / 256 ^ 31) mod 8 = 0 /\ 64 <= priv mod 256 < 128
      /\ exists P parity, scalarMult st priv (generator st) = Val P
         /\ pubKey = take 32 pubKey ++ [parity]
         /\ liftX st ((be_word (take 32 pubKey) + m2w st) mod p st) parity = Some P
  | Fail _ => False
  | Panic => exists priv, clamp raw = Val (be_digits 32 priv) /\ meets_infinity st priv (generator st)
  end.
Proof.
  generalize newMtweiState_ok. generalize newMtweiState. intros s Hs Hlen Hok.
  destruct (clamp_spec raw Hlen Hok) as (c & Hc & Hcl & Hcok & Hhi & Hlo).
  pose proof (be_word_range c Hcok) as Hr. rewrite Hcl in Hr.
  assert (be_digits 32 (be_word c) = c) as Hround.
  { rewrite <- Hcl. apply be_digits_word. done. }
  unfold keygen. rewrite Hc, bind_val. cbv zeta. unfold SetBytes.
  pose proof (scalarMult_on_curve s (be_word c) _ _ (p_pos s Hs) (generator_affine s Hs)) as Hm.
  change (affine (gx s) (gy s)) with (generator s) in Hm.
  destruct (scalarMult s (be_word c) (generator s)) as [P| |] eqn:HP; [|done|].
  2: { exists (be_word c). rewrite Hround. split; [done|by left]. }
  rewrite !bind_val. apply on_curve_inv in Hm as [->|(x & y & -> & Hx & Hy & Hxy)].
  { exists (be_word c). rewrite Hround. split; [done|by right]. }
  cbn [affine X Y deref]. rewrite bind_val, (FillBytes_coord s Hs), !bind_val.
  set (wire := be_digits 32 ((x + w2m s) mod p s)).
  assert (length wire = 32%nat) as Hw by apply be_digits_length.
  split_and!; [by rewrite length_app, Hw|apply Forall_app_2; [apply be_digits_ok|]|by rewrite Hround|done|lia|lia|].
  { apply Forall_singleton. apply u8_range. }
  exists (affine x y), (u8 (Bit y 0)). rewrite <- Hw, take_app_length. split_and!; [done|done|].
  unfold wire. rewrite be_word_digits.
  - rewrite (shift_back s Hs) by done.
    by apply (liftX_affine s Hs).
  - pose proof (Z.mod_pos_bound (x + w2m s) (p s) (p_pos s Hs)).
    pose proof (co_size s Hs). change (Z.of_nat 32) with 32. lia.
Qed.

Lemma keygen_pubkey_decodes_witness :
  let raw := replicate 32 17 in
  match keygen 8 st (Some raw) None with
  | Val (priv, pubKey) =>
      length pubKey = 33%nat /\ bytes_ok pubKey
      /\ clamp raw = Val (be_digits 32 priv)
      /\ (priv / 256 ^ 31) mod 8 = 0 /\ 64 <= priv mod 256 < 128
      /\ exists P parity, scalarMult st priv (generator st) = Val P
         /\ pubKey = take 32 pubKey ++ [parity]
         /\ liftX st ((be_word (take 32 pubKey) + m2w st) mod p st) parity = Some P
  | Fail _ => False
  | Panic => exists priv, clamp raw = Val (be_digits 32 priv) /\ meets_infinity st priv (generator st)
  end.
Proof.
  apply (keygen_pubkey_decodes 8 (replicate 32 17)); [reflexivity|].
  repeat constructor; discriminate.
Defined.

(** C20. The client's answer to an EC-SRP challenge. A server key whose
    x-coordinate is not on the curve is refused, and only such a key; the
    response is 32 bytes: the hash of the two keys' hash and the Montgomery
    x-coordinate of [(v h + priv) (S + L)], with [S] the server's point and
    [L] the validator's, found by the first candidate of the search that
    lifts. The search can only fail by running out of candidates, and a
    panic needs infinity or a seed at the very end of the range. *)
Theorem docrypto_response fuel priv serverKey clientKey validator :
  length serverKey = 33%nat ->
  ~ meets_infinity st (be_word validator) (generator st) ->
  let sx := (be_word (take 32 serverKey) + m2w st) mod p st in
  let h := sha256 (take 32 clientKey ++ take 32 serverKey) in
  let vh := ((be_word validator * be_word h) mod n st + priv) mod n st in
  let server S := exists parity, serverKey !! 32%nat = Some parity
                    /\ liftX st sx parity = Some S /\ on_curve st S in
  let tangled S T := exists seed L, tangle_seed st validator seed
                    /\ first_lift st 1 seed L /\ add st S L = Val T /\ on_curve st T in
  match docrypto fuel st priv serverKey clientKey validator with
  | Val out => length out = 32%nat
      /\ exists S T zx zy, server S /\ tangled S T /\ scalarMult st vh T = Val (affine zx zy)
         /\ out = sha256 (h ++ be_digits 32 ((zx + w2m st) mod p st))
  | Fail errServerKey => forall y, ~ y * y =[p st]= cubic st sx
  | Fail fuel_exhausted => exists seed, tangle_seed st validator seed
      /\ forall j : nat, (j < fuel)%nat -> liftX st (candidate st (seed + Z.of_nat j)) 1 = None
  | Fail errRand => False
  | Panic => (exists seed, tangle_seed st validator seed /\ 256 ^ 32 < seed + Z.of_nat fuel)
      \/ exists S T, server S /\ tangled S T /\ (T = infinity \/ meets_infinity st vh T)
  end.
Proof.
  generalize newMtweiState_ok. generalize newMtweiState. intros s Hs Hlen Hinf.
  intros sx h vh server tangled. unfold docrypto. cbv zeta. unfold SetBytes. fold sx.
  destruct (index_lt (E := mtwei_error) serverKey 32) as (parity & -> & Hat); [lia|].
  rewrite bind_val.
  assert (0 <= sx < p s) as Hsx by apply Z.mod_pos_bound, (p_pos s Hs).
  destruct (liftX s sx parity) as [S|] eqn:HS.
  2: { intros y Hy. destruct (liftX_complete s Hs sx y parity Hy) as [pt Hpt].
       by rewrite HS in Hpt. }
  assert (server S) as HserverS.
  { exists parity. split_and!; [done..|].
    by destruct (liftX_sound s Hs sx parity S Hsx HS) as (y & _ & ? & _). }
  pose proof HserverS as (_ & _ & _ & HSc).
  destruct (tangle_spec s Hs fuel S validator 1 HSc Hinf) as (seed & Hseed & Hr & Ht).
  destruct (tangle fuel s S validator 1) as [[T v]|e|].
  2: { destruct Ht as [-> Ht]. by exists seed. }
  2: { left. by exists seed. }
  destruct Ht as (-> & HTc & L & HL & _ & HT). rewrite bind_val. cbv beta iota.
  fold h. fold vh.
  assert (tangled S T) as Htangled by (by exists seed, L).
  pose proof HTc as [->|(tx & ty & -> & _)]%on_curve_inv.
  { right. exists S, infinity. split_and!; [done..|by left]. }
  pose proof (scalarMult_on_curve s vh tx ty (p_pos s Hs) HTc) as Hm.
  destruct (scalarMult s vh (affine tx ty)) as [Z| |] eqn:HZ; [|done|].
  2: { right. exists S, (affine tx ty). split_and!; [done..|right; by left]. }
  rewrite bind_val. apply on_curve_inv in Hm as [->|(zx & zy & -> & _)].
  { right. exists S, (affine tx ty). split_and!; [done..|right; by right]. }
  cbn [affine X deref]. rewrite bind_val, (FillBytes_coord s Hs), bind_val.
  split; [apply sha256_length|]. by exists S, (affine tx ty), zx, zy.
Qed.

(** A validator of 1: the walk is a single addition. *)
Lemma scalarMult_1_G : ~ meets_infinity st 1 (generator st).
Proof.
  generalize (co_generator st newMtweiState_ok). generalize (eq_refl : (0 <? p st) = true).
  unfold generator. generalize newMtweiState. intros s Hp Hc.
  destruct (double_on_curve s _ ltac:(lia) Hc) as (D & HD & _).
  intros [(j & q & Hj & Hq & Hinf)|Hm].
  - assert (j = 0)%nat as -> by (revert Hj; unfold BitLen; cbn; lia).
    injection Hq as <-. discriminate Hinf.
  - unfold scalarMult in Hm. rewrite copy_point_affine, bind_val in Hm.
    change (BitLen 1) with 1%nat in Hm. cbn [mult_loop] in Hm.
    rewrite decide_True in Hm by done. unfold add in Hm. cbn [infinity Inf] in Hm.
    rewrite copy_point_affine, bind_val, HD in Hm. discriminate Hm.
Qed.

Lemma docrypto_response_witness :
  let validator := replicate 31 0 ++ [1] in
  let serverKey := replicate 33 1 in
  let clientKey := replicate 33 2 in
  let sx := (be_word (take 32 serverKey) + m2w st) mod p st in
  let h := sha256 (take 32 clientKey ++ take 32 serverKey) in
  let vh := ((be_word validator * be_word h) mod n st + 64) mod n st in
  let server S := exists parity, serverKey !! 32%nat = Some parity
                    /\ liftX st sx parity = Some S /\ on_curve st S in
  let tangled S T := exists seed L, tangle_seed st validator seed
                    /\ first_lift st 1 seed L /\ add st S L = Val T /\ on_curve st T in
  match docrypto 8 st 64 serverKey clientKey validator with
  | Val out => length out = 32%nat
      /\ exists S T zx zy, server S /\ tangled S T /\ scalarMult st vh T = Val (affine zx zy)
         /\ out = sha256 (h ++ be_digits 32 ((zx + w2m st) mod p st))
  | Fail errServerKey => forall y, ~ y * y =[p st]= cubic st sx
  | Fail fuel_exhausted => exists seed, tangle_seed st validator seed
      /\ forall j : nat, (j < 8)%nat -> liftX st (candidate st (seed + Z.of_nat j)) 1 = None
  | Fail errRand => False
  | Panic => (exists seed, tangle_seed st validator seed /\ 256 ^ 32 < seed + Z.of_nat 8)
      \/ exists S T, server S /\ tangled S T /\ (T = infinity \/ meets_infinity st vh T)
  end.
Proof.
  apply (docrypto_response 8 64 (replicate 33 1) (replicate 33 2) (replicate 31 0 ++ [1]));
    [reflexivity|].
  exact scalarMult_1_G.
Defined.
