(* ===== verification/Frame.v ===== *)
(** * Link-layer frames (mactelnet/conn.go, sending)

    The Ethernet + optional 802.1Q + IPv4 + UDP frame the raw sender emits,
    the sender's state, and the Internet checksum. *)

From S2P Require Import Prelude GoBytes Protocol.

#[local] Open Scope Z_scope.

Definition ethPIP : Z := 0x0800.
Definition ethP8021Q : Z := 0x8100.
Definition ethLen : nat := 14.
Definition dot1qLen : nat := 4.
Definition ipLen : nat := 20.
Definition udpLen : nat := 8.
Definition broadcastMAC : bytes := replicate 6 0xff.

(** [func htons(v uint16) uint16] *)
Definition htons (v : Z) : Z :=
  Z.lor (Z.land (u16 (Z.shiftl v 8)) 0xff00) (Z.land (Z.shiftr v 8) 0xff).

(** ** The Internet checksum *)

(** [for i := 0; i+1 < len(b); i += 2 { sum += uint32(BigEndian(b[i:])) }],
    then the odd trailing byte. *)
Fixpoint sum_words (b : bytes) (sum : Z) : Z :=
  match b with
  | b0 :: b1 :: b => sum_words b (u32 (sum + Z.lor b1 (Z.shiftl b0 8)))
  | [b0] => u32 (sum + Z.shiftl b0 8)
  | [] => sum
  end.

(** [for sum>>16 != 0 { sum = (sum & 0xffff) + (sum >> 16) }]; [None] when
    [fuel] turns were not enough. *)
Fixpoint fold_carries (fuel : nat) (sum : Z) : option Z :=
  match fuel with
  | O => None
  | S fuel =>
      if decide (Z.shiftr sum 16 <> 0)
      then fold_carries fuel (u32 (Z.land sum 0xffff + Z.shiftr sum 16))
      else Some sum
  end.

Definition carry_fuel : nat := 3.

(** [func internetChecksum(b []byte) uint16] *)
Definition internetChecksum (b : bytes) : option Z :=
  sum ← fold_carries carry_fuel (sum_words b 0);
  Some (u16 (Z.lnot (u16 sum))).

(** ** Building frames *)

(** What can go wrong in [buildFrame] besides a panic: nothing but a
    checksum loop that does not end. *)
Inductive frame_error := checksum_fuel.
Abbreviation framing := (outcome frame_error).

Definition checksum (b : bytes) : framing Z :=
  match internetChecksum b with Some c => Val c | None => Fail checksum_fuel end.

(** [func buildFrame(srcMAC, dstMAC [6]byte, vlanID, ipID uint16,
    payload []byte) []byte].  [ip] and [udp] alias [pkt], so stores through
    them are stores into [pkt] at the slice's offset. *)
Definition buildFrame (srcMAC dstMAC : bytes) (vlanID ipID : Z) (payload : bytes)
    : framing bytes :=
  let tagLen := if decide (vlanID <> 0) then dot1qLen else 0%nat in
  let total := (ethLen + tagLen + ipLen + udpLen + length payload)%nat in
  let pkt := make total in
  pkt ← copy_at pkt 0 6 dstMAC;
  pkt ← copy_at pkt 6 12 srcMAC;
  pkt ← (if decide (vlanID <> 0) then
           pkt ← copy_at pkt 12 14 (put_be16 ethP8021Q);
           pkt ← copy_at pkt 14 16 (put_be16 (Z.land vlanID 0x0fff));
           copy_at pkt 16 18 (put_be16 ethPIP)
         else copy_at pkt 12 14 (put_be16 ethPIP));
  let ip := (ethLen + tagLen)%nat in
  pkt ← set_index pkt ip 0x45;
  pkt ← set_index pkt (ip + 1) 0x00;
  pkt ← copy_at pkt (ip + 2) (ip + 4)
          (put_be16 (u16 (Z.of_nat (ipLen + udpLen + length payload))));
  pkt ← copy_at pkt (ip + 4) (ip + 6) (put_be16 ipID);
  pkt ← copy_at pkt (ip + 6) (ip + 8) (put_be16 0);
  pkt ← set_index pkt (ip + 8) 64;
  pkt ← set_index pkt (ip + 9) 17;
  pkt ← set_index pkt (ip + 16) 0xff;
  pkt ← set_index pkt (ip + 17) 0xff;
  pkt ← set_index pkt (ip + 18) 0xff;
  pkt ← set_index pkt (ip + 19) 0xff;
  hdr ← slice pkt ip (ip + ipLen);
  sum ← checksum hdr;
  pkt ← copy_at pkt (ip + 10) (ip + 12) (put_be16 sum);
  let udp := (ip + ipLen)%nat in
  pkt ← copy_at pkt udp (udp + 2) (put_be16 udpPort);
  pkt ← copy_at pkt (udp + 2) (udp + 4) (put_be16 udpPort);
  pkt ← copy_at pkt (udp + 4) (udp + 6)
          (put_be16 (u16 (Z.of_nat (udpLen + length payload))));
  copy_at pkt (udp + udpLen) (length pkt) payload.

(** ** The raw sender *)

Record rawSender := mkSender {
  snd_fd : nat;
  snd_ifindex : Z;
  snd_srcMAC : bytes;
  snd_ipID : Z;
  snd_vlanID : Z;
  snd_sendErrCount : Z;
}.

(** [syscall.SockaddrLinklayer], the fields [Send] sets. *)
Record linklayer := mkLinklayer {
  ll_Protocol : Z;
  ll_Ifindex : Z;
  ll_Halen : Z;
  ll_Addr : bytes;
}.

(** The sender [openRawSender] makes of its socket [fd]: the hardware address
    is copied into a [[6]byte]. *)
Definition new_sender (fd : nat) (ifindex : Z) (hardwareAddr : bytes) (vlanID : Z) : rawSender :=
  mkSender fd ifindex (take 6 (hardwareAddr ++ make 6)) 0 vlanID 0.

(** [func (r *rawSender) Send(payload []byte, dstMAC [6]byte) error].
    [errno] is what [syscall.Sendto] answers; the result is the state
    afterwards, the frame and address handed to the kernel, and the
    returned error. *)
Definition Send (r : rawSender) (payload dstMAC : bytes) (errno : option Z)
    : framing (rawSender * bytes * linklayer * option Z) :=
  let r := mkSender (snd_fd r) (snd_ifindex r) (snd_srcMAC r) (u16 (snd_ipID r + 1))
             (snd_vlanID r) (snd_sendErrCount r) in
  pkt ← buildFrame (snd_srcMAC r) dstMAC (snd_vlanID r) (snd_ipID r) payload;
  let outerEth := if decide (snd_vlanID r <> 0) then ethP8021Q else ethPIP in
  let addr := mkLinklayer (htons outerEth) (snd_ifindex r) 6 (take 6 dstMAC) in
  match errno with
  | Some e =>
      let r := mkSender (snd_fd r) (snd_ifindex r) (snd_srcMAC r) (snd_ipID r) (snd_vlanID r)
                 (u64 (snd_sendErrCount r + 1)) in
      mret (r, pkt, addr, Some e)
  | None => mret (r, pkt, addr, None)
  end.

(** ** Lemmas: the checksum *)

(** The plain sum of the big-endian words. *)
Fixpoint word_sum (b : bytes) : Z :=
  match b with
  | b0 :: b1 :: b => b0 * 256 + b1 + word_sum b
  | [b0] => b0 * 256
  | [] => 0
  end.

(** Two at a time. *)
Lemma list_ind2 {A} (P : list A -> Prop) :
  P [] -> (forall x, P [x]) -> (forall x y l, P l -> P (x :: y :: l)) -> forall l, P l.
Proof.
  intros H0 H1 H2. fix IH 1. intros [|x [|y l]]; [done|done|]. apply H2, IH.
Qed.

Lemma word_sum_app pre l :
  (length pre mod 2 = 0)%nat -> word_sum (pre ++ l) = word_sum pre + word_sum l.
Proof.
  induction pre as [|x|x y pre IH] using list_ind2; cbn [app word_sum]; intros Hlen; [done..|].
  rewrite IH; [lia|]. cbn [length] in Hlen.
  replace (S (S (length pre))) with (length pre + 1 * 2)%nat in Hlen by lia.
  by rewrite Nat.Div0.mod_add in Hlen.
Qed.

Lemma word_sum_bounds b :
  bytes_ok b -> 0 <= word_sum b <= 65535 * Z.of_nat (length b).
Proof.
  induction b as [|x|x y b IH] using list_ind2; cbn [word_sum length]; intros Hb; inv_Forall.
  - lia.
  - word_lia.
  - specialize (IH ltac:(done)). word_lia.
Qed.

Lemma sum_words_u32 b : forall s,
  bytes_ok b -> 0 <= s < 2 ^ 32 -> sum_words b s = u32 (s + word_sum b).
Proof.
  induction b as [|x|x y b IH] using list_ind2; intros s Hb Hs; inv_Forall; cbn [sum_words word_sum].
  - rewrite Z.add_0_r. by rewrite u32_id.
  - by rewrite Z.shiftl_mul_pow2 by lia.
  - rewrite lor16_arith, IH by (try done; apply u32_range). unfold u32.
    rewrite Z.add_mod_idemp_l by lia. f_equal. lia.
Qed.

(** The value carry folding ends in: the representative of the sum modulo
    65535 in 1..65535, or 0 for 0. *)
Definition onesum (s : Z) : Z := if s =? 0 then 0 else (s - 1) mod 65535 + 1.

(** One turn: the carry added back. *)
Definition fold1 (s : Z) : Z := s mod 65536 + s / 65536.

Lemma fold_carries_step fuel s :
  is_u32 s ->
  fold_carries (S fuel) s = if decide (s < 65536) then Some s else fold_carries fuel (fold1 s).
Proof.
  intros Hs. cbn [fold_carries]. rewrite !Z.shiftr_div_pow2 by lia.
  change 0xffff with (Z.ones 16). rewrite Z.land_ones by lia.
  change (2 ^ 16) with 65536. fold (fold1 s).
  rewrite u32_id by (unfold fold1; word_lia).
  do 2 case_decide; try done; exfalso; word_lia.
Qed.

Lemma onesum_fold1 s : 0 <= s -> onesum (fold1 s) = onesum s.
Proof.
  intros Hs. unfold onesum.
  assert (fold1 s = s - 65535 * (s / 65536)) as Hf.
  { unfold fold1. pose proof (Z.div_mod s 65536). lia. }
  destruct (Z.eqb_spec s 0) as [->|Hne]; [done|].
  destruct (Z.eqb_spec (fold1 s) 0) as [H0|_].
  { unfold fold1 in H0. Z.to_euclidean_division_equations. lia. }
  rewrite Hf. f_equal.
  replace (s - 65535 * (s / 65536) - 1) with (s - 1 + (- (s / 65536)) * 65535) by lia.
  by rewrite Z.mod_add.
Qed.

Lemma onesum_small s : 0 <= s < 65536 -> onesum s = s.
Proof.
  intros. unfold onesum. destruct (Z.eqb_spec s 0); [done|].
  rewrite Z.mod_small by lia. lia.
Qed.

Lemma fold1_small x : 0 <= x <= 131070 -> 0 <= fold1 x < 65536.
Proof. intros. unfold fold1. Z.to_euclidean_division_equations. lia. Qed.

Lemma fold_carries_onesum s :
  is_u32 s -> fold_carries carry_fuel s = Some (onesum s).
Proof.
  intros Hs. unfold carry_fuel.
  assert (0 <= fold1 s <= 131070) as H1 by (unfold fold1; word_lia).
  pose proof (fold1_small _ H1) as H2.
  rewrite !fold_carries_step by (unfold is_u32 in *; lia).
  destruct Hs as [Hs _].
  repeat case_decide; try lia.
  - by rewrite onesum_small by lia.
  - by rewrite <- onesum_fold1, onesum_small by lia.
  - by rewrite <- onesum_fold1, <- (onesum_fold1 (fold1 s)), onesum_small by lia.
Qed.

Lemma onesum_range s : 0 <= s -> 0 <= onesum s <= 65535.
Proof. unfold onesum. destruct (Z.eqb_spec s 0); Z.to_euclidean_division_equations; lia. Qed.

Lemma internetChecksum_val b :
  bytes_ok b -> internetChecksum b = Some (65535 - onesum (u32 (word_sum b))).
Proof.
  intros Hb. unfold internetChecksum. rewrite sum_words_u32 by (try done; lia).
  rewrite Z.add_0_l, fold_carries_onesum by apply u32_range. cbn [mbind option_bind].
  pose proof (onesum_range (u32 (word_sum b))) as Hr.
  pose proof (u32_range (word_sum b)) as Hu. unfold is_u32 in Hu.
  unfold Z.lnot. f_equal. word_lia.
Qed.

(** Storing the checksum into the zeroed even-aligned field it was computed
    over makes the whole sum verify. *)
Lemma checksum_verifies pre post c :
  bytes_ok pre -> bytes_ok post -> (length pre mod 2 = 0)%nat ->
  Z.of_nat (length pre + length post) < 65535 ->
  internetChecksum (pre ++ [0; 0] ++ post) = Some c ->
  internetChecksum (pre ++ put_be16 c ++ post) = Some 0.
Proof.
  intros Hpre Hpost Heven Hlen.
  assert (bytes_ok (pre ++ [0; 0] ++ post)) as Hz by (bytes_tac; word_lia).
  rewrite internetChecksum_val by done. intros Hc%(inj Some).
  pose proof (word_sum_bounds pre Hpre). pose proof (word_sum_bounds post Hpost).
  set (s := word_sum (pre ++ [0; 0] ++ post)) in Hc.
  assert (s = word_sum pre + word_sum post) as Hs.
  { unfold s. rewrite word_sum_app by done. cbn. lia. }
  assert (0 <= s < 2 ^ 32 - 65535) as Hsr by lia.
  rewrite (u32_id s) in Hc by (split; lia).
  pose proof (onesum_range s) as Hone.
  rewrite internetChecksum_val by bytes_tac.
  assert (word_sum (pre ++ put_be16 c ++ post) = s + c) as ->.
  { rewrite word_sum_app by done. cbn [put_be16 app word_sum].
    rewrite Z.shiftr_div_pow2 by lia. word_lia. }
  rewrite u32_id by (split; lia). f_equal.
  subst c. unfold onesum in *. clear -Hsr.
  destruct (Z.eqb_spec s 0) as [->|]; [reflexivity|].
  set (x := s + (65535 - ((s - 1) mod 65535 + 1))).
  assert (x = 65535 * ((s - 1) / 65535 + 1)) as Hx.
  { unfold x. pose proof (Z.div_mod (s - 1) 65535). lia. }
  assert (0 <= (s - 1) / 65535) by (apply Z.div_pos; lia).
  destruct (Z.eqb_spec x 0); [lia|]. rewrite Hx.
  replace (65535 * ((s - 1) / 65535 + 1) - 1) with (65534 + (s - 1) / 65535 * 65535) by lia.
  by rewrite Z.mod_add.
Qed.

(** ** The layout [buildFrame] produces *)

Definition ip_header (ipID len sum : Z) : bytes :=
  [0x45; 0] ++ put_be16 (u16 (28 + len)) ++ put_be16 ipID ++ put_be16 0
  ++ [64; 17] ++ put_be16 sum ++ [0; 0; 0; 0; 0xff; 0xff; 0xff; 0xff].

Definition udp_datagram (payload : bytes) : bytes :=
  put_be16 udpPort ++ put_be16 udpPort
  ++ put_be16 (u16 (8 + Z.of_nat (length payload))) ++ [0; 0] ++ payload.

Definition tag_layout (vlanID : Z) : bytes :=
  if decide (vlanID <> 0) then put_be16 ethP8021Q ++ put_be16 (Z.land vlanID 0x0fff) else [].

(** The checksum of the header with a zero checksum field. *)
Definition header_sum (ipID len : Z) : Z :=
  65535 - onesum (u32 (word_sum (ip_header ipID len 0))).

Definition frame_layout (srcMAC dstMAC : bytes) (vlanID ipID : Z) (payload : bytes) : bytes :=
  let len := Z.of_nat (length payload) in
  dstMAC ++ srcMAC ++ tag_layout vlanID ++ put_be16 ethPIP
  ++ ip_header ipID len (header_sum ipID len) ++ udp_datagram payload.

Lemma ip_header_ok ipID len sum : bytes_ok (ip_header ipID len sum).
Proof. unfold ip_header. bytes_tac; word_lia. Qed.
#[export] Hint Resolve ip_header_ok : mt.

Lemma checksum_header ipID len :
  checksum (ip_header ipID len 0) = Val (header_sum ipID len).
Proof. unfold checksum. by rewrite internetChecksum_val by auto with mt. Qed.

Lemma header_sum_u16 ipID len : is_u16 (header_sum ipID len).
Proof.
  unfold header_sum. pose proof (onesum_range (u32 (word_sum (ip_header ipID len 0)))).
  pose proof (u32_range (word_sum (ip_header ipID len 0))). word_lia.
Qed.
#[export] Hint Resolve header_sum_u16 : mt.

Lemma buildFrame_val srcMAC dstMAC vlanID ipID payload :
  length srcMAC = 6%nat -> length dstMAC = 6%nat ->
  buildFrame srcMAC dstMAC vlanID ipID payload
  = Val (frame_layout srcMAC dstMAC vlanID ipID payload).
Proof.
  intros Hsrc Hdst.
  do 6 (destruct srcMAC as [|? srcMAC]; [done|]). destruct srcMAC; [|done].
  do 6 (destruct dstMAC as [|? dstMAC]; [done|]). destruct dstMAC; [|done].
  unfold buildFrame, frame_layout, tag_layout, make, ethLen, dot1qLen, ipLen, udpLen.
  replace (Z.of_nat (20 + 8 + length payload)) with (28 + Z.of_nat (length payload)) by lia.
  replace (Z.of_nat (8 + length payload)) with (8 + Z.of_nat (length payload)) by lia.
  set (len := Z.of_nat (length payload)).
  unfold udp_datagram. fold len.
  destruct (decide (vlanID <> 0)).
  all: cbn [Nat.add replicate]; run_stores.
  all: rewrite slice_val by (cbn; lia); rewrite bind_val; cbv beta.
  all: match goal with
       | |- mbind _ (checksum ?l) = _ =>
           replace l with (ip_header ipID len 0) by reflexivity
       end.
  all: rewrite checksum_header, bind_val; cbn [length]; run_stores.
  all: rewrite drop_ge by (cbn; rewrite length_replicate; lia).
  all: rewrite app_nil_r; reflexivity.
Qed.

Lemma frame_layout_length srcMAC dstMAC vlanID ipID payload :
  length srcMAC = 6%nat -> length dstMAC = 6%nat ->
  length (frame_layout srcMAC dstMAC vlanID ipID payload)
  = (ethLen + (if decide (vlanID <> 0%Z) then dot1qLen else 0) + ipLen + udpLen + length payload)%nat.
Proof.
  intros Hs Hd. unfold frame_layout, tag_layout, ip_header, udp_datagram.
  rewrite !length_app, Hs, Hd. case_decide; cbn; lia.
Qed.


(** [Send] always reaches the kernel. *)
Lemma Send_val r payload dstMAC errno :
  length (snd_srcMAC r) = 6%nat -> length dstMAC = 6%nat ->
  exists r' frame addr, Send r payload dstMAC errno = Val (r', frame, addr, errno)
    /\ snd_srcMAC r' = snd_srcMAC r.
Proof.
  intros Hs Hd. unfold Send. cbn [snd_srcMAC snd_vlanID snd_ipID snd_ifindex snd_sendErrCount].
  rewrite buildFrame_val, bind_val by done. cbv zeta. destruct errno; by do 3 eexists.
Qed.

(** ** Properties *)

(** The Internet checksum is total on byte strings (the carry loop
    ends within its three turns), is a 16-bit value, and complements the
    word sum modulo 65535 as long as the 32-bit accumulator cannot wrap. *)
Theorem internetChecksum_total b :
  bytes_ok b ->
  exists c, internetChecksum b = Some c /\ is_u16 c
    /\ (Z.of_nat (length b) <= 65536 -> (word_sum b + c) mod 65535 = 0).
Proof.
  intros Hb. eexists. split; [by apply internetChecksum_val|].
  pose proof (u32_range (word_sum b)) as [Hu _].
  pose proof (onesum_range _ Hu). pose proof (word_sum_bounds b Hb).
  split; [word_lia|]. intros Hlen. rewrite u32_id by (split; lia).
  unfold onesum. destruct (Z.eqb_spec (word_sum b) 0) as [->|]; [done|].
  replace (word_sum b + (65535 - ((word_sum b - 1) mod 65535 + 1)))
    with (((word_sum b - 1) / 65535 + 1) * 65535)
    by (pose proof (Z.div_mod (word_sum b - 1) 65535); lia).
  apply Z.mod_mul. done.
Qed.

(** The IPv4 header of RFC 1071's style example: 0x45 0x00 0x00 0x1c ... *)
Lemma internetChecksum_total_witness :
  exists c, internetChecksum [0x45; 0; 0; 0x1c; 0xab; 0xcd; 0] = Some c /\ is_u16 c
    /\ (Z.of_nat 7 <= 65536 ->
        (word_sum [0x45; 0; 0; 0x1c; 0xab; 0xcd; 0] + c) mod 65535 = 0).
Proof.
  apply (internetChecksum_total [0x45; 0; 0; 0x1c; 0xab; 0xcd; 0]).
  repeat constructor; discriminate.
Defined.

(** C30. [buildFrame] never panics, and the frame it returns is: target MAC,
    own MAC, the 802.1Q tag exactly when a VLAN is set (VID masked to 12
    bits, PCP and DEI zero), the IPv4 EtherType, a 20-byte IPv4 header whose
    checksum verifies, with the total length and ID asked for, source
    0.0.0.0 and destination 255.255.255.255, then an 8-byte UDP header from
    and to port 20561 with a zero checksum field, then the payload. *)
Theorem buildFrame_spec srcMAC dstMAC vlanID ipID payload :
  mac_ok srcMAC -> mac_ok dstMAC ->
  Z.of_nat (length payload) + 28 < 2 ^ 16 ->
  let ipOff := if decide (vlanID <> 0) then 18%nat else 14%nat in
  exists frame iph,
    buildFrame srcMAC dstMAC vlanID ipID payload = Val frame
    /\ frame = dstMAC ++ srcMAC
         ++ (if decide (vlanID <> 0) then put_be16 ethP8021Q ++ put_be16 (vlanID mod 4096) else [])
         ++ put_be16 ethPIP ++ iph
         ++ put_be16 udpPort ++ put_be16 udpPort
         ++ put_be16 (8 + Z.of_nat (length payload)) ++ [0; 0] ++ payload
    /\ length iph = 20%nat /\ take 20 (drop ipOff frame) = iph
    /\ internetChecksum iph = Some 0
    /\ take 10 iph = [0x45; 0] ++ put_be16 (28 + Z.of_nat (length payload))
                     ++ put_be16 ipID ++ [0; 0; 64; 17]
    /\ drop 12 iph = [0; 0; 0; 0; 255; 255; 255; 255].
Proof.
  intros [Hs _] [Hd _] Hlen. cbv zeta.
  exists (frame_layout srcMAC dstMAC vlanID ipID payload).
  exists (ip_header ipID (Z.of_nat (length payload)) (header_sum ipID (Z.of_nat (length payload)))).
  split; [by apply buildFrame_val|]. split.
  { unfold frame_layout, tag_layout, udp_datagram. rewrite (u16_id (8 + _)) by (split; lia).
    change 0x0fff with (Z.ones 12). by rewrite Z.land_ones by lia. }
  split; [reflexivity|]. split.
  { unfold frame_layout, tag_layout.
    do 6 (destruct srcMAC as [|? srcMAC]; [done|]). destruct srcMAC; [|done].
    do 6 (destruct dstMAC as [|? dstMAC]; [done|]). destruct dstMAC; [|done].
    destruct (decide (vlanID <> 0)); reflexivity. }
  split.
  { set (len := Z.of_nat (length payload)).
    apply (checksum_verifies
             ([0x45; 0] ++ put_be16 (u16 (28 + len)) ++ put_be16 ipID ++ put_be16 0 ++ [64; 17])
             [0; 0; 0; 0; 255; 255; 255; 255]).
    - bytes_tac; word_lia.
    - bytes_tac; word_lia.
    - reflexivity.
    - done.
    - apply (internetChecksum_val (ip_header ipID len 0)). auto with mt. }
  unfold ip_header. rewrite (u16_id (28 + _)) by (split; lia).
  split; reflexivity.
Qed.

Lemma buildFrame_spec_witness :
  exists frame iph,
    buildFrame (make 6) broadcastMAC 0x1014 0xabcd [1; 2; 3] = Val frame
    /\ frame = broadcastMAC ++ make 6
         ++ (put_be16 ethP8021Q ++ put_be16 (0x1014 mod 4096))
         ++ put_be16 ethPIP ++ iph
         ++ put_be16 udpPort ++ put_be16 udpPort ++ put_be16 11 ++ [0; 0] ++ [1; 2; 3]
    /\ length iph = 20%nat /\ take 20 (drop 18 frame) = iph
    /\ internetChecksum iph = Some 0
    /\ take 10 iph = [0x45; 0] ++ put_be16 31 ++ put_be16 0xabcd ++ [0; 0; 64; 17]
    /\ drop 12 iph = [0; 0; 0; 0; 255; 255; 255; 255].
Proof.
  apply (buildFrame_spec (make 6) broadcastMAC 0x1014 0xabcd [1; 2; 3]).
  - split; [reflexivity|apply bytes_ok_replicate].
  - split; [reflexivity|]. repeat constructor; discriminate.
  - reflexivity.
Defined.

(** [rawSender.Send] on every branch: it hands the kernel exactly one
    frame, built with an IP ID one above the last (mod 2^16), for the
    interface and the target's MAC, with the outer EtherType in network
    order; it returns the kernel's answer, counting failures and nothing
    else. *)
Theorem Send_spec r payload dstMAC errno :
  length (snd_srcMAC r) = 6%nat -> length dstMAC = 6%nat ->
  let id := u16 (snd_ipID r + 1) in
  Send r payload dstMAC errno
  = Val (mkSender (snd_fd r) (snd_ifindex r) (snd_srcMAC r) id (snd_vlanID r)
           (match errno with
            | Some _ => u64 (snd_sendErrCount r + 1) | None => snd_sendErrCount r end),
         frame_layout (snd_srcMAC r) dstMAC (snd_vlanID r) id payload,
         mkLinklayer (if decide (snd_vlanID r <> 0) then 0x0081 else 0x0008)
           (snd_ifindex r) 6 dstMAC,
         errno).
Proof.
  intros Hs Hd. cbv zeta. unfold Send. cbn [snd_srcMAC snd_vlanID snd_ipID snd_ifindex snd_sendErrCount].
  rewrite buildFrame_val, bind_val by done. cbv zeta.
  rewrite (take_ge dstMAC) by lia.
  assert (htons (if decide (snd_vlanID r <> 0) then ethP8021Q else ethPIP)
          = if decide (snd_vlanID r <> 0) then 0x0081 else 0x0008) as ->
    by (by case_decide).
  by destruct errno.
Qed.

Lemma Send_spec_witness :
  Send (mkSender 8 3 (make 6) 0xffff 20 7) [1] broadcastMAC (Some 1)
  = Val (mkSender 8 3 (make 6) 0 20 8,
         frame_layout (make 6) broadcastMAC 20 0 [1],
         mkLinklayer 0x0081 3 6 broadcastMAC, Some 1).
Proof. apply (Send_spec (mkSender 8 3 (make 6) 0xffff 20 7) [1] broadcastMAC (Some 1)); reflexivity. Defined.
