(* ===== verification/Receiver.v ===== *)
(** * The AF_PACKET receiver (mactelnet/conn.go, receiving)

    [rawReceiver.Read]: full Ethernet frames parsed back to the UDP payload
    of tagged MAC-Telnet datagrams. *)

From S2P Require Import Prelude GoBytes Protocol Frame.

#[local] Open Scope Z_scope.

(** ** The raw receiver *)

Record rawReceiver := mkReceiver {
  rcv_fd : nat;
  rcv_vlanID : Z;
  rcv_srcMAC : bytes;
  rcv_closed : bool;               (* and whether [closeOnce] has run *)
}.

(** The body of the loop of [func (r *rawReceiver) Read(buf []byte)] after
    [Recvfrom] put [n] bytes into [frame]: [None] is a [continue], [Some p]
    the UDP payload that is copied out. *)
Definition accept_frame (r : rawReceiver) (frame : bytes) (n : nat)
    : framing (option bytes) :=
  if decide (n < 14)%nat then mret None
  else
    srcMAC ← slice frame 6 12;
    if decide (srcMAC = rcv_srcMAC r) then mret None
    else
      dstMAC ← slice frame 0 6;
      if decide (dstMAC <> rcv_srcMAC r /\ dstMAC <> broadcastMAC) then mret None
      else
        let off := 14%nat in
        etherType ← (slice frame 12 14 ≫= be16);
        if decide (etherType = ethP8021Q) then
          if decide (n < off + 4)%nat then mret None
          else
            tci ← (slice frame off (off + 2) ≫= be16);
            if decide (Z.land tci 0x0fff <> rcv_vlanID r) then mret None
            else
              etherType ← (slice frame (off + 2) (off + 4) ≫= be16);
              let off := (off + 4)%nat in
              if decide (etherType <> ethPIP) then mret None
              else if decide (n < off + 20)%nat then mret None
              else
                ipHdr ← slice_from frame off;
                b0 ← index ipHdr 0;
                if decide (Z.shiftr b0 4 <> 4) then mret None
                else
                  let ihl := (Z.to_nat (Z.land b0 0x0f) * 4)%nat in
                  if decide (ihl < 20 \/ n < off + ihl)%nat then mret None
                  else
                    proto ← index ipHdr 9;
                    if decide (proto <> 17) then mret None
                    else
                      let udpOff := (off + ihl)%nat in
                      if decide (n < udpOff + 8)%nat then mret None
                      else
                        udp ← slice_from frame udpOff;
                        dstPort ← (slice udp 2 4 ≫= be16);
                        if decide (dstPort <> udpPort) then mret None
                        else
                          len ← (slice udp 4 6 ≫= be16);
                          let udpLen := Z.to_nat len in
                          if decide (udpLen < 8 \/ n < udpOff + udpLen)%nat then mret None
                          else
                            payload ← slice frame (udpOff + 8) (udpOff + udpLen);
                            mret (Some payload)
        else mret None.

(** One turn of [Read]'s loop as the environment sees it: [r.closed] before
    the call, what [Recvfrom] does, [r.closed] when it fails. *)
Inductive recv_result := RecvFrame (data : bytes) | RecvAgain | RecvErr (errno : Z).
Record recv_turn := mkTurn { closed_before : bool; recv : recv_result; closed_after : bool }.

Inductive read_error :=
| ErrDeadlineExceeded
| ErrClosed
| ErrErrno (errno : Z)
| ErrFrame (e : frame_error).

(** [Recvfrom] writes at most [len(frame)] bytes, truncating the rest. *)
Definition recv_into (frame data : bytes) : bytes * nat :=
  let n := Nat.min (length frame) (length data) in
  (take n data ++ drop n frame, n).

(** [copy(buf, payload)] *)
Definition copy_into (buf payload : bytes) : bytes * nat :=
  let n := Nat.min (length buf) (length payload) in
  (take n payload ++ drop n buf, n).

(** The loop of [Read]; [frame] persists across turns.  [None] when the
    environment has no further turn (the call blocks in [Recvfrom]). *)
Fixpoint read_loop (r : rawReceiver) (frame buf : bytes) (turns : list recv_turn)
    : option (outcome read_error (bytes * nat)) :=
  match turns with
  | [] => None
  | t :: turns =>
      if closed_before t then Some (Fail ErrClosed)
      else
        match recv t with
        | RecvAgain => Some (Fail ErrDeadlineExceeded)
        | RecvErr e => if closed_after t then Some (Fail ErrClosed) else Some (Fail (ErrErrno e))
        | RecvFrame data =>
            let '(frame, n) := recv_into frame data in
            match accept_frame r frame n with
            | Val None => read_loop r frame buf turns
            | Val (Some payload) => Some (Val (copy_into buf payload))
            | Fail e => Some (Fail (ErrFrame e))
            | Panic => Some Panic
            end
        end
  end.
Definition Read (r : rawReceiver) (buf : bytes) (turns : list recv_turn) :=
  read_loop r (make 2048) buf turns.

(** ** Lemmas *)

(** Take the next decision or read the next field of [accept_frame]. *)
Ltac accept_side :=
  solve [ done | lia | cbn; lia | congruence | vm_compute; congruence | intros [? ?]; congruence | word_lia ].
Ltac accept_step :=
  cbv beta iota zeta;
  lazymatch goal with
  | |- (if decide ?P then _ else _) = _ =>
      first [ rewrite (decide_False (P := P)) by accept_side
            | rewrite (decide_True (P := P)) by accept_side ]
  | |- mbind _ (slice ?b ?lo ?hi) = _ =>
      rewrite (slice_val b lo hi) by (cbn; lia); rewrite bind_val
  | |- mbind _ (slice_from ?b ?lo) = _ =>
      rewrite (slice_from_val b lo) by (cbn; lia); rewrite bind_val
  | |- mbind _ (mbind be16 (slice ?b ?lo ?hi)) = _ =>
      rewrite (slice_val b lo hi) by (cbn; lia); rewrite (bind_val be16)
  | |- mbind _ (index ?b ?i) = _ =>
      let v := eval cbn in (b !! i) in
      lazymatch v with Some ?x =>
        change (index b i) with (Val (E := frame_error) x); rewrite bind_val end
  end;
  try match goal with
  | |- context [take ?n ?l] =>
      let l' := eval cbn -[u8 u16 u32 Z.shiftr Z.land Z.of_nat] in (take n l) in
      progress change (take n l) with l'; rewrite ?take_0, ?drop_0
  end;
  try (rewrite be16_cons by accept_side; rewrite bind_val).

(** Reading a tagged frame the builder laid out, with anything behind it. *)
Lemma accept_layout fd srcMAC dstMAC vlanID ipID payload junk :
  length srcMAC = 6%nat -> length dstMAC = 6%nat -> srcMAC <> dstMAC ->
  0 < vlanID < 4096 -> Z.of_nat (length payload) + 8 < 2 ^ 16 ->
  let f := frame_layout srcMAC dstMAC vlanID ipID payload in
  accept_frame (mkReceiver fd vlanID dstMAC false) (f ++ junk) (length f) = Val (Some payload).
Proof.
  intros Hsrc Hdst Hne Hvlan Hlen. cbv zeta.
  rewrite frame_layout_length, decide_True by (try done; lia).
  unfold frame_layout, tag_layout. rewrite decide_True by lia.
  assert (Z.land vlanID 4095 = vlanID) as Hland.
  { change 4095 with (Z.ones 12). rewrite Z.land_ones, Z.mod_small; lia. }
  rewrite Hland.
  do 6 (destruct srcMAC as [|? srcMAC]; [done|]). destruct srcMAC; [|done].
  do 6 (destruct dstMAC as [|? dstMAC]; [done|]). destruct dstMAC; [|done].
  assert (is_u16 (8 + Z.of_nat (length payload))) as Hu by (split; lia).
  assert (is_u16 vlanID) as Hv by (split; lia).
  assert (is_u16 ethP8021Q /\ is_u16 ethPIP /\ is_u16 udpPort) as (Hc1 & Hc2 & Hc3)
    by (split_and!; done).
  unfold accept_frame, ethLen, dot1qLen, ipLen, udpLen, udp_datagram.
  rewrite (u16_id (8 + _)) by done. cbn [rcv_srcMAC rcv_vlanID].
  generalize (header_sum ipID (Z.of_nat (length payload))). intros sum.
  repeat accept_step.
  change (Z.to_nat (Z.land 69 15) * 4)%nat with 20%nat.
  repeat accept_step.
  replace (Z.to_nat (8 + Z.of_nat (length payload))) with (8 + length payload)%nat by lia.
  rewrite slice_val by (cbn; rewrite length_app; lia). rewrite bind_val.
  replace (14 + 4 + 20 + (8 + length payload) - (14 + 4 + 20 + 8))%nat
    with (length payload) by lia.
  do 2 f_equal. cbn -[take]. by rewrite ?drop_0, take_app_length.
Qed.

(** ** What acceptance depends on and means *)

(** Bytes of the receive buffer past what the kernel wrote (left over from
    earlier frames) have no influence. *)
Lemma accept_frame_app r f junk :
  accept_frame r (f ++ junk) (length f) = accept_frame r f (length f).
Proof.
  unfold accept_frame.
  case_decide; [done|]. rewrite (slice_app _ _ 6 12) by lia.
  destruct (slice f 6 12) as [src| |]; cbn [mbind outcome_bind]; [|done..].
  case_decide; [done|]. rewrite (slice_app _ _ 0 6) by lia.
  destruct (slice f 0 6) as [dst| |]; cbn [mbind outcome_bind]; [|done..].
  case_decide; [done|]. rewrite (slice_app _ _ 12 14) by lia.
  destruct (slice f 12 14 ≫= be16) as [ety| |]; cbn [mbind outcome_bind]; [|done..].
  case_decide; [|done]. case_decide; [done|]. rewrite (slice_app _ _ 14 (14 + 2)) by lia.
  destruct (slice f 14 (14 + 2) ≫= be16) as [tci| |]; cbn [mbind outcome_bind]; [|done..].
  case_decide; [done|]. rewrite (slice_app _ _ (14 + 2) (14 + 4)) by lia.
  destruct (slice f (14 + 2) (14 + 4) ≫= be16) as [inner| |]; cbn [mbind outcome_bind]; [|done..].
  case_decide; [done|]. case_decide; [done|].
  rewrite (slice_from_app _ _ (14 + 4)), (slice_from_val _ (14 + 4)) by lia. cbn [mbind outcome_bind].
  rewrite (index_app _ _ 0) by (rewrite length_drop; lia).
  destruct (index (drop (14 + 4) f) 0) as [b0| |]; cbn [mbind outcome_bind]; [|done..].
  case_decide; [done|]. case_decide; [done|]. rewrite (index_app _ _ 9) by (rewrite length_drop; lia).
  destruct (index (drop (14 + 4) f) 9) as [pr| |]; cbn [mbind outcome_bind]; [|done..].
  case_decide; [done|]. case_decide; [done|].
  set (u := (14 + 4 + Z.to_nat (Z.land b0 15) * 4)%nat) in *.
  rewrite (slice_from_app _ _ u), (slice_from_val _ u) by lia. cbn [mbind outcome_bind].
  rewrite (slice_app _ _ 2 4), (slice_app _ _ 4 6) by (rewrite length_drop; lia).
  destruct (slice (drop u f) 2 4 ≫= be16) as [port| |]; cbn [mbind outcome_bind]; [|done..].
  case_decide; [done|].
  destruct (slice (drop u f) 4 6 ≫= be16) as [len| |]; cbn [mbind outcome_bind]; [|done..].
  case_decide; [done|]. by rewrite slice_app by lia.
Qed.

(** What a frame whose payload is delivered looks like. *)
Record delivered (r : rawReceiver) (f p : bytes) : Prop := {
  del_not_own : take 6 (drop 6 f) <> rcv_srcMAC r;
  del_for_us : take 6 f = rcv_srcMAC r \/ take 6 f = broadcastMAC;
  del_vlan : exists tci, be16 (E := frame_error) (take 2 (drop 12 f)) = Val ethP8021Q
     /\ be16 (E := frame_error) (take 2 (drop 14 f)) = Val tci
     /\ Z.land tci 0x0fff = rcv_vlanID r
     /\ be16 (E := frame_error) (take 2 (drop 16 f)) = Val ethPIP;
  del_udp : exists ihl len : nat, (20 <= ihl)%nat /\ (8 <= len)%nat
     /\ (18 + ihl + len <= length f)%nat
     /\ be16 (E := frame_error) (take 2 (drop (18 + ihl + 2) f)) = Val udpPort
     /\ p = take (len - 8) (drop (18 + ihl + 8) f);
}.

Ltac read_field :=
  lazymatch goal with
  | |- context [mbind _ (mbind be16 (slice ?b ?lo ?hi)) = Val _] =>
      rewrite (slice_val b lo hi) by (rewrite ?length_drop; lia); rewrite (bind_val be16)
  end;
  lazymatch goal with
  | |- context [be16 ?l] =>
      let v := fresh "v" in let Hv := fresh "Hv" in
      destruct (be16_len (E := frame_error) l) as [v Hv];
        [rewrite ?length_take, ?length_drop; lia|rewrite Hv, bind_val]
  end.

Lemma accept_frame_spec r f :
  exists o, accept_frame r f (length f) = Val o
    /\ forall p, o = Some p -> delivered r f p.
Proof.
  unfold accept_frame.
  assert (forall (P : Prop), (exists o, (mret None : framing (option bytes)) = Val o
            /\ forall p, o = Some p -> P) ) as Hskip by (intros P; by exists None).
  case_decide; [by exists None|].
  rewrite (slice_val _ 6 12) by lia. rewrite bind_val. case_decide as Hsrc; [by exists None|].
  rewrite (slice_val _ 0 6) by lia. rewrite bind_val. case_decide as Hdst; [by exists None|].
  read_field. case_decide as He; [|by exists None]. case_decide; [by exists None|].
  read_field. case_decide as Ht; [by exists None|].
  read_field. cbv zeta. case_decide as Hi; [by exists None|]. case_decide; [by exists None|].
  rewrite (slice_from_val _ (14 + 4)) by lia. rewrite bind_val.
  destruct (index_lt (E := frame_error) (drop (14 + 4) f) 0) as (b0 & -> & _);
    [rewrite length_drop; lia|]. rewrite bind_val.
  case_decide; [by exists None|]. case_decide; [by exists None|].
  destruct (index_lt (E := frame_error) (drop (14 + 4) f) 9) as (pr & -> & _);
    [rewrite length_drop; lia|]. rewrite bind_val.
  case_decide; [by exists None|]. case_decide; [by exists None|].
  set (ihl := (Z.to_nat (Z.land b0 15) * 4)%nat) in *.
  rewrite slice_from_val by lia. rewrite bind_val.
  read_field. case_decide as Hp; [by exists None|].
  read_field. case_decide; [by exists None|].
  rewrite slice_val by lia. rewrite bind_val. eexists. split; [reflexivity|].
  intros p [= <-]. split.
  - exact Hsrc.
  - change (take 6 f) with (take (6 - 0) (drop 0 f)).
    destruct (decide (take (6 - 0) (drop 0 f) = rcv_srcMAC r)); [by left|].
    destruct (decide (take (6 - 0) (drop 0 f) = broadcastMAC)); [by right|]. tauto.
  - exists v0. split_and!; [by rewrite <- He|done| |].
    + destruct (decide (Z.land v0 4095 = rcv_vlanID r)); [done|tauto].
    + destruct (decide (v1 = ethPIP)); [by subst|tauto].
  - exists ihl, (Z.to_nat v3). split_and!; [lia..| |].
    + destruct (decide (v2 = udpPort)); [subst|tauto].
      rewrite <- Hv2, drop_drop. by do 2 f_equal.
    + f_equal. lia.
Qed.

(** One received frame in the loop of [Read]. *)
Lemma read_loop_frame r frame buf data c turns :
  length frame = 2048%nat -> (length data <= 2048)%nat ->
  read_loop r frame buf (mkTurn false (RecvFrame data) c :: turns)
  = match accept_frame r data (length data) with
    | Val None => read_loop r (data ++ drop (length data) frame) buf turns
    | Val (Some payload) => Some (Val (copy_into buf payload))
    | Fail e => Some (Fail (ErrFrame e))
    | Panic => Some Panic
    end.
Proof.
  intros Hf Hd. cbn [read_loop closed_before recv]. unfold recv_into.
  rewrite Hf, Nat.min_r, firstn_all by lia. by rewrite accept_frame_app.
Qed.

(** A turn [Read] passes over. *)
Definition ignored (r : rawReceiver) (t : recv_turn) : Prop :=
  closed_before t = false
  /\ exists data, recv t = RecvFrame data /\ (length data <= 2048)%nat
       /\ accept_frame r data (length data) = Val None.

Lemma read_loop_ignored r noise turns buf : forall frame,
  length frame = 2048%nat -> Forall (ignored r) noise ->
  exists frame', length frame' = 2048%nat
    /\ read_loop r frame buf (noise ++ turns) = read_loop r frame' buf turns.
Proof.
  induction noise as [|[cb rc ca] noise IH]; intros frame Hf Hn; [by exists frame|].
  apply Forall_cons_1 in Hn as [(Hcb & data & Hrc & Hlen & Hacc) Hn]. cbn in Hcb, Hrc. subst.
  cbn [app]. rewrite read_loop_frame, Hacc by done. apply IH; [|done].
  rewrite length_app, length_drop. lia.
Qed.

(** ** Properties *)

(** C14. Sending and receiving compose: a proxy tagging VLAN [v] (1..4095)
    and a receiver for the target MAC on the same VLAN agree on every
    payload up to 2002 bytes. Whatever foreign frames arrive first, [Read]
    returns the payload that was sent, truncated only to the caller's
    buffer. *)
Theorem Send_Read_roundtrip s fd payload dstMAC noise c buf :
  length (snd_srcMAC s) = 6%nat -> length dstMAC = 6%nat -> snd_srcMAC s <> dstMAC ->
  0 < snd_vlanID s < 4096 -> (length payload <= 2002)%nat ->
  let r := mkReceiver fd (snd_vlanID s) dstMAC false in
  Forall (ignored r) noise ->
  exists s' frame addr,
    Send s payload dstMAC None = Val (s', frame, addr, None)
    /\ Read r buf (noise ++ [mkTurn false (RecvFrame frame) c])
       = Some (Val (copy_into buf payload)).
Proof.
  intros Hs Hd Hne Hv Hlen r Hnoise.
  set (id := u16 (snd_ipID s + 1)).
  set (frame := frame_layout (snd_srcMAC s) dstMAC (snd_vlanID s) id payload).
  exists (mkSender (snd_fd s) (snd_ifindex s) (snd_srcMAC s) id (snd_vlanID s) (snd_sendErrCount s)), frame.
  eexists. split.
  { unfold Send. cbn [snd_srcMAC snd_vlanID snd_ipID snd_ifindex snd_sendErrCount].
    rewrite buildFrame_val, bind_val by done. reflexivity. }
  unfold Read.
  destruct (read_loop_ignored r noise [mkTurn false (RecvFrame frame) c] buf (make 2048))
    as (frame' & Hf' & ->); [apply length_replicate|done|].
  rewrite read_loop_frame; [|done|].
  - pose proof (accept_layout fd (snd_srcMAC s) dstMAC (snd_vlanID s) id payload []) as Hacc.
    cbv zeta in Hacc. rewrite app_nil_r in Hacc.
    subst r frame. by rewrite Hacc by (try done; lia).
  - unfold frame. rewrite frame_layout_length by done.
    unfold ethLen, dot1qLen, ipLen, udpLen. case_decide; lia.
Qed.

Lemma Send_Read_roundtrip_witness :
  exists s' frame addr,
    Send (mkSender 8 3 (make 6) 0 20 0) [1; 2; 3] broadcastMAC None = Val (s', frame, addr, None)
    /\ Read (mkReceiver 7 20 broadcastMAC false) (make 2)
         ([mkTurn false (RecvFrame [1; 2]) false] ++ [mkTurn false (RecvFrame frame) false])
       = Some (Val (copy_into (make 2) [1; 2; 3])).
Proof.
  apply (Send_Read_roundtrip (mkSender 8 3 (make 6) 0 20 0) 7 [1; 2; 3] broadcastMAC
           [mkTurn false (RecvFrame [1; 2]) false] false (make 2));
    [reflexivity|reflexivity|discriminate|split; reflexivity|by apply Nat.leb_le|].
  repeat constructor. exists [1; 2]. split_and!; [reflexivity|by apply Nat.leb_le|reflexivity].
Defined.

(** C31. [Read] is safe on any traffic: it never panics, the only errors it
    returns are the deadline, the closed socket and the kernel's own, and a
    payload it returns comes from a frame the kernel delivered whole that
    carries the configured VLAN, was not sent by us, is addressed to us or
    broadcast, and holds the payload inside its UDP datagram for port
    20561. *)
Theorem Read_safe r buf turns :
  Forall (fun t => forall data, recv t = RecvFrame data -> (length data <= 2048)%nat) turns ->
  match Read r buf turns with
  | None | Some (Fail ErrDeadlineExceeded) | Some (Fail ErrClosed)
  | Some (Fail (ErrErrno _)) => True
  | Some (Fail (ErrFrame _)) | Some Panic => False
  | Some (Val (buf', n)) =>
      exists t data p, t ∈ turns /\ recv t = RecvFrame data /\ delivered r data p
        /\ n = Nat.min (length buf) (length p)
        /\ buf' = take n p ++ drop n buf
  end.
Proof.
  unfold Read. assert (length (make 2048) = 2048%nat) as Hf by apply length_replicate.
  revert Hf. generalize (make 2048). intros frame Hf Hturns.
  revert frame Hf. induction Hturns as [|[cb rc ca] turns Hsz Hturns IH]; intros frame Hf; [done|].
  destruct cb; [done|]. destruct rc as [data| |e]; [|done|by destruct ca].
  specialize (Hsz data eq_refl). rewrite read_loop_frame by done.
  destruct (accept_frame_spec r data) as (o & -> & Ho). destruct o as [p|].
  - exists (mkTurn false (RecvFrame data) ca), data, p.
    split; [apply list_elem_of_here|]. by auto.
  - specialize (IH (data ++ drop (length data) frame)).
    rewrite length_app, length_drop in IH. specialize (IH ltac:(lia)).
    destruct (read_loop r _ buf turns) as [[[buf' n]|[]|]|]; try done.
    destruct IH as (t & data' & p & Hin & ?). exists t, data', p.
    split; [by apply list_elem_of_further|done].
Qed.

Lemma Read_safe_witness :
  let turns := [mkTurn false (RecvFrame (make 60)) false; mkTurn false RecvAgain false] in
  match Read (mkReceiver 7 20 broadcastMAC false) (make 4) turns with
  | None | Some (Fail ErrDeadlineExceeded) | Some (Fail ErrClosed)
  | Some (Fail (ErrErrno _)) => True
  | Some (Fail (ErrFrame _)) | Some Panic => False
  | Some (Val (buf', n)) =>
      exists t data p, t ∈ turns /\ recv t = RecvFrame data
        /\ delivered (mkReceiver 7 20 broadcastMAC false) data p
        /\ n = Nat.min (length (make 4)) (length p)
        /\ buf' = take n p ++ drop n (make 4)
  end.
Proof.
  apply (Read_safe (mkReceiver 7 20 broadcastMAC false) (make 4)
           [mkTurn false (RecvFrame (make 60)) false; mkTurn false RecvAgain false]).
  apply Forall_cons_2; [|apply Forall_cons_2; [|apply Forall_nil_2]]; intros data Hd; [|discriminate Hd].
  injection Hd as <-. by apply Nat.leb_le.
Defined.

(** Only [EAGAIN] means "try again": an open receiver whose [Recvfrom] a
    signal interrupts ([EINTR], 4 on Linux) reports that errno, although the
    next turn would have delivered a frame. *)
Lemma interrupted_read_fails fd vlanID srcMAC closed buf turns :
  Read (mkReceiver fd vlanID srcMAC closed) buf (mkTurn false (RecvErr 4) false :: turns)
  = Some (Fail (ErrErrno 4)).
Proof. reflexivity. Qed.
