(* ===== verification/Sockets.v ===== *)
(** * Sockets (internal/mactelnet/conn.go, internal/mndp/conn.go)

    A process's descriptors and the system calls that open, configure and
    close them: [openRecv], [openRawSender], [openRawReceiver],
    [openSockets], the [Close] methods, [SetReadDeadline] of the raw
    receiver, and MNDP's [openListener].  What the kernel answers is an
    input; which descriptors are open, and the calls made, are state. *)

From S2P Require Import Prelude GoBytes Protocol Frame Receiver.

#[local] Open Scope Z_scope.

(** ** Descriptors *)

(** The system calls that succeeded, with their arguments. *)
Inductive sockaddr :=
| InetAny (port : Z)                        (* 0.0.0.0:port *)
| LinkAddr (protocol ifindex : Z).          (* SockaddrLinklayer *)
Inductive syscall :=
| SysSocket (domain typ proto : Z) (fd : nat)
| SysSetsockopt (fd : nat) (level opt value : Z)
| SysSetTimeout (fd : nat) (opt sec usec : Z)      (* SetsockoptTimeval *)
| SysBind (fd : nat) (addr : sockaddr)
| SysClose (fd : nat).

Record kernel := mkKernel {
  k_open : gset nat;               (* descriptors in use *)
  k_answers : list (option Z);     (* errors of the next fallible calls; none when over *)
  k_log : list syscall;            (* oldest first *)
}.

(** The lowest descriptor not in use, as POSIX has it. *)
Fixpoint lowest_from (fuel n : nat) (s : gset nat) : nat :=
  match fuel with
  | O => n
  | S fuel => if decide (n ∈ s) then lowest_from fuel (S n) s else n
  end.
Definition lowest_free (s : gset nat) : nat := lowest_from (S (size s)) 0 s.

Definition answer (k : kernel) : option Z * kernel :=
  match k_answers k with
  | [] => (None, k)
  | e :: l => (e, mkKernel (k_open k) l (k_log k))
  end.
Definition logged (c : syscall) (k : kernel) : kernel :=
  mkKernel (k_open k) (k_answers k) (k_log k ++ [c]).

Definition socket (domain typ proto : Z) (k : kernel) : (Z + nat) * kernel :=
  let '(e, k) := answer k in
  match e with
  | Some e => (inl e, k)
  | None =>
      let fd := lowest_free (k_open k) in
      (inr fd, logged (SysSocket domain typ proto fd)
                 (mkKernel ({[fd]} ∪ k_open k) (k_answers k) (k_log k)))
  end.
Definition setsockopt (fd : nat) (level opt value : Z) (k : kernel) : option Z * kernel :=
  let '(e, k) := answer k in
  match e with Some e => (Some e, k) | None => (None, logged (SysSetsockopt fd level opt value) k) end.
Definition bind_addr (fd : nat) (addr : sockaddr) (k : kernel) : option Z * kernel :=
  let '(e, k) := answer k in
  match e with Some e => (Some e, k) | None => (None, logged (SysBind fd addr) k) end.

Definition EBADF : Z := 9.
(** The descriptor is released whatever else [close] reports. *)
Definition close (fd : nat) (k : kernel) : option Z * kernel :=
  if decide (fd ∈ k_open k) then
    (None, logged (SysClose fd) (mkKernel (k_open k ∖ {[fd]}) (k_answers k) (k_log k)))
  else (Some EBADF, k).

(** linux/socket.h, as package syscall has them. *)
Definition AF_INET : Z := 2.
Definition AF_PACKET : Z := 17.
Definition SOCK_DGRAM : Z := 2.
Definition SOCK_RAW : Z := 3.
Definition SOL_SOCKET : Z := 1.
Definition SO_REUSEADDR : Z := 2.
Definition SO_BROADCAST : Z := 6.

(** ** net.ListenConfig

    A packet listener on "udp4": the socket, the [Control] hook, then the
    bind; the socket is closed again when one of them fails.  (Options that
    package net sets by itself are left out.) *)
Inductive PacketConn := UDPConn (fd : nat) | OtherConn (fd : nat).

(** [c.Control(f)] of a [syscall.RawConn]: its own error, or [f] is run. *)
Definition RawConn_Control (f : kernel -> option Z * kernel) (k : kernel) : option Z * kernel :=
  let '(e, k) := answer k in
  match e with Some e => (Some e, k) | None => f k end.

Definition ListenPacket (control : nat -> kernel -> option Z * kernel) (port : Z) (k : kernel)
    : (Z + PacketConn) * kernel :=
  match socket AF_INET SOCK_DGRAM 0 k with
  | (inl e, k) => (inl e, k)
  | (inr fd, k) =>
      match control fd k with
      | (Some e, k) => (inl e, (close fd k).2)
      | (None, k) =>
          match bind_addr fd (InetAny port) k with
          | (Some e, k) => (inl e, (close fd k).2)
          | (None, k) => (inr (UDPConn fd), k)
          end
      end
  end.

(** ** The session's sockets *)

Definition soReusePort : Z := 15.

Inductive socket_error :=
| errBindUDP (errno : Z)
| errNotUDPConn
| errPacketSocket (errno : Z)              (* AF_PACKET SOCK_RAW *)
| errPacketSocketRecv (errno : Z)
| errBindPacket (errno : Z).

(** The [Control] hook of [openRecv]: a kernel without SO_REUSEPORT is
    fine. *)
Definition recv_control (fd : nat) (k : kernel) : option Z * kernel :=
  RawConn_Control (fun k =>
    match setsockopt fd SOL_SOCKET SO_REUSEADDR 1 k with
    | (Some e, k) => (Some e, k)
    | (None, k) => (None, (setsockopt fd SOL_SOCKET soReusePort 1 k).2)
    end) k.

Definition openRecv (k : kernel) : (socket_error + nat) * kernel :=
  match ListenPacket recv_control udpPort k with
  | (inl e, k) => (inl (errBindUDP e), k)
  | (inr (UDPConn fd), k) => (inr fd, k)
  | (inr (OtherConn fd), k) => (inl errNotUDPConn, (close fd k).2)
  end.

Definition openRawSender (ifindex : Z) (hardwareAddr : bytes) (vlanID : Z) (k : kernel)
    : (socket_error + rawSender) * kernel :=
  match socket AF_PACKET SOCK_RAW (htons ethPIP) k with
  | (inl e, k) => (inl (errPacketSocket e), k)
  | (inr fd, k) => (inr (new_sender fd ifindex hardwareAddr vlanID), k)
  end.

Definition ethPALL : Z := 3.
Definition openRawReceiver (ifindex : Z) (hardwareAddr : bytes) (vlanID : Z) (k : kernel)
    : (socket_error + rawReceiver) * kernel :=
  match socket AF_PACKET SOCK_RAW (htons ethPALL) k with
  | (inl e, k) => (inl (errPacketSocketRecv e), k)
  | (inr fd, k) =>
      match bind_addr fd (LinkAddr (htons ethPALL) ifindex) k with
      | (Some e, k) => (inl (errBindPacket e), (close fd k).2)
      | (None, k) => (inr (mkReceiver fd vlanID (take 6 (hardwareAddr ++ make 6)) false), k)
      end
  end.

(** The two implementations of the [rxConn] interface.  A closed
    [net.UDPConn] answers [net.ErrClosed]. *)
Inductive rxConn := RxUDP (fd : nat) (closed : bool) | RxRaw (r : rawReceiver).

Definition rawReceiver_Close (r : rawReceiver) (k : kernel) : option Z * rawReceiver * kernel :=
  if rcv_closed r then (None, r, k)
  else
    let r := mkReceiver (rcv_fd r) (rcv_vlanID r) (rcv_srcMAC r) true in
    let '(e, k) := close (rcv_fd r) k in (e, r, k).
Definition rxConn_Close (c : rxConn) (k : kernel) : rxConn * kernel :=
  match c with
  | RxUDP fd closed => if closed then (c, k) else (RxUDP fd true, (close fd k).2)
  | RxRaw r => let '(_, r, k) := rawReceiver_Close r k in (RxRaw r, k)
  end.
Definition rawSender_Close (r : rawSender) (k : kernel) : option Z * kernel := close (snd_fd r) k.

Definition openSockets (ifindex : Z) (hardwareAddr : bytes) (vlanID : Z) (k : kernel)
    : (socket_error + rxConn * rawSender) * kernel :=
  let '(recv, k) :=
    if decide (vlanID <> 0) then
      match openRawReceiver ifindex hardwareAddr vlanID k with
      | (inl e, k) => (inl e, k)
      | (inr r, k) => (inr (RxRaw r), k)
      end
    else
      match openRecv k with
      | (inl e, k) => (inl e, k)
      | (inr fd, k) => (inr (RxUDP fd false), k)
      end in
  match recv with
  | inl e => (inl e, k)
  | inr recv =>
      match openRawSender ifindex hardwareAddr vlanID k with
      | (inl e, k) => (inl e, (rxConn_Close recv k).2)
      | (inr sender, k) => (inr (recv, sender), k)
      end
  end.

(** ** The raw receiver's deadline *)

Definition SO_RCVTIMEO : Z := 20.

(** [syscall.NsecToTimeval]: seconds and microseconds, rounded up. *)
Definition NsecToTimeval (nsec : Z) : Z * Z :=
  let nsec := i64 (nsec + 999) in
  let usec := Z.quot (Z.rem nsec 1000000000) 1000 in
  let sec := Z.quot nsec 1000000000 in
  if usec <? 0 then (sec - 1, usec + 1000000) else (sec, usec).

(** [until] is [time.Until(t)] in nanoseconds, [None] for the zero time; a
    zero timeval means no timeout. *)
Definition read_timeval (until : option Z) : Z * Z :=
  match until with
  | None => (0, 0)
  | Some d => NsecToTimeval (if d <? 0 then 1000 else d)
  end.
Definition rawReceiver_SetReadDeadline (r : rawReceiver) (until : option Z) (k : kernel)
    : option Z * kernel :=
  let '(sec, usec) := read_timeval until in
  let '(e, k) := answer k in
  match e with
  | Some e => (Some e, k)
  | None => (None, logged (SysSetTimeout (rcv_fd r) SO_RCVTIMEO sec usec) k)
  end.

(** ** MNDP's listener *)

Definition mndpPort : Z := 5678.

Definition listener_control (fd : nat) (k : kernel) : option Z * kernel :=
  RawConn_Control (fun k =>
    match setsockopt fd SOL_SOCKET SO_REUSEADDR 1 k with
    | (Some e, k) => (Some e, k)
    | (None, k) => setsockopt fd SOL_SOCKET SO_BROADCAST 1 k
    end) k.

(** The type assertion on the result of a "udp4" listener panics when it is
    something else. *)
Definition openListener (k : kernel) : outcome Z nat * kernel :=
  match ListenPacket listener_control mndpPort k with
  | (inl e, k) => (Fail e, k)
  | (inr (UDPConn fd), k) => (Val fd, k)
  | (inr (OtherConn _), k) => (Panic, k)
  end.

(** ** Lemmas *)

Lemma lowest_from_free fuel : forall n s,
  (size (filter (fun m => (n <= m)%nat) s) < fuel)%nat -> lowest_from fuel n s ∉ s.
Proof.
  induction fuel as [|fuel IH]; intros n s Hs; [lia|]. cbn [lowest_from].
  case_decide as Hn; [|done]. apply IH.
  assert (filter (fun m => (n <= m)%nat) s = {[n]} ∪ filter (fun m => (S n <= m)%nat) s) as Heq.
  { apply set_eq. intros m. rewrite elem_of_union, elem_of_singleton, !elem_of_filter.
    destruct (decide (m = n)) as [->|]; [split; auto|]. split; [intros [? ?]|intros [?|[? ?]]]; try done;
      right || idtac; split; try done; lia. }
  rewrite Heq, size_union, size_singleton in Hs; [lia|].
  apply disjoint_singleton_l. rewrite elem_of_filter. lia.
Qed.
Lemma lowest_free_fresh s : lowest_free s ∉ s.
Proof.
  apply lowest_from_free. apply Nat.lt_succ_r, subseteq_size.
  intros m. rewrite elem_of_filter. by intros [_ ?].
Qed.

(** What a call leaves behind: the descriptors in use, whatever it logs. *)
Lemma answer_open k : k_open (answer k).2 = k_open k.
Proof. unfold answer. by destruct (k_answers k). Qed.
Lemma answer_log k : k_log (answer k).2 = k_log k.
Proof. unfold answer. by destruct (k_answers k). Qed.

(** [k'] has the descriptors [s] in use and has made the calls [l] since [k]. *)
Definition reached (k : kernel) (s : gset nat) (l : list syscall) (k' : kernel) : Prop :=
  k_open k' = s /\ k_log k' = k_log k ++ l.

Lemma reached_refl k : reached k (k_open k) [] k.
Proof. split; [done|]. by rewrite app_nil_r. Qed.
Lemma reached_trans k s l k1 s1 l1 k2 :
  reached k s l k1 -> reached k1 s1 l1 k2 -> reached k s1 (l ++ l1) k2.
Proof. intros [_ H] [H1 H2]. split; [done|]. by rewrite H2, H, app_assoc. Qed.

Lemma socket_cases d t p k :
  match socket d t p k with
  | (inl _, k') => reached k (k_open k) [] k'
  | (inr fd, k') => (fd ∉ k_open k) /\ reached k ({[fd]} ∪ k_open k) [SysSocket d t p fd] k'
  end.
Proof.
  unfold socket. pose proof (answer_open k) as Ho. pose proof (answer_log k) as Hl.
  destruct (answer k) as [[e|] k1]; cbn in *.
  - split; [done|]. by rewrite Hl, app_nil_r.
  - rewrite <- Ho. split; [apply lowest_free_fresh|]. split; [done|]. cbn. by rewrite Hl.
Qed.

Lemma setsockopt_cases fd lvl opt v k :
  match setsockopt fd lvl opt v k with
  | (Some _, k') => reached k (k_open k) [] k'
  | (None, k') => reached k (k_open k) [SysSetsockopt fd lvl opt v] k'
  end.
Proof.
  unfold setsockopt. pose proof (answer_open k) as Ho. pose proof (answer_log k) as Hl.
  destruct (answer k) as [[e|] k1]; cbn in *; split; cbn; rewrite ?Hl, ?app_nil_r; done.
Qed.

Lemma bind_addr_cases fd a k :
  match bind_addr fd a k with
  | (Some _, k') => reached k (k_open k) [] k'
  | (None, k') => reached k (k_open k) [SysBind fd a] k'
  end.
Proof.
  unfold bind_addr. pose proof (answer_open k) as Ho. pose proof (answer_log k) as Hl.
  destruct (answer k) as [[e|] k1]; cbn in *; split; cbn; rewrite ?Hl, ?app_nil_r; done.
Qed.

(** A descriptor opened on top of [s] is closed: back to [s]. *)
Lemma close_opened fd s k : fd ∉ s -> k_open k = {[fd]} ∪ s ->
  reached k s [SysClose fd] (close fd k).2.
Proof.
  intros Hf Hk. unfold close. rewrite decide_True by (rewrite Hk; by apply elem_of_union_l, elem_of_singleton).
  split; [|done]. cbn. rewrite Hk. apply set_eq. intros m. rewrite elem_of_difference, elem_of_union, elem_of_singleton. 
  split; [intros [[?|?] ?]; done|]. intros Hm. split; [by right|]. by intros ->.
Qed.

(** A [Control] hook touches no descriptor. *)
Definition hook_ok (control : nat -> kernel -> option Z * kernel) (calls : nat -> list (list syscall)) : Prop :=
  forall fd k, let '(e, k') := control fd k in
    exists l, reached k (k_open k) l k' /\ (e = None -> l ∈ calls fd).

Lemma ListenPacket_cases control calls port k : hook_ok control calls ->
  match ListenPacket control port k with
  | (inl _, k') => exists l, reached k (k_open k) l k'
  | (inr (UDPConn fd), k') => (fd ∉ k_open k) /\ exists l, (l ∈ calls fd)
      /\ reached k ({[fd]} ∪ k_open k)
           ([SysSocket AF_INET SOCK_DGRAM 0 fd] ++ l ++ [SysBind fd (InetAny port)]) k'
  | (inr (OtherConn _), _) => False
  end.
Proof.
  intros Hc. unfold ListenPacket. pose proof (socket_cases AF_INET SOCK_DGRAM 0 k) as Hs.
  destruct (socket AF_INET SOCK_DGRAM 0 k) as [[e|fd] k1]; [by exists []|]. destruct Hs as [Hf Hs].
  specialize (Hc fd k1). destruct (control fd k1) as [e k2]. destruct Hc as (l & Hl & He).
  rewrite (proj1 Hs) in Hl. pose proof (reached_trans _ _ _ _ _ _ _ Hs Hl) as H2.
  destruct e as [e|].
  { eexists. eapply reached_trans; [exact H2|]. apply close_opened; [done|apply H2]. }
  pose proof (bind_addr_cases fd (InetAny port) k2) as Hb. rewrite (proj1 H2) in Hb.
  destruct (bind_addr fd (InetAny port) k2) as [[e|] k3]; pose proof (reached_trans _ _ _ _ _ _ _ H2 Hb) as H3.
  - eexists. eapply reached_trans; [exact H3|]. apply close_opened; [done|apply H3].
  - split; [done|]. exists l. split; [auto|]. by rewrite app_assoc.
Qed.

Lemma RawConn_Control_ok f calls : hook_ok f calls -> hook_ok (fun fd => RawConn_Control (f fd)) calls.
Proof.
  intros Hf fd k. unfold RawConn_Control. pose proof (answer_open k) as Ho. pose proof (answer_log k) as Hl.
  destruct (answer k) as [[e|] k1]; cbn in *.
  - exists []. split; [|done]. split; [done|]. by rewrite Hl, app_nil_r.
  - specialize (Hf fd k1). destruct (f fd k1) as [e k2]. destruct Hf as (l & [H1 H2] & He).
    exists l. split; [|done]. split; [congruence|]. by rewrite H2, Hl.
Qed.

(** The options of the session's UDP socket. *)
Definition recv_options (fd : nat) : list (list syscall) :=
  let reuse := SysSetsockopt fd SOL_SOCKET SO_REUSEADDR 1 in
  [[reuse]; [reuse; SysSetsockopt fd SOL_SOCKET soReusePort 1]].

Lemma recv_control_ok : hook_ok recv_control recv_options.
Proof.
  apply RawConn_Control_ok. intros fd k. pose proof (setsockopt_cases fd SOL_SOCKET SO_REUSEADDR 1 k) as H1.
  destruct (setsockopt fd SOL_SOCKET SO_REUSEADDR 1 k) as [[e|] k1]; [by exists []|].
  pose proof (setsockopt_cases fd SOL_SOCKET soReusePort 1 k1) as H2. rewrite (proj1 H1) in H2.
  destruct (setsockopt fd SOL_SOCKET soReusePort 1 k1) as [[e|] k2];
    eexists; (split; [exact (reached_trans _ _ _ _ _ _ _ H1 H2)|]); intros _; [left|right; left].
Qed.

Lemma listener_control_ok : hook_ok listener_control (fun fd =>
  [[SysSetsockopt fd SOL_SOCKET SO_REUSEADDR 1; SysSetsockopt fd SOL_SOCKET SO_BROADCAST 1]]).
Proof.
  apply RawConn_Control_ok. intros fd k. pose proof (setsockopt_cases fd SOL_SOCKET SO_REUSEADDR 1 k) as H1.
  destruct (setsockopt fd SOL_SOCKET SO_REUSEADDR 1 k) as [[e|] k1]; [by exists []|].
  pose proof (setsockopt_cases fd SOL_SOCKET SO_BROADCAST 1 k1) as H2. rewrite (proj1 H1) in H2.
  destruct (setsockopt fd SOL_SOCKET SO_BROADCAST 1 k1) as [[e|] k2];
    eexists; (split; [exact (reached_trans _ _ _ _ _ _ _ H1 H2)|]); intros ?; [done|].
  by apply list_elem_of_singleton.
Qed.

(** The receiving socket, by the receiver's kind. *)
Definition recv_calls (c : rxConn) (ifindex : Z) : list (list syscall) :=
  match c with
  | RxUDP fd _ => (fun opts => [SysSocket AF_INET SOCK_DGRAM 0 fd] ++ opts ++ [SysBind fd (InetAny udpPort)])
                  <$> recv_options fd
  | RxRaw r => [[SysSocket AF_PACKET SOCK_RAW 0x0300 (rcv_fd r); SysBind (rcv_fd r) (LinkAddr 0x0300 ifindex)]]
  end.
Definition rx_fd (c : rxConn) : nat := match c with RxUDP fd _ => fd | RxRaw r => rcv_fd r end.
Definition rx_closed (c : rxConn) : bool := match c with RxUDP _ b => b | RxRaw r => rcv_closed r end.

Lemma rxConn_Close_opened c s k : rx_closed c = false -> rx_fd c ∉ s -> k_open k = {[rx_fd c]} ∪ s ->
  reached k s [SysClose (rx_fd c)] (rxConn_Close c k).2.
Proof.
  intros Hc Hf Hk. destruct c as [fd closed|r]; cbn in Hc, Hf, Hk; subst.
  - by apply (close_opened fd).
  - unfold rxConn_Close, rawReceiver_Close. rewrite Hc. cbn. pose proof (close_opened _ _ _ Hf Hk) as H.
    by destruct (close (rcv_fd r) k).
Qed.

(** Closing twice releases one descriptor, even if its number has been
    given to another socket in between. *)
Lemma rxConn_Close_twice c k k1 : rxConn_Close (rxConn_Close c k).1 k1 = ((rxConn_Close c k).1, k1).
Proof.
  destruct c as [fd [|]|r]; [done..|]. destruct r as [fd v m c]. unfold rxConn_Close at 2 3.
  unfold rawReceiver_Close. cbn [rcv_closed]. destruct c; [done|]. cbn. by destruct (close fd k).
Qed.

(** What a successful [openSockets] leaves: two new descriptors. *)
Record sockets_open (ifindex : Z) (hw : bytes) (vlanID : Z) (k : kernel) (recv : rxConn)
    (snd : rawSender) (k' : kernel) : Prop := {
  so_recv_new : rx_fd recv ∉ k_open k;
  so_send_new : snd_fd snd ∉ ({[rx_fd recv]} ∪ k_open k : gset nat);
  so_calls : exists l, l ∈ recv_calls recv ifindex
    /\ reached k ({[snd_fd snd]} ∪ ({[rx_fd recv]} ∪ k_open k))
         (l ++ [SysSocket AF_PACKET SOCK_RAW 0x0008 (snd_fd snd)]) k';
  so_sender : snd = new_sender (snd_fd snd) ifindex hw vlanID;
  so_receiver : recv = if decide (vlanID <> 0)
    then RxRaw (mkReceiver (rx_fd recv) vlanID (take 6 (hw ++ make 6)) false)
    else RxUDP (rx_fd recv) false;
}.

Lemma openRecv_cases k :
  match openRecv k with
  | (inl _, k') => exists l, reached k (k_open k) l k'
  | (inr fd, k') => (fd ∉ k_open k) /\ exists l, l ∈ recv_calls (RxUDP fd false) 0
      /\ reached k ({[fd]} ∪ k_open k) l k'
  end.
Proof.
  unfold openRecv. pose proof (ListenPacket_cases _ _ udpPort k recv_control_ok) as H.
  destruct (ListenPacket recv_control udpPort k) as [[e|[fd|fd]] k']; [done| |done].
  destruct H as [Hf (l & Hl & Hr)]. split; [done|]. eexists. split; [|exact Hr].
  apply list_elem_of_fmap. by exists l.
Qed.

Lemma openRawReceiver_cases ifindex hw vlanID k :
  match openRawReceiver ifindex hw vlanID k with
  | (inl _, k') => exists l, reached k (k_open k) l k'
  | (inr r, k') => (rcv_fd r ∉ k_open k)
      /\ r = mkReceiver (rcv_fd r) vlanID (take 6 (hw ++ make 6)) false
      /\ exists l, l ∈ recv_calls (RxRaw r) ifindex /\ reached k ({[rcv_fd r]} ∪ k_open k) l k'
  end.
Proof.
  unfold openRawReceiver. pose proof (socket_cases AF_PACKET SOCK_RAW (htons ethPALL) k) as Hs.
  destruct (socket AF_PACKET SOCK_RAW (htons ethPALL) k) as [[e|fd] k1]; [by exists []|]. destruct Hs as [Hf Hs].
  pose proof (bind_addr_cases fd (LinkAddr (htons ethPALL) ifindex) k1) as Hb. rewrite (proj1 Hs) in Hb.
  destruct (bind_addr fd _ k1) as [[e|] k2]; pose proof (reached_trans _ _ _ _ _ _ _ Hs Hb) as H2.
  - eexists. eapply reached_trans; [exact H2|]. apply close_opened; [done|apply H2].
  - split_and!; [done..|]. eexists. split; [|exact H2]. by apply list_elem_of_singleton.
Qed.

Lemma openSockets_result ifindex hw vlanID k :
  match openSockets ifindex hw vlanID k with
  | (inl _, k') => exists l, reached k (k_open k) l k'
  | (inr (recv, snd), k') => sockets_open ifindex hw vlanID k recv snd k'
  end.
Proof.
  unfold openSockets.
  assert (forall recv l k1, rx_closed recv = false -> rx_fd recv ∉ k_open k -> l ∈ recv_calls recv ifindex ->
    reached k ({[rx_fd recv]} ∪ k_open k) l k1 ->
    recv = (if decide (vlanID <> 0)
      then RxRaw (mkReceiver (rx_fd recv) vlanID (take 6 (hw ++ make 6)) false)
      else RxUDP (rx_fd recv) false) ->
    match (match openRawSender ifindex hw vlanID k1 with
           | (inl e, k) => (inl e, (rxConn_Close recv k).2)
           | (inr sender, k) => (inr (recv, sender), k)
           end) with
    | (inl _, k') => exists l, reached k (k_open k) l k'
    | (inr (recv, snd), k') => sockets_open ifindex hw vlanID k recv snd k'
    end) as Hsender.
  { intros recv l k1 Hc Hf Hl Hr Hrecv. unfold openRawSender.
    pose proof (socket_cases AF_PACKET SOCK_RAW (htons ethPIP) k1) as Hs. rewrite (proj1 Hr) in Hs.
    destruct (socket AF_PACKET SOCK_RAW (htons ethPIP) k1) as [[e|fd] k2].
    - pose proof (reached_trans _ _ _ _ _ _ _ Hr Hs) as H2. eexists. eapply reached_trans; [exact H2|].
      apply rxConn_Close_opened; [done..|apply H2].
    - destruct Hs as [Hfd Hs]. split; try done. exists l. split; [done|]. exact (reached_trans _ _ _ _ _ _ _ Hr Hs). }
  destruct (decide (vlanID <> 0)) as [Hv|Hv].
  - pose proof (openRawReceiver_cases ifindex hw vlanID k) as H.
    destruct (openRawReceiver ifindex hw vlanID k) as [[e|r] k1]; [done|]. destruct H as (Hf & Hr & l & Hl & Hk).
    eapply Hsender; try done; cbn; [by rewrite Hr|by f_equal].
  - pose proof (openRecv_cases k) as H. destruct (openRecv k) as [[e|fd] k1]; [done|].
    destruct H as (Hf & l & Hl & Hk). by eapply Hsender.
Qed.

(** Both closed: nothing is left. *)
Lemma sockets_released ifindex hw vlanID k recv snd k' :
  sockets_open ifindex hw vlanID k recv snd k' ->
  reached k' (k_open k) [SysClose (rx_fd recv); SysClose (snd_fd snd)]
    (rawSender_Close snd (rxConn_Close recv k').2).2.
Proof.
  intros [Hr Hs (l & _ & Hk & _) _ Hrecv].
  assert (rx_closed recv = false) as Hc by (rewrite Hrecv; by case_decide).
  assert (reached k' ({[snd_fd snd]} ∪ k_open k) [SysClose (rx_fd recv)] (rxConn_Close recv k').2) as H1.
  { apply rxConn_Close_opened; [done| |].
    - rewrite not_elem_of_union, not_elem_of_singleton in Hs |- *. split; [intros He; by apply (proj1 Hs)|done].
    - rewrite Hk. by rewrite !(assoc_L (∪)), (comm_L (∪) {[snd_fd snd]}). }
  eapply (reached_trans _ _ [_] _ _ [_]); [exact H1|]. apply close_opened; [|apply H1].
  intros Hin. apply Hs. by apply elem_of_union_r.
Qed.

(** MNDP's listener: one descriptor, its options set before it is bound;
    the type assertion holds. *)
Lemma openListener_cases k :
  match openListener k with
  | (Val fd, k') => (fd ∉ k_open k)
      /\ reached k ({[fd]} ∪ k_open k)
           [SysSocket AF_INET SOCK_DGRAM 0 fd; SysSetsockopt fd SOL_SOCKET SO_REUSEADDR 1;
            SysSetsockopt fd SOL_SOCKET SO_BROADCAST 1; SysBind fd (InetAny mndpPort)] k'
      /\ reached k (k_open k)
           [SysSocket AF_INET SOCK_DGRAM 0 fd; SysSetsockopt fd SOL_SOCKET SO_REUSEADDR 1;
            SysSetsockopt fd SOL_SOCKET SO_BROADCAST 1; SysBind fd (InetAny mndpPort); SysClose fd]
           (close fd k').2
  | (Fail _, k') => exists l, reached k (k_open k) l k'
  | (Panic, _) => False
  end.
Proof.
  unfold openListener. pose proof (ListenPacket_cases _ _ mndpPort k listener_control_ok) as H.
  destruct (ListenPacket listener_control mndpPort k) as [[e|[fd|fd]] k']; [done| |done].
  destruct H as (Hf & l & Hl%list_elem_of_singleton & Hr). subst l. split_and!; [done..|].
  eapply (reached_trans _ _ [_; _; _; _] _ _ [_]); [exact Hr|]. by apply close_opened; [|apply Hr].
Qed.

(** ** The receiver's deadline in the kernel

    A timeval of zero means that [Recvfrom] waits forever: this happens for
    no deadline, and for one that is reached in the very nanosecond it is
    set. *)
Lemma NsecToTimeval_round n : 0 <= n < 2 ^ 63 - 999 ->
  let '(sec, usec) := NsecToTimeval n in
  0 <= usec < 1000000 /\ n <= sec * 1000000000 + usec * 1000 < n + 1000.
Proof.
  intros Hn. unfold NsecToTimeval. rewrite i64_id by (unfold is_i64; lia). cbv zeta.
  rewrite (Z.rem_mod_nonneg (n + 999)), (Z.quot_div_nonneg (n + 999)) by lia.
  pose proof (Z.mod_pos_bound (n + 999) 1000000000 ltac:(lia)) as Hm.
  rewrite Z.quot_div_nonneg by lia.
  pose proof (Z.div_mod (n + 999) 1000000000 ltac:(lia)) as H1.
  pose proof (Z.div_mod ((n + 999) mod 1000000000) 1000 ltac:(lia)) as H2.
  pose proof (Z.mod_pos_bound ((n + 999) mod 1000000000) 1000 ltac:(lia)).
  pose proof (Z.div_pos ((n + 999) mod 1000000000) 1000 ltac:(lia) ltac:(lia)).
  rewrite (proj2 (Z.ltb_ge _ _)) by lia. split; [|lia].
  split; [lia|]. apply Z.div_lt_upper_bound; lia.
Qed.

Lemma read_timeval_cases until :
  (forall d, until = Some d -> d < 2 ^ 63 - 999) ->
  let '(sec, usec) := read_timeval until in
  0 <= usec < 1000000
  /\ (sec = 0 /\ usec = 0 <-> until = None \/ until = Some 0)
  /\ forall d, until = Some d -> 0 < d -> d <= sec * 1000000000 + usec * 1000 < d + 1000.
Proof.
  intros Hd. unfold read_timeval. destruct until as [d|]; [|by split; [|split; [split; [by left|done]|]]].
  specialize (Hd d eq_refl).
  assert (0 <= (if d <? 0 then 1000 else d) < 2 ^ 63 - 999) as Hn by (case_bool_lia; lia).
  pose proof (NsecToTimeval_round _ Hn) as H. destruct (NsecToTimeval _) as [sec usec].
  destruct H as [Hu Hs]. split; [done|]. split.
  - split; [intros [-> ->]; right; f_equal; revert Hs; case_bool_lia; lia|].
    intros [?|[= ->]]; [done|]. cbn in Hs. lia.
  - intros ? [= <-] Hpos. revert Hs. rewrite (proj2 (Z.ltb_ge _ _)) by lia. done.
Qed.

(** ** Properties *)

(** C17. The sockets of a session. When [openSockets] fails, whichever call
    refused, every descriptor it opened is closed again. When it succeeds it
    has opened exactly two: a UDP socket bound to port 20561 with
    SO_REUSEADDR set before (SO_REUSEPORT when the kernel has it), or for a
    VLAN a packet socket bound to the interface for all protocols; and a raw
    sender for the interface, its address and the VLAN. Closing both, in the
    order of [Close] and [fail], restores the descriptors, and closing the
    receiver once more closes nothing, even if its number is in use again. *)
Theorem openSockets_descriptors ifindex hw vlanID k :
  match openSockets ifindex hw vlanID k with
  | (inl _, k') => exists calls, k_open k' = k_open k /\ k_log k' = k_log k ++ calls
  | (inr (recv, snd), k') =>
      let fd := rx_fd recv in
      let fd' := snd_fd snd in
      (fd ∉ k_open k) /\ (fd' ∉ k_open k) /\ fd <> fd' /\ k_open k' = {[fd'; fd]} ∪ k_open k
      /\ snd = new_sender fd' ifindex hw vlanID
      /\ (exists calls, k_log k' = k_log k ++ calls ++ [SysSocket AF_PACKET SOCK_RAW 0x0008 fd']
           /\ if decide (vlanID <> 0) then
                recv = RxRaw (mkReceiver fd vlanID (take 6 (hw ++ make 6)) false)
                /\ calls = [SysSocket AF_PACKET SOCK_RAW 0x0300 fd; SysBind fd (LinkAddr 0x0300 ifindex)]
              else
                recv = RxUDP fd false
                /\ exists reuse, calls = [SysSocket AF_INET SOCK_DGRAM 0 fd; SysSetsockopt fd SOL_SOCKET SO_REUSEADDR 1]
                                   ++ reuse ++ [SysBind fd (InetAny 20561)]
                     /\ (reuse = [] \/ reuse = [SysSetsockopt fd SOL_SOCKET 15 1]))
      /\ (let '(recv', k1) := rxConn_Close recv k' in
          let k2 := (rawSender_Close snd k1).2 in
          k_open k2 = k_open k /\ forall k3, rxConn_Close recv' k3 = (recv', k3))
  end.
Proof.
  pose proof (openSockets_result ifindex hw vlanID k) as H.
  destruct (openSockets ifindex hw vlanID k) as [[e|[recv snd]] k'].
  { destruct H as (l & Ho & Hl). by exists l. }
  pose proof (sockets_released _ _ _ _ _ _ _ H) as [Hrel _]. pose proof (rxConn_Close_twice recv k') as Htwice.
  destruct H as [Hr Hs (l & Hl & Ho & Hlog) Hsnd Hrecv]. cbv zeta.
  apply not_elem_of_union in Hs as [Hne Hs]. rewrite not_elem_of_singleton in Hne.
  split_and!; [done|done|by intros ?|by rewrite Ho, (assoc_L (∪))|done| |].
  - exists l. split; [by rewrite Hlog|]. rewrite Hrecv in Hl. case_decide as Hv; (split; [done|]).
    + by apply list_elem_of_singleton in Hl.
    + apply list_elem_of_fmap in Hl as (opts & -> & Hopts). unfold recv_options in Hopts. cbn in Hopts.
      rewrite !elem_of_cons in Hopts. destruct Hopts as [->|[->|Hopts]]; [exists []|exists [SysSetsockopt (rx_fd recv) SOL_SOCKET 15 1]|].
      * split; [done|by left].
      * split; [done|by right].
      * by apply elem_of_nil in Hopts.
  - destruct (rxConn_Close recv k') as [recv' k1]. split; [done|exact Htwice].
Qed.
