(* ===== verification/Session.v ===== *)
(** * The session and its goroutines (internal/mactelnet/session.go, loop.go)

    The state a session's goroutines share, and every step taken by a
    goroutine other than the caller of Open, Write or Resize: the receive
    loop with its control-record walk, the keepalive ticker, the terminal
    reader, [Close] and [fail] call by call, cancellation of the parent
    context.  A step is a total function on the state; a step that is not
    enabled changes nothing.

    Go's channels are lists bounded by their capacity, the [io.Pipe] is the
    receive goroutine blocked with the bytes the reader has not taken, and
    what the kernel answers to the next [Sendto] calls is a stream of the
    state, so every schedule and every send failure is covered.  [sent] and
    [piped] record what left the session in each direction. *)

From S2P Require Import Prelude GoBytes Protocol Seq Frame Receiver.

#[local] Open Scope Z_scope.

(** ** State *)

(** [make(chan uint32, 8)] and [make(chan controlPacket, 16)] of [Open]. *)
Definition ackCh_cap : nat := 8.
Definition controlCh_cap : nat := 16.

Record controlPacket := mkControl { cpt : Z; cbody : bytes }.
#[export] Instance controlPacket_eq_dec : EqDecision controlPacket.
Proof. solve_decision. Defined.

(** The errors a session keeps in [errVal], and what [ctx.Err()] reports. *)
Inductive session_error :=
| EOF                          (* io.EOF: the peer's END *)
| ErrConn (e : read_error).    (* a read error of the socket *)
Inductive ctx_error := Canceled | DeadlineExceeded.
#[export] Instance ctx_error_eq_dec : EqDecision ctx_error.
Proof. solve_decision. Defined.
#[export] Instance frame_error_eq_dec : EqDecision frame_error.
Proof. solve_decision. Defined.
#[export] Instance read_error_eq_dec : EqDecision read_error.
Proof. solve_decision. Defined.
#[export] Instance session_error_eq_dec : EqDecision session_error.
Proof. solve_decision. Defined.

(** The fields of Go's [Session] that its operations change or read. *)
Record Session := mkSession {
  sender : rawSender;
  srcMAC : bytes;
  dstMAC : bytes;
  sessionKey : Z;
  ctrs : counters;
  ackCh : list Z;
  controlCh : list controlPacket;
  terminalMode : bool;
  closed : bool;
  ctx : option ctx_error;          (* [ctx.Err()] *)
  errVal : option session_error;
  connClosed : bool;               (* [s.conn.Close()] has been called *)
  senderClosed : bool;             (* [s.sender.Close()] *)
  pipeClosed : bool;               (* either end of [rxPipe] closed *)
}.

(** The calls that tear a session down, in the order [Close] and [fail] make
    them once they have won the swap of [closed]. *)
Inductive shut_act := ShutCancel | ShutConn | ShutSender | ShutPipeW | ShutPipeR.
#[export] Instance shut_act_eq_dec : EqDecision shut_act.
Proof. solve_decision. Defined.
Definition close_acts : list shut_act := [ShutCancel; ShutConn; ShutSender; ShutPipeW; ShutPipeR].
Definition fail_acts : list shut_act := [ShutCancel; ShutConn; ShutSender; ShutPipeW].

(** Where the receive goroutine is. *)
Inductive rx_pc :=
| RxTop                                        (* the top of the loop *)
| RxReading                                    (* in [conn.Read] *)
| RxWalk (payload : bytes)                     (* in [iterateControl] *)
| RxPipe (chunk payload : bytes)               (* in [rxPipeW.Write(chunk)] *)
| RxControl (cp : controlPacket) (payload : bytes)  (* sending on [controlCh] *)
| RxFail (e : session_error)                   (* in [s.fail(e)], at the swap of [errVal] *)
| RxSwap                                       (* ... at the swap of [closed] *)
| RxShut (l : list shut_act)                   (* ... having won it, with [l] to do *)
| RxReturn                                     (* at the deferred [rxPipeW.Close()] *)
| RxDone                                       (* at the deferred [close(s.done)] *)
| RxExited.                                    (* [done] is closed *)

(** Where the call of [Close] that won the swap is: one call does, or none. *)
Inductive close_pc :=
| CloseIdle
| CloseEnd                                     (* about to send END *)
| CloseShut (l : list shut_act).               (* with [l] to do, then [<-s.done] *)

(** Where the keepalive goroutine is. *)
Inductive ka_pc :=
| KaOff                                        (* not started *)
| KaSelect
| KaSend                                       (* past its look at [closed] *)
| KaExited.

(** Who handed a datagram to the kernel. *)
Inductive origin := ByDriver | ByRx | ByKeepalive | ByClose.
#[export] Instance origin_eq_dec : EqDecision origin.
Proof. solve_decision. Defined.

Record world := mkWorld {
  sess : Session;
  rx : rx_pc;
  closer : close_pc;
  ka : ka_pc;
  kern : list (option Z);          (* answers to the next [Sendto] calls *)
  sent : list (origin * bytes);    (* datagrams handed to the kernel, oldest first *)
  piped : bytes;                   (* terminal output the reader has taken *)
  crashed : bool;                  (* a goroutine has panicked *)
}.

Definition on_sess (f : Session -> Session) (w : world) : world :=
  mkWorld (f (sess w)) (rx w) (closer w) (ka w) (kern w) (sent w) (piped w) (crashed w).
Definition set_rx (pc : rx_pc) (w : world) : world :=
  mkWorld (sess w) pc (closer w) (ka w) (kern w) (sent w) (piped w) (crashed w).
Definition set_closer (pc : close_pc) (w : world) : world :=
  mkWorld (sess w) (rx w) pc (ka w) (kern w) (sent w) (piped w) (crashed w).
Definition set_ka (pc : ka_pc) (w : world) : world :=
  mkWorld (sess w) (rx w) (closer w) pc (kern w) (sent w) (piped w) (crashed w).
Definition crash (w : world) : world :=
  mkWorld (sess w) (rx w) (closer w) (ka w) (kern w) (sent w) (piped w) true.

Definition set_ctrs c s := mkSession (sender s) (srcMAC s) (dstMAC s) (sessionKey s) c (ackCh s) (controlCh s)
  (terminalMode s) (closed s) (ctx s) (errVal s) (connClosed s) (senderClosed s) (pipeClosed s).
Definition set_ackCh l s := mkSession (sender s) (srcMAC s) (dstMAC s) (sessionKey s) (ctrs s) l (controlCh s)
  (terminalMode s) (closed s) (ctx s) (errVal s) (connClosed s) (senderClosed s) (pipeClosed s).
Definition set_controlCh l s := mkSession (sender s) (srcMAC s) (dstMAC s) (sessionKey s) (ctrs s) (ackCh s) l
  (terminalMode s) (closed s) (ctx s) (errVal s) (connClosed s) (senderClosed s) (pipeClosed s).
Definition set_terminalMode b s := mkSession (sender s) (srcMAC s) (dstMAC s) (sessionKey s) (ctrs s) (ackCh s) (controlCh s)
  b (closed s) (ctx s) (errVal s) (connClosed s) (senderClosed s) (pipeClosed s).
Definition set_ctx e s := mkSession (sender s) (srcMAC s) (dstMAC s) (sessionKey s) (ctrs s) (ackCh s) (controlCh s)
  (terminalMode s) (closed s) e (errVal s) (connClosed s) (senderClosed s) (pipeClosed s).
Definition set_connClosed s := mkSession (sender s) (srcMAC s) (dstMAC s) (sessionKey s) (ctrs s) (ackCh s) (controlCh s)
  (terminalMode s) (closed s) (ctx s) (errVal s) true (senderClosed s) (pipeClosed s).
Definition set_senderClosed s := mkSession (sender s) (srcMAC s) (dstMAC s) (sessionKey s) (ctrs s) (ackCh s) (controlCh s)
  (terminalMode s) (closed s) (ctx s) (errVal s) (connClosed s) true (pipeClosed s).
Definition set_pipeClosed s := mkSession (sender s) (srcMAC s) (dstMAC s) (sessionKey s) (ctrs s) (ackCh s) (controlCh s)
  (terminalMode s) (closed s) (ctx s) (errVal s) (connClosed s) (senderClosed s) true.
Definition set_closed s := mkSession (sender s) (srcMAC s) (dstMAC s) (sessionKey s) (ctrs s) (ackCh s) (controlCh s)
  (terminalMode s) true (ctx s) (errVal s) (connClosed s) (senderClosed s) (pipeClosed s).
Definition set_sender snd s := mkSession snd (srcMAC s) (dstMAC s) (sessionKey s) (ctrs s) (ackCh s) (controlCh s)
  (terminalMode s) (closed s) (ctx s) (errVal s) (connClosed s) (senderClosed s) (pipeClosed s).

(** [s.cancel()], or the parent's cancellation: the first cause sticks. *)
Definition cancel_with (e : ctx_error) (s : Session) : Session :=
  match ctx s with Some _ => s | None => set_ctx (Some e) s end.

(** One of the teardown's calls. *)
Definition shut_one (a : shut_act) (s : Session) : Session :=
  match a with
  | ShutCancel => cancel_with Canceled s
  | ShutConn => set_connClosed s
  | ShutSender => set_senderClosed s
  | ShutPipeW | ShutPipeR => set_pipeClosed s
  end.

(** [s.errVal.CompareAndSwap(nil, err)] *)
Definition set_errVal (e : session_error) (s : Session) : Session :=
  match errVal s with
  | Some _ => s
  | None => mkSession (sender s) (srcMAC s) (dstMAC s) (sessionKey s) (ctrs s) (ackCh s) (controlCh s)
      (terminalMode s) (closed s) (ctx s) (Some e) (connClosed s) (senderClosed s) (pipeClosed s)
  end.

(** [Open] once the address, the interface and the sockets are resolved:
    the session before the handshake, with the receive goroutine started.
    [sk] is the random session key's two bytes. *)
Definition new_session (snd : rawSender) (hardwareAddr dst : bytes) (sk : bytes) : proto Session :=
  key ← be16 sk;
  Val (mkSession snd (take 6 (hardwareAddr ++ make 6)) dst key init_counters [] [] false false
         None None false false false).

(** ** Sending *)

(** [s.sender.Send(payload, s.dstMAC)] under [sendMu]. *)
Definition transmit (who : origin) (payload : bytes) (w : world) : world * option Z :=
  let '(errno, kern') := match kern w with e :: l => (e, l) | [] => (None, []) end in
  match Send (sender (sess w)) payload (dstMAC (sess w)) errno with
  | Val (snd, _, _, r) =>
      (mkWorld (set_sender snd (sess w)) (rx w) (closer w) (ka w) kern' (sent w ++ [(who, payload)])
         (piped w) (crashed w), r)
  | _ => (crash w, None)
  end.

(** A header-only datagram: [h.encode(buf[:], dirToServer)] into a fresh
    [[headerLen]byte], then [Send]. *)
Definition transmit_header (who : origin) (h : header) (w : world) : world * option Z :=
  match encode h (make headerLen) dirToServer with
  | Val (buf, _) => transmit who buf w
  | _ => (crash w, None)
  end.

(** The headers the session sends: [Version] is left zero, [encode] writes
    the protocol version. *)
Definition session_header (s : Session) (ptype counter : Z) : header :=
  mkHeader 0 ptype (srcMAC s) (dstMAC s) (sessionKey s) counter.

(** ** session.go: fail, Close

    Each call their bodies make is an action of its own: the other
    goroutines run between any two of them. *)

(** [func (s *Session) fail(err error)] with a non-nil error, called by the
    receive goroutine: its next action. *)
Definition fail (w : world) : world :=
  match rx w with
  | RxFail e => set_rx RxSwap (on_sess (set_errVal e) w)
  | RxSwap =>
      if closed (sess w) then set_rx RxReturn w
      else set_rx (RxShut fail_acts) (on_sess set_closed w)
  | RxShut (a :: l) => set_rx (RxShut l) (on_sess (shut_one a) w)
  | RxShut [] => set_rx RxReturn w
  | _ => w
  end.

(** [func (s *Session) Close() error]: the swap... *)
Definition Close (w : world) : world :=
  if closed (sess w) then w else set_closer CloseEnd (on_sess set_closed w).

(** ... and, if it was won, its next action: END, then the teardown, up to
    the wait for the receive goroutine. *)
Definition Close_next (w : world) : world :=
  match closer w with
  | CloseEnd =>
      set_closer (CloseShut close_acts)
        (fst (transmit_header ByClose (session_header (sess w) pTypeEnd 0) w))
  | CloseShut (a :: l) => set_closer (CloseShut l) (on_sess (shut_one a) w)
  | _ => w
  end.

(** ** loop.go *)

(** [processInboundData] up to the record walk: the acknowledgement, always
    sent, then the duplicate check. *)
Definition processInboundData (h : header) (payload : bytes) (w : world) : world :=
  let plen := u32 (Z.of_nat (length payload)) in
  let ack := session_header (sess w) pTypeAck (ackCounterFor (Counter h) plen) in
  let '(w, _) := transmit_header ByRx ack w in
  let '(c, fresh) := acceptIncoming (ctrs (sess w)) (Counter h) in
  let w := on_sess (set_ctrs c) w in
  if fresh then set_rx (RxWalk payload) w else set_rx RxTop w.

(** [rxLoop] after [conn.Read] stored a datagram. *)
Definition rx_datagram (buf : bytes) (w : world) : world :=
  if (length buf <? headerLen)%nat then set_rx RxTop w
  else
    match decodeHeader buf dirToClient with
    | Fail _ => set_rx RxTop w
    | Panic => crash w
    | Val (h, payload) =>
        if decide (SessionKey h <> sessionKey (sess w)) then set_rx RxTop w
        else if decide (PType h = pTypeAck) then
          set_rx RxTop
            (on_sess (fun s => if (length (ackCh s) <? ackCh_cap)%nat
                               then set_ackCh (ackCh s ++ [Counter h]) s else s) w)
        else if decide (PType h = pTypeData) then processInboundData h payload w
        else if decide (PType h = pTypeEnd) then set_rx (RxFail EOF) w
        else set_rx RxTop w
    end.

(** What [conn.Read] returns to the loop. *)
Inductive read_result := ReadOk (buf : bytes) | ReadFail (e : read_error).

Definition rx_read (r : read_result) (w : world) : world :=
  match r with
  | ReadFail ErrDeadlineExceeded => set_rx RxTop w
  | ReadFail ErrClosed => set_rx RxReturn w
  | ReadFail e => set_rx (RxFail (ErrConn e)) w
  | ReadOk buf => rx_datagram buf w
  end.

(** One turn of [iterateControl] with the callback of [processInboundData],
    up to its blocking operation. *)
Definition rx_walk (payload : bytes) (w : world) : world :=
  match payload with
  | [] => set_rx RxTop w
  | _ =>
      match control_step payload with
      | Panic => crash w
      | Fail _ => set_rx RxTop w
      | Val (rec, rest) =>
          let rest := match rest with Some p => p | None => [] end in
          if decide (CPType rec = cpTypePlainData) then
            if terminalMode (sess w) then set_rx (RxPipe (Body rec) rest) w
            else set_rx (RxWalk rest) w
          else set_rx (RxControl (mkControl (CPType rec) (Body rec)) rest) w
      end
  end.

(** The receive goroutine runs to its next blocking point or loop top. *)
Definition rx_step (w : world) : world :=
  match rx w with
  | RxTop => match ctx (sess w) with Some _ => set_rx RxReturn w | None => set_rx RxReading w end
  | RxReading => w
  | RxWalk payload => rx_walk payload w
  | RxPipe _ payload => if pipeClosed (sess w) then set_rx (RxWalk payload) w else w
  | RxControl cp payload =>
      if (length (controlCh (sess w)) <? controlCh_cap)%nat then
        set_rx (RxWalk payload) (on_sess (fun s => set_controlCh (controlCh s ++ [cp]) s) w)
      else w
  | RxFail _ | RxSwap | RxShut _ => fail w
  | RxReturn => set_rx RxDone (on_sess set_pipeClosed w)
  | RxDone => set_rx RxExited w
  | RxExited => w
  end.

(** The [ctx.Done()] case of the blocked control send: the walk stops. *)
Definition rx_give_up (w : world) : world :=
  match rx w, ctx (sess w) with
  | RxControl _ _, Some _ => set_rx RxTop w
  | _, _ => w
  end.

(** [Session.Read] with an [n]-byte buffer, when the writer is blocked. *)
Definition Session_Read (n : nat) (w : world) : world :=
  match rx w with
  | RxPipe chunk payload =>
      if pipeClosed (sess w) then w
      else
        let chunk' := drop n chunk in
        mkWorld (sess w) (match chunk' with [] => RxWalk payload | _ => RxPipe chunk' payload end)
          (closer w) (ka w) (kern w) (sent w) (piped w ++ take n chunk) (crashed w)
  | _ => w
  end.

(** [keepaliveLoop] takes the ticker's case, which it may do even when the
    context has ended, or sends. *)
Definition keepalive_tick (w : world) : world :=
  match ka w with
  | KaSelect => if closed (sess w) then set_ka KaExited w else set_ka KaSend w
  | KaSend =>
      set_ka KaSelect (fst (transmit_header ByKeepalive
        (session_header (sess w) pTypeAck (out (ctrs (sess w)))) w))
  | _ => w
  end.
(** ... or that of [s.ctx.Done()]. *)
Definition keepalive_done (w : world) : world :=
  match ka w, ctx (sess w) with KaSelect, Some _ => set_ka KaExited w | _, _ => w end.
(** [go s.keepaliveLoop()] *)
Definition keepalive_start (w : world) : world :=
  match ka w with KaOff => set_ka KaSelect w | _ => w end.

(** ** The caller's atomic actions

    What Write, Resize and the handshake do to the shared state between two
    blocking points; SessionOps.v composes them. *)

(** The drain loop of [sendDataAndWaitAck]. *)
Definition drain_acks (w : world) : world := on_sess (set_ackCh []) w.

(** [s.counters.reserveOut(plen)] *)
Definition reserve (plen : Z) (w : world) : world * Z :=
  let '(c, seq) := reserveOut (ctrs (sess w)) plen in (on_sess (set_ctrs c) w, seq).

(** [<-s.ackCh] and [<-s.controlCh], [None] when there is nothing. *)
Definition take_ack (w : world) : option (world * Z) :=
  match ackCh (sess w) with
  | got :: l => Some (on_sess (set_ackCh l) w, got)
  | [] => None
  end.
Definition take_control (w : world) : option (world * controlPacket) :=
  match controlCh (sess w) with
  | cp :: l => Some (on_sess (set_controlCh l) w, cp)
  | [] => None
  end.

(** ** Steps *)

Inductive step :=
| SRead (r : read_result)       (* [conn.Read] returns to the receive loop *)
| SRx                           (* the receive goroutine proceeds *)
| SGiveUp                       (* ... through [ctx.Done()] *)
| SConsume (n : nat)            (* the terminal calls [Session.Read] *)
| SKeepalive                    (* the keepalive goroutine ticks or sends *)
| SKeepaliveDone                (* ... leaves through [ctx.Done()] *)
| SClose                        (* someone calls [Close] *)
| SCloser                       (* ... and proceeds, having won the swap *)
| SCancel (e : ctx_error)   (* the parent context ends *)
(* the caller of Write, Resize or Open *)
| SDrain
| SReserve (plen : Z)
| SSend (payload : bytes)
| STakeAck
| STakeControl
| STerminal                     (* [terminalMode.Store(true)] *)
| SStart.                       (* [go s.keepaliveLoop()] *)

Definition apply_step (s : step) (w : world) : world :=
  if crashed w then w
  else
    match s with
    | SRead r => match rx w with RxReading => rx_read r w | _ => w end
    | SRx => rx_step w
    | SGiveUp => rx_give_up w
    | SConsume n => Session_Read n w
    | SKeepalive => keepalive_tick w
    | SKeepaliveDone => keepalive_done w
    | SClose => Close w
    | SCloser => Close_next w
    | SCancel e => on_sess (cancel_with e) w
    | SDrain => drain_acks w
    | SReserve plen => fst (reserve plen w)
    | SSend payload => fst (transmit ByDriver payload w)
    | STakeAck => match take_ack w with Some (w, _) => w | None => w end
    | STakeControl => match take_control w with Some (w, _) => w | None => w end
    | STerminal => on_sess (set_terminalMode true) w
    | SStart => keepalive_start w
    end.

Definition run_steps (l : list step) (w : world) : world := foldl (fun w s => apply_step s w) w l.

(** ** Well-formed states *)

(** Who tears the session down, and what is left of it to do. *)
Definition shutting (w : world) : list shut_act :=
  match rx w with
  | RxShut l => l
  | _ => match closer w with CloseIdle => [] | CloseEnd => close_acts | CloseShut l => l end
  end.
Definition shut_done (a : shut_act) (s : Session) : Prop :=
  match a with
  | ShutCancel => is_Some (ctx s)
  | ShutConn => connClosed s = true
  | ShutSender => senderClosed s = true
  | ShutPipeW | ShutPipeR => pipeClosed s = true
  end.

(** Positions of the receive goroutine that say nothing of the teardown. *)
Definition plain_pc (pc : rx_pc) : Prop :=
  match pc with RxShut _ | RxDone | RxExited => False | _ => True end.

(** The sockets are closed by nobody but the one winner of the swap, which
    still has to do what is not done. *)
Record teardown_ok (w : world) : Prop := {
  td_open : closed (sess w) = false ->
    closer w = CloseIdle /\ connClosed (sess w) = false /\ senderClosed (sess w) = false;
  td_closed : closed (sess w) = true ->
    forall a, a ∈ fail_acts -> a ∈ shutting w \/ shut_done a (sess w);
  td_closer : match closer w with
              | CloseEnd => connClosed (sess w) = false /\ senderClosed (sess w) = false
              | CloseShut l => l `suffix_of` close_acts
              | CloseIdle => True
              end;
  td_rx : match rx w with
          | RxShut l => closed (sess w) = true /\ closer w = CloseIdle /\ l `suffix_of` fail_acts
          | RxDone | RxExited => pipeClosed (sess w) = true
          | _ => True
          end;
}.

Record world_ok (w : world) : Prop := {
  wo_src : mac_ok (srcMAC (sess w));
  wo_dst : mac_ok (dstMAC (sess w));
  wo_sender : length (snd_srcMAC (sender (sess w))) = 6%nat;
  wo_key : is_u16 (sessionKey (sess w));
  wo_acks : (length (ackCh (sess w)) <= ackCh_cap)%nat;
  wo_controls : (length (controlCh (sess w)) <= controlCh_cap)%nat;
  wo_teardown : teardown_ok w;
  wo_crashed : crashed w = false;
}.

(** A step that tears nothing down. *)
Lemma teardown_frame w w' :
  closed (sess w') = closed (sess w) -> connClosed (sess w') = connClosed (sess w) ->
  senderClosed (sess w') = senderClosed (sess w) ->
  (is_Some (ctx (sess w)) -> is_Some (ctx (sess w'))) ->
  (pipeClosed (sess w) = true -> pipeClosed (sess w') = true) ->
  closer w' = closer w ->
  rx w' = rx w \/ plain_pc (rx w) /\ plain_pc (rx w') ->
  teardown_ok w -> teardown_ok w'.
Proof.
  intros Hc Hcn Hs Hx Hp Hcl Hrx [Ho Hd Hce Hr].
  assert (shutting w' = shutting w) as Hsh.
  { unfold shutting. destruct Hrx as [->|[H1 H2]]; rewrite Hcl; [done|]. by destruct (rx w), (rx w'). }
  split.
  - by rewrite Hc, Hcl, Hcn, Hs.
  - rewrite Hc, Hsh. intros Hcd a Ha. destruct (Hd Hcd a Ha) as [|Hdn]; [by left|right].
    destruct a; cbn in *; rewrite ?Hcn, ?Hs; auto.
  - by rewrite Hcl, Hcn, Hs.
  - rewrite Hcl, Hc. destruct Hrx as [->|[_ H2]]; [|by destruct (rx w')]. destruct (rx w); auto.
Qed.

(** ... whoever does not move the receive goroutine at all. *)
Lemma teardown_same w w' :
  closed (sess w') = closed (sess w) -> connClosed (sess w') = connClosed (sess w) ->
  senderClosed (sess w') = senderClosed (sess w) -> ctx (sess w') = ctx (sess w) ->
  pipeClosed (sess w') = pipeClosed (sess w) -> closer w' = closer w -> rx w' = rx w ->
  teardown_ok w -> teardown_ok w'.
Proof. intros Hc Hcn Hs Hx Hp Hcl Hrx. apply teardown_frame; rewrite ?Hx, ?Hp; auto. Qed.

Lemma transmit_val who payload w :
  world_ok w ->
  exists snd kern' r, transmit who payload w
    = (mkWorld (set_sender snd (sess w)) (rx w) (closer w) (ka w) kern' (sent w ++ [(who, payload)])
         (piped w) (crashed w), r)
    /\ length (snd_srcMAC snd) = 6%nat.
Proof.
  intros Hw. unfold transmit.
  destruct (match kern w with e :: l => (e, l) | [] => (None, []) end) as [errno kern'].
  destruct (Send_val (sender (sess w)) payload (dstMAC (sess w)) errno (wo_sender w Hw)
              (proj1 (wo_dst w Hw))) as (snd & f & addr & -> & Hs).
  exists snd, kern', errno. split; [done|]. by rewrite Hs, (wo_sender w Hw).
Qed.

Lemma transmit_header_val who h w :
  world_ok w -> length (SrcAddr h) = 6%nat -> length (DstAddr h) = 6%nat ->
  exists snd kern' r, transmit_header who h w
    = (mkWorld (set_sender snd (sess w)) (rx w) (closer w) (ka w) kern'
         (sent w ++ [(who, header_layout h dirToServer)]) (piped w) (crashed w), r)
    /\ length (snd_srcMAC snd) = 6%nat.
Proof.
  intros Hw Hs Hd. unfold transmit_header.
  rewrite encode_val by (done || rewrite length_replicate; done).
  rewrite drop_ge by done. rewrite app_nil_r. by apply transmit_val.
Qed.

(** Prove [world_ok] of a state whose fields are those of a well-formed one
    up to the changed field; what is left concerns the teardown. *)
Ltac world_tac :=
  match goal with Hw : world_ok ?w |- world_ok _ =>
    let H := fresh in pose proof Hw as H; destruct H;
    split; [..|try (apply (teardown_same w); (reflexivity || assumption))|];
    cbn in *; auto; try lia; try discriminate
  end.

Lemma set_rx_ok pc w : world_ok w -> plain_pc (rx w) -> plain_pc pc -> world_ok (set_rx pc w).
Proof.
  intros Hw H1 H2. world_tac. eapply teardown_frame; [..|exact wo_teardown0]; auto.
Qed.

Lemma set_ka_ok pc w : world_ok w -> world_ok (set_ka pc w).
Proof. intros Hw. world_tac. Qed.

Lemma cancel_with_ctx e s : is_Some (ctx (cancel_with e s)).
Proof. unfold cancel_with. destruct (ctx s) eqn:H; [by rewrite H|by eexists]. Qed.
Lemma cancel_with_ok e w : world_ok w -> world_ok (on_sess (cancel_with e) w).
Proof.
  intros Hw. unfold cancel_with, on_sess. destruct (ctx (sess w)) eqn:Hc; world_tac.
  eapply teardown_frame; [..|exact wo_teardown0]; auto.
Qed.

(** One call of the teardown, of either winner. *)
Lemma shut_one_done a s : shut_done a (shut_one a s).
Proof. destruct a; cbn; try done. apply cancel_with_ctx. Qed.
Lemma shut_one_mono a b s : shut_done b s -> shut_done b (shut_one a s).
Proof.
  destruct a, b; cbn; try done; try (by unfold cancel_with; destruct (ctx s)).
  intros _. apply cancel_with_ctx.
Qed.
Lemma shut_one_fields a s :
  closed (shut_one a s) = closed s /\ srcMAC (shut_one a s) = srcMAC s /\ dstMAC (shut_one a s) = dstMAC s
  /\ sender (shut_one a s) = sender s /\ sessionKey (shut_one a s) = sessionKey s
  /\ ackCh (shut_one a s) = ackCh s /\ controlCh (shut_one a s) = controlCh s
  /\ ctrs (shut_one a s) = ctrs s /\ terminalMode (shut_one a s) = terminalMode s.
Proof. destruct a; cbn; split_and?; try done; unfold cancel_with; by destruct (ctx s). Qed.

Lemma suffix_tail {A} (a : A) l k : a :: l `suffix_of` k -> l `suffix_of` k.
Proof. intros [x ->]. exists (x ++ [a]). by rewrite <- app_assoc. Qed.

(** The session's own fields, for a step of the teardown. *)
Lemma world_ok_shut w w' a :
  world_ok w -> sess w' = shut_one a (sess w) -> crashed w' = crashed w -> teardown_ok w' -> world_ok w'.
Proof.
  intros [] Hs Hc Ht. destruct (shut_one_fields a (sess w)) as (? & E1 & E2 & E3 & E4 & E5 & E6 & _).
  split; try done; rewrite ?Hs, ?E1, ?E2, ?E3, ?E4, ?E5, ?E6, ?Hc; done.
Qed.

Lemma fail_ok w : world_ok w -> world_ok (fail w).
Proof.
  intros Hw. pose proof (wo_teardown w Hw) as [Ho Hd Hce Hr]. unfold fail, set_errVal.
  destruct (rx w) as [| | | | |e| |[|a l]| | |] eqn:Hrx; try done.
  - unfold on_sess. destruct (errVal (sess w)); world_tac;
      (eapply teardown_frame; [..|exact wo_teardown0]; cbn; rewrite ?Hrx; auto).
  - destruct (closed (sess w)) eqn:Hc; [apply set_rx_ok; by rewrite ?Hrx|].
    world_tac. destruct (Ho eq_refl) as (Hi & _ & _). split; cbn; rewrite ?Hi; try done.
    intros _ a Ha. by left.
  - destruct Hr as (Hc & Hi & _). world_tac. split; cbn; rewrite ?Hi; try done; [congruence|].
    intros _ a Ha. destruct (Hd Hc a Ha) as [Hin|]; [|by right]. unfold shutting in Hin. rewrite Hrx in Hin. by apply not_elem_of_nil in Hin.
  - destruct Hr as (Hc & Hi & Hl). destruct (shut_one_fields a (sess w)) as (Ec & _).
    eapply world_ok_shut; [done|reflexivity..|]. split; cbn; rewrite ?Ec, ?Hi, ?Hc; try done.
    + intros _ b Hb. destruct (Hd Hc b Hb) as [Hin|]; [|right; by apply shut_one_mono].
      unfold shutting in *. rewrite Hrx in Hin. cbn. apply elem_of_cons in Hin as [->|]; [|by left].
      right. apply shut_one_done.
    + split_and!; try done. by eapply suffix_tail.
Qed.

Lemma fail_acts_close a : a ∈ fail_acts -> a ∈ close_acts.
Proof. intros Ha. change close_acts with (fail_acts ++ [ShutPipeR]). apply elem_of_app. by left. Qed.

Lemma Close_ok w : world_ok w -> world_ok (Close w).
Proof.
  intros Hw. unfold Close. destruct (closed (sess w)) eqn:Hc; [done|].
  pose proof (wo_teardown w Hw) as [Ho _ _ Hr]. destruct (Ho Hc) as (Hi & H1 & H2).
  world_tac. split; cbn; try done.
  - intros _ a Ha. left. unfold shutting. cbn.
    destruct (rx w); try (by apply fail_acts_close). destruct Hr as (? & _). congruence.
  - destruct (rx w); try done. destruct Hr as (? & _). congruence.
Qed.

(** The END before the teardown. *)
Lemma Close_next_end w : world_ok w -> closer w = CloseEnd ->
  exists snd kern', Close_next w
    = mkWorld (set_sender snd (sess w)) (rx w) (CloseShut close_acts) (ka w) kern'
        (sent w ++ [(ByClose, header_layout (session_header (sess w) pTypeEnd 0) dirToServer)])
        (piped w) (crashed w)
    /\ length (snd_srcMAC snd) = 6%nat.
Proof.
  intros Hw Hc. unfold Close_next. rewrite Hc.
  destruct (transmit_header_val ByClose (session_header (sess w) pTypeEnd 0) w)
    as (snd & k & r & -> & Hs); [done|apply Hw..|]. by exists snd, k.
Qed.

(** While [Close] tears the session down, [fail] does not. *)
Lemma closer_not_fail w : teardown_ok w -> closer w <> CloseIdle ->
  shutting w = match closer w with CloseShut l => l | _ => close_acts end
  /\ match rx w with RxShut _ => False | _ => True end.
Proof.
  intros [_ _ _ Hr] Hc. unfold shutting.
  destruct (rx w); try (by destruct Hr as (_ & ? & _)); by destruct (closer w).
Qed.

Lemma Close_next_ok w : world_ok w -> world_ok (Close_next w).
Proof.
  intros Hw. pose proof (wo_teardown w Hw) as Htd. pose proof Htd as [Ho Hd Hce Hr].
  destruct (closer w) as [| |[|a l]] eqn:Hcl; try (unfold Close_next; by rewrite Hcl).
  - destruct (Close_next_end w Hw Hcl) as (snd & k & -> & Hs).
    destruct (closer_not_fail w Htd) as [Hsh Hrx]; [by rewrite Hcl|]. rewrite Hcl in Hsh.
    world_tac. split; cbn; try done.
    + intros H. by destruct (Ho H).
    + intros Hc b Hb. destruct (Hd Hc b Hb) as [Hin|]; [left|by right]. unfold shutting. cbn.
      destruct (rx w); try done; by rewrite Hsh in Hin.
    + by destruct (rx w).
  - destruct (closer_not_fail w Htd) as [Hsh Hrx]; [by rewrite Hcl|]. rewrite Hcl in Hsh.
    destruct (shut_one_fields a (sess w)) as (Ec & _). unfold Close_next. rewrite Hcl.
    eapply world_ok_shut; [done|reflexivity..|]. split; cbn; rewrite ?Ec; try done.
    + intros H. by destruct (Ho H).
    + intros Hc b Hb. destruct (Hd Hc b Hb) as [Hin|]; [|right; by apply shut_one_mono].
      rewrite Hsh in Hin. apply elem_of_cons in Hin as [->|Hin]; [right; apply shut_one_done|left].
      unfold shutting. cbn. by destruct (rx w).
    + by eapply suffix_tail.
    + destruct (rx w); try done; by apply (shut_one_mono a ShutPipeW).
Qed.

Lemma transmit_header_ok who h w :
  world_ok w -> length (SrcAddr h) = 6%nat -> length (DstAddr h) = 6%nat ->
  world_ok (fst (transmit_header who h w)).
Proof.
  intros Hw Hs Hd. destruct (transmit_header_val who h w Hw Hs Hd) as (snd & k & r & -> & Hl).
  world_tac.
Qed.

Lemma keepalive_tick_ok w : world_ok w -> world_ok (keepalive_tick w).
Proof.
  intros Hw. unfold keepalive_tick. destruct (ka w); try done.
  - destruct (closed (sess w)); by apply set_ka_ok.
  - apply set_ka_ok, transmit_header_ok; [done|apply Hw..].
Qed.

Lemma rx_datagram_ok buf w : world_ok w -> rx w = RxReading -> world_ok (rx_datagram buf w).
Proof.
  intros Hw Hrx. assert (plain_pc (rx w)) as Hpl by by rewrite Hrx.
  unfold rx_datagram. destruct (Nat.ltb_spec (length buf) headerLen) as [|Hlen].
  { by apply set_rx_ok. }
  destruct (decodeHeader_total buf dirToClient Hlen) as (h & -> & _).
  repeat case_decide.
  - by apply set_rx_ok.
  - apply set_rx_ok; [|done..]. unfold on_sess.
    destruct (Nat.ltb_spec (length (ackCh (sess w))) ackCh_cap); [|by destruct w].
    world_tac. rewrite length_app. cbn. lia.
  - unfold processInboundData. cbv zeta.
    destruct (transmit_header_val ByRx (session_header (sess w) pTypeAck
      (ackCounterFor (Counter h) (u32 (Z.of_nat (length (drop headerLen buf)))))) w)
      as (snd & k & r & -> & Hs); [done|apply Hw..|]. cbn [sess].
    destruct (acceptIncoming _ _) as [c fresh].
    assert (world_ok (on_sess (set_ctrs c) (mkWorld (set_sender snd (sess w)) (rx w) (closer w) (ka w) k
      (sent w ++ [(ByRx, header_layout (session_header (sess w) pTypeAck
      (ackCounterFor (Counter h) (u32 (Z.of_nat (length (drop headerLen buf)))))) dirToServer)])
      (piped w) (crashed w)))) by world_tac.
    destruct fresh; by apply set_rx_ok.
  - by apply set_rx_ok.
  - by apply set_rx_ok.
Qed.

Lemma rx_walk_ok payload w : world_ok w -> plain_pc (rx w) -> world_ok (rx_walk payload w).
Proof.
  intros Hw Hpl. unfold rx_walk. destruct payload as [|b payload]; [by apply set_rx_ok|].
  destruct (control_step_total (b :: payload)) as (rec & rest & -> & _); [done|].
  case_decide; [destruct (terminalMode (sess w))|]; by apply set_rx_ok.
Qed.

Lemma rx_step_ok w : world_ok w -> world_ok (rx_step w).
Proof.
  intros Hw. unfold rx_step. destruct (rx w) eqn:Hrx; try (by apply fail_ok); try done.
  - destruct (ctx (sess w)); apply set_rx_ok; by rewrite ?Hrx.
  - apply rx_walk_ok; by rewrite ?Hrx.
  - destruct (pipeClosed (sess w)); [apply set_rx_ok; by rewrite ?Hrx|done].
  - destruct (Nat.ltb_spec (length (controlCh (sess w))) controlCh_cap); [|done].
    apply set_rx_ok; [|by cbn; rewrite Hrx|done]. world_tac. rewrite length_app. cbn. lia.
  - pose proof (wo_teardown w Hw) as [Ho Hd Hce Hr]. world_tac. split; cbn; try done.
    intros Hc a Ha. destruct (Hd Hc a Ha) as [Hin|Hdn]; [left|right; by destruct a].
    unfold shutting in *. by rewrite Hrx in Hin.
  - pose proof (wo_teardown w Hw) as [Ho Hd Hce Hr]. world_tac. rewrite Hrx in Hr. split; cbn; try done.
    intros Hc a Ha. destruct (Hd Hc a Ha) as [Hin|Hdn]; [left|by right].
    unfold shutting in *. by rewrite Hrx in Hin.
Qed.

Lemma apply_step_ok s w : world_ok w -> world_ok (apply_step s w).
Proof.
  intros Hw. unfold apply_step. rewrite (wo_crashed w Hw).
  destruct s as [r| | |n| | | | |e| |plen|payload| | | |].
  - destruct (rx w) eqn:Hrx; try done. destruct r as [buf|[]]; cbn [rx_read];
      try (apply set_rx_ok; by rewrite ?Hrx). by apply rx_datagram_ok.
  - by apply rx_step_ok.
  - unfold rx_give_up. destruct (rx w) eqn:Hrx, (ctx (sess w)); try done. apply set_rx_ok; by rewrite ?Hrx.
  - unfold Session_Read. destruct (rx w) eqn:Hrx; try done. destruct (pipeClosed (sess w)) eqn:Hp; [done|].
    cbv zeta. world_tac. eapply teardown_frame; [..|exact wo_teardown0]; cbn; auto.
    right. rewrite Hrx. by destruct (drop n chunk).
  - by apply keepalive_tick_ok.
  - unfold keepalive_done. destruct (ka w), (ctx (sess w)); try done. by apply set_ka_ok.
  - by apply Close_ok.
  - by apply Close_next_ok.
  - by apply cancel_with_ok.
  - world_tac.
  - unfold reserve. destruct (reserveOut _ _). world_tac.
  - destruct (transmit_val ByDriver payload w Hw) as (snd & k & r & -> & Hs). world_tac.
  - unfold take_ack. destruct (ackCh (sess w)) eqn:Ha; [done|]. world_tac. rewrite Ha in *. cbn in *. lia.
  - unfold take_control. destruct (controlCh (sess w)) eqn:Ha; [done|]. world_tac. rewrite Ha in *. cbn in *. lia.
  - world_tac.
  - unfold keepalive_start. destruct (ka w); try done. by apply set_ka_ok.
Qed.

Lemma run_steps_ok l w : world_ok w -> world_ok (run_steps l w).
Proof.
  revert w. induction l as [|s l IH]; intros w Hw; [done|]. cbn. by apply IH, apply_step_ok.
Qed.

(** ** The end of a teardown

    Whoever won the swap, the receive goroutine in [fail] or a call of
    [Close], has a fixed number of actions left, which nobody else can take
    or take back; once it has had its turns, everything is closed. *)

Definition not_shut (pc : rx_pc) : Prop := match pc with RxShut _ => False | _ => True end.
Definition by_fail (w : world) : bool := match rx w with RxShut _ => true | _ => false end.

(** The actions left, the END included. *)
Definition teardown_left (w : world) : nat :=
  match rx w with
  | RxShut l => length l
  | _ => match closer w with
         | CloseIdle => 0
         | CloseEnd => S (length close_acts)
         | CloseShut l => length l
         end
  end.

(** The turns the winner has in a sequence of steps. *)
Definition winner_turn (fails : bool) (s : step) : nat :=
  match s with SRx => if fails then 1 else 0 | SCloser => if fails then 0 else 1 | _ => 0 end.
Fixpoint winner_turns (fails : bool) (l : list step) : nat :=
  match l with [] => 0 | s :: l => winner_turn fails s + winner_turns fails l end.

(** Everything the two teardowns close. *)
Record released (s : Session) : Prop := {
  rl_ctx : is_Some (ctx s);
  rl_conn : connClosed s = true;
  rl_sender : senderClosed s = true;
  rl_pipe : pipeClosed s = true;
}.

Lemma teardown_released w : teardown_ok w -> closed (sess w) = true -> teardown_left w = 0%nat ->
  released (sess w).
Proof.
  intros [_ Hd _ _] Hc Hl. assert (shutting w = []) as Hs.
  { unfold teardown_left, shutting in *. destruct (rx w), (closer w); try done; by apply nil_length_inv. }
  rewrite Hs in Hd. assert (forall a, a ∈ fail_acts -> shut_done a (sess w)) as H.
  { intros a Ha. destruct (Hd Hc a Ha) as [Hin|]; [by apply not_elem_of_nil in Hin|done]. }
  split; [apply (H ShutCancel)|apply (H ShutConn)|apply (H ShutSender)|apply (H ShutPipeW)];
    unfold fail_acts; rewrite !elem_of_cons; auto.
Qed.

(** What a step does to the winner's progress when it is not its turn. *)
Definition waits (w w' : world) : Prop :=
  closed (sess w') = closed (sess w) /\ closer w' = closer w
  /\ (rx w' = rx w \/ not_shut (rx w) /\ not_shut (rx w')).

Lemma waits_left w w' : waits w w' -> teardown_left w' = teardown_left w /\ by_fail w' = by_fail w.
Proof.
  intros (_ & Hc & Hrx). unfold teardown_left, by_fail.
  destruct Hrx as [->|[H1 H2]]; rewrite Hc; [done|]. by destruct (rx w), (rx w').
Qed.

Lemma transmit_waits who p w : waits w (fst (transmit who p w)).
Proof.
  unfold transmit. destruct (match kern w with e :: l => (e, l) | [] => (None, []) end) as [errno k].
  destruct (Send _ _ _ _) as [[[[? ?] ?] ?]| |]; split_and!; auto.
Qed.
Lemma transmit_header_waits who h w : waits w (fst (transmit_header who h w)).
Proof. unfold transmit_header. destruct (encode _ _ _) as [[? ?]| |]; [apply transmit_waits|split_and!; auto..]. Qed.

Lemma rx_datagram_waits buf w : rx w = RxReading -> waits w (rx_datagram buf w).
Proof.
  intros Hrx. assert (forall w' pc, sess w' = sess w -> closer w' = closer w -> rx w' = pc -> not_shut pc ->
    waits w w') as Hset.
  { intros w' pc Hs Hc Hr Hn. split_and!; [by rewrite Hs|done|]. right. by rewrite Hrx, Hr. }
  unfold rx_datagram. destruct (_ <? _)%nat; [by eapply Hset|].
  destruct (decodeHeader buf dirToClient) as [[h payload]| |]; [|by eapply Hset..].
  repeat case_decide; try (by eapply Hset).
  - split_and!; [by cbn; case_match|done|]. right. by rewrite Hrx.
  - unfold processInboundData. cbv zeta.
    match goal with |- context [transmit_header ?a ?b ?c] =>
      pose proof (transmit_header_waits a b c) as (Hc & Hcl & _); destruct (transmit_header a b c) as [w1 r] end.
    cbn in Hc, Hcl. destruct (acceptIncoming _ _) as [c []]; (split_and!; [done..|right; by rewrite Hrx]).
Qed.

Lemma fail_turn w : closed (sess w) = true -> teardown_ok w ->
  closed (sess (fail w)) = true
  /\ (teardown_left (fail w) <= teardown_left w - winner_turn (by_fail w) SRx)%nat
  /\ (teardown_left (fail w) <> 0%nat -> by_fail (fail w) = by_fail w).
Proof.
  intros Hc [_ _ _ Hr]. unfold fail, teardown_left, by_fail, set_errVal.
  destruct (rx w) as [| | | | |e| |[|a l]| | |] eqn:Hrx; cbn; rewrite ?Hrx, ?Hc; cbn;
    try (split_and!; [done|lia|done]).
  - destruct (errVal (sess w)); cbn; rewrite ?Hc; (split_and!; [done|lia|done]).
  - destruct Hr as (_ & -> & _). split_and!; [done|lia|done].
  - destruct (shut_one_fields a (sess w)) as (-> & _). split_and!; [done|lia|done].
Qed.

Lemma waits_progress w w' n : closed (sess w) = true -> waits w w' -> n = 0%nat ->
  closed (sess w') = true /\ (teardown_left w' <= teardown_left w - n)%nat
  /\ (teardown_left w' <> 0%nat -> by_fail w' = by_fail w).
Proof.
  intros Hc Hw ->. destruct (waits_left w w' Hw) as [-> ->]. destruct Hw as (-> & _). split_and!; [done|lia|done].
Qed.

Lemma rx_step_waits w : closed (sess w) = true ->
  match rx w with RxFail _ | RxSwap | RxShut _ => False | _ => True end -> waits w (rx_step w).
Proof.
  intros Hc Hrx. unfold rx_step.
  assert (forall w', closed (sess w') = closed (sess w) -> closer w' = closer w -> not_shut (rx w') ->
    waits w w') as Hset.
  { intros w' H1 H2 H3. split_and!; [done..|right]. by destruct (rx w). }
  destruct (rx w) as [| |[|b payload]| | |e| |l| | |] eqn:Hpc; try done; try (by apply Hset); try (by split_and!; auto).
  - by destruct (ctx (sess w)); apply Hset.
  - cbn. destruct (control_step _) as [[rec rest]| |]; [|by apply Hset|by apply Hset; [..|cbn; rewrite Hpc]].
    case_decide; [destruct (terminalMode (sess w))|]; by apply Hset.
  - case_match; [by apply Hset|by split_and!; auto].
  - case_match; [by apply Hset|by split_and!; auto].
Qed.

(** Every step but the winner's own leaves its progress alone. *)
Lemma step_waits s w : world_ok w -> closed (sess w) = true -> s <> SCloser ->
  (s = SRx -> match rx w with RxFail _ | RxSwap | RxShut _ => False | _ => True end) ->
  waits w (apply_step s w).
Proof.
  intros Hw Hc Hs Hf. unfold apply_step. rewrite (wo_crashed w Hw).
  destruct s as [r| | |n| | | | |e| |plen|p| | | |]; try done; try (by split_and!; auto).
  - destruct (rx w) eqn:Hrx; try (by split_and!; auto).
    destruct r as [buf|[]]; cbn [rx_read]; try (by split_and!; [..|right; rewrite Hrx]).
    by apply rx_datagram_waits.
  - apply rx_step_waits; [done|by apply Hf].
  - unfold rx_give_up. destruct (rx w) eqn:Hrx, (ctx (sess w)); try (by split_and!; auto).
    by split_and!; [..|right; rewrite Hrx].
  - unfold Session_Read. destruct (rx w) eqn:Hrx; try (by split_and!; auto).
    destruct (pipeClosed (sess w)); [by split_and!; auto|]. cbv zeta. split_and!; [done..|right]. rewrite Hrx. cbn.
    by destruct (drop n chunk).
  - unfold keepalive_tick. rewrite Hc. destruct (ka w); try (by split_and!; auto). exact (transmit_header_waits _ _ w).
  - unfold keepalive_done. destruct (ka w), (ctx (sess w)); by split_and!; auto.
  - unfold Close. rewrite Hc. by split_and!; auto.
  - unfold on_sess, cancel_with. by destruct (ctx (sess w)); split_and!; auto.
  - apply transmit_waits.
  - unfold take_ack. destruct (ackCh (sess w)); by split_and!; auto.
  - unfold take_control. destruct (controlCh (sess w)); by split_and!; auto.
  - unfold keepalive_start. destruct (ka w); by split_and!; auto.
Qed.

(** The calls [Close] still has to make are its own. *)
Lemma closer_stays s w : world_ok w -> closed (sess w) = true -> s <> SCloser ->
  closer (apply_step s w) = closer w.
Proof.
  intros Hw Hc Hs. assert (s = SRx \/ s <> SRx) as [->|Hne] by (destruct s; auto).
  - destruct (rx w) eqn:Hrx; try (by apply (step_waits SRx w); [..|by rewrite Hrx]);
      unfold apply_step, rx_step; rewrite (wo_crashed w Hw), Hrx; unfold fail; rewrite Hrx; [done|by rewrite Hc|by case_match].
  - by apply step_waits.
Qed.

Lemma teardown_turn s w : world_ok w -> closed (sess w) = true ->
  closed (sess (apply_step s w)) = true
  /\ (teardown_left (apply_step s w) <= teardown_left w - winner_turn (by_fail w) s)%nat
  /\ (teardown_left (apply_step s w) <> 0%nat -> by_fail (apply_step s w) = by_fail w).
Proof.
  intros Hw Hc. assert (s = SCloser \/ s <> SCloser) as [->|Hs] by (destruct s; auto).
  - unfold apply_step. rewrite (wo_crashed w Hw). pose proof (wo_teardown w Hw) as Htd.
    destruct (closer w) as [| |[|a l]] eqn:Hcl;
      try (unfold Close_next; rewrite Hcl; split_and!; [done| |done];
           unfold teardown_left, by_fail; rewrite ?Hcl; by destruct (rx w); cbn; lia).
    all: destruct (closer_not_fail w Htd) as [_ Hrx]; [by rewrite Hcl|].
    + destruct (Close_next_end w Hw Hcl) as (snd & k & -> & _).
      split_and!; [done|..]; unfold teardown_left, by_fail; cbn; rewrite ?Hcl; destruct (rx w); cbn; try done; lia.
    + unfold Close_next. rewrite Hcl. destruct (shut_one_fields a (sess w)) as (Ec & _).
      split_and!; [by cbn; rewrite Ec|..]; unfold teardown_left, by_fail; cbn; rewrite ?Hcl;
        destruct (rx w); cbn; try done; lia.
  - assert (s = SRx \/ s <> SRx) as [->|Hne] by (destruct s; auto).
    2: { apply waits_progress; [done|by apply step_waits|by destruct s]. }
    destruct (rx w) eqn:Hrx.
    6-8: (unfold apply_step, rx_step; rewrite (wo_crashed w Hw), Hrx; apply fail_turn; [done|apply Hw]).
    all: apply waits_progress; [done|apply step_waits; [done..|by rewrite Hrx]|unfold by_fail; by rewrite Hrx].
Qed.

Lemma winner_settles l : forall w, world_ok w -> closed (sess w) = true ->
  closed (sess (run_steps l w)) = true
  /\ (teardown_left (run_steps l w) <= teardown_left w - winner_turns (by_fail w) l)%nat.
Proof.
  induction l as [|s l IH]; intros w Hw Hc; [split; [done|cbn; lia]|].
  destruct (teardown_turn s w Hw Hc) as (Hc' & Hl & Hb).
  destruct (IH (apply_step s w)) as [H1 H2]; [by apply apply_step_ok|done|].
  split; [done|]. cbn [winner_turns]. change (run_steps (s :: l) w) with (run_steps l (apply_step s w)).
  destruct (decide (teardown_left (apply_step s w) = 0%nat)); [lia|]. rewrite Hb in H2 by done. lia.
Qed.

(** A closed session, whatever happens next, is torn down once the winner
    has had the turns it needs. *)
Lemma winner_releases l w : world_ok w -> closed (sess w) = true ->
  (teardown_left w <= winner_turns (by_fail w) l)%nat -> released (sess (run_steps l w)).
Proof.
  intros Hw Hc Hl. destruct (winner_settles l w Hw Hc) as [Hc' Hl'].
  apply teardown_released; [apply (run_steps_ok l w Hw)|done|lia].
Qed.

(** [fail] has at most four calls to make, [Close] six. *)
Lemma suffix_length {A} (l k : list A) : l `suffix_of` k -> (length l <= length k)%nat.
Proof. intros [x ->]. rewrite length_app. lia. Qed.
Lemma teardown_left_bound w : teardown_ok w -> (teardown_left w <= if by_fail w then 4 else 6)%nat.
Proof.
  intros [_ _ Hc Hr]. unfold teardown_left, by_fail.
  destruct (rx w); destruct (closer w);
    try (destruct Hr as (_ & _ & Hr)); repeat match goal with H : _ `suffix_of` _ |- _ => apply suffix_length in H; cbn in H end;
    cbn; lia.
Qed.
