(* ===== verification/RxLoop.v ===== *)
(** * What the receive loop guarantees (internal/mactelnet/loop.go)

    Consequences of the step semantics of Session.v, for any interleaving of
    the session's goroutines: which datagrams are acknowledged and which
    are ignored, that the terminal reads the peer's stream exactly once and
    in order, when the loop stops making progress, and how often END is
    sent. *)

From S2P Require Import Prelude GoBytes Protocol Seq Frame Receiver Session.

#[local] Open Scope Z_scope.

(** ** Specification of the inbound stream *)

(** The terminal bytes of a DATA payload. *)
Definition plain_text (payload : bytes) : bytes :=
  mjoin (Body <$> filter (fun r => CPType r = cpTypePlainData) (parse_controls payload)).

(** The terminal bytes the receive goroutine holds. *)
Definition pending (pc : rx_pc) : bytes :=
  match pc with
  | RxPipe chunk payload => chunk ++ plain_text payload
  | RxWalk payload | RxControl _ payload => plain_text payload
  | _ => []
  end.

(** The DATA datagram of this session a step reads: counter and payload. *)
Definition data_in (s : step) (w : world) : list (Z * bytes) :=
  match s, rx w with
  | SRead (ReadOk buf), RxReading =>
      match decodeHeader buf dirToClient with
      | Val (h, payload) =>
          if decide (SessionKey h = sessionKey (sess w) /\ PType h = pTypeData)
          then [(Counter h, payload)] else []
      | _ => []
      end
  | _, _ => []
  end.
Fixpoint data_read (l : list step) (w : world) : list (Z * bytes) :=
  match l with
  | [] => []
  | s :: l => data_in s w ++ data_read l (apply_step s w)
  end.

(** The duplicate filter over a sequence of DATA datagrams. *)
Fixpoint accept_run (c : counters) (l : list (Z * bytes)) : counters * list bytes :=
  match l with
  | [] => (c, [])
  | (seq, payload) :: l =>
      let '(c, fresh) := acceptIncoming c seq in
      let '(c, ds) := accept_run c l in
      (c, if fresh then payload :: ds else ds)
  end.

(** The inbound half of the counters, which the filter reads and writes. *)
Definition inbound (c : counters) : Z * bool := (in_ c, inSeen c).

(** ** Lemmas *)

Lemma acceptIncoming_inbound c c' seq :
  inbound c = inbound c' ->
  snd (acceptIncoming c seq) = snd (acceptIncoming c' seq)
  /\ inbound (fst (acceptIncoming c seq)) = inbound (fst (acceptIncoming c' seq)).
Proof.
  unfold inbound, acceptIncoming. intros Hc. injection Hc as H1 H2. rewrite H1, H2.
  destruct (inSeen c') eqn:Hs; cbn [negb fst snd in_ inSeen]; [|done].
  destruct (in_ c' <? seq); [done|]. destruct (65535 <? u32 (in_ c' - seq)); [done|].
  cbn. by rewrite H1, H2, Hs.
Qed.

Lemma accept_run_inbound l : forall c c',
  inbound c = inbound c' ->
  snd (accept_run c l) = snd (accept_run c' l)
  /\ inbound (fst (accept_run c l)) = inbound (fst (accept_run c' l)).
Proof.
  induction l as [|[seq p] l IH]; intros c c' Hc; [done|]. cbn [accept_run].
  destruct (acceptIncoming_inbound c c' seq Hc) as [H1 H2].
  destruct (acceptIncoming c seq) as [d f], (acceptIncoming c' seq) as [d' f']. cbn in H1, H2. subst f'.
  destruct (IH d d' H2) as [H3 H4].
  destruct (accept_run d l) as [e ds], (accept_run d' l) as [e' ds']. cbn in *. by subst.
Qed.

Lemma accept_run_app l k c :
  accept_run c (l ++ k)
  = (fst (accept_run (fst (accept_run c l)) k),
     snd (accept_run c l) ++ snd (accept_run (fst (accept_run c l)) k)).
Proof.
  revert c. induction l as [|[seq p] l IH]; intros c; cbn [app accept_run].
  { cbn [fst snd]. by destruct (accept_run c k). }
  destruct (acceptIncoming c seq) as [d f]. rewrite IH.
  destruct (accept_run d l) as [e ds]. cbn. by destruct f.
Qed.

(** The filter is the one of the stream model in Seq.v. *)
Lemma deliver_accept_run base chunks l : forall c,
  deliver base chunks c l
  = accept_run c ((fun i => (wire_seq base chunks i, chunks !!! i)) <$> l).
Proof.
  induction l as [|i l IH]; intros c; [done|]. cbn [deliver fmap list_fmap accept_run].
  destruct (acceptIncoming c _) as [d f]. rewrite IH. by destruct (accept_run d _).
Qed.

(** One record of the walk accounts for its own terminal bytes. *)
Lemma plain_text_step payload rec rest :
  payload <> [] -> control_step payload = Val (rec, rest) ->
  plain_text payload
  = (if decide (CPType rec = cpTypePlainData) then Body rec else [])
    ++ plain_text (match rest with Some p => p | None => [] end).
Proof.
  intros Hne Hstep. unfold plain_text. rewrite (parse_controls_step _ _ _ Hne Hstep).
  assert (match rest with Some p => parse_controls p | None => [] end
          = parse_controls (match rest with Some p => p | None => [] end)) as -> by (by destruct rest).
  rewrite filter_cons. by case_decide.
Qed.

(** What a transmission leaves of the session. *)
Lemma transmit_sess who payload w :
  exists snd, sess (fst (transmit who payload w)) = set_sender snd (sess w).
Proof.
  unfold transmit. destruct (match kern w with e :: l => (e, l) | [] => (None, []) end) as [errno k].
  destruct (Send _ _ _ _) as [[[[snd f] a] r]| |]; cbn; [by exists snd|..].
  all: exists (sender (sess w)); by destruct (sess w).
Qed.

Definition open_session (w : world) : Prop := ctx (sess w) = None /\ pipeClosed (sess w) = false.

Lemma set_rx_open pc w : open_session (set_rx pc w) <-> open_session w.
Proof. done. Qed.
Lemma crash_open w : open_session (crash w) <-> open_session w.
Proof. done. Qed.
Lemma shut_one_open a s s' : s' = shut_one a s -> ctx s' = None /\ pipeClosed s' = false ->
  ctx s = None /\ pipeClosed s = false.
Proof.
  intros -> [Hc Hp]. destruct a; cbn in *; try done.
  unfold cancel_with in *. destruct (ctx s) eqn:Hx; cbn in *; congruence.
Qed.

Lemma transmit_header_parts who h w :
  world_ok w -> length (SrcAddr h) = 6%nat -> length (DstAddr h) = 6%nat ->
  let w' := fst (transmit_header who h w) in
  rx w' = rx w /\ piped w' = piped w /\ crashed w' = crashed w
  /\ sent w' = sent w ++ [(who, header_layout h dirToServer)]
  /\ exists snd, sess w' = set_sender snd (sess w).
Proof.
  intros Hw Hs Hd. destruct (transmit_header_val who h w Hw Hs Hd) as (snd & k & r & -> & _).
  cbn. split_and!; [done..|by exists snd].
Qed.

(** [processInboundData] in one equation. *)
Lemma processInboundData_val h payload w :
  world_ok w ->
  let ack := session_header (sess w) pTypeAck
               (ackCounterFor (Counter h) (u32 (Z.of_nat (length payload)))) in
  let '(c, fresh) := acceptIncoming (ctrs (sess w)) (Counter h) in
  exists snd kern',
    processInboundData h payload w
    = mkWorld (set_ctrs c (set_sender snd (sess w))) (if fresh then RxWalk payload else RxTop)
        (closer w) (ka w) kern'
        (sent w ++ [(ByRx, header_layout ack dirToServer)]) (piped w) (crashed w).
Proof.
  intros Hw. cbv zeta. unfold processInboundData. cbv zeta.
  destruct (transmit_header_val ByRx (session_header (sess w) pTypeAck
    (ackCounterFor (Counter h) (u32 (Z.of_nat (length payload))))) w) as (snd & k & r & -> & _);
    [done|apply Hw..|].
  cbn [sess]. change (ctrs (set_sender snd (sess w))) with (ctrs (sess w)).
  destruct (acceptIncoming (ctrs (sess w)) (Counter h)) as [c []]; by exists snd, k.
Qed.

(** What one step does to the inbound stream of an open terminal session. *)
Definition stream_step (s : step) (w w' : world) : Prop :=
  open_session w' ->
  open_session w
  /\ (terminalMode (sess w) = true ->
      terminalMode (sess w') = true
      /\ sessionKey (sess w') = sessionKey (sess w)
      /\ inbound (ctrs (sess w')) = inbound (fst (accept_run (ctrs (sess w)) (data_in s w)))
      /\ piped w' ++ pending (rx w')
         = piped w ++ pending (rx w) ++ mjoin (plain_text <$> snd (accept_run (ctrs (sess w)) (data_in s w)))).

Lemma stream_same s w w' :
  data_in s w = [] -> (open_session w' -> open_session w) ->
  (terminalMode (sess w) = true -> terminalMode (sess w') = true) ->
  sessionKey (sess w') = sessionKey (sess w) ->
  inbound (ctrs (sess w')) = inbound (ctrs (sess w)) ->
  (terminalMode (sess w) = true -> piped w' ++ pending (rx w') = piped w ++ pending (rx w)) ->
  stream_step s w w'.
Proof.
  intros Hd Ho Ht Hk Hc Hp Hopen. split; [by apply Ho|]. intros Htm. rewrite Hd. cbn.
  rewrite app_nil_r. split_and!; auto.
Qed.

Lemma stream_closed s w w' : ~ open_session w' -> stream_step s w w'.
Proof. intros H Ho. by destruct (H Ho). Qed.

Lemma rx_datagram_stream buf w :
  world_ok w -> rx w = RxReading -> stream_step (SRead (ReadOk buf)) w (rx_datagram buf w).
Proof.
  intros Hw Hrx. unfold rx_datagram.
  assert (forall w', sess w' = sess w -> piped w' = piped w -> pending (rx w') = [] ->
    data_in (SRead (ReadOk buf)) w = [] -> stream_step (SRead (ReadOk buf)) w w') as Hsame.
  { intros w' Hs Hp Hr Hd. unfold open_session in *.
    apply stream_same; unfold open_session; rewrite ?Hs; try done.
    intros _. by rewrite Hp, Hr, Hrx. }
  destruct (Nat.ltb_spec (length buf) headerLen) as [Hshort|Hlen].
  { apply Hsame; try done. unfold data_in. rewrite Hrx. unfold decodeHeader.
    by rewrite decide_True by done. }
  destruct (decodeHeader_total buf dirToClient Hlen) as (h & Hdec & _).
  assert (~ (SessionKey h = sessionKey (sess w) /\ PType h = pTypeData) ->
          data_in (SRead (ReadOk buf)) w = []) as Hother.
  { intros Hn. unfold data_in. by rewrite Hrx, Hdec, decide_False. }
  rewrite Hdec. case_decide as Hkey.
  { apply Hsame; try done. apply Hother. tauto. }
  case_decide as Hack.
  { assert (data_in (SRead (ReadOk buf)) w = []) as Hd.
    { apply Hother. intros [_ H]. rewrite H in Hack. discriminate Hack. }
    unfold set_rx, on_sess. destruct (length (ackCh (sess w)) <? ackCh_cap)%nat.
    - apply stream_same; try done. intros _. cbn. by rewrite Hrx.
    - apply Hsame; by destruct w. }
  case_decide as Hdata.
  { destruct (decide (SessionKey h = sessionKey (sess w))) as [Hk|]; [|tauto].
    pose proof (processInboundData_val h (drop headerLen buf) w Hw) as Hp. cbv zeta in Hp.
    destruct (acceptIncoming (ctrs (sess w)) (Counter h)) as [c fresh] eqn:Hacc.
    destruct Hp as (snd & k & ->). intros Hopen. split; [done|]. intros Htm.
    unfold data_in. rewrite Hrx, Hdec, decide_True by done. cbn [accept_run]. rewrite Hacc.
    cbn. split_and!; [done..|]. destruct fresh; cbn; by rewrite ?app_nil_r. }
  case_decide; apply Hsame; try done; apply Hother; intros [_ ?]; tauto.
Qed.

Lemma rx_walk_stream payload w :
  world_ok w -> rx w = RxWalk payload -> stream_step SRx w (rx_walk payload w).
Proof.
  intros Hw Hrx. unfold rx_walk. destruct payload as [|b payload].
  { apply stream_same; try done. intros _. by rewrite Hrx. }
  destruct (control_step_total (b :: payload)) as (rec & rest & Hstep & _); [done|]. rewrite Hstep.
  pose proof (plain_text_step (b :: payload) rec rest ltac:(done) Hstep) as Hpt.
  case_decide as Hplain; rewrite ?decide_True, ?decide_False in Hpt by done;
    [destruct (terminalMode (sess w)) eqn:Htm|]; apply stream_same; try done; cbn [rx set_rx pending piped].
  - intros _. rewrite Hrx. cbn [pending]. by rewrite Hpt.
  - congruence.
  - intros _. rewrite Hrx. cbn [pending]. by rewrite Hpt.
Qed.

Lemma fail_stream w : stream_step SRx w (fail w).
Proof.
  unfold fail, set_errVal.
  destruct (rx w) as [| | | | |e| |[|a l]| | |] eqn:Hrx; try (by apply stream_same).
  - unfold on_sess. destruct (errVal (sess w)); apply stream_same; try done; intros _; by rewrite Hrx.
  - destruct (closed (sess w)); apply stream_same; try done; intros _; by rewrite Hrx.
  - apply stream_same; try done. intros _. by rewrite Hrx.
  - destruct (shut_one_fields a (sess w)) as (_ & _ & _ & _ & E1 & _ & _ & E2 & E3).
    apply stream_same; cbn; rewrite ?E1, ?E2, ?E3; try done; [by eapply shut_one_open|].
    intros _. by rewrite Hrx.
Qed.

Lemma apply_step_stream s w : world_ok w -> stream_step s w (apply_step s w).
Proof.
  intros Hw. unfold apply_step. rewrite (wo_crashed w Hw).
  assert (forall w', data_in s w = [] -> rx w' = rx w -> piped w' = piped w ->
    (open_session w' -> open_session w) -> sessionKey (sess w') = sessionKey (sess w) ->
    (terminalMode (sess w) = true -> terminalMode (sess w') = true) ->
    inbound (ctrs (sess w')) = inbound (ctrs (sess w)) -> stream_step s w w') as Hframe.
  { intros w' Hd Hr Hp Ho Hk Ht Hc. apply stream_same; try done. intros _. by rewrite Hr, Hp. }
  destruct s as [r| | |k| | | | |e| |plen|payload| | | |].
  - destruct (rx w) eqn:Hrx; try (apply Hframe; unfold data_in; rewrite ?Hrx; by destruct r).
    destruct r as [buf|[]]; cbn [rx_read]; [by apply rx_datagram_stream|..];
      (apply stream_same; try done; intros _; by rewrite Hrx).
  - unfold rx_step. destruct (rx w) eqn:Hrx.
    + destruct (ctx (sess w)) eqn:Hc; (apply stream_same; try done; intros _; by rewrite Hrx).
    + by apply Hframe.
    + by apply rx_walk_stream.
    + destruct (pipeClosed (sess w)) eqn:Hp; [|by apply Hframe].
      apply stream_closed. intros [_ Ho]. cbn in Ho. congruence.
    + destruct (length (controlCh (sess w)) <? controlCh_cap)%nat; [|by apply Hframe].
      apply stream_same; try done. intros _. by rewrite Hrx.
    + apply fail_stream.
    + apply fail_stream.
    + apply fail_stream.
    + apply stream_closed. intros [_ Ho]. done.
    + apply stream_same; try done. intros _. by rewrite Hrx.
    + by apply Hframe.
  - unfold rx_give_up. destruct (rx w) eqn:Hrx, (ctx (sess w)) eqn:Hc; try by apply Hframe.
    apply stream_closed. intros [Ho _]. cbn in Ho. congruence.
  - unfold Session_Read. destruct (rx w) eqn:Hrx; try by apply Hframe.
    destruct (pipeClosed (sess w)); [by apply Hframe|]. cbv zeta.
    apply stream_same; try done. intros _. cbn [piped rx]. rewrite Hrx. cbn [pending].
    rewrite <- (take_drop k chunk) at 3. destruct (drop k chunk) eqn:Hd; cbn [pending].
    + by rewrite app_nil_r, <- app_assoc.
    + rewrite <- !app_assoc. reflexivity.
  - unfold keepalive_tick. destruct (ka w); try by apply Hframe.
    { destruct (closed (sess w)); by apply Hframe. }
    destruct (transmit_header_parts ByKeepalive (session_header (sess w) pTypeAck (out (ctrs (sess w)))) w)
      as (Hr & Hp & _ & _ & snd & Hs); [done|apply Hw..|].
    unfold open_session in *. apply Hframe; cbn; rewrite ?Hs; done.
  - unfold keepalive_done. destruct (ka w), (ctx (sess w)); by apply Hframe.
  - unfold Close. destruct (closed (sess w)); by apply Hframe.
  - destruct (closer w) as [| |[|a l]] eqn:Hcl; try (unfold Close_next; rewrite Hcl; by apply Hframe).
    { destruct (Close_next_end w Hw Hcl) as (snd & k & -> & _). by apply Hframe. }
    unfold Close_next. rewrite Hcl.
    destruct (shut_one_fields a (sess w)) as (_ & _ & _ & _ & E1 & _ & _ & E2 & E3).
    apply Hframe; cbn; rewrite ?E1, ?E2, ?E3; try done. by eapply shut_one_open.
  - apply stream_closed. intros [Ho _]. cbn in Ho. destruct (cancel_with_ctx e (sess w)) as [? H]. congruence.
  - by apply Hframe.
  - by apply Hframe.
  - destruct (transmit_val ByDriver payload w Hw) as (snd & k & r & -> & _). by apply Hframe.
  - unfold take_ack. destruct (ackCh (sess w)); by apply Hframe.
  - unfold take_control. destruct (controlCh (sess w)); by apply Hframe.
  - by apply Hframe.
  - unfold keepalive_start. destruct (ka w); by apply Hframe.
Qed.

Lemma run_steps_open l : forall w, world_ok w -> open_session (run_steps l w) -> open_session w.
Proof.
  induction l as [|s l IH]; intros w Hw Ho; [done|]. cbn in Ho.
  apply (apply_step_stream s w Hw), IH; [by apply apply_step_ok|done].
Qed.

Lemma run_steps_stream l : forall w,
  world_ok w -> terminalMode (sess w) = true ->
  let w' := run_steps l w in
  open_session w' ->
  open_session w
  /\ piped w' ++ pending (rx w')
     = piped w ++ pending (rx w)
       ++ mjoin (plain_text <$> snd (accept_run (ctrs (sess w)) (data_read l w))).
Proof.
  induction l as [|s l IH]; intros w Hw Ht; cbv zeta; cbn [run_steps foldl data_read].
  { intros Ho. cbn. by rewrite app_nil_r. }
  fold (run_steps l (apply_step s w)). intros Ho.
  pose proof (apply_step_ok s w Hw) as Hw1. pose proof (apply_step_stream s w Hw) as Hs.
  set (w1 := apply_step s w) in *.
  assert (open_session w1) as Ho1.
  { by apply (run_steps_open l). }
  destruct (Hs Ho1) as [Ho0 Hs']. destruct (Hs' Ht) as (Ht1 & _ & Hc & Hp).
  destruct (IH w1 Hw1 Ht1 Ho) as [_ IHp]. split; [done|]. rewrite IHp, app_assoc, Hp.
  rewrite accept_run_app. cbn [fst snd]. rewrite fmap_app, join_app, <- !app_assoc. do 3 f_equal.
  by rewrite (proj1 (accept_run_inbound (data_read l w1) _ _ Hc)).
Qed.

(** ** Properties *)

(** C1. The terminal reads the device's output exactly once and in order,
    under every interleaving of the receive goroutine, the reader, the
    keepalive, the caller's writes and reads of the channels, and whatever
    foreign or repeated datagrams arrive: for a terminal session that stays
    open, with the first [k] chunks of the device's stream received before,
    the bytes the reader has taken, with those the receive goroutine is
    still handing over, are the terminal bytes of chunks [k] to [m - 1]. *)
Theorem terminal_reads_stream base chunks k idx m l w :
  0 <= base -> Forall (fun p => 0 < Z.of_nat (length p) <= 65535) chunks ->
  world_ok w -> terminalMode (sess w) = true -> received base chunks k (ctrs (sess w)) ->
  data_read l w = (fun i => (wire_seq base chunks i, chunks !!! i)) <$> idx ->
  arrivals base chunks k idx m ->
  let w' := run_steps l w in
  open_session w' ->
  exists new, take m chunks = take k chunks ++ new
    /\ piped w' ++ pending (rx w') = piped w ++ pending (rx w) ++ mjoin (plain_text <$> new).
Proof.
  intros Hb Hc Hw Ht Hrec Hread Harr w' Ho.
  destruct (run_steps_stream l w Hw Ht Ho) as [_ Hp].
  destruct (deliver_arrivals base chunks Hb Hc k idx m Harr _ Hrec) as [_ Htake].
  exists (snd (deliver base chunks (ctrs (sess w)) idx)). split; [done|].
  by rewrite deliver_accept_run, <- Hread.
Qed.

(** A terminal session between two datagrams. *)
Definition sample_session : Session :=
  mkSession (mkSender 8 3 [2; 0; 0; 0; 0; 1] 0 0 0) [2; 0; 0; 0; 0; 1] [2; 0; 0; 0; 0; 2] 0x1234
    (mkCounters 40 30 true) [] [] true false None None false false false.
Definition sample_world : world := mkWorld sample_session RxReading CloseIdle KaSelect [] [] [] false.

Lemma sample_world_ok : world_ok sample_world.
Proof.
  assert (forall x, is_u8 x -> mac_ok [2; 0; 0; 0; 0; x]) as Hmac.
  { intros x Hx. split; [done|]. repeat (apply Forall_cons_2; [done|]). apply Forall_nil_2. }
  split; try done; try (by apply Hmac); cbn; lia.
Qed.

Definition sample_data (counter : Z) (payload : bytes) : step :=
  SRead (ReadOk (header_layout (mkHeader 1 pTypeData [2; 0; 0; 0; 0; 2] [2; 0; 0; 0; 0; 1] 0x1234 counter)
                   dirToClient ++ payload)).

Lemma terminal_reads_stream_witness :
  let chunks := [[104]; [104; 105]] in
  let l := [sample_data 31 [104; 105]; SRx; SConsume 1; SKeepalive; SConsume 5; SRx; SRx;
            sample_data 30 [104]] in
  exists new, take 2 chunks = take 1 chunks ++ new
    /\ piped (run_steps l sample_world) ++ pending (rx (run_steps l sample_world))
       = [] ++ [] ++ mjoin (plain_text <$> new).
Proof.
  apply (terminal_reads_stream 30 [[104]; [104; 105]] 1 [1; 0]%nat 2
           [sample_data 31 [104; 105]; SRx; SConsume 1; SKeepalive; SConsume 5; SRx; SRx;
            sample_data 30 [104]] sample_world).
  - discriminate.
  - repeat constructor; discriminate.
  - exact sample_world_ok.
  - reflexivity.
  - split; [by apply Nat.leb_le|split; reflexivity].
  - vm_compute. reflexivity.
  - apply arrivals_new; [by apply Nat.ltb_lt|].
    apply arrivals_again; [by apply Nat.ltb_lt|discriminate|reflexivity|]. apply arrivals_nil.
  - split; vm_compute; reflexivity.
Defined.

(** C15. Every DATA datagram of the session is acknowledged exactly once, by
    a datagram that decodes to an ACK whose counter is the sum of its
    counter and payload length modulo 2^32, whether it is new or a
    duplicate; only a new one reaches the record walk. A datagram that
    carries another session key, or is of a type the client does not handle,
    has no effect at all, and neither has one shorter than a header. *)
Theorem data_always_acked w h payload :
  world_ok w -> rx w = RxReading -> header_ok h -> Version h = protocolVersion ->
  (forall short, (length short < headerLen)%nat ->
     apply_step (SRead (ReadOk short)) w = set_rx RxTop w) /\
  let w' := apply_step (SRead (ReadOk (header_layout h dirToClient ++ payload))) w in
  let s := sess w in
  if decide (SessionKey h = sessionKey s /\ PType h = pTypeData) then
    exists ack, sent w' = sent w ++ [(ByRx, ack)]
      /\ decodeHeader ack dirToServer
         = Val (mkHeader protocolVersion pTypeAck (srcMAC s) (dstMAC s) (sessionKey s)
                  (u32 (Counter h + u32 (Z.of_nat (length payload)))), [])
      /\ rx w' = (if snd (acceptIncoming (ctrs s) (Counter h)) then RxWalk payload else RxTop)
      /\ ctrs (sess w') = fst (acceptIncoming (ctrs s) (Counter h))
  else if decide (SessionKey h = sessionKey s /\ (PType h = pTypeAck \/ PType h = pTypeEnd)) then
    sent w' = sent w
  else w' = set_rx RxTop w.
Proof.
  intros Hw Hrx Hh Hv. cbv zeta. unfold apply_step. rewrite (wo_crashed w Hw), Hrx.
  cbn [rx_read]. unfold rx_datagram.
  split; [intros short Hs; by rewrite (proj2 (Nat.ltb_lt _ _) Hs)|].
  rewrite (proj2 (Nat.ltb_ge _ _)) by (rewrite length_app, header_layout_length by done; lia).
  rewrite decode_layout by done.
  case_decide as Hd.
  - destruct Hd as [Hk Hp]. rewrite decide_False by tauto.
    rewrite decide_False by (rewrite Hp; discriminate). rewrite decide_True by done.
    pose proof (processInboundData_val h payload w Hw) as H. cbv zeta in H.
    destruct (acceptIncoming (ctrs (sess w)) (Counter h)) as [c fresh]. destruct H as (snd & k & ->).
    eexists. split; [reflexivity|]. split; [|done].
    rewrite <- (app_nil_r (header_layout _ _)). unfold ackCounterFor.
    apply (decode_layout (mkHeader protocolVersion pTypeAck (srcMAC (sess w)) (dstMAC (sess w))
             (sessionKey (sess w)) (u32 (Counter h + u32 (Z.of_nat (length payload)))))); [|done].
    destruct Hw. split; cbn; try done; auto with mt.
  - case_decide as He.
    + destruct He as [Hk Hp]. rewrite decide_False by tauto.
      case_decide; [done|]. rewrite decide_False by tauto. case_decide; [done|tauto].
    + case_decide; [done|]. rewrite !decide_False by tauto. done.
Qed.

Lemma data_always_acked_witness :
  let h := mkHeader 1 pTypeData [2; 0; 0; 0; 0; 2] [2; 0; 0; 0; 0; 1] 0x1234 30 in
  (forall short, (length short < headerLen)%nat ->
     apply_step (SRead (ReadOk short)) sample_world = set_rx RxTop sample_world) /\
  let w' := apply_step (SRead (ReadOk (header_layout h dirToClient ++ [104; 105]))) sample_world in
  let s := sess sample_world in
  if decide (SessionKey h = sessionKey s /\ PType h = pTypeData) then
    exists ack, sent w' = sent sample_world ++ [(ByRx, ack)]
      /\ decodeHeader ack dirToServer
         = Val (mkHeader protocolVersion pTypeAck (srcMAC s) (dstMAC s) (sessionKey s)
                  (u32 (Counter h + u32 (Z.of_nat 2))), [])
      /\ rx w' = (if snd (acceptIncoming (ctrs s) (Counter h)) then RxWalk [104; 105] else RxTop)
      /\ ctrs (sess w') = fst (acceptIncoming (ctrs s) (Counter h))
  else if decide (SessionKey h = sessionKey s /\ (PType h = pTypeAck \/ PType h = pTypeEnd)) then
    sent w' = sent sample_world
  else w' = set_rx RxTop sample_world.
Proof.
  apply (data_always_acked sample_world
           (mkHeader 1 pTypeData [2; 0; 0; 0; 0; 2] [2; 0; 0; 0; 0; 1] 0x1234 30) [104; 105]).
  - exact sample_world_ok.
  - reflexivity.
  - split; try (split; [reflexivity|repeat constructor; discriminate]); split; (discriminate || reflexivity).
  - reflexivity.
Defined.

(** ** Back-pressure through controlCh *)

(** Steps that neither take from [controlCh] nor end the session. *)
Definition passive (s : step) : Prop :=
  match s with STakeControl | SClose | SCloser | SCancel _ | STerminal => False | _ => True end.

(** The receive goroutine is blocked on a full [controlCh]. *)
Definition stalled (w : world) : Prop :=
  (exists cp payload, rx w = RxControl cp payload)
  /\ length (controlCh (sess w)) = controlCh_cap /\ ctx (sess w) = None.

Definition by_rx (l : list (origin * bytes)) : list (origin * bytes) :=
  filter (fun p => p.1 = ByRx) l.

Lemma by_rx_other who payload l : who <> ByRx -> by_rx (l ++ [(who, payload)]) = by_rx l.
Proof.
  intros Hw. unfold by_rx. rewrite filter_app, filter_cons_False, filter_nil by (by cbn).
  apply app_nil_r.
Qed.

Lemma stalled_step s w :
  world_ok w -> stalled w -> passive s ->
  stalled (apply_step s w) /\ rx (apply_step s w) = rx w
  /\ by_rx (sent (apply_step s w)) = by_rx (sent w) /\ piped (apply_step s w) = piped w.
Proof.
  intros Hw (Hrx & Hfull & Hctx) Hs.
  assert (forall w', rx w' = rx w -> controlCh (sess w') = controlCh (sess w) ->
    ctx (sess w') = ctx (sess w) -> by_rx (sent w') = by_rx (sent w) -> piped w' = piped w ->
    stalled w' /\ rx w' = rx w /\ by_rx (sent w') = by_rx (sent w) /\ piped w' = piped w) as Hframe.
  { intros w' Hr Hc Hx Hb Hp. unfold stalled. by rewrite Hr, Hc, Hx. }
  unfold apply_step. rewrite (wo_crashed w Hw).
  destruct Hrx as (cp & payload & Hrx).
  destruct s as [r| | |n| | | | |e| |plen|p| | | |]; try done; try by apply Hframe.
  - apply Hframe; by rewrite Hrx.
  - apply Hframe; unfold rx_step; by rewrite Hrx, Hfull.
  - apply Hframe; unfold rx_give_up; by rewrite Hrx, Hctx.
  - apply Hframe; unfold Session_Read; by rewrite Hrx.
  - unfold keepalive_tick. destruct (ka w); try by apply Hframe.
    { destruct (closed (sess w)); by apply Hframe. }
    destruct (transmit_header_parts ByKeepalive (session_header (sess w) pTypeAck (out (ctrs (sess w)))) w)
      as (Hr & Hp & _ & Hse & snd & Hsess); [done|apply Hw..|].
    apply Hframe; cbn; rewrite ?Hsess, ?Hse; try done. by apply by_rx_other.
  - unfold keepalive_done. rewrite Hctx. destruct (ka w); by apply Hframe.
  - destruct (transmit_val ByDriver p w Hw) as (snd & k & r & -> & _).
    apply Hframe; try done. by apply by_rx_other.
  - unfold take_ack. destruct (ackCh (sess w)); by apply Hframe.
  - unfold keepalive_start. destruct (ka w); by apply Hframe.
Qed.

Lemma stalled_run l : forall w,
  world_ok w -> stalled w -> Forall passive l ->
  rx (run_steps l w) = rx w /\ by_rx (sent (run_steps l w)) = by_rx (sent w)
  /\ piped (run_steps l w) = piped w.
Proof.
  induction l as [|s l IH]; intros w Hw Hst Hl; [done|]. apply Forall_cons_1 in Hl as [Hs Hl].
  destruct (stalled_step s w Hw Hst Hs) as (Hst' & Hr & Hb & Hp).
  cbn. fold (run_steps l (apply_step s w)).
  destruct (IH (apply_step s w)) as (IHr & IHb & IHp); [by apply apply_step_ok|done..|].
  by rewrite IHr, IHb, IHp.
Qed.

(** Two moves of the receive goroutine take one framed record off the
    payload and put it on [controlCh], while there is room. *)
Lemma walk_control r rest w :
  world_ok w -> framable r -> Z.of_nat (length (Body r ++ rest)) < 2 ^ 32 ->
  rx w = RxWalk (control_layout (CPType r) (Body r) ++ rest) ->
  apply_step SRx w = set_rx (RxControl (mkControl (CPType r) (Body r)) rest) w.
Proof.
  intros Hw Hr Hlen Hrx. unfold apply_step. rewrite (wo_crashed w Hw). unfold rx_step. rewrite Hrx.
  destruct r as [ct body]. cbn [CPType Body] in *.
  destruct (control_step_layout ct body rest Hr Hlen) as [Hne Hstep].
  unfold rx_walk. rewrite Hstep. destruct (control_layout ct body ++ rest); [done|].
  cbn [CPType Body]. by rewrite decide_False by apply Hr.
Qed.

Lemma control_layout_body ct body rest :
  (length (body ++ rest) <= length (control_layout ct body ++ rest))%nat.
Proof. unfold control_layout. case_decide; rewrite !length_app; lia. Qed.

(** A new DATA datagram of the session. *)
Lemma data_step w h payload :
  world_ok w -> rx w = RxReading ->
  header_ok h -> Version h = protocolVersion -> PType h = pTypeData -> SessionKey h = sessionKey (sess w) ->
  snd (acceptIncoming (ctrs (sess w)) (Counter h)) = true ->
  exists ack snd k c, apply_step (SRead (ReadOk (header_layout h dirToClient ++ payload))) w
    = mkWorld (set_ctrs c (set_sender snd (sess w))) (RxWalk payload) (closer w) (ka w) k
        (sent w ++ [(ByRx, ack)]) (piped w) false.
Proof.
  intros Hw Hrx Hh Hv Hp Hk Hfresh. unfold apply_step. rewrite (wo_crashed w Hw), Hrx.
  cbn [rx_read]. unfold rx_datagram.
  rewrite (proj2 (Nat.ltb_ge _ _)) by (rewrite length_app, header_layout_length by done; lia).
  rewrite decode_layout by done. rewrite decide_False by tauto.
  rewrite decide_False by (rewrite Hp; discriminate). rewrite decide_True by done.
  pose proof (processInboundData_val h payload w Hw) as H. cbv zeta in H.
  destruct (acceptIncoming (ctrs (sess w)) (Counter h)) as [c fresh]. cbn in Hfresh. subst fresh.
  destruct H as (snd0 & k & ->). rewrite (wo_crashed w Hw). eexists _, snd0, k, c. reflexivity.
Qed.

Lemma push_control cp payload w :
  world_ok w -> rx w = RxControl cp payload -> (length (controlCh (sess w)) < controlCh_cap)%nat ->
  apply_step SRx w
  = set_rx (RxWalk payload) (on_sess (fun s => set_controlCh (controlCh s ++ [cp]) s) w).
Proof.
  intros Hw Hrx Hlt. unfold apply_step. rewrite (wo_crashed w Hw). unfold rx_step. rewrite Hrx.
  by rewrite (proj2 (Nat.ltb_lt _ _) Hlt).
Qed.

(** Walking [controlCh_cap - length controlCh + 1] records ends blocked. *)
Lemma walk_fills rs : forall w,
  world_ok w -> Forall framable rs -> Z.of_nat (length (chain_layout rs)) < 2 ^ 32 ->
  rx w = RxWalk (chain_layout rs) -> ctx (sess w) = None ->
  (controlCh_cap < length (controlCh (sess w)) + length rs)%nat ->
  exists flood, Forall passive flood /\ world_ok (run_steps flood w) /\ stalled (run_steps flood w)
    /\ sent (run_steps flood w) = sent w /\ piped (run_steps flood w) = piped w.
Proof.
  induction rs as [|r rs IH]; intros w Hw Hf Hlen Hrx Hctx Hfull.
  { pose proof (wo_controls w Hw). cbn in Hfull. lia. }
  apply Forall_cons_1 in Hf as [Hr Hf].
  assert (apply_step SRx w = set_rx (RxControl (mkControl (CPType r) (Body r)) (chain_layout rs)) w) as H1.
  { apply walk_control; try done. rewrite chain_layout_cons in Hlen.
    pose proof (control_layout_body (CPType r) (Body r) (chain_layout rs)). lia. }
  set (w1 := set_rx (RxControl (mkControl (CPType r) (Body r)) (chain_layout rs)) w) in *.
  assert (world_ok w1) as Hw1 by (rewrite <- H1; by apply apply_step_ok).
  destruct (decide (length (controlCh (sess w)) < controlCh_cap)%nat) as [Hlt|Hge].
  - pose proof (push_control _ _ w1 Hw1 eq_refl Hlt) as H2.
    set (w2 := set_rx (RxWalk (chain_layout rs)) _) in H2.
    destruct (IH w2) as (flood & Hp & Hok & Hst & Hse & Hpi); try done.
    + rewrite <- H2. by apply apply_step_ok.
    + rewrite chain_layout_cons, length_app in Hlen. lia.
    + cbn. rewrite length_app. cbn in *. lia.
    + exists (SRx :: SRx :: flood).
      assert (run_steps (SRx :: SRx :: flood) w = run_steps flood w2) as ->.
      { cbn [run_steps foldl]. by rewrite H1, H2. }
      split_and!; [by repeat constructor|done..].
  - exists [SRx]. cbn [run_steps foldl]. rewrite H1.
    split_and!; [by repeat constructor|done| |done..].
    split_and!; [by eexists _, _| |done]. pose proof (wo_controls w Hw). cbn. lia.
Qed.

(** C39. After the handshake nothing takes from [controlCh], and its sixteen
    slots are never emptied: one DATA datagram with more control records
    than there are free slots (any types but PLAINDATA) blocks the receive
    goroutine for good. It acknowledges that datagram, and then, whatever
    the terminal, the caller and the device do, no terminal output is
    delivered and no DATA is acknowledged until the session is closed or
    cancelled. *)
Theorem control_backlog_stalls w h rs :
  world_ok w -> rx w = RxReading -> ctx (sess w) = None ->
  header_ok h -> Version h = protocolVersion -> PType h = pTypeData -> SessionKey h = sessionKey (sess w) ->
  snd (acceptIncoming (ctrs (sess w)) (Counter h)) = true ->
  Forall framable rs -> Z.of_nat (length (chain_layout rs)) < 2 ^ 32 ->
  (controlCh_cap < length (controlCh (sess w)) + length rs)%nat ->
  exists ack flood, Forall passive flood /\ forall l, Forall passive l ->
    let w' := run_steps (SRead (ReadOk (header_layout h dirToClient ++ chain_layout rs)) :: flood ++ l) w in
    by_rx (sent w') = by_rx (sent w) ++ [(ByRx, ack)] /\ piped w' = piped w
    /\ exists cp payload, rx w' = RxControl cp payload.
Proof.
  intros Hw Hrx Hctx Hh Hv Hp Hk Hfresh Hf Hlen Hfull.
  set (data := SRead _).
  destruct (data_step w h (chain_layout rs) Hw Hrx Hh Hv Hp Hk Hfresh) as (ack & snd0 & k & c & Hdata).
  fold data in Hdata.
  assert (world_ok (apply_step data w)) as Hw1 by by apply apply_step_ok.
  rewrite Hdata in Hw1. set (w1 := mkWorld _ _ _ _ _ _ _ _) in *.
  destruct (walk_fills rs w1) as (flood & Hpas & Hok & Hst & Hse & Hpi); try done.
  exists ack, flood. split; [done|]. intros l Hl. cbv zeta.
  assert (run_steps (data :: flood ++ l) w = run_steps l (run_steps flood w1)) as ->.
  { unfold run_steps. cbn [foldl]. by rewrite Hdata, foldl_app. }
  destruct (stalled_run l _ Hok Hst Hl) as (Hr & Hb & Hpi').
  destruct Hst as ((cp & payload & Hcp) & _).
  rewrite Hb, Hpi', Hse, Hpi, Hr. cbn [sent piped w1]. split_and!; [|done|by exists cp, payload].
  unfold by_rx. by rewrite filter_app.
Qed.

Lemma control_backlog_stalls_witness :
  let h := mkHeader 1 pTypeData [2; 0; 0; 0; 0; 2] [2; 0; 0; 0; 0; 1] 0x1234 31 in
  let rs := replicate 17 (mkRecord cpTypeTermType []) in
  exists ack flood, Forall passive flood /\ forall l, Forall passive l ->
    let w' := run_steps (SRead (ReadOk (header_layout h dirToClient ++ chain_layout rs)) :: flood ++ l)
                sample_world in
    by_rx (sent w') = by_rx (sent sample_world) ++ [(ByRx, ack)] /\ piped w' = piped sample_world
    /\ exists cp payload, rx w' = RxControl cp payload.
Proof.
  apply (control_backlog_stalls sample_world
           (mkHeader 1 pTypeData [2; 0; 0; 0; 0; 2] [2; 0; 0; 0; 0; 1] 0x1234 31)
           (replicate 17 (mkRecord cpTypeTermType []))); try reflexivity.
  - exact sample_world_ok.
  - split; try (split; [reflexivity|repeat constructor; discriminate]); split; (discriminate || reflexivity).
  - apply Forall_replicate. split; [split; [discriminate|reflexivity]|discriminate].
  - by apply Nat.ltb_lt.
Defined.

(** ** Shutdown *)

(** The END datagrams the session has sent. *)
Definition ends (w : world) : nat := length (filter (fun p => p.1 = ByClose) (sent w)).

Lemma ends_other who payload l :
  who <> ByClose -> length (filter (fun p : origin * bytes => p.1 = ByClose) (l ++ [(who, payload)]))
                    = length (filter (fun p => p.1 = ByClose) l).
Proof.
  intros Hw. rewrite filter_app, filter_cons_False, filter_nil by (by cbn). by rewrite app_nil_r.
Qed.

Lemma keepalive_cases w :
  (exists pc, keepalive_tick w = set_ka pc w)
  \/ keepalive_tick w = set_ka KaSelect (fst (transmit_header ByKeepalive
       (session_header (sess w) pTypeAck (out (ctrs (sess w)))) w)).
Proof.
  assert (exists pc, w = set_ka pc w) as Hsame by (exists (ka w); by destruct w).
  unfold keepalive_tick. destruct (ka w); [by left| |by right|by left].
  left. destruct (closed (sess w)); by eexists.
Qed.

(** The END a call of [Close] has sent. *)
Definition end_due (pc : close_pc) : nat := match pc with CloseShut _ => 1 | _ => 0 end.

(** A transition that sends END exactly if it takes [Close] past it. *)
Definition ends_step (w w' : world) : Prop :=
  ends w' = ends w /\ end_due (closer w') = end_due (closer w)
  \/ ends w' = S (ends w) /\ closer w = CloseEnd /\ end_due (closer w') = 1%nat.

Lemma ends_frame w w' : sent w' = sent w -> closer w' = closer w -> ends_step w w'.
Proof. intros Hs Hc. left. unfold ends. by rewrite Hs, Hc. Qed.

Lemma ends_send w w' who payload : who <> ByClose -> sent w' = sent w ++ [(who, payload)] ->
  closer w' = closer w -> ends_step w w'.
Proof. intros Hne Hs Hc. left. unfold ends. rewrite Hs, Hc. by rewrite ends_other. Qed.

Lemma rx_read_ends r w : world_ok w -> ends_step w (rx_read r w).
Proof.
  intros Hw. destruct r as [buf|[]]; cbn [rx_read]; try (by apply ends_frame).
  unfold rx_datagram. destruct (Nat.ltb_spec (length buf) headerLen) as [|Hlen]; [by apply ends_frame|].
  destruct (decodeHeader_total buf dirToClient Hlen) as (h & -> & _).
  repeat case_decide; try by apply ends_frame.
  pose proof (processInboundData_val h (drop headerLen buf) w Hw) as Hp. cbv zeta in Hp.
  destruct (acceptIncoming _ _) as [c fresh]. destruct Hp as (snd0 & k & ->).
  by eapply (ends_send _ _ ByRx).
Qed.

Lemma fail_frame w : sent (fail w) = sent w /\ closer (fail w) = closer w /\ piped (fail w) = piped w
  /\ kern (fail w) = kern w.
Proof.
  unfold fail, on_sess. destruct (rx w) as [| | | | |e| |[|a l]| | |]; try done. by destruct (closed (sess w)).
Qed.

Lemma rx_step_ends w : ends_step w (rx_step w).
Proof.
  unfold rx_step. destruct (rx w) as [| |payload|chunk payload|cp payload|e| |l| | |];
    try (by apply ends_frame); try (destruct (fail_frame w) as (? & ? & _); by apply ends_frame).
  - destruct (ctx (sess w)); by apply ends_frame.
  - unfold rx_walk. destruct payload as [|b payload]; [by apply ends_frame|].
    destruct (control_step_total (b :: payload)) as (rec & rest & -> & _); [done|].
    case_decide; [destruct (terminalMode (sess w))|]; by apply ends_frame.
  - destruct (pipeClosed (sess w)); by apply ends_frame.
  - destruct (length (controlCh (sess w)) <? controlCh_cap)%nat; by apply ends_frame.
Qed.

Lemma Close_ends w : world_ok w -> ends_step w (Close w).
Proof.
  intros Hw. unfold Close. destruct (closed (sess w)) eqn:Hc; [by apply ends_frame|].
  destruct (td_open _ (wo_teardown w Hw) Hc) as (Hi & _). left. cbn. by rewrite Hi.
Qed.
Lemma Close_next_ends w : world_ok w -> ends_step w (Close_next w).
Proof.
  intros Hw. destruct (closer w) as [| |[|a l]] eqn:Hc;
    try (unfold Close_next; rewrite Hc; by apply ends_frame).
  - destruct (Close_next_end w Hw Hc) as (snd0 & k & -> & _). right. unfold ends. cbn [sent closer].
    rewrite filter_app, length_app, filter_cons_True, filter_nil by done. cbn. by rewrite Nat.add_1_r.
  - left. unfold Close_next. rewrite Hc. done.
Qed.

Lemma step_ends s w : world_ok w -> ends_step w (apply_step s w).
Proof.
  intros Hw. unfold apply_step. rewrite (wo_crashed w Hw).
  destruct s as [r| | |n| | | | |e| |plen|p| | | |]; try by apply ends_frame.
  - destruct (rx w); try by apply ends_frame. by apply rx_read_ends.
  - apply rx_step_ends.
  - unfold rx_give_up. destruct (rx w), (ctx (sess w)); by apply ends_frame.
  - unfold Session_Read. destruct (rx w); try by apply ends_frame.
    destruct (pipeClosed (sess w)); by apply ends_frame.
  - destruct (keepalive_cases w) as [[pc ->]| ->]; [by apply ends_frame|].
    destruct (transmit_header_val ByKeepalive (session_header (sess w) pTypeAck (out (ctrs (sess w)))) w)
      as (snd0 & k & r & -> & _); [done|apply Hw..|]. by eapply (ends_send _ _ ByKeepalive).
  - unfold keepalive_done. destruct (ka w), (ctx (sess w)); by apply ends_frame.
  - by apply Close_ends.
  - by apply Close_next_ends.
  - destruct (transmit_val ByDriver p w Hw) as (snd0 & k & r & -> & _). by eapply (ends_send _ _ ByDriver).
  - unfold take_ack. destruct (ackCh (sess w)); by apply ends_frame.
  - unfold take_control. destruct (controlCh (sess w)); by apply ends_frame.
  - unfold keepalive_start. destruct (ka w); by apply ends_frame.
Qed.

Lemma run_ends l : forall w, world_ok w -> ends w = end_due (closer w) ->
  ends (run_steps l w) = end_due (closer (run_steps l w)).
Proof.
  induction l as [|s l IH]; intros w Hw He; [done|]. apply (IH (apply_step s w)); [by apply apply_step_ok|].
  destruct (step_ends s w Hw) as [[-> ->]|(-> & Hcl & ->)]; [done|]. by rewrite He, Hcl.
Qed.

(** C16. Teardown: starting from an open session that has not sent END,
    whatever the goroutines do, and wherever they are interrupted between
    two calls of [Close] or [fail]: END is sent at most once, only by a call
    of [Close] on a session that was open, while both sockets are, and never
    when [fail] came first; an open session has its sockets; and a closed
    one is torn down by exactly one goroutine, which has at most six actions
    left and, once it has had its turns for them, whatever the others do
    meanwhile, has cancelled the context and closed the sockets and the pipe,
    so that every loop and pending wait can end. No step panics. *)
Theorem end_sent_at_most_once w l :
  world_ok w -> closed (sess w) = false -> ends w = 0%nat ->
  let w' := run_steps l w in
  (ends w' <= 1)%nat
  /\ (ends w' = 1%nat -> closed (sess w') = true /\ by_fail w' = false)
  /\ (forall s, ends (apply_step s w') <> ends w' ->
        connClosed (sess w') = false /\ senderClosed (sess w') = false)
  /\ (closed (sess w') = false -> connClosed (sess w') = false /\ senderClosed (sess w') = false)
  /\ (closed (sess w') = true -> (teardown_left w' <= if by_fail w' then 4 else 6)%nat
        /\ forall k, (teardown_left w' <= winner_turns (by_fail w') k)%nat ->
              released (sess (run_steps k w')))
  /\ crashed w' = false.
Proof.
  intros Hw Hc He. cbv zeta. set (w' := run_steps l w).
  assert (world_ok w') as Hok by by apply run_steps_ok.
  pose proof (wo_teardown _ Hok) as Htd.
  assert (ends w' = end_due (closer w')) as Hends.
  { apply run_ends; [done|]. destruct (td_open _ (wo_teardown w Hw) Hc) as (-> & _). done. }
  split_and!.
  - rewrite Hends. destruct (closer w'); cbn; lia.
  - intros H1. destruct (closer w') as [| |k] eqn:Hcl; try (rewrite Hends in H1; discriminate H1). split.
    + destruct (closed (sess w')) eqn:Hc'; [done|]. destruct (td_open _ Htd Hc') as (? & _). congruence.
    + unfold by_fail. pose proof (td_rx _ Htd) as Hr. destruct (rx w'); try done. destruct Hr as (_ & ? & _). congruence.
  - intros s Hs. destruct (step_ends s w' Hok) as [[? _]|(_ & Hcl & _)]; [done|].
    pose proof (td_closer _ Htd) as H. by rewrite Hcl in H.
  - intros Hc'. by destruct (td_open _ Htd Hc') as (_ & ?).
  - intros Hc'. split; [by apply teardown_left_bound|]. intros k Hk. by apply winner_releases.
  - apply (wo_crashed _ Hok).
Qed.

Lemma end_sent_at_most_once_witness :
  let w' := run_steps [SClose; SKeepalive; SCloser; SCloser; SClose; SRead (ReadFail ErrDeadlineExceeded)] sample_world in
  (ends w' <= 1)%nat
  /\ (ends w' = 1%nat -> closed (sess w') = true /\ by_fail w' = false)
  /\ (forall s, ends (apply_step s w') <> ends w' ->
        connClosed (sess w') = false /\ senderClosed (sess w') = false)
  /\ (closed (sess w') = false -> connClosed (sess w') = false /\ senderClosed (sess w') = false)
  /\ (closed (sess w') = true -> (teardown_left w' <= if by_fail w' then 4 else 6)%nat
        /\ forall k, (teardown_left w' <= winner_turns (by_fail w') k)%nat ->
              released (sess (run_steps k w')))
  /\ crashed w' = false.
Proof.
  apply (end_sent_at_most_once sample_world
           [SClose; SKeepalive; SCloser; SCloser; SClose; SRead (ReadFail ErrDeadlineExceeded)]);
    [exact sample_world_ok|reflexivity..].
Defined.

(** There, END is out and the context cancelled, the sockets are still open,
    and four turns of [Close] close them. *)
Example teardown_interrupted :
  let w' := run_steps [SClose; SKeepalive; SCloser; SCloser; SClose; SRead (ReadFail ErrDeadlineExceeded)] sample_world in
  ends w' = 1%nat /\ ctx (sess w') = Some Canceled /\ connClosed (sess w') = false
  /\ senderClosed (sess w') = false /\ teardown_left w' = 4%nat.
Proof. vm_compute. done. Qed.

(** ** The switch to terminal mode *)

Lemma walk_plain text w :
  world_ok w -> text <> [] -> plain_tail text -> rx w = RxWalk text ->
  apply_step SRx w = set_rx (if terminalMode (sess w) then RxPipe text [] else RxWalk []) w.
Proof.
  intros Hw Hne Hpl Hrx. unfold apply_step. rewrite (wo_crashed w Hw). unfold rx_step. rewrite Hrx.
  unfold rx_walk. destruct text as [|b text]; [done|].
  rewrite control_step_plain by done. cbn [CPType Body]. rewrite decide_True by done.
  by destruct (terminalMode (sess w)).
Qed.

(** Terminal output in the datagram that ends the authentication may be
    lost. The device's END_AUTH record and the first output behind it in
    the same datagram are handled by two goroutines; the same steps, in two
    orders, deliver the output or drop it, and both times the session ends
    up in terminal mode with the datagram acknowledged and done with. *)
Theorem output_behind_END_AUTH_race w h text :
  world_ok w -> rx w = RxReading -> ctx (sess w) = None -> pipeClosed (sess w) = false ->
  terminalMode (sess w) = false -> controlCh (sess w) = [] ->
  header_ok h -> Version h = protocolVersion -> PType h = pTypeData -> SessionKey h = sessionKey (sess w) ->
  snd (acceptIncoming (ctrs (sess w)) (Counter h)) = true ->
  text <> [] -> plain_tail text -> Z.of_nat (length text) < 2 ^ 31 ->
  let data := SRead (ReadOk (header_layout h dirToClient ++ control_layout cpTypeEndAuth [] ++ text)) in
  let read := SConsume (length text) in
  let first := [data; SRx; SRx; STakeControl; STerminal; SRx; read; SRx] in
  let second := [data; SRx; SRx; SRx; STakeControl; STerminal; read; SRx] in
  let w1 := run_steps first w in
  let w2 := run_steps second w in
  first ≡ₚ second /\ sent w1 = sent w2
  /\ terminalMode (sess w1) = true /\ terminalMode (sess w2) = true
  /\ rx w1 = RxTop /\ rx w2 = RxTop
  /\ piped w1 = piped w ++ text /\ piped w2 = piped w.
Proof.
  intros Hw Hrx Hctx Hpipe Hmode Hctl Hh Hv Hp Hk Hfresh Hne Hpl Hlen data read first second.
  destruct (data_step w h (control_layout cpTypeEndAuth [] ++ text) Hw Hrx Hh Hv Hp Hk Hfresh)
    as (ack & snd0 & k & c & Hdata). fold data in Hdata.
  assert (world_ok (apply_step data w)) as Ha by by apply apply_step_ok. rewrite Hdata in Ha.
  set (wa := mkWorld _ _ _ _ _ _ _ _) in *.
  set (cp := mkControl cpTypeEndAuth []).
  assert (apply_step SRx wa = set_rx (RxControl cp text) wa) as Hb.
  { apply (walk_control (mkRecord cpTypeEndAuth []) text wa); [done|by split|cbn; lia|done]. }
  assert (world_ok (apply_step SRx wa)) as Hwb by by apply apply_step_ok. rewrite Hb in Hwb.
  set (wc := set_rx (RxWalk text) (on_sess (fun s => set_controlCh (controlCh s ++ [cp]) s) (set_rx (RxControl cp text) wa))).
  assert (apply_step SRx (set_rx (RxControl cp text) wa) = wc) as Hc.
  { apply push_control; [done|done|]. cbn. rewrite Hctl. cbn. unfold controlCh_cap. lia. }
  assert (world_ok wc) as Hwc by (rewrite <- Hc; by apply apply_step_ok).
  set (terminal w := on_sess (set_terminalMode true) (on_sess (set_controlCh []) w)).
  assert (forall pc, run_steps [STakeControl; STerminal] (set_rx pc wc) = set_rx pc (terminal wc)) as Hterm.
  { intros pc. unfold run_steps. cbn [foldl]. unfold apply_step at 2, take_control.
    cbn. rewrite Hctl. reflexivity. }
  pose proof (Hterm (RxWalk text)) as Ht1. pose proof (Hterm (RxWalk [])) as Ht2.
  assert (forall pc, world_ok (set_rx pc wc) -> world_ok (set_rx pc (terminal wc))) as Hwt.
  { intros pc Hpc. rewrite <- Hterm. by apply run_steps_ok. }
  assert (run_steps first w = run_steps [SRx; read; SRx] (set_rx (RxWalk text) (terminal wc))) as Hfirst.
  { rewrite <- Ht1. unfold first, run_steps. cbn [foldl]. rewrite Hdata. fold wa. by rewrite Hb, Hc. }
  assert (run_steps second w = run_steps [read; SRx] (set_rx (RxWalk []) (terminal wc))) as Hsecond.
  { rewrite <- Ht2. unfold second, run_steps. cbn [foldl]. rewrite Hdata. fold wa.
    rewrite Hb, Hc, (walk_plain text wc) by done. subst wc. cbn. by rewrite Hmode. }
  cbv zeta. rewrite Hfirst, Hsecond. split; [solve_Permutation|].
  assert (world_ok (set_rx (RxWalk text) (terminal wc))) as Hw1 by (by apply Hwt).
  unfold run_steps. cbn [foldl].
  rewrite (walk_plain text (set_rx (RxWalk text) (terminal wc))) by done. cbn.
  unfold apply_step, Session_Read, rx_step, read. cbn. rewrite ?Hpipe, ?drop_ge, ?take_ge by done. cbn.
  by split_and!.
Qed.

Lemma output_behind_END_AUTH_race_witness :
  let w := on_sess (set_terminalMode false) sample_world in
  let h := mkHeader 1 pTypeData [2; 0; 0; 0; 0; 2] [2; 0; 0; 0; 0; 1] 0x1234 31 in
  let text := [104; 105] in
  let data := SRead (ReadOk (header_layout h dirToClient ++ control_layout cpTypeEndAuth [] ++ text)) in
  let read := SConsume 2 in
  let first := [data; SRx; SRx; STakeControl; STerminal; SRx; read; SRx] in
  let second := [data; SRx; SRx; SRx; STakeControl; STerminal; read; SRx] in
  let w1 := run_steps first w in
  let w2 := run_steps second w in
  first ≡ₚ second /\ sent w1 = sent w2
  /\ terminalMode (sess w1) = true /\ terminalMode (sess w2) = true
  /\ rx w1 = RxTop /\ rx w2 = RxTop
  /\ piped w1 = piped w ++ text /\ piped w2 = piped w.
Proof.
  apply (output_behind_END_AUTH_race (on_sess (set_terminalMode false) sample_world)
           (mkHeader 1 pTypeData [2; 0; 0; 0; 0; 2] [2; 0; 0; 0; 0; 1] 0x1234 31) [104; 105]);
    try reflexivity; try discriminate.
  - pose proof sample_world_ok as []. by split.
  - split; try (split; [reflexivity|repeat constructor; discriminate]); split; (discriminate || reflexivity).
  - left. by apply Nat.ltb_lt.
Defined.
