(* ===== verification/SessionOps.v ===== *)
(** * Operations of a session's caller (internal/mactelnet/session.go)

    [Write], [Resize], [Close] and the handshake, as computations that run
    against a schedule: at every blocking point the next events say what
    the other goroutines do (steps of Session.v), which ready case of the
    [select] is taken, or that a timer fires.  Between two blocking points
    the caller runs to the next one; the state it touches there is its own
    or only ever read once by the others (the counters' outbound half, the
    sender under its mutex), but for [ackCh], on which an acknowledgement can
    arrive: it may as well arrive when the caller waits ([late_ack_commutes]).
    [Close] is not run so: each of its calls is a step of its schedule.  A
    computation that uses its schedule up is blocked ([Blk]), never
    finished. *)

From S2P Require Import Prelude GoBytes MacAddr GoHash Protocol Seq BigInt Auth Mtwei Frame Receiver Sockets Session RxLoop.

#[local] Open Scope Z_scope.

(** ** The computations *)

Inductive event :=
| Other (s : step)        (* another goroutine takes a step *)
| TakeAck                 (* [case got := <-s.ackCh] *)
| TakeControl             (* [case cp := <-s.controlCh] *)
| Timer                   (* the attempt's timer, or its deadline check *)
| CtxDone                 (* [case <-s.ctx.Done()] *)
| HandshakeDeadline.      (* [case <-hCtx.Done()] on its own timeout *)

(** Where in the handshake an error was wrapped. *)
Inductive stage :=
| SendSessionStart | Keygen | BuildAuthInit | AuthInit | AwaitPassSalt
| Docrypto | BuildAuthFinish | AuthFinish.

Inductive auth_failure :=
| PassSaltLength (n : nat)
| NoEndAuth (e : ctx_error).

Inductive op_error :=
| ErrRetransmitExhausted
| errAckTimeout
| ErrNetClosed                   (* net.ErrClosed *)
| ErrSend (errno : Z)
| ErrCtx (e : ctx_error)
| ErrWriteTooLarge (n : nat)
| ErrCodec (e : proto_error)
| ErrEC (e : mtwei_error)
| ErrAuthFailed (why : auth_failure)
| ErrIn (at_ : stage) (e : op_error).

Inductive res (A : Type) :=
| Ret (a : A)
| Err (e : op_error)
| Pan
| Blk.
Arguments Ret {A} a.
Arguments Err {A} e.
Arguments Pan {A}.
Arguments Blk {A}.

Definition M (A : Type) : Type := list event -> world -> res A * list event * world.

Definition ret {A} (a : A) : M A := fun evs w => (Ret a, evs, w).
Definition throw {A} (e : op_error) : M A := fun evs w => (Err e, evs, w).
Definition panic {A} : M A := fun evs w => (Pan, evs, w).
Definition bind {A B} (m : M A) (k : A -> M B) : M B := fun evs w =>
  match m evs w with
  | (Ret a, evs, w) => k a evs w
  | (Err e, evs, w) => (Err e, evs, w)
  | (Pan, evs, w) => (Pan, evs, w)
  | (Blk, evs, w) => (Blk, evs, w)
  end.
(** [if err != nil { return f(err) }] *)
Definition map_err {A} (f : op_error -> op_error) (m : M A) : M A := fun evs w =>
  match m evs w with
  | (Err e, evs, w) => (Err (f e), evs, w)
  | r => r
  end.
Definition get {A} (f : world -> A) : M A := fun evs w => (Ret (f w), evs, w).
Definition modify (f : world -> world) : M unit := fun evs w => (Ret tt, evs, f w).
Definition lift {E A} (f : E -> op_error) (o : outcome E A) : M A :=
  match o with Val a => ret a | Fail e => throw (f e) | Panic => panic end.

#[export] Instance M_ret : MRet M := fun A a => ret a.
#[export] Instance M_bind : MBind M := fun A B k m => bind m k.

(** Steps another goroutine can take. *)
Definition by_others (s : step) : bool :=
  match s with
  | SDrain | SReserve _ | SSend _ | STakeAck | STakeControl | STerminal | SStart => false
  | _ => true
  end.
Definition interfere (s : step) (w : world) : world :=
  if by_others s then apply_step s w else w.

(** ** Sending and waiting *)

(** [s.sender.Send(pkt, s.dstMAC)] by the caller. *)
Definition send (pkt : bytes) : M unit := fun evs w =>
  let '(w, r) := transmit ByDriver pkt w in
  if crashed w then (Pan, evs, w)
  else match r with Some e => (Err (ErrSend e), evs, w) | None => (Ret tt, evs, w) end.

(** The [select] of [waitForAck]. A case that is not ready is skipped. *)
Fixpoint wait_ack (want : Z) (evs : list event) (w : world) : res unit * list event * world :=
  match evs with
  | [] => (Blk, [], w)
  | Other s :: evs =>
      let w := interfere s w in
      if crashed w then (Pan, evs, w) else wait_ack want evs w
  | TakeAck :: evs =>
      match take_ack w with
      | Some (w, got) => if got =? want then (Ret tt, evs, w) else wait_ack want evs w
      | None => wait_ack want evs w
      end
  | Timer :: evs => (Err errAckTimeout, evs, w)
  | CtxDone :: evs =>
      match ctx (sess w) with
      | Some e => (Err (ErrCtx e), evs, w)
      | None => wait_ack want evs w
      end
  | _ :: evs => wait_ack want evs w
  end.
Definition waitForAck (want : Z) : M unit := wait_ack want.

(** The [select] of [awaitControl]. *)
Fixpoint wait_control (want : Z) (evs : list event) (w : world)
    : res controlPacket * list event * world :=
  match evs with
  | [] => (Blk, [], w)
  | Other s :: evs =>
      let w := interfere s w in
      if crashed w then (Pan, evs, w) else wait_control want evs w
  | TakeControl :: evs =>
      match take_control w with
      | Some (w, cp) => if cpt cp =? want then (Ret cp, evs, w) else wait_control want evs w
      | None => wait_control want evs w
      end
  | HandshakeDeadline :: evs => (Err (ErrCtx DeadlineExceeded), evs, w)
  | CtxDone :: evs =>
      match ctx (sess w) with
      | Some e => (Err (ErrCtx e), evs, w)
      | None => wait_control want evs w
      end
  | _ :: evs => wait_control want evs w
  end.
Definition awaitControl (want : Z) : M controlPacket := wait_control want.

(** The retransmission loop: wait out one interval, and send again. *)
Fixpoint attempts (pkt : bytes) (want : Z) (schedule : list Z) : M unit :=
  match schedule with
  | [] => throw ErrRetransmitExhausted
  | _ :: schedule => fun evs w =>
      match waitForAck want evs w with
      | (Err (ErrCtx e), evs, w) => (Err (ErrCtx e), evs, w)
      | (Err _, evs, w) => (send pkt ;; attempts pkt want schedule) evs w
      | (r, evs, w) => (r, evs, w)
      end
  end.

(** The DATA datagram [sendDataAndWaitAck] builds. *)
Definition data_packet (s : Session) (seq : Z) (payload : bytes) : proto bytes :=
  '(pkt, _) ← encode (session_header s pTypeData seq) (make (headerLen + length payload)) dirToServer;
  copy_at pkt headerLen (length pkt) payload.

Definition reserveM (plen : Z) : M Z := fun evs w =>
  let '(w, seq) := reserve plen w in (Ret seq, evs, w).

Section Operations.
(** The package's retransmit schedules. *)
Context (sch : schedules).

(** [sendDataAndWaitAck] from taking [dataMu] to its first wait: the packet,
    the acknowledgement to wait for, and the intervals to wait. *)
Definition send_first (payload : bytes) : M (bytes * Z * list Z) :=
  modify drain_acks ;;
  let plen := u32 (Z.of_nat (length payload)) in
  seq ← reserveM plen;
  let wantAck := ackCounterFor seq plen in
  s ← get sess;
  pkt ← lift ErrCodec (data_packet s seq payload);
  send pkt ;;
  terminal ← get (fun w => terminalMode (sess w));
  ret (pkt, wantAck, if terminal : bool then dataSchedule sch else authSchedule sch).

Definition sendDataAndWaitAck (payload : bytes) : M unit :=
  '(pkt, wantAck, schedule) ← send_first payload;
  attempts pkt wantAck schedule.

(** [Write] up to its call of [sendDataAndWaitAck]: [None] when there is
    nothing to send. *)
Definition prepare_write (p : bytes) : M (option bytes) :=
  c ← get (fun w => closed (sess w));
  if c : bool then throw ErrNetClosed
  else if decide (length p = 0)%nat then ret None
  else if decide (maxPacket - headerLen < length p + cpHeaderLen)%nat then
    throw (ErrWriteTooLarge (length p))
  else
    '(payloadBuf, n) ← lift ErrCodec
       (encodeControl (make (cpHeaderLen + length p)) cpTypePlainData p);
    ret (Some (take n payloadBuf)).

Definition Write (p : bytes) : M nat :=
  payload ← prepare_write p;
  match payload with
  | None => ret 0%nat
  | Some payload => sendDataAndWaitAck payload ;; ret (length p)
  end.

(** [Resize] up to its call of [sendDataAndWaitAck]. *)
Definition prepare_resize (cols rows : Z) : M bytes :=
  c ← get (fun w => closed (sess w));
  if c : bool then throw ErrNetClosed
  else
    '(payloadBuf, n) ← lift ErrCodec
       (encodeControl (make (2 * (cpHeaderLen + 2))) cpTypeTermWidth (put_le16 cols));
    '(rest, m) ← lift ErrCodec (encodeControl (drop n payloadBuf) cpTypeTermHeight (put_le16 rows));
    ret (take (n + m) (take n payloadBuf ++ rest)).

Definition Resize (cols rows : Z) : M unit :=
  payload ← prepare_resize cols rows;
  sendDataAndWaitAck payload.

Definition sendSessionStart : M unit :=
  s ← get sess;
  '(buf, _) ← lift ErrCodec
     (encode (session_header s pTypeSessionStart 0) (make headerLen) dirToServer);
  send buf.

(** "xterm-256color" *)
Definition defaultTermType : bytes := bytes_of_string "xterm-256color".

(** The challenge's answer: which proof of the password is sent depends
    only on the length of the PASSSALT body. [fuel] bounds the search for
    a curve point in the EC-SRP step. *)
Definition auth_response (fuel : nat) (username password : bytes) (priv : Z) (clientPub saltBody : bytes)
    : M bytes :=
  if decide (length saltBody = md5SaltLen) then ret (computeMD5Response password saltBody)
  else if decide (length saltBody = ecsrpSaltLen) then
    let serverKey := take ecsrpPubkeyLen saltBody in
    let salt := drop ecsrpPubkeyLen saltBody in
    let validator := mtweiID username password salt in
    map_err (ErrIn Docrypto)
      (lift ErrEC (docrypto fuel newMtweiState priv serverKey clientPub validator))
  else throw (ErrAuthFailed (PassSaltLength (length saltBody))).

(** [func (s *Session) handshake(username, password string, cols, rows
    uint16) error]; [rand] is what [rand.Reader] gives [keygen]. *)
Definition handshake (fuel : nat) (rand : option bytes) (username password : bytes) (cols rows : Z)
    : M unit :=
  map_err (ErrIn SendSessionStart) sendSessionStart ;;
  '(priv, clientPub) ← map_err (ErrIn Keygen) (lift ErrEC (keygen fuel newMtweiState rand None));
  '(payloadBuf, n) ← map_err (ErrIn BuildAuthInit)
     (lift ErrCodec (buildAuthInit (make (maxPacket - headerLen)) username clientPub));
  map_err (ErrIn AuthInit) (sendDataAndWaitAck (take n payloadBuf)) ;;
  saltCp ← map_err (ErrIn AwaitPassSalt) (awaitControl cpTypePassSalt);
  response ← auth_response fuel username password priv clientPub (cbody saltCp);
  '(payloadBuf, n) ← map_err (ErrIn BuildAuthFinish)
     (lift ErrCodec (buildAuthFinish payloadBuf response username defaultTermType cols rows));
  map_err (ErrIn AuthFinish) (sendDataAndWaitAck (take n payloadBuf)) ;;
  map_err (fun e => match e with ErrCtx c => ErrAuthFailed (NoEndAuth c) | e => e end)
    (awaitControl cpTypeEndAuth) ;;
  modify (on_sess (set_terminalMode true)).
End Operations.

(** [func (s *Session) Close() error].  A call that loses the swap returns
    at once.  The one that wins it goes on by the steps [SCloser] of its
    schedule (nobody else takes them), between which the other goroutines
    run, and returns once it has made all its calls and the receive goroutine
    has closed [done]. *)
Definition close_returns (w : world) : bool :=
  match closer w, rx w with CloseShut [], RxExited => true | _, _ => false end.
Fixpoint wait_done (evs : list event) (w : world) : res unit * list event * world :=
  if close_returns w then (Ret tt, evs, w)
  else
    match evs with
    | [] => (Blk, [], w)
    | Other s :: evs =>
        let w := interfere s w in
        if crashed w then (Pan, evs, w) else wait_done evs w
    | _ :: evs => wait_done evs w
    end.
Definition Session_Close : M unit := fun evs w =>
  if closed (sess w) then (Ret tt, evs, w) else wait_done evs (Close w).

(** ** Open *)

(** What the operating system answers while a session is opened: the
    interface by name (its index and hardware address), the process's
    descriptors and the errors of the socket calls, the random bytes. *)
Record system := mkSystem {
  InterfaceByName : bytes -> option (Z * bytes);
  sys_kernel : kernel;
  rand_key : option bytes;
  rand_ec : option bytes;
  sendto : list (option Z);
}.

Inductive open_error :=
| ErrMAC (e : mac_error)
| ErrNameRequired
| ErrInterface
| ErrNoHardwareAddr
| ErrSocket (e : socket_error)
| ErrRand
| ErrHandshake (e : op_error).

Definition resolveInterface (sys : system) (name : bytes) : outcome open_error (Z * bytes) :=
  match name with
  | [] => Fail ErrNameRequired
  | _ =>
      match InterfaceByName sys name with
      | None => Fail ErrInterface
      | Some (ifindex, hw) =>
          if decide (length hw <> 6%nat) then Fail ErrNoHardwareAddr else Val (ifindex, hw)
      end
  end.

(** The descriptors of a session's two sockets: whichever of [Close] and
    [fail] won the swap closes [conn], then the sender.  What the rest of the
    process does with its own descriptors meanwhile is left out. *)
Definition release (w : world) (conn : rxConn) (k : kernel) : kernel :=
  let k := if connClosed (sess w) then (rxConn_Close conn k).2 else k in
  if senderClosed (sess w) then (rawSender_Close (sender (sess w)) k).2 else k.

(** What is left of a session: nothing, the descriptors being what they are;
    or its goroutines in [w], with the sockets as they were opened in [k]. *)
Inductive remains :=
| Nothing (k : kernel)
| Goroutines (w : world) (conn : rxConn) (k : kernel).
(** The descriptors at this moment. *)
Definition descriptors (rm : remains) : kernel :=
  match rm with Nothing k => k | Goroutines w conn k => release w conn k end.

(** How a call of [Open] ends: with a session and its receive socket, with
    an error, by a panic, or still waiting. *)
Inductive open_result :=
| Opened (w : world) (conn : rxConn) (k : kernel)
| OpenFailed (e : open_error) (rm : remains)
| OpenPanic
| OpenBlocked.

Definition Open (sch : schedules) (fuel : nat) (sys : system)
    (iface mac username password : bytes) (cols rows vlanID : Z) (evs : list event) : open_result :=
  let k := sys_kernel sys in
  match parseMAC mac with
  | Panic => OpenPanic
  | Fail e => OpenFailed (ErrMAC e) (Nothing k)
  | Val dst =>
      match resolveInterface sys iface with
      | Panic => OpenPanic
      | Fail e => OpenFailed e (Nothing k)
      | Val (ifindex, hw) =>
          match openSockets ifindex hw vlanID k with
          | (inl e, k) => OpenFailed (ErrSocket e) (Nothing k)
          | (inr (conn, snd), k) =>
              match rand_key sys with
              | None => OpenFailed ErrRand (Nothing (rawSender_Close snd (rxConn_Close conn k).2).2)
              | Some sk =>
                  match new_session snd hw dst sk with
                  | Val s =>
                      let w := mkWorld s RxTop CloseIdle KaOff (sendto sys) [] [] false in
                      match handshake sch fuel (rand_ec sys) username password cols rows evs w with
                      | (Ret _, _, w) => Opened (keepalive_start w) conn k
                      | (Err e, evs, w) =>
                          match Session_Close evs w with
                          | (Ret _, _, w) => OpenFailed (ErrHandshake e) (Goroutines w conn k)
                          | (Pan, _, _) => OpenPanic
                          | _ => OpenBlocked
                          end
                      | (Pan, _, _) => OpenPanic
                      | (Blk, _, _) => OpenBlocked
                      end
                  | _ => OpenPanic
                  end
              end
          end
      end
  end.

(** ** What the other goroutines leave alone *)

(** The datagrams the caller has handed to the kernel. *)
Definition driver_sent (w : world) : list bytes :=
  (sent w) ≫= fun p => if decide (p.1 = ByDriver) then [p.2] else [].

Lemma driver_sent_app w w' who payload :
  sent w' = sent w ++ [(who, payload)] ->
  driver_sent w' = driver_sent w ++ (if decide (who = ByDriver) then [payload] else []).
Proof.
  intros H. unfold driver_sent. rewrite H. rewrite bind_app. cbn. by rewrite app_nil_r.
Qed.

Record same_caller (w w' : world) : Prop := {
  sc_sent : driver_sent w' = driver_sent w;
  sc_src : srcMAC (sess w') = srcMAC (sess w);
  sc_dst : dstMAC (sess w') = dstMAC (sess w);
  sc_key : sessionKey (sess w') = sessionKey (sess w);
  sc_out : out (ctrs (sess w')) = out (ctrs (sess w));
  sc_mode : terminalMode (sess w') = terminalMode (sess w);
}.

#[export] Instance same_caller_preorder : PreOrder same_caller.
Proof.
  split; [by intros w; split|]. intros x y z [] []. split; congruence.
Qed.

(** The peer acknowledged counter [c] during [evs]. *)
Definition peer_acked (evs : list event) (key c : Z) : Prop :=
  exists buf h payload, Other (SRead (ReadOk buf)) ∈ evs
    /\ decodeHeader buf dirToClient = Val (h, payload)
    /\ PType h = pTypeAck /\ SessionKey h = key /\ Counter h = c.

Lemma peer_acked_mono evs evs' key c :
  (forall e, e ∈ evs -> e ∈ evs') -> peer_acked evs key c -> peer_acked evs' key c.
Proof. intros Hin (b & h & p & Hb & ?). exists b, h, p. auto. Qed.

Lemma acceptIncoming_out c seq : out (fst (acceptIncoming c seq)) = out c.
Proof.
  unfold acceptIncoming. destruct (negb (inSeen c)); [done|].
  destruct (in_ c <? seq); [done|]. by destruct (65535 <? u32 (in_ c - seq)).
Qed.

(** What a step of another goroutine can do to the caller's side. *)
Definition caller_step (s : step) (w w' : world) : Prop :=
  same_caller w w'
  /\ (ackCh (sess w') = ackCh (sess w)
      \/ exists c, ackCh (sess w') = ackCh (sess w) ++ [c]
                   /\ peer_acked [Other s] (sessionKey (sess w)) c).

Lemma caller_frame s w w' :
  sent w' = sent w -> srcMAC (sess w') = srcMAC (sess w) -> dstMAC (sess w') = dstMAC (sess w) ->
  sessionKey (sess w') = sessionKey (sess w) -> out (ctrs (sess w')) = out (ctrs (sess w)) ->
  terminalMode (sess w') = terminalMode (sess w) -> ackCh (sess w') = ackCh (sess w) ->
  caller_step s w w'.
Proof.
  intros Hs. intros. split; [|by left]. split; try done. unfold driver_sent. by rewrite Hs.
Qed.

Lemma caller_send s w w' who payload :
  who <> ByDriver -> sent w' = sent w ++ [(who, payload)] ->
  srcMAC (sess w') = srcMAC (sess w) -> dstMAC (sess w') = dstMAC (sess w) ->
  sessionKey (sess w') = sessionKey (sess w) -> out (ctrs (sess w')) = out (ctrs (sess w)) ->
  terminalMode (sess w') = terminalMode (sess w) -> ackCh (sess w') = ackCh (sess w) ->
  caller_step s w w'.
Proof.
  intros Hw Hs. intros. split; [|by left]. split; try done.
  rewrite (driver_sent_app w w' who payload Hs), decide_False by done. apply app_nil_r.
Qed.

Lemma shut_one_caller s a w w' : sess w' = shut_one a (sess w) -> sent w' = sent w -> caller_step s w w'.
Proof.
  intros Hs Hse. destruct (shut_one_fields a (sess w)) as (_ & E1 & E2 & _ & E3 & E4 & _ & E5 & E6).
  apply caller_frame; rewrite ?Hs, ?E1, ?E2, ?E3, ?E4, ?E5, ?E6; done.
Qed.
Lemma fail_caller s w : caller_step s w (fail w).
Proof.
  unfold fail, on_sess, set_errVal.
  destruct (rx w) as [| | | | |e| |[|a l]| | |]; try (by apply caller_frame).
  - destruct (errVal (sess w)); by apply caller_frame.
  - destruct (closed (sess w)); by apply caller_frame.
  - by eapply shut_one_caller.
Qed.

Lemma rx_datagram_caller buf w :
  world_ok w -> rx w = RxReading -> caller_step (SRead (ReadOk buf)) w (rx_datagram buf w).
Proof.
  intros Hw Hrx. unfold rx_datagram.
  destruct (Nat.ltb_spec (length buf) headerLen) as [|Hlen]; [by apply caller_frame|].
  destruct (decodeHeader_total buf dirToClient Hlen) as (h & Hdec & _). rewrite Hdec.
  case_decide as Hk; [by apply caller_frame|]. case_decide as Hack.
  - unfold on_sess. destruct (length (ackCh (sess w)) <? ackCh_cap)%nat; [|by apply caller_frame].
    split; [by split|right]. exists (Counter h). split; [done|].
    exists buf, h, (drop headerLen buf). split_and!; try done; try apply list_elem_of_here.
  - case_decide; [|case_decide; by apply caller_frame].
    unfold processInboundData. cbv zeta.
    destruct (transmit_header_val ByRx (session_header (sess w) pTypeAck
      (ackCounterFor (Counter h) (u32 (Z.of_nat (length (drop headerLen buf)))))) w)
      as (snd0 & k & r & -> & _); [done|apply Hw..|].
    cbn [sess]. change (ctrs (set_sender snd0 (sess w))) with (ctrs (sess w)).
    pose proof (acceptIncoming_out (ctrs (sess w)) (Counter h)) as Ho.
    destruct (acceptIncoming (ctrs (sess w)) (Counter h)) as [c []]; cbn in Ho;
      by eapply (caller_send _ _ _ ByRx).
Qed.

Lemma rx_step_caller w : world_ok w -> caller_step SRx w (rx_step w).
Proof.
  intros Hw. unfold rx_step.
  destruct (rx w) as [| |payload|chunk payload|cp payload|e| |l| | |];
    try (by apply caller_frame); try apply fail_caller.
  - destruct (ctx (sess w)); by apply caller_frame.
  - unfold rx_walk. destruct payload as [|b payload]; [by apply caller_frame|].
    destruct (control_step_total (b :: payload)) as (rec & rest & -> & _); [done|].
    case_decide; [destruct (terminalMode (sess w))|]; by apply caller_frame.
  - destruct (pipeClosed (sess w)); by apply caller_frame.
  - destruct (length (controlCh (sess w)) <? controlCh_cap)%nat; by apply caller_frame.
Qed.

Lemma interfere_caller s w : world_ok w -> world_ok (interfere s w) /\ caller_step s w (interfere s w).
Proof.
  intros Hw. unfold interfere. destruct (by_others s) eqn:Ho; [|by split; [|apply caller_frame]].
  split; [by apply apply_step_ok|]. unfold apply_step. rewrite (wo_crashed w Hw).
  destruct s as [r| | |n| | | | |e| |plen|p| | | |]; try discriminate Ho.
  - destruct (rx w) eqn:Hrx; try by apply caller_frame. destruct r as [buf|[]]; cbn [rx_read];
      try (by apply caller_frame). by apply rx_datagram_caller.
  - by apply rx_step_caller.
  - unfold rx_give_up. destruct (rx w), (ctx (sess w)); by apply caller_frame.
  - unfold Session_Read. destruct (rx w); try by apply caller_frame.
    destruct (pipeClosed (sess w)); by apply caller_frame.
  - unfold keepalive_tick. destruct (ka w); try by apply caller_frame.
    { destruct (closed (sess w)); by apply caller_frame. }
    destruct (transmit_header_val ByKeepalive (session_header (sess w) pTypeAck (out (ctrs (sess w)))) w)
      as (snd0 & k & r & -> & _); [done|apply Hw..|]. by eapply (caller_send _ _ _ ByKeepalive).
  - unfold keepalive_done. destruct (ka w), (ctx (sess w)); by apply caller_frame.
  - unfold Close. destruct (closed (sess w)); by apply caller_frame.
  - destruct (closer w) as [| |[|a l]] eqn:Hc; try (unfold Close_next; rewrite Hc; by apply caller_frame).
    + destruct (Close_next_end w Hw Hc) as (snd0 & k & -> & _). by eapply (caller_send _ _ _ ByClose).
    + unfold Close_next. rewrite Hc. by eapply shut_one_caller.
  - unfold cancel_with, on_sess. destruct (ctx (sess w)); by apply caller_frame.
Qed.

(** The interleavings left out, between two actions of the caller that do
    not block, are no loss.  The one that reaches the caller's own channel is
    an acknowledgement read between the drain and the first transmission: it
    leaves what it leaves when it is read right after that. *)
Section LateAck.
Context (buf : bytes) (h : header) (rest : bytes).
Context (Hdec : decodeHeader buf dirToClient = Val (h, rest)) (Hack : PType h = pTypeAck).

Lemma ack_step w : crashed w = false ->
  apply_step (SRead (ReadOk buf)) w =
    match rx w with
    | RxReading => set_rx RxTop (if decide (SessionKey h <> sessionKey (sess w)) then w else on_sess (fun s =>
        if (length (ackCh s) <? ackCh_cap)%nat then set_ackCh (ackCh s ++ [Counter h]) s else s) w)
    | _ => w
    end.
Proof.
  intros Hc. unfold apply_step. rewrite Hc. destruct (rx w); try done.
  cbn [rx_read]. unfold rx_datagram.
  assert ((length buf <? headerLen)%nat = false) as ->.
  { unfold decodeHeader in Hdec. case_decide; [done|]. apply Nat.ltb_ge. lia. }
  rewrite Hdec. case_decide; [done|]. by rewrite decide_True.
Qed.

Lemma ack_reserve plen w : crashed w = false ->
  apply_step (SReserve plen) (apply_step (SRead (ReadOk buf)) w)
  = apply_step (SRead (ReadOk buf)) (apply_step (SReserve plen) w).
Proof.
  intros Hc. rewrite !ack_step by (done || (unfold apply_step; by rewrite Hc)).
  unfold apply_step, on_sess, set_rx. rewrite Hc. destruct w as [s r ? ? ? ? ? []]; [done|].
  destruct r; try done. cbn -[Nat.ltb]. case_decide; cbn -[Nat.ltb]; [done|].
  by destruct (length (ackCh s) <? ackCh_cap)%nat.
Qed.

Lemma ack_send pkt w : crashed w = false ->
  crashed (apply_step (SSend pkt) w) = false ->
  apply_step (SSend pkt) (apply_step (SRead (ReadOk buf)) w)
  = apply_step (SRead (ReadOk buf)) (apply_step (SSend pkt) w).
Proof.
  intros Hc Hs. rewrite !ack_step by done. revert Hs.
  unfold apply_step, on_sess, set_rx. rewrite Hc. destruct w as [s r ? ? kn ? ? []]; [done|].
  assert (forall l, sender (set_ackCh l s) = sender s /\ dstMAC (set_ackCh l s) = dstMAC s) as Hl by done.
  unfold transmit. cbn -[Send Nat.ltb]. destruct kn as [|e kn]; cbn -[Send Nat.ltb];
    destruct (Send (sender s) pkt (dstMAC s) _) as [[[[snd f] addr] o]| |] eqn:E;
    cbn -[Send Nat.ltb]; try done; intros _; (destruct r; cbn -[Send Nat.ltb]; rewrite ?E; try done);
    (case_decide as Hk; cbn -[Send Nat.ltb]; [by rewrite E|]);
    destruct (length (ackCh s) <? ackCh_cap)%nat; cbn -[Send Nat.ltb]; rewrite E; done.
Qed.

Lemma late_ack_commutes plen pkt w :
  let ack := SRead (ReadOk buf) in
  let after := run_steps [SDrain; SReserve plen; SSend pkt; ack] w in
  crashed (run_steps [SDrain; SReserve plen; SSend pkt] w) = false ->
  run_steps [SDrain; ack; SReserve plen; SSend pkt] w = after
  /\ run_steps [SDrain; SReserve plen; ack; SSend pkt] w = after.
Proof.
  cbv zeta. unfold run_steps. cbn [foldl]. set (w1 := apply_step SDrain w). intros Hs.
  assert (forall s w, crashed (apply_step s w) = false -> crashed w = false) as Hback.
  { intros s0 w0. unfold apply_step. by destruct (crashed w0) eqn:E; rewrite ?E. }
  pose proof (Hback _ _ Hs) as H2. pose proof (Hback _ _ H2) as H1.
  rewrite ack_reserve by done. split; by apply ack_send.
Qed.
End LateAck.

(** ** Waiting, retransmitting *)

Fixpoint timers (evs : list event) : nat :=
  match evs with
  | [] => 0
  | Timer :: evs => S (timers evs)
  | _ :: evs => timers evs
  end.
Lemma timers_app l k : timers (l ++ k) = (timers l + timers k)%nat.
Proof. induction l as [|[] l IH]; cbn; lia. Qed.

(** An acknowledgement in the channel at the end was there before, or
    arrived meanwhile. *)
Definition acks_from (used : list event) (w w' : world) : Prop :=
  forall c, c ∈ ackCh (sess w') -> c ∈ ackCh (sess w) \/ peer_acked used (sessionKey (sess w)) c.

(** The part of [wait_ack]'s specification every event keeps. *)
Definition wait_post (want : Z) (evs : list event) (w : world) (o : res unit * list event * world) : Prop :=
  let '(r, evs', w') := o in
  exists used, evs = used ++ evs' /\ world_ok w' /\ same_caller w w' /\ acks_from used w w'
    /\ match r with
       | Ret _ => want ∈ ackCh (sess w) \/ peer_acked used (sessionKey (sess w)) want
       | Err errAckTimeout => timers used = 1%nat
       | Err (ErrCtx e) => ctx (sess w') = Some e
       | Err _ | Pan => False
       | Blk => evs' = [] /\ timers used = 0%nat
       end.

Lemma wait_post_step want e evs w w1 o :
  (e = Timer -> False) -> world_ok w1 -> same_caller w w1 ->
  (forall c, c ∈ ackCh (sess w1) -> c ∈ ackCh (sess w) \/ peer_acked [e] (sessionKey (sess w)) c) ->
  wait_post want evs w1 o -> wait_post want (e :: evs) w o.
Proof.
  intros Ht Hw1 Hsame Hacks. destruct o as [[r evs'] w']. intros (used & -> & Hw' & Hsame' & Hacks' & Hr).
  assert (forall c, peer_acked used (sessionKey (sess w1)) c ->
            peer_acked (e :: used) (sessionKey (sess w)) c) as Hlift.
  { intros c. rewrite (sc_key _ _ Hsame). apply peer_acked_mono. intros x. by right. }
  assert (forall c, peer_acked [e] (sessionKey (sess w)) c ->
            peer_acked (e :: used) (sessionKey (sess w)) c) as Hfst.
  { intros c. apply peer_acked_mono. intros x Hx%list_elem_of_singleton. subst. by left. }
  assert (timers (e :: used) = timers used) as Htim by (destruct e; try done; by destruct Ht).
  exists (e :: used). split_and!; [done|done|by transitivity w1| |].
  - intros c Hc. destruct (Hacks' c Hc) as [H|H]; [|by right; apply Hlift].
    destruct (Hacks c H); [by left|right; by apply Hfst].
  - destruct r as [[]|err| |]; try done.
    + destruct Hr as [H|H]; [|by right; apply Hlift].
      destruct (Hacks want H); [by left|right; by apply Hfst].
    + destruct err; try done. by rewrite Htim.
    + by rewrite Htim.
Qed.

Lemma wait_ack_spec want : forall evs w, world_ok w -> wait_post want evs w (wait_ack want evs w).
Proof.
  induction evs as [|e evs IH]; intros w Hw; cbn [wait_ack].
  { exists []. split_and!; try done. by left. }
  assert (forall o, e <> Timer -> wait_post want evs w o -> wait_post want (e :: evs) w o) as Hskip.
  { intros o He. apply wait_post_step; try done. by left. }
  destruct e as [s| | | | |].
  - destruct (interfere_caller s w Hw) as [Hw1 [Hsame Hacks]]. cbv zeta. rewrite (wo_crashed _ Hw1).
    eapply wait_post_step; [done|exact Hw1|exact Hsame| |by apply IH].
    intros c Hc. destruct Hacks as [E|(c' & E & Hp)]; rewrite E in Hc; [by left|].
    apply elem_of_app in Hc as [|Hc%list_elem_of_singleton]; [by left|right; by subst].
  - unfold take_ack. destruct (ackCh (sess w)) as [|got l] eqn:Ha; [by apply Hskip; [|apply IH]|].
    assert (world_ok (on_sess (set_ackCh l) w)) as Hw1.
    { world_tac. rewrite Ha in *. cbn in *. lia. }
    assert (forall c, c ∈ l -> c ∈ ackCh (sess w)) as Hin by (intros c Hc; rewrite Ha; by right).
    destruct (Z.eqb_spec got want) as [->|].
    + exists [TakeAck]. split_and!; try done.
      * intros c Hc. left. by apply Hin.
      * left. rewrite Ha. by left.
    + eapply wait_post_step; [done|exact Hw1|done| |by apply IH]. intros c Hc. left. by apply Hin.
  - by apply Hskip; [|apply IH].
  - exists [Timer]. split_and!; try done. by left.
  - destruct (ctx (sess w)) eqn:Hc; [|by apply Hskip; [|apply IH]].
    exists [CtxDone]. split_and!; try done. by left.
  - by apply Hskip; [|apply IH].
Qed.

Lemma send_spec pkt evs w :
  world_ok w ->
  exists r w', send pkt evs w = (r, evs, w') /\ world_ok w'
    /\ driver_sent w' = driver_sent w ++ [pkt]
    /\ srcMAC (sess w') = srcMAC (sess w) /\ dstMAC (sess w') = dstMAC (sess w)
    /\ sessionKey (sess w') = sessionKey (sess w) /\ ctrs (sess w') = ctrs (sess w)
    /\ terminalMode (sess w') = terminalMode (sess w) /\ ackCh (sess w') = ackCh (sess w)
    /\ (r = Ret tt \/ exists e, r = Err (ErrSend e)).
Proof.
  intros Hw. unfold send. destruct (transmit_val ByDriver pkt w Hw) as (snd0 & k & r & -> & Hs).
  set (w' := mkWorld _ _ _ _ _ _ _ _).
  assert (crashed w' = false) as -> by apply (wo_crashed w Hw).
  assert (world_ok w') as Hw' by (subst w'; world_tac).
  assert (driver_sent w' = driver_sent w ++ [pkt]) as Hd by by apply (driver_sent_app w w' ByDriver).
  destruct r as [e|]; eexists _, w'; split_and!; try done; eauto.
Qed.

(** The retransmission loop, from a state in which the packet has been sent
    once. *)
Definition retransmit_post (pkt : bytes) (want : Z) (n : nat) (evs : list event) (w : world)
    (o : res unit * list event * world) : Prop :=
  let '(r, evs', w') := o in
  exists used k, evs = used ++ evs' /\ world_ok w'
    /\ driver_sent w' = driver_sent w ++ replicate k pkt /\ (k <= n)%nat
    /\ srcMAC (sess w') = srcMAC (sess w) /\ dstMAC (sess w') = dstMAC (sess w)
    /\ sessionKey (sess w') = sessionKey (sess w)
    /\ out (ctrs (sess w')) = out (ctrs (sess w)) /\ terminalMode (sess w') = terminalMode (sess w)
    /\ match r with
       | Ret _ => want ∈ ackCh (sess w) \/ peer_acked used (sessionKey (sess w)) want
       | Err ErrRetransmitExhausted => k = n /\ timers used = n
       | Err (ErrSend _) => (0 < k)%nat
       | Err (ErrCtx e) => ctx (sess w') = Some e
       | Err _ | Pan => False
       | Blk => evs' = [] /\ (timers used < n)%nat
       end.

Lemma attempts_spec pkt want : forall schedule evs w,
  world_ok w -> retransmit_post pkt want (length schedule) evs w (attempts pkt want schedule evs w).
Proof.
  induction schedule as [|d schedule IH]; intros evs w Hw; cbn [attempts].
  { exists [], 0%nat. cbn. rewrite app_nil_r. split_and!; (done || lia). }
  pose proof (wait_ack_spec want evs w Hw) as Hwait. unfold waitForAck.
  destruct (wait_ack want evs w) as [[r evs1] w1].
  destruct Hwait as (used & -> & Hw1 & [Hd Hs Hdm Hk Ho Hm] & Hacks & Hr).
  assert (forall o, (match o with
      | Ret _ => want ∈ ackCh (sess w) \/ peer_acked used (sessionKey (sess w)) want
      | Err (ErrCtx e) => ctx (sess w1) = Some e
      | Blk => evs1 = [] /\ (timers used < S (length schedule))%nat
      | _ => False end) -> retransmit_post pkt want (length (d :: schedule)) (used ++ evs1) w (o, evs1, w1))
    as Hdone.
  { intros o Hmatch. exists used, 0%nat. cbn [replicate]. rewrite app_nil_r, Hd.
    split_and!; try (done || lia). destruct o as [|[]| |]; done. }
  destruct r as [[]|err| |]; [by apply Hdone| |done|].
  2: { destruct Hr as [-> Ht]. apply Hdone. split; [done|lia]. }
  destruct err; try done; [|by apply Hdone].
  destruct (send_spec pkt evs1 w1 Hw1) as (r2 & w2 & Hsend & Hw2 & Hd2 & Hs2 & Hdm2 & Hk2 & Hc2 & Hm2 & Ha2 & Hr2).
  unfold mbind, M_bind, bind. rewrite Hsend. destruct Hr2 as [->|[e ->]].
  2: { exists used, 1%nat. rewrite Hd2, Hd, Hs2, Hdm2, Hk2, Hc2, Hm2. cbn [replicate length].
       split_and!; (done || lia). }
  specialize (IH evs1 w2 Hw2). destruct (attempts pkt want schedule evs1 w2) as [[r3 evs3] w3].
  destruct IH as (used3 & k & -> & Hw3 & Hd3 & Hk3 & Hs3 & Hdm3 & Hkey3 & Ho3 & Hm3 & Hr3).
  exists (used ++ used3), (S k).
  rewrite Hd3, Hd2, Hd, Hs3, Hs2, Hdm3, Hdm2, Hkey3, Hk2, Ho3, Hc2, Hm3, Hm2, timers_app.
  split_and!; try done; [by rewrite app_assoc|by rewrite <- !app_assoc|cbn; lia|].
  destruct r3 as [[]|err| |]; try done.
  - destruct Hr3 as [Hin|Hp].
    + rewrite Ha2 in Hin. destruct (Hacks want Hin) as [|Hp]; [by left|right].
      revert Hp. apply peer_acked_mono. intros x Hx. apply elem_of_app. by left.
    + right. rewrite Hk2, Hk in Hp. revert Hp. apply peer_acked_mono.
      intros x Hx. apply elem_of_app. by right.
  - destruct err; try done.
    + destruct Hr3 as [-> Ht]. cbn [length]. split; lia.
    + lia.
  - destruct Hr3 as [-> Ht]. cbn [length]. split; [done|lia].
Qed.

(** ** DATA with acknowledgement *)

Lemma header_layout_len h dir :
  length (SrcAddr h) = 6%nat -> length (DstAddr h) = 6%nat -> length (header_layout h dir) = headerLen.
Proof.
  intros Hs Hd. unfold header_layout. destruct dir; rewrite !length_app, Hs, Hd; reflexivity.
Qed.

Lemma data_packet_val w seq payload :
  world_ok w ->
  data_packet (sess w) seq payload
  = Val (header_layout (session_header (sess w) pTypeData seq) dirToServer ++ payload).
Proof.
  intros Hw. unfold data_packet.
  assert (length (SrcAddr (session_header (sess w) pTypeData seq)) = 6%nat) as Hs by apply Hw.
  assert (length (DstAddr (session_header (sess w) pTypeData seq)) = 6%nat) as Hd by apply Hw.
  rewrite encode_val by (done || (unfold make; rewrite length_replicate; lia)).
  rewrite bind_val. unfold make. rewrite drop_replicate.
  replace (headerLen + length payload - headerLen)%nat with (length payload) by lia.
  pose proof (header_layout_len _ dirToServer Hs Hd) as Hl.
  rewrite copy_at_val by (rewrite !length_app, Hl, length_replicate; lia).
  rewrite take_app_length' by done. rewrite drop_ge, app_nil_r by lia. done.
Qed.

(** The schedule a state selects. *)
Definition active_schedule (sch : schedules) (w : world) : list Z :=
  if terminalMode (sess w) then dataSchedule sch else authSchedule sch.

(** The next DATA datagram of a state, and the acknowledgement it needs. *)
Definition next_packet (w : world) (payload : bytes) : bytes :=
  header_layout (session_header (sess w) pTypeData (out (ctrs (sess w)))) dirToServer ++ payload.
Definition next_ack (w : world) (payload : bytes) : Z :=
  ackCounterFor (out (ctrs (sess w))) (u32 (Z.of_nat (length payload))).

Definition send_wait_post (sch : schedules) (payload : bytes) (evs : list event) (w : world)
    (o : res unit * list event * world) : Prop :=
  let '(r, evs', w') := o in
  exists used k, evs = used ++ evs' /\ world_ok w'
    /\ driver_sent w' = driver_sent w ++ replicate (S k) (next_packet w payload)
    /\ (k <= length (active_schedule sch w))%nat
    /\ srcMAC (sess w') = srcMAC (sess w) /\ dstMAC (sess w') = dstMAC (sess w)
    /\ sessionKey (sess w') = sessionKey (sess w)
    /\ out (ctrs (sess w')) = next_ack w payload
    /\ terminalMode (sess w') = terminalMode (sess w)
    /\ match r with
       | Ret _ => peer_acked used (sessionKey (sess w)) (next_ack w payload)
       | Err ErrRetransmitExhausted =>
           k = length (active_schedule sch w) /\ timers used = length (active_schedule sch w)
       | Err (ErrSend _) => True
       | Err (ErrCtx e) => ctx (sess w') = Some e
       | Err _ | Pan => False
       | Blk => evs' = [] /\ (timers used < length (active_schedule sch w))%nat
       end.

(** The first transmission. *)
Definition first_post (sch : schedules) (payload : bytes) (evs : list event) (w : world)
    (o : res (bytes * Z * list Z) * list event * world) : Prop :=
  let '(r, evs', w') := o in
  evs' = evs /\ world_ok w' /\ driver_sent w' = driver_sent w ++ [next_packet w payload]
  /\ srcMAC (sess w') = srcMAC (sess w) /\ dstMAC (sess w') = dstMAC (sess w)
  /\ sessionKey (sess w') = sessionKey (sess w)
  /\ out (ctrs (sess w')) = next_ack w payload
  /\ terminalMode (sess w') = terminalMode (sess w) /\ ackCh (sess w') = []
  /\ (r = Ret (next_packet w payload, next_ack w payload, active_schedule sch w)
      \/ exists e, r = Err (ErrSend e)).

Lemma send_first_run sch payload evs w :
  world_ok w -> first_post sch payload evs w (send_first sch payload evs w).
Proof.
  intros Hw. unfold send_first, mbind, M_bind, bind, modify, reserveM, get, lift.
  cbn [drain_acks reserve reserveOut fst snd on_sess set_ackCh set_ctrs sess ctrs].
  unfold reserve. cbn [drain_acks on_sess set_ackCh sess ctrs reserveOut].
  set (c := mkCounters _ _ _). set (w1 := on_sess (set_ctrs c) _).
  assert (world_ok w1) as Hw1.
  { subst w1. unfold on_sess, set_ctrs, set_ackCh. world_tac. }
  rewrite (data_packet_val w1) by done. cbv beta iota.
  destruct (send_spec (header_layout (session_header (sess w1) pTypeData (out (ctrs (sess w)))) dirToServer
              ++ payload) evs w1 Hw1) as (r2 & w2 & Hsend & Hw2 & Hd2 & Hs2 & Hdm2 & Hk2 & Hc2 & Hm2 & Ha2 & Hr2).
  unfold ret at 1. rewrite Hsend.
  change (header_layout (session_header (sess w1) pTypeData (out (ctrs (sess w)))) dirToServer ++ payload)
    with (next_packet w payload) in *.
  change (driver_sent w1) with (driver_sent w) in Hd2.
  change (ackCh (sess w1)) with (@nil Z) in Ha2.
  assert (out (ctrs (sess w2)) = next_ack w payload) as Hout by (by rewrite Hc2).
  unfold first_post. destruct Hr2 as [->|[e ->]]; cbn [ret];
    rewrite Hd2, Hs2, Hdm2, Hk2, Hout, Hm2, Ha2; (split_and!; [done..|]); [by left|by right; eexists].
Qed.

Lemma send_wait_run sch payload evs w :
  world_ok w -> send_wait_post sch payload evs w (sendDataAndWaitAck sch payload evs w).
Proof.
  intros Hw. unfold sendDataAndWaitAck, mbind, M_bind, bind.
  pose proof (send_first_run sch payload evs w Hw) as H1.
  destruct (send_first sch payload evs w) as [[r1 evs1] w2].
  destruct H1 as (-> & Hw2 & Hd2 & Hs2 & Hdm2 & Hk2 & Hout & Hm2 & Ha2 & [->|[e ->]]).
  2: { exists [], 0%nat. rewrite Hd2, Hs2, Hdm2, Hk2, Hout, Hm2. split_and!; (done || lia). }
  pose proof (attempts_spec (next_packet w payload) (next_ack w payload) (active_schedule sch w) evs w2 Hw2) as Hat.
  destruct (attempts _ _ _ evs w2) as [[r evs'] w'].
  destruct Hat as (used & k & -> & Hw' & Hd & Hk & Hs & Hdm & Hkey & Ho & Hm & Hr).
  exists used, k. rewrite Hd, Hd2, Hs, Hs2, Hdm, Hdm2, Hkey, Hk2, Ho, Hout, Hm, Hm2, <- app_assoc.
  split_and!; try done. destruct r as [[]|err| |]; try done.
  - destruct Hr as [Hin|Hp]; [|by rewrite Hk2 in Hp]. rewrite Ha2 in Hin. by apply not_elem_of_nil in Hin.
  - by destruct err.
Qed.

(** Waiting for a control record. *)
Definition control_post (want : Z) (evs : list event) (w : world)
    (o : res controlPacket * list event * world) : Prop :=
  let '(r, evs', w') := o in
  exists used, evs = used ++ evs' /\ world_ok w' /\ same_caller w w'
    /\ match r with
       | Ret cp => cpt cp = want
       | Err (ErrCtx e) => True
       | Err _ | Pan => False
       | Blk => evs' = []
       end.

Lemma wait_control_spec want : forall evs w,
  world_ok w -> control_post want evs w (wait_control want evs w).
Proof.
  induction evs as [|e evs IH]; intros w Hw; cbn [wait_control].
  { by exists []. }
  assert (forall w1 o, world_ok w1 -> same_caller w w1 ->
    control_post want evs w1 o -> control_post want (e :: evs) w o) as Hcons.
  { intros w1 [[r evs'] w'] Hw1 Hs (used & -> & Hw' & Hs' & Hr).
    exists (e :: used). split_and!; [done|done|by transitivity w1|done]. }
  destruct e as [s| | | | |]; try (by apply (Hcons w); [done|done|apply IH]).
  - destruct (interfere_caller s w Hw) as [Hw1 [Hsame _]]. cbv zeta. rewrite (wo_crashed _ Hw1).
    by eapply Hcons; [exact Hw1|exact Hsame|apply IH].
  - unfold take_control. destruct (controlCh (sess w)) as [|cp l] eqn:Ha.
    { by apply (Hcons w); [done|done|apply IH]. }
    assert (world_ok (on_sess (set_controlCh l) w)) as Hw1.
    { world_tac. rewrite Ha in *. cbn in *. lia. }
    destruct (Z.eqb_spec (cpt cp) want).
    + by exists [TakeControl].
    + eapply Hcons; [exact Hw1|done|by apply IH].
  - destruct (ctx (sess w)) eqn:Hc.
    + by exists [CtxDone].
    + by apply (Hcons w); [done|done|apply IH].
  - by exists [HandshakeDeadline].
Qed.

(** The builders on a big enough buffer. *)
Lemma control_take buf ct body :
  (length (control_layout ct body) <= length buf)%nat ->
  exists wire n, encodeControl buf ct body = Val (wire, n) /\ take n wire = control_layout ct body
    /\ length wire = length buf /\ n = length (control_layout ct body).
Proof.
  intros Hlen. rewrite encodeControl_val by done. do 2 eexists. split; [reflexivity|].
  split_and!; [apply take_app_length|rewrite length_app, length_drop; lia|done].
Qed.

(** [Write] and [Resize] before they wait for their turn. *)
Lemma prepare_write_run p evs w :
  if closed (sess w) then prepare_write p evs w = (Err ErrNetClosed, evs, w)
  else if decide (length p = 0)%nat then prepare_write p evs w = (Ret None, evs, w)
  else if decide (1469 < length p)%nat then prepare_write p evs w = (Err (ErrWriteTooLarge (length p)), evs, w)
  else prepare_write p evs w = (Ret (Some p), evs, w).
Proof.
  unfold prepare_write, mbind, M_bind, bind, get.
  destruct (closed (sess w)); [done|]. destruct (decide (length p = 0)%nat); [done|].
  assert ((maxPacket - headerLen < length p + cpHeaderLen)%nat <-> (1469 < length p)%nat) as Hsz
    by (unfold maxPacket, headerLen, cpHeaderLen; lia).
  destruct (decide (maxPacket - headerLen < length p + cpHeaderLen)%nat) as [Hb|Hb].
  { destruct (decide (1469 < length p)%nat); [done|tauto]. }
  destruct (decide (1469 < length p)%nat) as [|_]; [tauto|].
  destruct (control_take (make (cpHeaderLen + length p)) cpTypePlainData p) as (wire & len & -> & Htake & _ & _).
  { change (control_layout cpTypePlainData p) with p. unfold make. rewrite length_replicate. lia. }
  cbn [lift ret]. unfold ret. by rewrite Htake.
Qed.

Definition resize_record (cols rows : Z) : bytes :=
  control_layout cpTypeTermWidth (put_le16 cols) ++ control_layout cpTypeTermHeight (put_le16 rows).

Lemma prepare_resize_run cols rows evs w :
  if closed (sess w) then prepare_resize cols rows evs w = (Err ErrNetClosed, evs, w)
  else prepare_resize cols rows evs w = (Ret (resize_record cols rows), evs, w).
Proof.
  unfold prepare_resize, mbind, M_bind, bind, get. destruct (closed (sess w)); [done|].
  assert (forall ct, ct <> cpTypePlainData -> forall v, length (control_layout ct (put_le16 v)) = 11%nat) as Hlen.
  { intros ct Hct v. unfold control_layout. by rewrite decide_False. }
  destruct (control_take (make (2 * (cpHeaderLen + 2))) cpTypeTermWidth (put_le16 cols))
    as (wire & n & -> & Htake & Hl & Hn).
  { rewrite Hlen by done. vm_compute. lia. }
  cbn [lift ret]. unfold ret at 1. cbv beta iota.
  destruct (control_take (drop n wire) cpTypeTermHeight (put_le16 rows)) as (rest & m & -> & Htake2 & Hl2 & Hm).
  { rewrite Hlen, length_drop, Hl, Hn, Hlen by done. vm_compute. lia. }
  cbn [lift ret]. unfold ret. rewrite Htake, Hn, Hm. unfold resize_record. do 3 f_equal.
  rewrite take_app_add, <- Hm, Htake2. done.
Qed.

(** ** Properties *)

(** C4. Sending DATA, against any schedule of acknowledgements, timers,
    cancellations and other goroutines: the packet carries the caller's
    current counter and the payload, is transmitted one time more than the
    retransmissions made, always identically, and at most once per entry of
    the schedule besides the first; the counter moves on by the payload's
    length. Success means that the device acknowledged exactly this packet
    during the call (no stale acknowledgement counts); exhaustion means
    every interval of the schedule ran out. Unless its own timers stop
    firing it does not block: a blocked call has seen fewer timers than the
    schedule has entries. *)
Theorem sendDataAndWaitAck_reliable sch payload evs w :
  world_ok w ->
  let seq := out (ctrs (sess w)) in
  let want := u32 (seq + u32 (Z.of_nat (length payload))) in
  let schedule := if terminalMode (sess w) then dataSchedule sch else authSchedule sch in
  let pkt := header_layout (mkHeader 0 pTypeData (srcMAC (sess w)) (dstMAC (sess w))
                              (sessionKey (sess w)) seq) dirToServer ++ payload in
  let '(r, evs', w') := sendDataAndWaitAck sch payload evs w in
  exists used k, evs = used ++ evs'
    /\ driver_sent w' = driver_sent w ++ replicate (S k) pkt
    /\ (k <= length schedule)%nat /\ out (ctrs (sess w')) = want
    /\ match r with
       | Ret _ => peer_acked used (sessionKey (sess w)) want
       | Err ErrRetransmitExhausted => k = length schedule /\ timers used = length schedule
       | Err (ErrCtx e) => ctx (sess w') = Some e
       | Err (ErrSend _) => True
       | Err _ | Pan => False
       | Blk => evs' = [] /\ (timers used < length schedule)%nat
       end.
Proof.
  intros Hw. cbv zeta. pose proof (send_wait_run sch payload evs w Hw) as Hrun.
  destruct (sendDataAndWaitAck sch payload evs w) as [[r evs'] w'].
  destruct Hrun as (used & k & He & _ & Hd & Hk & _ & _ & _ & Ho & _ & Hr).
  exists used, k. split_and!; try done.
Qed.

(** A datagram of the sample session's device is read. *)
Definition from_device (ptype c : Z) (payload : bytes) : event :=
  Other (SRead (ReadOk (header_layout (mkHeader 1 ptype [2; 0; 0; 0; 0; 2] [2; 0; 0; 0; 0; 1] 0x1234 c)
                          dirToClient ++ payload))).

(** An acknowledgement of [c] for the sample session. *)
Definition sample_ack (c : Z) : event :=
  Other (SRead (ReadOk (header_layout (mkHeader 1 pTypeAck [2; 0; 0; 0; 0; 2] [2; 0; 0; 0; 0; 1] 0x1234 c)
                          dirToClient))).

Lemma sendDataAndWaitAck_reliable_witness :
  let sch := mkSchedules [Second] [Second; Second] in
  let evs := [Timer; sample_ack 42; TakeAck] in
  let seq := out (ctrs (sess sample_world)) in
  let want := u32 (seq + u32 (Z.of_nat 2)) in
  let schedule := if terminalMode (sess sample_world) then dataSchedule sch else authSchedule sch in
  let pkt := header_layout (mkHeader 0 pTypeData (srcMAC (sess sample_world)) (dstMAC (sess sample_world))
                              (sessionKey (sess sample_world)) seq) dirToServer ++ [104; 105] in
  let '(r, evs', w') := sendDataAndWaitAck sch [104; 105] evs sample_world in
  exists used k, evs = used ++ evs'
    /\ driver_sent w' = driver_sent sample_world ++ replicate (S k) pkt
    /\ (k <= length schedule)%nat /\ out (ctrs (sess w')) = want
    /\ match r with
       | Ret _ => peer_acked used (sessionKey (sess sample_world)) want
       | Err ErrRetransmitExhausted => k = length schedule /\ timers used = length schedule
       | Err (ErrCtx e) => ctx (sess w') = Some e
       | Err (ErrSend _) => True
       | Err _ | Pan => False
       | Blk => evs' = [] /\ (timers used < length schedule)%nat
       end.
Proof.
  apply (sendDataAndWaitAck_reliable (mkSchedules [Second] [Second; Second]) [104; 105]
           [Timer; sample_ack 42; TakeAck] sample_world sample_world_ok).
Defined.

(** That run ends with the acknowledgement, after one retransmission. *)
Example sample_send :
  let '(r, _, w') := sendDataAndWaitAck (mkSchedules [Second] [Second; Second]) [104; 105]
                       [Timer; sample_ack 42; TakeAck] sample_world in
  r = Ret tt /\ length (driver_sent w') = 2%nat.
Proof. vm_compute. done. Qed.

(** C19. [Write]: a closed session, an empty slice and one too large for a
    datagram are answered without touching the wire; anything else is sent
    as the whole DATA payload, byte for byte, and reported written in full
    only after the device acknowledged it. *)
Theorem Write_spec sch p evs w :
  world_ok w ->
  let '(r, evs', w') := Write sch p evs w in
  if closed (sess w) then r = Err ErrNetClosed /\ evs' = evs /\ w' = w
  else if decide (length p = 0)%nat then r = Ret 0%nat /\ evs' = evs /\ w' = w
  else if decide (1469 < length p)%nat then r = Err (ErrWriteTooLarge (length p)) /\ evs' = evs /\ w' = w
  else exists used k, evs = used ++ evs'
    /\ driver_sent w' = driver_sent w ++ replicate (S k) (next_packet w p)
    /\ out (ctrs (sess w')) = u32 (out (ctrs (sess w)) + Z.of_nat (length p))
    /\ match r with
       | Ret n => n = length p
           /\ peer_acked used (sessionKey (sess w)) (u32 (out (ctrs (sess w)) + Z.of_nat (length p)))
       | Err ErrRetransmitExhausted => k = length (active_schedule sch w)
       | Err (ErrCtx e) => ctx (sess w') = Some e
       | Err (ErrSend _) => True
       | Err _ | Pan => False
       | Blk => evs' = [] /\ (timers used < length (active_schedule sch w))%nat
       end.
Proof.
  intros Hw. unfold Write, mbind, M_bind. pose proof (prepare_write_run p evs w) as Hp.
  unfold bind at 1. destruct (closed (sess w)) eqn:Hcl; [by rewrite Hp|].
  destruct (decide (length p = 0)%nat); [by rewrite Hp|].
  destruct (decide (1469 < length p)%nat); [by rewrite Hp|]. rewrite Hp. unfold bind.
  pose proof (send_wait_run sch p evs w Hw) as Hrun.
  assert (next_ack w p = u32 (out (ctrs (sess w)) + Z.of_nat (length p))) as Hack.
  { unfold next_ack, ackCounterFor. f_equal. f_equal. apply u32_id. split; [lia|].
    unfold is_u32. change (2 ^ 32) with 4294967296. lia. }
  destruct (sendDataAndWaitAck sch p evs w) as [[r evs'] w'].
  destruct Hrun as (used & k & He & _ & Hd & Hk & _ & _ & _ & Ho & _ & Hr). rewrite Hack in *.
  destruct r as [[]|[]| |]; cbn; exists used, k; tauto.
Qed.

Lemma Write_spec_witness :
  let sch := mkSchedules [Second] [Second] in
  let p := [108; 115; 13] in
  let evs := [sample_ack 43; TakeAck] in
  let w := sample_world in
  let '(r, evs', w') := Write sch p evs w in
  if closed (sess w) then r = Err ErrNetClosed /\ evs' = evs /\ w' = w
  else if decide (length p = 0)%nat then r = Ret 0%nat /\ evs' = evs /\ w' = w
  else if decide (1469 < length p)%nat then r = Err (ErrWriteTooLarge (length p)) /\ evs' = evs /\ w' = w
  else exists used k, evs = used ++ evs'
    /\ driver_sent w' = driver_sent w ++ replicate (S k) (next_packet w p)
    /\ out (ctrs (sess w')) = u32 (out (ctrs (sess w)) + Z.of_nat (length p))
    /\ match r with
       | Ret n => n = length p
           /\ peer_acked used (sessionKey (sess w)) (u32 (out (ctrs (sess w)) + Z.of_nat (length p)))
       | Err ErrRetransmitExhausted => k = length (active_schedule sch w)
       | Err (ErrCtx e) => ctx (sess w') = Some e
       | Err (ErrSend _) => True
       | Err _ | Pan => False
       | Blk => evs' = [] /\ (timers used < length (active_schedule sch w))%nat
       end.
Proof.
  apply (Write_spec (mkSchedules [Second] [Second]) [108; 115; 13] [sample_ack 43; TakeAck]
           sample_world sample_world_ok).
Defined.
