(* ===== verification/Records.v ===== *)
(** * Where a session's control records come from

    A control record the receive loop passes on was in a DATA datagram of
    the session: a predicate that holds of the records of every such
    datagram holds of every record on its way to the channel and in it. *)

From S2P Require Import Prelude GoBytes Protocol Seq Frame Session RxLoop.

#[local] Open Scope Z_scope.

(** The records a payload holds, as control packets. *)
Definition payload_records (P : controlPacket -> Prop) (payload : bytes) : Prop :=
  forall r, r ∈ parse_controls payload -> P (mkControl (CPType r) (Body r)).

(** Every control record the session holds, in the channel or on the way
    to it, satisfies [P]. *)
Definition records_from (P : controlPacket -> Prop) (w : world) : Prop :=
  (forall cp, cp ∈ controlCh (sess w) -> P cp)
  /\ match rx w with
     | RxWalk payload | RxPipe _ payload => payload_records P payload
     | RxControl cp payload => P cp /\ payload_records P payload
     | _ => True
     end.

(** A step's datagram, if it is DATA of the session, holds such records. *)
Definition step_records (P : controlPacket -> Prop) (key : Z) (s : step) : Prop :=
  match s with
  | SRead (ReadOk buf) => forall h payload,
      decodeHeader buf dirToClient = Val (h, payload) -> PType h = pTypeData -> SessionKey h = key ->
      payload_records P payload
  | _ => True
  end.

(** ** Every step keeps them *)

Lemma records_same P w w' : controlCh (sess w') = controlCh (sess w) -> rx w' = rx w ->
  records_from P w -> records_from P w'.
Proof. unfold records_from. by intros -> ->. Qed.
Definition carries (pc : rx_pc) : Prop :=
  match pc with RxWalk _ | RxPipe _ _ | RxControl _ _ => True | _ => False end.
Lemma records_idle P w w' : controlCh (sess w') = controlCh (sess w) ->
  ~ carries (rx w') -> records_from P w -> records_from P w'.
Proof. unfold records_from. intros -> Hc [H _]. split; [done|].
  destruct (rx w'); try done; by destruct Hc. Qed.

Ltac idle_tac := eapply records_idle; [| |eassumption]; [reflexivity|cbn; auto].

Lemma fail_records P w : records_from P w -> records_from P (fail w).
Proof.
  intros Hr. unfold fail. destruct (rx w) as [| | | | |e| |[|a l]| | |]; try done; try idle_tac.
  - apply (records_idle P w); [|auto|exact Hr]. unfold set_errVal. cbn. by destruct (errVal (sess w)).
  - destruct (closed (sess w)); idle_tac.
  - apply (records_idle P w); [|auto|exact Hr]. apply (shut_one_fields a (sess w)).
Qed.

Lemma payload_records_nil P : payload_records P [].
Proof. intros r. cbn. by intros ?%elem_of_nil. Qed.

Lemma rx_datagram_records P buf w : world_ok w -> records_from P w ->
  step_records P (sessionKey (sess w)) (SRead (ReadOk buf)) -> records_from P (rx_datagram buf w).
Proof.
  intros Hw Hr Hs. unfold rx_datagram.
  destruct (Nat.ltb_spec (length buf) headerLen) as [|Hlen]; [idle_tac|].
  destruct (decodeHeader_total buf dirToClient Hlen) as (h & Hdec & _). specialize (Hs _ _ Hdec). rewrite Hdec.
  repeat case_decide; try idle_tac.
  - apply (records_idle P w); [|cbn; auto|exact Hr]. cbn. by case_match.
  - pose proof (processInboundData_val h (drop headerLen buf) w Hw) as Hp. cbv zeta in Hp.
    destruct (acceptIncoming _ _) as [c fresh]. destruct Hp as (snd0 & k & ->).
    destruct Hr as [Hr _]. split; [done|]. cbn. destruct fresh; [|done]. apply Hs; [done|].
    by destruct (decide (SessionKey h = sessionKey (sess w))); [|tauto].
Qed.

Lemma rx_step_records P w : records_from P w -> records_from P (rx_step w).
Proof.
  intros Hr. pose proof Hr as [Hc Hx]. unfold rx_step.
  destruct (rx w) as [| |payload|chunk payload|cp payload|e| |l| | |] eqn:Hrx;
    try (by apply fail_records); try done; try idle_tac.
  - destruct (ctx (sess w)); idle_tac.
  - unfold rx_walk. destruct payload as [|b payload]; [idle_tac|].
    destruct (control_step_total (b :: payload)) as (rec & rest & Hst & _); [done|]. rewrite Hst.
    unfold payload_records in Hx. rewrite (parse_controls_step (b :: payload) rec rest ltac:(done) Hst) in Hx.
    assert (payload_records P (default [] rest)) as Hrest.
    { intros r Hin. apply Hx. right. by destruct rest. }
    replace (match rest with Some p => p | None => [] end) with (default [] rest) by by destruct rest.
    case_decide; [destruct (terminalMode (sess w)); by split|].
    split; [done|]. split; [|done]. apply (Hx rec). by left.
  - destruct (pipeClosed (sess w)); [by split|done].
  - destruct (length (controlCh (sess w)) <? controlCh_cap)%nat; [|done]. destruct Hx as [Hcp Hp].
    split; [|done]. cbn. intros cp'. rewrite elem_of_app, list_elem_of_singleton. intros [?| ->]; auto.
Qed.

Lemma apply_step_records P s w : world_ok w -> records_from P w ->
  step_records P (sessionKey (sess w)) s -> records_from P (apply_step s w).
Proof.
  intros Hw Hr Hs. pose proof Hr as [Hc Hx]. unfold apply_step. rewrite (wo_crashed w Hw).
  destruct s as [r| | |n| | | | |e| |plen|p| | | |]; try done.
  - destruct (rx w) eqn:Hrx; try done. destruct r as [buf|[]]; cbn [rx_read]; try idle_tac.
    by apply rx_datagram_records.
  - by apply rx_step_records.
  - unfold rx_give_up. destruct (rx w), (ctx (sess w)); try done; idle_tac.
  - unfold Session_Read. destruct (rx w) as [| | |chunk payload| | | | | | |] eqn:Hrx; try done.
    destruct (pipeClosed (sess w)); [done|]. split; [done|]. cbn. by destruct (drop n chunk).
  - destruct (keepalive_cases w) as [[pc ->]| ->]; [by apply (records_same P w)|].
    destruct (transmit_header_parts ByKeepalive (session_header (sess w) pTypeAck (out (ctrs (sess w)))) w)
      as (Hrx & _ & _ & _ & snd0 & Hsess); [done|apply Hw..|].
    apply (records_same P w); [|exact Hrx|exact Hr]. cbn. by rewrite Hsess.
  - unfold keepalive_done. destruct (ka w), (ctx (sess w)); by apply (records_same P w).
  - unfold Close. destruct (closed (sess w)); [done|]. by apply (records_same P w).
  - destruct (closer w) as [| |[|a l]] eqn:Hcl; try (unfold Close_next; rewrite Hcl; done).
    + destruct (Close_next_end w Hw Hcl) as (snd0 & k & -> & _). by apply (records_same P w).
    + unfold Close_next. rewrite Hcl. apply (records_same P w); [|done|exact Hr]. apply (shut_one_fields a (sess w)).
  - apply (records_same P w); [|done|exact Hr]. cbn. unfold cancel_with. by destruct (ctx (sess w)).
  - destruct (transmit_val ByDriver p w Hw) as (snd0 & k & r & -> & _). by apply (records_same P w).
  - unfold take_ack. destruct (ackCh (sess w)); [done|]. by apply (records_same P w).
  - unfold take_control. destruct (controlCh (sess w)) as [|cp l] eqn:Hl; [done|]. split; [|done].
    cbn. intros cp' Hin. apply Hc. by right.
  - unfold keepalive_start. destruct (ka w); by apply (records_same P w).
Qed.
