(* ===== verification/Handshake.v ===== *)
(** * The handshake (session.go)

    The theorems on [handshake]: what a successful handshake exchanged, that
    it only acts on records the device sent, how every failure leaves the
    session, and where it can panic. *)

From S2P Require Import Prelude GoBytes MacAddr GoHash Protocol Seq BigInt Auth Mtwei Frame Receiver Session RxLoop Records SessionOps.

#[local] Open Scope Z_scope.

(** ** Reasoning about the handshake *)

Lemma bind_ret {A B} (m : M A) (k : A -> M B) evs w b evs' w' :
  bind m k evs w = (Ret b, evs', w') ->
  exists a evs1 w1, m evs w = (Ret a, evs1, w1) /\ k a evs1 w1 = (Ret b, evs', w').
Proof.
  unfold bind. destruct (m evs w) as [[[a|e| |] evs1] w1]; try done. intros H. by exists a, evs1, w1.
Qed.
Lemma map_err_ret {A} f (m : M A) evs w a evs' w' :
  map_err f m evs w = (Ret a, evs', w') -> m evs w = (Ret a, evs', w').
Proof. unfold map_err. by destruct (m evs w) as [[[] ?] ?]. Qed.
Lemma lift_ret {E A} (f : E -> op_error) (o : outcome E A) evs w a evs' w' :
  lift f o evs w = (Ret a, evs', w') -> o = Val a /\ evs' = evs /\ w' = w.
Proof. destruct o; cbn; by intros [= -> -> ->]. Qed.

(** Computations that leave [terminalMode] alone. *)
Definition keeps_mode {A} (m : M A) : Prop := forall evs w,
  world_ok w -> let '(_, _, w') := m evs w in
    world_ok w' /\ terminalMode (sess w') = terminalMode (sess w).

Lemma keeps_bind {A B} (m : M A) (k : A -> M B) :
  keeps_mode m -> (forall a, keeps_mode (k a)) -> keeps_mode (bind m k).
Proof.
  intros Hm Hk evs w Hw. unfold bind. specialize (Hm evs w Hw).
  destruct (m evs w) as [[[a|e| |] evs1] w1]; try done. destruct Hm as [Hw1 Ht].
  specialize (Hk a evs1 w1 Hw1). destruct (k a evs1 w1) as [[? ?] w2]. by rewrite <- Ht.
Qed.
Lemma keeps_map_err {A} f (m : M A) : keeps_mode m -> keeps_mode (map_err f m).
Proof.
  intros Hm evs w Hw. unfold map_err. specialize (Hm evs w Hw).
  by destruct (m evs w) as [[[] ?] ?].
Qed.
Lemma keeps_lift {E A} (f : E -> op_error) (o : outcome E A) : keeps_mode (lift f o).
Proof. intros evs w Hw. by destruct o. Qed.
Lemma keeps_ret {A} (a : A) : keeps_mode (ret a).
Proof. by intros evs w Hw. Qed.
Lemma keeps_throw {A} e : keeps_mode (@throw A e).
Proof. by intros evs w Hw. Qed.
Lemma keeps_get {A} (f : world -> A) : keeps_mode (get f).
Proof. by intros evs w Hw. Qed.
Lemma keeps_send pkt : keeps_mode (send pkt).
Proof.
  intros evs w Hw. destruct (send_spec pkt evs w Hw) as (r & w' & -> & Hw' & _ & _ & _ & _ & _ & Hm & _). done.
Qed.
Lemma keeps_send_wait sch payload : keeps_mode (sendDataAndWaitAck sch payload).
Proof.
  intros evs w Hw. pose proof (send_wait_run sch payload evs w Hw) as H.
  destruct (sendDataAndWaitAck sch payload evs w) as [[r evs'] w'].
  by destruct H as (? & ? & _ & Hw' & _ & _ & _ & _ & _ & _ & Hm & _).
Qed.
Lemma keeps_await want : keeps_mode (awaitControl want).
Proof.
  intros evs w Hw. pose proof (wait_control_spec want evs w Hw) as H. unfold awaitControl.
  destruct (wait_control want evs w) as [[r evs'] w']. destruct H as (? & _ & Hw' & [] & _). done.
Qed.
Lemma keeps_start : keeps_mode sendSessionStart.
Proof.
  apply keeps_bind; [apply keeps_get|intros s]. apply keeps_bind; [apply keeps_lift|intros [buf n]].
  apply keeps_send.
Qed.
Lemma keeps_response fuel username password priv clientPub body :
  keeps_mode (auth_response fuel username password priv clientPub body).
Proof.
  unfold auth_response. case_decide; [apply keeps_ret|]. case_decide; [|apply keeps_throw].
  apply keeps_map_err, keeps_lift.
Qed.
Create HintDb keeps discriminated.
#[export] Hint Resolve keeps_bind keeps_map_err keeps_lift keeps_ret keeps_throw keeps_get keeps_send
  keeps_send_wait keeps_await keeps_start keeps_response : keeps.

(** ... unless they succeed. *)
Definition fails_keep {A} (m : M A) : Prop := forall evs w,
  world_ok w -> let '(r, _, w') := m evs w in
    world_ok w'
    /\ match r with Ret _ => True | _ => terminalMode (sess w') = terminalMode (sess w) end.

Lemma fails_bind {A B} (m : M A) (k : A -> M B) :
  keeps_mode m -> (forall a, fails_keep (k a)) -> fails_keep (bind m k).
Proof.
  intros Hm Hk evs w Hw. unfold bind. specialize (Hm evs w Hw).
  destruct (m evs w) as [[[a|e| |] evs1] w1]; try done. destruct Hm as [Hw1 Ht].
  specialize (Hk a evs1 w1 Hw1). destruct (k a evs1 w1) as [[[] ?] w2]; by rewrite <- ?Ht.
Qed.

Lemma handshake_fails_keep sch fuel rand username password cols rows :
  fails_keep (handshake sch fuel rand username password cols rows).
Proof.
  unfold handshake.
  apply fails_bind; [eauto with keeps|intros _].
  apply fails_bind; [eauto with keeps|intros [priv pub]].
  apply fails_bind; [eauto with keeps|intros [buf n]].
  apply fails_bind; [eauto with keeps|intros _].
  apply fails_bind; [eauto with keeps|intros cp].
  apply fails_bind; [eauto with keeps|intros response].
  apply fails_bind; [eauto with keeps|intros [buf' n']].
  apply fails_bind; [eauto with keeps|intros _].
  apply fails_bind; [eauto with keeps|intros _].
  intros evs w Hw. split; [world_tac|done].
Qed.

Lemma start_ret evs w evs' w' :
  world_ok w -> sendSessionStart evs w = (Ret tt, evs', w') ->
  world_ok w' /\ evs' = evs
  /\ driver_sent w' = driver_sent w ++ [header_layout (session_header (sess w) pTypeSessionStart 0) dirToServer]
  /\ srcMAC (sess w') = srcMAC (sess w) /\ dstMAC (sess w') = dstMAC (sess w)
  /\ sessionKey (sess w') = sessionKey (sess w) /\ ctrs (sess w') = ctrs (sess w).
Proof.
  intros Hw. unfold sendSessionStart, mbind, M_bind, bind, get. rewrite encode_val.
  2-3: apply Hw. 2: done.
  cbn [lift ret]. unfold ret. rewrite (drop_ge (make headerLen)), app_nil_r by done.
  destruct (send_spec (header_layout (session_header (sess w) pTypeSessionStart 0) dirToServer) evs w Hw)
    as (r & w2 & -> & Hw2 & Hd & Hs & Hdm & Hk & Hc & _). intros [= -> -> ->]. done.
Qed.

(** ** The records an operation is given *)

Section Records.
Context (P : controlPacket -> Prop) (key : Z).

Definition event_records (e : event) : Prop :=
  match e with Other s => step_records P key s | _ => True end.

Record holds_records (evs : list event) (w : world) : Prop := {
  hr_world : world_ok w;
  hr_key : sessionKey (sess w) = key;
  hr_events : Forall event_records evs;
  hr_from : records_from P w;
}.

Definition keeps_records {A} (m : M A) : Prop := forall evs w,
  holds_records evs w -> let '(_, evs', w') := m evs w in holds_records evs' w'.

Lemma records_bind {A B} (m : M A) (k : A -> M B) :
  keeps_records m -> (forall a, keeps_records (k a)) -> keeps_records (mbind k m).
Proof.
  intros Hm Hk evs w Hw. unfold mbind, M_bind, bind. specialize (Hm evs w Hw).
  destruct (m evs w) as [[[a|e| |] evs1] w1]; try done. by apply Hk.
Qed.
Lemma records_map_err {A} f (m : M A) : keeps_records m -> keeps_records (map_err f m).
Proof. intros Hm evs w Hw. specialize (Hm evs w Hw). unfold map_err. by destruct (m evs w) as [[[] ?] ?]. Qed.
Lemma records_lift {E A} f (o : outcome E A) : keeps_records (lift f o).
Proof. by destruct o; intros evs w Hw. Qed.
Lemma records_get {A} (f : world -> A) : keeps_records (get f).
Proof. by intros evs w Hw. Qed.

(** A step of the session between the events. *)
Lemma holds_step evs s w : holds_records evs w -> step_records P key s ->
  sessionKey (sess (apply_step s w)) = key -> holds_records evs (apply_step s w).
Proof.
  intros [Hw Hk He Hf] Hs Hk'. split; try done; [by apply apply_step_ok|].
  apply apply_step_records; [done..|by rewrite Hk].
Qed.

Lemma holds_interfere evs s w : holds_records (Other s :: evs) w -> holds_records evs (interfere s w).
Proof.
  intros [Hw Hk He Hf]. apply Forall_cons in He as [Hs He].
  destruct (interfere_caller s w Hw) as [Hw1 [[_ _ _ Hk1 _ _] _]]. split; try done; [congruence|].
  unfold interfere. destruct (by_others s); [|done]. by apply apply_step_records; [..|rewrite Hk].
Qed.
Lemma holds_tail evs e w : holds_records (e :: evs) w -> holds_records evs w.
Proof. intros [? ? He ?]. apply Forall_cons in He as [_ He]. by split. Qed.

Lemma records_send pkt : keeps_records (send pkt).
Proof.
  intros evs w Hw. unfold send. pose proof (holds_step evs (SSend pkt) w Hw) as H.
  unfold apply_step in H. rewrite (wo_crashed w (hr_world _ _ Hw)) in H.
  destruct (transmit_val ByDriver pkt w (hr_world _ _ Hw)) as (snd0 & k & r & Htr & _). rewrite Htr in *.
  cbn [fst] in H. assert (holds_records evs (mkWorld (set_sender snd0 (sess w)) (rx w) (closer w) (ka w) k
    (sent w ++ [(ByDriver, pkt)]) (piped w) (crashed w))) as H' by (apply H; [done|apply Hw]).
  destruct (crashed _); [done|]. by destruct r.
Qed.

Lemma records_drain : keeps_records (modify drain_acks).
Proof.
  intros evs w Hw. pose proof (holds_step evs SDrain w Hw I) as H.
  unfold apply_step in H. rewrite (wo_crashed w (hr_world _ _ Hw)) in H. apply H, Hw.
Qed.
Lemma records_reserve plen : keeps_records (reserveM plen).
Proof.
  intros evs w Hw. pose proof (holds_step evs (SReserve plen) w Hw I) as H.
  unfold apply_step in H. rewrite (wo_crashed w (hr_world _ _ Hw)) in H.
  unfold reserveM, reserve in *. destruct (reserveOut _ _). apply H, Hw.
Qed.

Lemma records_wait_ack want : keeps_records (waitForAck want).
Proof.
  unfold waitForAck. intros evs. induction evs as [|e evs IH]; intros w Hw; [done|]. cbn [wait_ack].
  destruct e as [s| | | | |]; try (by eapply IH, holds_tail); try by eapply holds_tail.
  - apply holds_interfere in Hw. cbv zeta. rewrite (wo_crashed _ (hr_world _ _ Hw)). by apply IH.
  - apply holds_tail in Hw. unfold take_ack. destruct (ackCh (sess w)) as [|got l] eqn:Ha; [by apply IH|].
    pose proof (holds_step evs STakeAck w Hw I) as H. unfold apply_step in H.
    rewrite (wo_crashed w (hr_world _ _ Hw)) in H. unfold take_ack in H. rewrite Ha in H.
    specialize (H (hr_key _ _ Hw)). destruct (got =? want); [done|by apply IH].
  - apply holds_tail in Hw. destruct (ctx (sess w)); [done|by apply IH].
Qed.

Lemma records_attempts pkt want schedule : keeps_records (attempts pkt want schedule).
Proof.
  induction schedule as [|d schedule IH]; [by intros evs w Hw|]. intros evs w Hw. cbn [attempts].
  pose proof (records_wait_ack want evs w Hw) as Hwait.
  destruct (waitForAck want evs w) as [[r evs1] w1].
  assert (keeps_records (send pkt;; attempts pkt want schedule)) as Hk
    by (apply records_bind; [apply records_send|done]).
  destruct r as [|[]| |]; try done; by apply Hk.
Qed.

Lemma records_send_wait sch payload : keeps_records (sendDataAndWaitAck sch payload).
Proof.
  unfold sendDataAndWaitAck, send_first. apply records_bind; [|intros [[pkt want] schedule]; apply records_attempts].
  apply records_bind; [apply records_drain|intros _]. cbv zeta.
  apply records_bind; [apply records_reserve|intros seq].
  apply records_bind; [apply records_get|intros s].
  apply records_bind; [apply records_lift|intros pkt].
  apply records_bind; [apply records_send|intros _].
  apply records_bind; [apply records_get|intros b]. by intros evs w.
Qed.

Lemma records_start : keeps_records sendSessionStart.
Proof.
  unfold sendSessionStart. apply records_bind; [apply records_get|intros s].
  apply records_bind; [apply records_lift|intros [buf n]]. apply records_send.
Qed.

(** [awaitControl] returns one of them. *)
Lemma records_await want evs w : holds_records evs w ->
  let '(r, evs', w') := awaitControl want evs w in
  holds_records evs' w' /\ match r with Ret cp => P cp | _ => True end.
Proof.
  unfold awaitControl. revert w. induction evs as [|e evs IH]; intros w Hw; [done|]. cbn [wait_control].
  destruct e as [s| | | | |]; try (by eapply IH, holds_tail).
  - apply holds_interfere in Hw. cbv zeta. rewrite (wo_crashed _ (hr_world _ _ Hw)). by apply IH.
  - apply holds_tail in Hw. unfold take_control. destruct (controlCh (sess w)) as [|cp l] eqn:Ha; [by apply IH|].
    pose proof (holds_step evs STakeControl w Hw I) as H. unfold apply_step in H.
    rewrite (wo_crashed w (hr_world _ _ Hw)) in H. unfold take_control in H. rewrite Ha in H.
    specialize (H (hr_key _ _ Hw)). destruct (cpt cp =? want); [|by apply IH]. split; [done|].
    apply (hr_from _ _ Hw). rewrite Ha. by left.
  - apply holds_tail in Hw. destruct (ctx (sess w)); [done|by apply IH].
  - split; [|done]. by eapply holds_tail.
Qed.
End Records.

(** A control record the device sent: in a DATA datagram of the session
    read during [evs], or already on its way in [w]. *)
Definition record_received (evs : list event) (key : Z) (cp : controlPacket) : Prop :=
  exists buf h payload, Other (SRead (ReadOk buf)) ∈ evs
    /\ decodeHeader buf dirToClient = Val (h, payload) /\ PType h = pTypeData /\ SessionKey h = key
    /\ mkRecord (cpt cp) (cbody cp) ∈ parse_controls payload.
Definition record_held (w : world) (cp : controlPacket) : Prop :=
  cp ∈ controlCh (sess w)
  \/ match rx w with
     | RxWalk payload | RxPipe _ payload => mkRecord (cpt cp) (cbody cp) ∈ parse_controls payload
     | RxControl cp' payload => cp = cp' \/ mkRecord (cpt cp) (cbody cp) ∈ parse_controls payload
     | _ => False
     end.
Definition record_from_device (evs : list event) (w : world) (cp : controlPacket) : Prop :=
  record_held w cp \/ record_received evs (sessionKey (sess w)) cp.

Lemma holds_from_device evs w : world_ok w ->
  holds_records (record_from_device evs w) (sessionKey (sess w)) evs w.
Proof.
  intros Hw. split; [done..| |].
  - apply Forall_forall. intros [s| | | | |] He; try done. destruct s as [[buf|]| | | | | | | | | | | | | | |]; try done.
    intros h payload Hd Ht Hk r Hr. right. exists buf, h, payload. by destruct r.
  - split; [by left; left|]. unfold payload_records, record_from_device, record_held.
    destruct (rx w); try done; [..|split; [by left; right; left|]]; intros [] Hr; left; right; auto.
Qed.

(** A session's identity, which its headers carry. *)
Definition same_ids (w w' : world) : Prop :=
  srcMAC (sess w') = srcMAC (sess w) /\ dstMAC (sess w') = dstMAC (sess w)
  /\ sessionKey (sess w') = sessionKey (sess w).

Lemma same_ids_header w w' ptype c : same_ids w w' ->
  session_header (sess w') ptype c = session_header (sess w) ptype c.
Proof. unfold session_header. by intros (-> & -> & ->). Qed.

(** A packet of records that was built into a buffer, sent, and
    acknowledged; [w0] is any earlier state. *)
Lemma sent_ret sch f w0 buf0 rs buf n evs w evs' w' :
  world_ok w -> same_ids w0 w -> encode_chain buf0 rs = Val (buf, n) ->
  map_err f (sendDataAndWaitAck sch (take n buf)) evs w = (Ret tt, evs', w') ->
  let payload := chain_layout rs in
  let next := u32 (out (ctrs (sess w)) + u32 (Z.of_nat (length payload))) in
  exists used k, evs = used ++ evs' /\ world_ok w' /\ same_ids w0 w'
    /\ driver_sent w' = driver_sent w ++ replicate (S k)
         (header_layout (session_header (sess w0) pTypeData (out (ctrs (sess w)))) dirToServer ++ payload)
    /\ out (ctrs (sess w')) = next /\ peer_acked used (sessionKey (sess w0)) next
    /\ forall P key, holds_records P key evs w -> holds_records P key evs' w'.
Proof.
  intros Hw Hids Henc Hrun%map_err_ret. rewrite encode_chain_cases in Henc. case_decide; [done|].
  injection Henc as <- <-. rewrite take_app_length in Hrun. cbv zeta.
  pose proof (send_wait_run sch (chain_layout rs) evs w Hw) as Hs. rewrite Hrun in Hs.
  destruct Hs as (used & k & -> & Hw' & Hd & _ & Hs & Hdm & Hk & Ho & _ & Hack).
  pose proof Hids as (_ & _ & Hkey). unfold next_packet in Hd. rewrite (same_ids_header w0 w) in Hd by done.
  exists used, k. rewrite <- Hkey. split_and!; try done.
  - destruct Hids as (? & ? & ?). by split_and!; etransitivity.
  - intros P key Hh. pose proof (records_send_wait P key sch (chain_layout rs) _ _ Hh) as Hr. by rewrite Hrun in Hr.
Qed.

(** A control record that was waited for. *)
Lemma awaited_ret f w0 want evs w cp evs' w' :
  world_ok w -> same_ids w0 w -> map_err f (awaitControl want) evs w = (Ret cp, evs', w') ->
  exists used, evs = used ++ evs' /\ world_ok w' /\ same_ids w0 w' /\ cpt cp = want
    /\ driver_sent w' = driver_sent w /\ out (ctrs (sess w')) = out (ctrs (sess w))
    /\ forall P key, holds_records P key evs w -> holds_records P key evs' w' /\ P cp.
Proof.
  intros Hw (Hs & Hd & Hk) H%map_err_ret. pose proof (wait_control_spec want evs w Hw) as Hcp.
  unfold awaitControl in H. rewrite H in Hcp.
  destruct Hcp as (used & -> & Hw' & [Hse Hsr Hdm Hky Ho _] & Hcpt).
  exists used. unfold same_ids. split_and!; try congruence.
  intros P key Hh. pose proof (records_await P key want _ _ Hh) as Hr. unfold awaitControl in Hr. by rewrite H in Hr.
Qed.

(** What the two kinds of challenge are answered with. *)
Definition challenge_answered (fuel : nat) (username password : bytes) (priv : Z)
    (pub salt response : bytes) : Prop :=
  length salt = md5SaltLen /\ response = computeMD5Response password salt
  \/ length salt = ecsrpSaltLen
     /\ docrypto fuel newMtweiState priv (take ecsrpPubkeyLen salt) pub
          (mtweiID username password (drop ecsrpPubkeyLen salt)) = Val response.

Lemma auth_response_ret fuel username password priv pub salt evs w response evs' w' :
  auth_response fuel username password priv pub salt evs w = (Ret response, evs', w') ->
  challenge_answered fuel username password priv pub salt response /\ evs' = evs /\ w' = w.
Proof.
  unfold auth_response, challenge_answered. case_decide; [intros [= <- <- <-]; auto|].
  case_decide; [|done]. intros (Hdoc & -> & ->)%map_err_ret%lift_ret. auto.
Qed.

(** ** Properties *)

(** C5. The handshake. It succeeds only by the whole exchange, in order:
    SESSIONSTART; the BEGINAUTH and PASSSALT records with the user name and
    the public key of [keygen], acknowledged; a PASSSALT record from the
    device whose length selects the proof (16 bytes: MD5, 49: EC-SRP);
    the five records of the answer, acknowledged; and an END_AUTH record,
    both records being in DATA datagrams of the session from the device.
    Nothing else is sent by the caller. Only then is the session switched to
    terminal mode; every failure leaves the mode as it was. *)
Theorem handshake_spec sch fuel rand username password cols rows evs w :
  world_ok w ->
  let '(r, evs', w') := handshake sch fuel rand username password cols rows evs w in
  match r with
  | Ret _ =>
      terminalMode (sess w') = true
      /\ exists priv pub cp response k1 k2 cpe,
           let data seq payload :=
             header_layout (session_header (sess w) pTypeData seq) dirToServer ++ payload in
           let init := chain_layout (auth_init_records username pub) in
           let finish := chain_layout (auth_finish_records response username defaultTermType cols rows) in
           let seq := out (ctrs (sess w)) in
           let seq1 := u32 (seq + u32 (Z.of_nat (length init))) in
           keygen fuel newMtweiState rand None = Val (priv, pub)
           /\ cpt cp = cpTypePassSalt /\ record_from_device evs w cp
           /\ cpt cpe = cpTypeEndAuth /\ record_from_device evs w cpe
           /\ challenge_answered fuel username password priv pub (cbody cp) response
           /\ driver_sent w' = driver_sent w
                ++ [header_layout (session_header (sess w) pTypeSessionStart 0) dirToServer]
                ++ replicate (S k1) (data seq init) ++ replicate (S k2) (data seq1 finish)
           /\ peer_acked evs (sessionKey (sess w)) seq1
           /\ peer_acked evs (sessionKey (sess w)) (u32 (seq1 + u32 (Z.of_nat (length finish))))
  | _ => terminalMode (sess w') = terminalMode (sess w)
  end.
Proof.
  intros Hw. pose proof (handshake_fails_keep sch fuel rand username password cols rows evs w Hw) as Hkeep.
  destruct (handshake sch fuel rand username password cols rows evs w) as [[r evs'] w'] eqn:Hrun.
  destruct r as [[]| | |]; [|apply Hkeep..]. clear Hkeep. unfold handshake in Hrun.
  apply bind_ret in Hrun as ([] & evs1 & w1 & H1%map_err_ret & Hrun).
  pose proof (records_start _ _ _ _ (holds_from_device evs w Hw)) as Hr1. rewrite H1 in Hr1.
  apply start_ret in H1 as (Hw1 & -> & Hd1 & Hs1 & Hdm1 & Hk1 & Hc1); [|done].
  assert (same_ids w w1) as Hi1 by done.
  apply bind_ret in Hrun as ([priv pub] & evs2 & w2 & [Hkey [-> ->]]%map_err_ret%lift_ret & Hrun).
  apply bind_ret in Hrun as ([buf n] & evs2 & w2 & [Hinit [-> ->]]%map_err_ret%lift_ret & Hrun).
  rewrite buildAuthInit_chain in Hinit. cbv beta iota in Hrun.
  apply bind_ret in Hrun as ([] & evs3 & w3 & H3 & Hrun).
  destruct (sent_ret _ _ w _ _ _ _ _ _ _ _ Hw1 Hi1 Hinit H3)
    as (used3 & k1 & -> & Hw3 & Hi3 & Hd3 & Ho3 & Hack3 & Hr3). rewrite Hc1 in Hd3, Ho3, Hack3.
  apply bind_ret in Hrun as (cp & evs4 & w4 & H4 & Hrun).
  destruct (awaited_ret _ w _ _ _ _ _ _ Hw3 Hi3 H4) as (used4 & -> & Hw4 & Hi4 & Hcp & Hd4 & Ho4 & Hr4).
  destruct (Hr4 _ _ (Hr3 _ _ Hr1)) as [Hr5 Hfrom].
  apply bind_ret in Hrun as (response & evs5 & w5 & [Hresp [-> ->]]%auth_response_ret & Hrun).
  apply bind_ret in Hrun as ([buf' n'] & evs6 & w6 & [Hfin [-> ->]]%map_err_ret%lift_ret & Hrun).
  rewrite buildAuthFinish_chain in Hfin. cbv beta iota in Hrun.
  apply bind_ret in Hrun as ([] & evs7 & w7 & H7 & Hrun).
  destruct (sent_ret _ _ w _ _ _ _ _ _ _ _ Hw4 Hi4 Hfin H7)
    as (used7 & k2 & -> & Hw7 & Hi7 & Hd7 & Ho7 & Hack7 & Hr7). rewrite Ho4, Ho3 in Hd7, Hack7.
  apply bind_ret in Hrun as (cpe & evs8 & w8 & H8 & Hrun).
  destruct (awaited_ret _ w _ _ _ _ _ _ Hw7 Hi7 H8) as (used8 & -> & _ & _ & Hcpe & Hd8 & _ & Hr8).
  destruct (Hr8 _ _ (Hr7 _ _ Hr5)) as [_ Hfrome].
  injection Hrun as <- <-. split; [done|]. exists priv, pub, cp, response, k1, k2, cpe. cbv zeta.
  split_and!; [exact Hkey|exact Hcp|exact Hfrom|exact Hcpe|exact Hfrome|exact Hresp|..].
  - unfold driver_sent in *. cbn [sent on_sess]. rewrite Hd8, Hd7, Hd4, Hd3, Hd1. by rewrite <- !app_assoc.
  - revert Hack3. apply peer_acked_mono. intros x Hx. apply elem_of_app. by left.
  - revert Hack7. apply peer_acked_mono. intros x Hx. rewrite !elem_of_app. auto.
Qed.


(** The device answers, with a challenge of 16 bytes (MD5). *)
Definition sample_answered : list event :=
  let turn := Other SRx in
  [from_device pTypeAck 93 []; TakeAck;
   turn; from_device pTypeData 31 (control_layout cpTypePassSalt (replicate 16 7)); turn; turn; TakeControl;
   turn; turn; from_device pTypeAck 174 []; TakeAck;
   turn; from_device pTypeData 56 (control_layout cpTypeEndAuth []); turn; turn; TakeControl].

Lemma handshake_spec_witness :
  let sch := mkSchedules [Second] [Second] in
  let '(r, evs', w') := handshake sch 8 (Some (replicate 32 0)) [97] [] 80 24 sample_answered sample_world in
  match r with
  | Ret _ =>
      terminalMode (sess w') = true
      /\ exists priv pub cp response k1 k2 cpe,
           let data seq payload :=
             header_layout (session_header (sess sample_world) pTypeData seq) dirToServer ++ payload in
           let init := chain_layout (auth_init_records [97] pub) in
           let finish := chain_layout (auth_finish_records response [97] defaultTermType 80 24) in
           let seq := out (ctrs (sess sample_world)) in
           let seq1 := u32 (seq + u32 (Z.of_nat (length init))) in
           keygen 8 newMtweiState (Some (replicate 32 0)) None = Val (priv, pub)
           /\ cpt cp = cpTypePassSalt /\ record_from_device sample_answered sample_world cp
           /\ cpt cpe = cpTypeEndAuth /\ record_from_device sample_answered sample_world cpe
           /\ challenge_answered 8 [97] [] priv pub (cbody cp) response
           /\ driver_sent w' = driver_sent sample_world
                ++ [header_layout (session_header (sess sample_world) pTypeSessionStart 0) dirToServer]
                ++ replicate (S k1) (data seq init) ++ replicate (S k2) (data seq1 finish)
           /\ peer_acked sample_answered (sessionKey (sess sample_world)) seq1
           /\ peer_acked sample_answered (sessionKey (sess sample_world))
                (u32 (seq1 + u32 (Z.of_nat (length finish))))
  | _ => terminalMode (sess w') = terminalMode (sess sample_world)
  end.
Proof.
  apply (handshake_spec (mkSchedules [Second] [Second]) 8 (Some (replicate 32 0)) [97] [] 80 24
           sample_answered sample_world sample_world_ok).
Defined.

(** That handshake succeeds. *)
Example sample_handshake :
  let '(r, evs', w') := handshake (mkSchedules [Second] [Second]) 8 (Some (replicate 32 0)) [97] [] 80 24
                          sample_answered sample_world in
  r = Ret tt /\ evs' = [] /\ length (driver_sent w') = 3%nat.
Proof. vm_compute. done. Qed.

(** [Close] by the winner of the swap: when it returns, it has torn the
    session down and the receive goroutine is gone. *)
Lemma close_returns_released w : world_ok w -> closed (sess w) = true -> close_returns w = true ->
  rx w = RxExited /\ released (sess w).
Proof.
  intros Hw Hc Hr. unfold close_returns in Hr.
  destruct (closer w) as [| |[]] eqn:Hcl, (rx w) eqn:Hrx; try done. split; [done|].
  apply teardown_released; [apply Hw|done|]. unfold teardown_left. by rewrite Hrx, Hcl.
Qed.

Lemma interfere_closed s w : world_ok w -> closed (sess w) = true ->
  world_ok (interfere s w) /\ closed (sess (interfere s w)) = true.
Proof.
  intros Hw Hc. unfold interfere. destruct (by_others s); [|done].
  split; [by apply apply_step_ok|by apply (proj1 (teardown_turn s w Hw Hc))].
Qed.

Lemma wait_done_spec : forall evs w,
  world_ok w -> closed (sess w) = true ->
  let '(r, _, w') := wait_done evs w in
  world_ok w' /\ closed (sess w') = true
  /\ match r with Ret _ => close_returns w' = true | Blk => True | _ => False end.
Proof.
  induction evs as [|e evs IH]; intros w Hw Hc; cbn [wait_done]; destruct (close_returns w) eqn:Hr; try done.
  destruct e as [s| | | | |]; try by apply IH. cbv zeta.
  destruct (interfere_closed s w Hw Hc) as [Hw1 Hc1]. rewrite (wo_crashed _ Hw1). by apply IH.
Qed.

Lemma Close_closed w : closed (sess (Close w)) = true.
Proof. unfold Close. by destruct (closed (sess w)) eqn:Hc. Qed.

Lemma Session_Close_spec evs w :
  world_ok w ->
  let '(r, _, w') := Session_Close evs w in
  world_ok w' /\ closed (sess w') = true
  /\ match r with
     | Ret _ => if closed (sess w) then w' = w else rx w' = RxExited /\ released (sess w')
     | Blk => True
     | _ => False
     end.
Proof.
  intros Hw. unfold Session_Close. destruct (closed (sess w)) eqn:Hc; [done|].
  pose proof (wait_done_spec evs (Close w) (Close_ok w Hw) (Close_closed w)) as H.
  destruct (wait_done evs (Close w)) as [[[] ?] w']; destruct H as (H1 & H2 & H3); split_and!; try done;
    by apply close_returns_released.
Qed.

(** ** Where a handshake can panic *)

(** The curve arithmetic of one handshake panics: making the key pair, or
    answering with it the challenge the device sent. *)
Definition exchange_panics (fuel : nat) (rand : option bytes) (username password : bytes)
    (challenge : controlPacket -> Prop) : Prop :=
  keygen fuel newMtweiState rand None = Panic
  \/ exists priv pub cp,
       keygen fuel newMtweiState rand None = Val (priv, pub)
       /\ cpt cp = cpTypePassSalt /\ challenge cp /\ length (cbody cp) = ecsrpSaltLen
       /\ docrypto fuel newMtweiState priv (take ecsrpPubkeyLen (cbody cp)) pub
            (mtweiID username password (drop ecsrpPubkeyLen (cbody cp))) = Panic.

Section PanicsOnly.
Context (P : controlPacket -> Prop) (key : Z) (Q : Prop).

(** A computation that, given records [P] holds of, panics only if [Q], and
    returns what [R] holds of. *)
Definition panics_only {A} (R : A -> Prop) (m : M A) : Prop := forall evs w,
  holds_records P key evs w -> let '(r, evs', w') := m evs w in
    holds_records P key evs' w' /\ match r with Pan => Q | Ret a => R a | _ => True end.

Lemma panics_bind {A B} (R : A -> Prop) (R' : B -> Prop) (m : M A) (k : A -> M B) :
  panics_only R m -> (forall a, R a -> panics_only R' (k a)) -> panics_only R' (bind m k).
Proof.
  intros Hm Hk evs w Hw. unfold bind. specialize (Hm evs w Hw).
  destruct (m evs w) as [[[a|e| |] evs1] w1]; try done.
  by apply (Hk a (proj2 Hm) evs1 w1 (proj1 Hm)).
Qed.
Lemma panics_map_err {A} R f (m : M A) : panics_only R m -> panics_only R (map_err f m).
Proof. intros Hm evs w Hw. unfold map_err. specialize (Hm evs w Hw). by destruct (m evs w) as [[[] ?] ?]. Qed.
Lemma panics_lift {E A} (f : E -> op_error) (o : outcome E A) :
  (o = Panic -> Q) -> panics_only (fun a => o = Val a) (lift f o).
Proof. intros Ho evs w Hw. destruct o; cbn; auto. Qed.
Lemma panics_weaken {A} (R R' : A -> Prop) (m : M A) : (forall a, R a -> R' a) -> panics_only R m -> panics_only R' m.
Proof.
  intros HR Hm evs w Hw. specialize (Hm evs w Hw). destruct (m evs w) as [[[a|e| |] ?] ?]; try done.
  destruct Hm as [Hh Ha]. split; [done|by apply HR].
Qed.
(** ... that never panics. *)
Lemma panics_never {A} (m : M A) : keeps_records P key m ->
  (forall evs w, world_ok w -> (m evs w).1.1 <> Pan) -> panics_only (fun _ => True) m.
Proof.
  intros Hk Hn evs w Hw. specialize (Hk evs w Hw). specialize (Hn evs w (hr_world _ _ _ _ Hw)).
  by destruct (m evs w) as [[[] ?] ?].
Qed.
Lemma panics_start : panics_only (fun _ => True) sendSessionStart.
Proof.
  apply panics_never; [apply records_start|]. intros evs w Hw.
  unfold sendSessionStart, mbind, M_bind, bind, get. rewrite encode_val by (done || apply Hw).
  cbn [lift ret]. unfold ret.
  match goal with |- context [send ?p evs w] =>
    destruct (send_spec p evs w Hw) as (r & w2 & -> & _ & _ & _ & _ & _ & _ & _ & _ & [->|[e ->]]) end; done.
Qed.
Lemma panics_send_wait sch payload : panics_only (fun _ => True) (sendDataAndWaitAck sch payload).
Proof.
  apply panics_never; [apply records_send_wait|]. intros evs w Hw.
  pose proof (send_wait_run sch payload evs w Hw) as H.
  destruct (sendDataAndWaitAck sch payload evs w) as [[[] evs'] w']; try done.
  by destruct H as (? & ? & _ & _ & _ & _ & _ & _ & _ & _ & _ & []).
Qed.
Lemma panics_await want : panics_only (fun cp => cpt cp = want /\ P cp) (awaitControl want).
Proof.
  intros evs w Hw. pose proof (records_await P key want evs w Hw) as Hr.
  pose proof (wait_control_spec want evs w (hr_world _ _ _ _ Hw)) as H. unfold awaitControl in *.
  destruct (wait_control want evs w) as [[[cp|e| |] evs'] w']; destruct H as (? & _ & _ & _ & H); try done.
  destruct Hr as [Hr HP]. by split_and!.
Qed.
Lemma panics_chain f buf rs : panics_only (fun _ => True) (lift f (encode_chain buf rs)).
Proof. apply panics_never; [apply records_lift|]. intros evs w _. rewrite encode_chain_cases. by case_decide. Qed.
End PanicsOnly.

Lemma handshake_panics sch fuel rand username password cols rows evs w :
  world_ok w ->
  (handshake sch fuel rand username password cols rows evs w).1.1 = Pan ->
  exchange_panics fuel rand username password (record_from_device evs w).
Proof.
  intros Hw. set (Q := exchange_panics _ _ _ _ _).
  assert (panics_only (record_from_device evs w) (sessionKey (sess w)) Q (fun _ => True)
    (handshake sch fuel rand username password cols rows)) as H.
  2: { specialize (H evs w (holds_from_device evs w Hw)).
       destruct (handshake _ _ _ _ _ _ _ _ _) as [[r ?] ?]. cbn. intros ->. apply H. }
  unfold handshake.
  eapply panics_bind; [apply panics_map_err, panics_start|intros _ _].
  eapply panics_bind; [apply panics_map_err, panics_lift; by left|intros [priv pub] Hkey].
  eapply panics_bind; [rewrite buildAuthInit_chain; apply panics_map_err, panics_chain|intros [buf n] _].
  eapply panics_bind; [apply panics_map_err, panics_send_wait|intros _ _].
  eapply panics_bind; [apply panics_map_err, panics_await|intros cp [Hcp Hfrom]].
  eapply (panics_bind _ _ _ (fun _ => True)); [|intros response _].
  { unfold auth_response. case_decide; [by intros ? ? ?|]. case_decide as Hlen; [|by intros ? ? ?].
    apply panics_map_err. eapply panics_weaken; [|apply panics_lift]; [done|]. intros Hd.
    right. by exists priv, pub, cp. }
  eapply panics_bind; [rewrite buildAuthFinish_chain; apply panics_map_err, panics_chain|intros [buf' n'] _].
  eapply panics_bind; [apply panics_map_err, panics_send_wait|intros _ _].
  eapply panics_bind; [apply panics_map_err, panics_await|intros _ _].
  intros evs1 w1 Hw1. split; [|done].
  pose proof (holds_step _ _ evs1 STerminal w1 Hw1 I) as Hs. unfold apply_step in Hs.
  rewrite (wo_crashed w1 (hr_world _ _ _ _ Hw1)) in Hs. apply Hs, Hw1.
Qed.

Lemma new_session_ok snd hw dst sk kern0 :
  length (snd_srcMAC snd) = 6%nat -> length hw = 6%nat -> bytes_ok hw -> mac_ok dst -> length sk = 2%nat -> bytes_ok sk ->
  exists s, new_session snd hw dst sk = Val s
    /\ world_ok (mkWorld s RxTop CloseIdle KaOff kern0 [] [] false) /\ srcMAC s = hw /\ dstMAC s = dst
    /\ sender s = snd /\ be16 sk = Val (E := proto_error) (sessionKey s).
Proof.
  intros Hsnd Hl Hhw Hdst Hsk Hskok. unfold new_session.
  destruct (be16_len (E := proto_error) sk) as [key Hkey]; [lia|]. rewrite Hkey, bind_val.
  eexists. split; [reflexivity|]. rewrite take_app_length' by done.
  split; [|done]. split; cbn; try done; try lia.
  by eapply be16_range.
Qed.
