(* ===== verification/Typing.v ===== *)
(** * Types of a running session

    Go's types bound what the session's fields, channels and datagrams can
    hold.  The model keeps machine integers as [Z], so that the bounds are an
    invariant: here it is stated for everything a session stores or sends and
    proved of every step of every goroutine. *)

From S2P Require Import Prelude GoBytes Protocol Seq Frame Session RxLoop SessionOps Handshake.

#[local] Open Scope Z_scope.

(** ** The typing *)

Definition control_typed (cp : controlPacket) : Prop :=
  -128 <= cpt cp < 128 /\ cpt cp <> cpTypePlainData /\ bytes_ok (cbody cp).

Definition rx_typed (pc : rx_pc) : Prop :=
  match pc with
  | RxWalk payload => bytes_ok payload
  | RxPipe chunk payload => bytes_ok chunk /\ bytes_ok payload
  | RxControl cp payload => control_typed cp /\ bytes_ok payload
  | _ => True
  end.

(** What the session's own goroutines send, for a session from [src] to
    [dst] with a given key: an empty ACK or END of the session. *)
Definition own_datagram (src dst : bytes) (key : Z) (d : bytes) : Prop :=
  exists h, d = header_layout h dirToServer /\ header_ok h
    /\ SrcAddr h = src /\ DstAddr h = dst /\ SessionKey h = key
    /\ (PType h = pTypeAck \/ PType h = pTypeEnd).

Record typed (src dst : bytes) (key : Z) (w : world) : Prop := {
  ty_world : world_ok w;
  ty_src : srcMAC (sess w) = src;
  ty_dst : dstMAC (sess w) = dst;
  ty_key : sessionKey (sess w) = key;
  ty_ctrs : counters_ok (ctrs (sess w));
  ty_acks : Forall is_u32 (ackCh (sess w));
  ty_controls : Forall control_typed (controlCh (sess w));
  ty_rx : rx_typed (rx w);
  ty_piped : bytes_ok (piped w);
  ty_sent : Forall (fun '(who, d) => who = ByDriver \/ own_datagram src dst key d) (sent w);
}.

(** A datagram read from a socket consists of bytes. *)
Definition step_typed (s : step) : Prop :=
  match s with SRead (ReadOk buf) => bytes_ok buf | _ => True end.

(** ** Lemmas *)

Lemma control_step_bytes payload : payload <> [] -> bytes_ok payload ->
  exists rec rest, control_step payload = Val (rec, rest)
    /\ -128 <= CPType rec < 128 /\ bytes_ok (Body rec) /\ bytes_ok (default [] rest).
Proof.
  intros Hne Hp. unfold control_step. case_decide as Hlen.
  { do 2 eexists. split; [reflexivity|]. cbn. split_and!; try done. }
  unfold cpHeaderLen in *. expose 9 payload.
  rewrite (slice_val _ 0 4) by (cbn; lia). rewrite bind_val. case_decide.
  { do 2 eexists. split; [reflexivity|]. cbn. split_and!; try done. }
  rewrite (slice_val _ 5 9), (slice_from_val _ 9) by (cbn; lia).
  cbn -[Z.lor Z.shiftl u32 i8]. rewrite !drop_0.
  case_decide.
  all: pose proof (Z.mod_le (Z.of_nat (length payload)) (2 ^ 32)).
  all: rewrite slice_val by (unfold u32 in *; lia); rewrite bind_val.
  all: rewrite slice_from_val by (unfold u32 in *; lia); rewrite bind_val.
  all: inv_Forall; do 2 eexists; split; [reflexivity|]; cbn [CPType Body default].
  all: split; [word_lia|]; split; [apply Forall_take|]; by apply Forall_drop.
Qed.

(** What most steps leave alone. *)
Definition same_data (s s' : Session) : Prop :=
  srcMAC s' = srcMAC s /\ dstMAC s' = dstMAC s /\ sessionKey s' = sessionKey s
  /\ ctrs s' = ctrs s /\ ackCh s' = ackCh s /\ controlCh s' = controlCh s.

Section Typing.
Context (src dst : bytes) (key : Z).
#[local] Abbreviation typed := (typed src dst key).
#[local] Abbreviation sent_typed := (Forall (fun '(who, d) => who = ByDriver \/ own_datagram src dst key d)).

Lemma typed_keep w w' : typed w -> world_ok w' -> same_data (sess w) (sess w') ->
  rx_typed (rx w') -> bytes_ok (piped w') -> sent_typed (sent w') -> typed w'.
Proof.
  intros [] Hw (Hs & Hd & Hk & Hc & Ha & Hl) Hrx Hp Hse. split; try done; congruence.
Qed.

Lemma typed_set_rx pc w : typed w -> rx_typed pc -> plain_pc (rx w) -> plain_pc pc -> typed (set_rx pc w).
Proof. intros Ht Hpc H1 H2. apply (typed_keep w); try apply Ht; try done. by apply set_rx_ok; [apply Ht|..]. Qed.
Lemma typed_set_ka pc w : typed w -> typed (set_ka pc w).
Proof. intros Ht. apply (typed_keep w); try apply Ht; try done. apply set_ka_ok, Ht. Qed.

(** The calls of the teardown touch none of the data. *)
Lemma shut_one_data a s : same_data s (shut_one a s).
Proof. destruct (shut_one_fields a s) as (_ & ? & ? & _ & ? & ? & ? & ? & _). by split_and!. Qed.

Lemma typed_fail w : typed w -> typed (fail w).
Proof.
  intros Ht. apply (typed_keep w); try apply Ht; try (by apply fail_ok, Ht).
  - unfold fail. destruct (rx w) as [| | | | |e| |[|a l]| | |]; try done.
    + unfold set_errVal. cbn. by destruct (errVal (sess w)).
    + by destruct (closed (sess w)).
    + apply shut_one_data.
  - pose proof (ty_rx _ _ _ _ Ht) as Hrx. unfold fail.
    destruct (rx w) as [| | | | |e| |[|a l]| | |] eqn:Hpc; try done; try (by rewrite Hpc). by destruct (closed (sess w)).
  - unfold fail. by repeat case_match; apply Ht.
  - unfold fail. by repeat case_match; apply Ht.
Qed.

Lemma own_session_header w ptype c : typed w -> ptype = pTypeAck \/ ptype = pTypeEnd -> is_u32 c ->
  own_datagram src dst key (header_layout (session_header (sess w) ptype c) dirToServer).
Proof.
  intros Ht Hp Hc. eexists. split; [reflexivity|]. destruct Ht as [[]]. split_and!; try done.
  split; try done. by destruct Hp as [->| ->].
Qed.

Lemma sent_snoc w who d : typed w -> who = ByDriver \/ own_datagram src dst key d ->
  sent_typed (sent w ++ [(who, d)]).
Proof. intros Ht Hd. apply Forall_app. split; [apply Ht|by constructor]. Qed.

Lemma typed_datagram buf w : typed w -> rx w = RxReading -> bytes_ok buf -> typed (rx_datagram buf w).
Proof.
  intros Ht Hpc Hb. pose proof (rx_datagram_ok buf w (ty_world _ _ _ _ Ht) Hpc) as Hok.
  assert (plain_pc (rx w)) as Hpl by (by rewrite Hpc). revert Hok.
  unfold rx_datagram. destruct (Nat.ltb_spec (length buf) headerLen) as [|Hlen].
  { intros _. by apply typed_set_rx. }
  destruct (decodeHeader_total buf dirToClient Hlen) as (h & -> & Hh). specialize (Hh Hb).
  repeat case_decide; intros Hok.
  - by apply typed_set_rx.
  - pose proof Ht as []. split; try done; cbn; case_match; try done.
    apply Forall_app. split; [done|]. constructor; [apply Hh|done].
  - pose proof (processInboundData_val h (drop headerLen buf) w (ty_world _ _ _ _ Ht)) as Hp. cbv zeta in Hp.
    destruct (acceptIncoming _ _) as [c fresh] eqn:Hacc. destruct Hp as (snd0 & k & Hp). rewrite Hp in Hok |- *.
    pose proof (acceptIncoming_ok (ctrs (sess w)) (Counter h) (ty_ctrs _ _ _ _ Ht) (ok_counter _ Hh)) as Hc.
    rewrite Hacc in Hc.
    assert (is_u32 (ackCounterFor (Counter h) (u32 (Z.of_nat (length (drop headerLen buf)))))) as Hack
      by (unfold ackCounterFor; apply u32_range).
    pose proof (own_session_header w pTypeAck _ Ht (or_introl eq_refl) Hack) as Hown.
    pose proof Ht as []. split; try done; cbn.
    + destruct fresh; cbn; [by apply Forall_drop|done].
    + apply sent_snoc; [done|by right].
  - by apply typed_set_rx.
  - by apply typed_set_rx.
Qed.

Lemma typed_rx_step w : typed w -> typed (rx_step w).
Proof.
  intros Ht. pose proof (ty_rx _ _ _ _ Ht) as Hrx. unfold rx_step.
  pose proof (rx_step_ok w (ty_world _ _ _ _ Ht)) as Hok. unfold rx_step in Hok.
  destruct (rx w) as [| |payload|chunk payload|cp payload|e| |l| | |] eqn:Hpc; try done; try (by apply typed_fail).
  - by destruct (ctx (sess w)); apply typed_set_rx; rewrite ?Hpc.
  - unfold rx_walk. destruct payload as [|b payload]; [by apply typed_set_rx; rewrite ?Hpc|].
    destruct (control_step_bytes (b :: payload)) as (rec & rest & -> & Hct & Hb & Hr); [done..|].
    case_decide; [destruct (terminalMode (sess w))|]; by apply typed_set_rx; rewrite ?Hpc; destruct rest.
  - destruct (pipeClosed (sess w)); [|done]. by apply typed_set_rx; [|apply Hrx|rewrite Hpc|].
  - case_match; [|done]. pose proof Ht as []. destruct Hrx as [Hcp Hp]. split; try done. cbn.
    apply Forall_app. split; [done|by apply Forall_singleton].
  - by apply (typed_keep w); try apply Ht.
  - by apply (typed_keep w); try apply Ht.
Qed.

Lemma typed_step s w : typed w -> step_typed s -> typed (apply_step s w).
Proof.
  intros Ht Hs. pose proof (apply_step_ok s w (ty_world _ _ _ _ Ht)) as Hok. revert Hok.
  unfold apply_step. rewrite (wo_crashed w (ty_world _ _ _ _ Ht)).
  destruct s as [r| | |n| | | | |e| |plen|p| | | |]; intros Hok.
  - destruct (rx w) eqn:Hpc; try done. destruct r as [buf|[]]; cbn [rx_read];
      try (by apply typed_set_rx; rewrite ?Hpc). by apply typed_datagram.
  - by apply typed_rx_step.
  - unfold rx_give_up. destruct (rx w) eqn:Hpc, (ctx (sess w)); try done. by apply typed_set_rx; rewrite ?Hpc.
  - pose proof Ht as []. revert Hok. unfold Session_Read.
    destruct (rx w) as [| | |chunk payload| | | | | | |] eqn:Hpc; try done.
    destruct (pipeClosed (sess w)); [done|]. intros Hok. destruct ty_rx0 as [Hc Hp]. split; try done; cbn.
    + pose proof (Forall_drop _ n _ Hc). by destruct (drop n chunk).
    + apply Forall_app. split; [done|by apply Forall_take].
  - destruct (keepalive_cases w) as [[pc ->]|Hk]; [by apply typed_set_ka|]. rewrite Hk in Hok |- *.
    assert (is_u32 (out (ctrs (sess w)))) as Hout by apply Ht.
    destruct (transmit_header_parts ByKeepalive (session_header (sess w) pTypeAck (out (ctrs (sess w)))) w)
      as (Hr & Hp & _ & Hse & snd0 & Hsess); [apply Ht..|].
    apply (typed_keep w); try done; cbn; rewrite ?Hr, ?Hp, ?Hse, ?Hsess; try apply Ht; [done|].
    apply sent_snoc; [done|right]. apply own_session_header; auto.
  - unfold keepalive_done. destruct (ka w), (ctx (sess w)); try done. by apply typed_set_ka.
  - revert Hok. unfold Close. destruct (closed (sess w)); [done|]. intros Hok. by apply (typed_keep w); try apply Ht.
  - destruct (closer w) as [| |[|a l]] eqn:Hc; try (unfold Close_next; rewrite Hc; done).
    + destruct (Close_next_end w (ty_world _ _ _ _ Ht) Hc) as (snd0 & k & Hcl & _). rewrite Hcl in Hok |- *.
      apply (typed_keep w); try apply Ht; try done.
      apply sent_snoc; [done|right]. apply own_session_header; auto. unfold is_u32. lia.
    + revert Hok. unfold Close_next. rewrite Hc. intros Hok.
      apply (typed_keep w); try apply Ht; try done. apply shut_one_data.
  - apply (typed_keep w); try apply Ht; try done. cbn. unfold cancel_with. by destruct (ctx (sess w)).
  - pose proof Ht as []. split; try done.
  - revert Hok. unfold reserve. destruct (reserveOut _ _) as [c seq] eqn:Hres. intros Hok.
    pose proof (reserveOut_ok (ctrs (sess w)) plen (ty_ctrs _ _ _ _ Ht)) as Hc. rewrite Hres in Hc.
    pose proof Ht as []. split; try done.
  - destruct (transmit_val ByDriver p w (ty_world _ _ _ _ Ht)) as (snd0 & k & r & Htr & _).
    rewrite Htr in Hok |- *. pose proof Ht as []. split; try done. apply sent_snoc; auto.
  - revert Hok. unfold take_ack. pose proof Ht as []. destruct (ackCh (sess w)); [done|]. intros Hok.
    split; try done. by inversion ty_acks0.
  - revert Hok. unfold take_control. pose proof Ht as []. destruct (controlCh (sess w)); [done|]. intros Hok.
    split; try done. by inversion ty_controls0.
  - apply (typed_keep w); try apply Ht; done.
  - unfold keepalive_start. destruct (ka w); try done. by apply typed_set_ka.
Qed.

Lemma typed_run l : forall w, Forall step_typed l -> typed w -> typed (run_steps l w).
Proof.
  induction l as [|st l IH]; intros w Hl Ht; [done|]. apply Forall_cons in Hl as [Hst Hl].
  by apply IH, typed_step.
Qed.
End Typing.

Lemma new_session_typed snd hw dst sk kern0 :
  length (snd_srcMAC snd) = 6%nat -> mac_ok hw -> mac_ok dst -> length sk = 2%nat -> bytes_ok sk ->
  exists s, new_session snd hw dst sk = Val s /\ sender s = snd
    /\ be16 sk = Val (E := proto_error) (sessionKey s) /\ controlCh s = []
    /\ typed hw dst (sessionKey s) (mkWorld s RxTop CloseIdle KaOff kern0 [] [] false).
Proof.
  intros Hsnd [Hl Hhw] Hdst Hsk Hskok.
  destruct (new_session_ok snd hw dst sk kern0) as (s & Hs & Hw & Hsrc & Hd & Hsn & Hk); try done.
  exists s. split; [done|]. split; [done|]. split; [done|].
  unfold new_session in Hs. destruct (be16 sk) as [key| |]; try done. injection Hs as <-.
  split; [done|]. split; try done; cbn; constructor; unfold is_u32; cbn; lia.
Qed.

Lemma new_sender_mac fd ifindex hw vlanID : length (snd_srcMAC (new_sender fd ifindex hw vlanID)) = 6%nat.
Proof.
  unfold new_sender, make. cbn [snd_srcMAC]. rewrite length_take, length_app, length_replicate. lia.
Qed.

(** ** Properties *)

(** C11. Every state a session reaches is well typed. From [Open]'s fresh
    session on an Ethernet interface, whatever the goroutines, the callers,
    the timers and the network do, the session's addresses and key never
    change, its counters and pending acknowledgements fit 32 bits, the
    channels stay within their capacities, control records are signed bytes
    with byte bodies and never terminal data, what the terminal reads are
    bytes, no goroutine has panicked, and everything the session's own
    goroutines send is a well-formed empty ACK or END header from the
    session's interface to its device. *)
Theorem session_typed fd ifindex hw vlanID dst sk kern0 l :
  mac_ok hw -> mac_ok dst -> length sk = 2%nat -> bytes_ok sk -> Forall step_typed l ->
  exists s, new_session (new_sender fd ifindex hw vlanID) hw dst sk = Val s
    /\ typed hw dst (sessionKey s) (run_steps l (mkWorld s RxTop CloseIdle KaOff kern0 [] [] false)).
Proof.
  intros Hhw Hdst Hsk Hskok Hsteps.
  destruct (new_session_typed (new_sender fd ifindex hw vlanID) hw dst sk kern0) as (s & Hs & _ & _ & _ & Ht);
    [apply new_sender_mac|done..|].
  exists s. split; [done|by apply typed_run].
Qed.

Lemma session_typed_witness :
  exists s, new_session (new_sender 7 2 [2; 0; 0; 0; 0; 1] 10) [2; 0; 0; 0; 0; 1] [2; 0; 0; 0; 0; 2] [0x12; 0x34] = Val s
    /\ typed [2; 0; 0; 0; 0; 1] [2; 0; 0; 0; 0; 2] (sessionKey s)
         (run_steps [SRx; SRead (ReadOk [1; 2; 3]); SReserve 5; SClose; SCloser; SCloser]
            (mkWorld s RxTop CloseIdle KaOff [] [] [] false)).
Proof.
  apply (session_typed 7 2 [2; 0; 0; 0; 0; 1] 10 [2; 0; 0; 0; 0; 2] [0x12; 0x34] []
           [SRx; SRead (ReadOk [1; 2; 3]); SReserve 5; SClose; SCloser; SCloser]);
    repeat first [split | constructor]; try done; vm_compute; discriminate.
Defined.
