(* ===== verification/Teardown.v ===== *)
(** * The end of a session (session.go, loop.go)

    [Close] makes its calls, with the other goroutines running between them,
    and waits for the receive goroutine ([<-s.done]).  Here: its own calls
    are always its to make; once they are made, every turn the goroutine gets
    brings it closer to its exit, no other goroutine can take that back, and
    it always has a turn to take; so the wait of [Close] ends. *)

From S2P Require Import Prelude GoBytes Protocol Seq Frame Receiver Session RxLoop SessionOps Handshake.

#[local] Open Scope Z_scope.

(** ** Turns *)

(** The turns the goroutine has left in a session that is torn down: a
    datagram in reach costs two per byte. *)
Definition turns_left (pc : rx_pc) : nat :=
  match pc with
  | RxExited => 0
  | RxDone => 1
  | RxReturn => 2
  | RxShut l => 3 + length l
  | RxSwap => 8
  | RxFail _ => 9
  | RxTop => 3
  | RxReading => 10 + 2 * maxPacket
  | RxWalk payload => 4 + 2 * length payload
  | RxPipe _ payload | RxControl _ payload => 5 + 2 * length payload
  end.

(** A step that is a turn of the goroutine: the read it waits for, the
    context's case of a blocked send, or its own running on. *)
Definition rx_turn (s : step) (w : world) : bool :=
  match s, rx w with
  | SRead _, RxReading => true
  | SGiveUp, RxControl _ _ => match ctx (sess w) with Some _ => true | None => false end
  | SRx, RxControl _ _ => (length (controlCh (sess w)) <? controlCh_cap)%nat
  | SRx, RxPipe _ _ => pipeClosed (sess w)
  | SRx, (RxReading | RxExited) => false
  | SRx, _ => true
  | _, _ => false
  end.

(** [conn.Read] stores at most [len(buf)] bytes. *)
Definition read_bounded (s : step) : Prop :=
  match s with SRead (ReadOk buf) => (length buf <= maxPacket)%nat | _ => True end.
Definition event_bounded (e : event) : Prop := match e with Other s => read_bounded s | _ => True end.

Fixpoint turns_taken (evs : list event) (w : world) : nat :=
  match evs with
  | [] => 0
  | Other s :: evs => (if rx_turn s w then 1 else 0) + turns_taken evs (interfere s w)
  | _ :: evs => turns_taken evs w
  end.

(** The state the other goroutines, and [Close], lead to. *)
Fixpoint after (evs : list event) (w : world) : world :=
  match evs with
  | [] => w
  | Other s :: evs => after evs (interfere s w)
  | _ :: evs => after evs w
  end.

(** The turns [Close] itself gets, and the calls it has left. *)
Definition closer_turn (e : event) : nat := match e with Other SCloser => 1 | _ => 0 end.
Fixpoint closer_turns (evs : list event) : nat :=
  match evs with [] => 0 | e :: evs => closer_turn e + closer_turns evs end.
Definition calls_left (w : world) : nat :=
  match closer w with CloseIdle => 0 | CloseEnd => S (length close_acts) | CloseShut l => length l end.

(** ** Lemmas *)

Lemma rx_walk_turn payload w :
  (turns_left (rx (rx_walk payload w)) < 4 + 2 * length payload)%nat.
Proof.
  unfold rx_walk. destruct payload as [|b payload]; [cbn; lia|].
  destruct (control_step_total (b :: payload)) as (rec & rest & -> & Hrest); [done|].
  assert (length (match rest with Some p => p | None => [] end) < length (b :: payload))%nat as Hlt
    by (destruct rest; [done|cbn; lia]).
  revert Hlt. generalize (match rest with Some p => p | None => [] end). intros p Hlt.
  case_decide; [destruct (terminalMode (sess w))|]; cbn [rx set_rx turns_left]; lia.
Qed.

(** A turn on its own. *)
Lemma rx_step_turn w : released (sess w) ->
  (turns_left (rx (rx_step w)) + (if rx_turn SRx w then 1 else 0) <= turns_left (rx w))%nat.
Proof.
  intros [[e Hctx] _ _ Hpipe]. unfold rx_step, rx_turn, fail. rewrite Hctx, Hpipe.
  destruct (rx w) as [| |payload|chunk payload|cp payload|e'| |[|a l]| | |] eqn:Hrx; rewrite ?Hrx; cbn [turns_left];
    try (cbn; lia).
  - pose proof (rx_walk_turn payload w). lia.
  - case_match; rewrite ?Hrx; cbn; lia.
  - destruct (closed (sess w)); cbn; lia.
Qed.

(** The steps of the other goroutines leave it where it is; its own lead on. *)
Lemma turn_advances s w : world_ok w -> closed (sess w) = true -> released (sess w) -> read_bounded s ->
  (turns_left (rx (apply_step s w)) + (if rx_turn s w then 1 else 0) <= turns_left (rx w))%nat.
Proof.
  intros Hw Hc Hrel Hs. pose proof Hrel as [[e Hctx] _ _ Hpipe].
  unfold apply_step, rx_turn. rewrite (wo_crashed w Hw). destruct s as [r| | |n| | | | |c| |plen|p| | | |]; try (cbn; lia).
  - destruct (rx w) eqn:Hrx; rewrite ?Hrx; try (cbn; lia).
    destruct r as [buf|[]]; cbn [rx_read]; try (cbn [rx set_rx turns_left]; lia).
    unfold rx_datagram. destruct (Nat.ltb_spec (length buf) headerLen) as [|Hlen]; [cbn [rx set_rx turns_left]; lia|].
    destruct (decodeHeader_total buf dirToClient Hlen) as (h & -> & _). cbn in Hs.
    repeat case_decide; try (cbn [rx set_rx turns_left]; lia).
    pose proof (processInboundData_val h (drop headerLen buf) w Hw) as Hp. cbv zeta in Hp.
    destruct (acceptIncoming _ _) as [ct fresh]. destruct Hp as (snd0 & k & ->).
    destruct fresh; cbn [rx turns_left]; rewrite ?length_drop; lia.
  - by apply rx_step_turn.
  - unfold rx_give_up. rewrite Hctx. destruct (rx w) eqn:Hrx; rewrite ?Hrx; cbn; lia.
  - unfold Session_Read. rewrite Hpipe. destruct (rx w) eqn:Hrx; rewrite ?Hrx; lia.
  - unfold keepalive_tick. rewrite Hc. destruct (ka w); cbn; try lia.
    destruct (transmit_header_val ByKeepalive (session_header (sess w) pTypeAck (out (ctrs (sess w)))) w)
      as (snd0 & k & r & -> & _); [done|apply Hw..|]. cbn. lia.
  - unfold keepalive_done. destruct (ka w), (ctx (sess w)); cbn; lia.
  - unfold Close. rewrite Hc. lia.
  - destruct (closer w) as [| |[|a l]] eqn:Hcl; try (unfold Close_next; rewrite Hcl; cbn; lia).
    destruct (Close_next_end w Hw Hcl) as (snd0 & k & -> & _). cbn. lia.
  - destruct (transmit_val ByDriver p w Hw) as (snd0 & k & r & -> & _). cbn. lia.
  - unfold take_ack. destruct (ackCh (sess w)); cbn; lia.
  - unfold take_control. destruct (controlCh (sess w)); cbn; lia.
  - unfold keepalive_start. destruct (ka w); cbn; lia.
Qed.

(** The state while [Close], having won the swap, runs. *)
Record closing (w : world) : Prop := {
  cg_world : world_ok w;
  cg_closed : closed (sess w) = true;
  cg_closer : closer w <> CloseIdle;
}.

Lemma closing_released w : closing w -> calls_left w = 0%nat -> released (sess w) /\ closer w = CloseShut [].
Proof.
  intros [Hw Hc Hi] Hl. unfold calls_left in Hl. destruct (closer w) as [| |[]] eqn:Hcl; try done. split; [|done].
  destruct (closer_not_fail w (wo_teardown w Hw)) as [_ Hrx]; [by rewrite Hcl|].
  apply teardown_released; [apply Hw|done|]. unfold teardown_left. rewrite Hcl. by destruct (rx w).
Qed.

(** One event, and what it does to the calls [Close] has left. *)
Definition event_step (e : event) (w : world) : world := match e with Other s => interfere s w | _ => w end.

Lemma calls_step s w : closing w -> closing (apply_step s w)
  /\ (calls_left (apply_step s w) <= calls_left w - (match s with SCloser => 1 | _ => 0 end))%nat.
Proof.
  intros [Hw Hc Hi]. pose proof (apply_step_ok s w Hw) as Hw'. pose proof (proj1 (teardown_turn s w Hw Hc)) as Hc'.
  assert (s = SCloser \/ s <> SCloser) as [->|Hs] by (destruct s; auto).
  - cut (closer (apply_step SCloser w) <> CloseIdle
      /\ (calls_left (apply_step SCloser w) <= calls_left w - 1)%nat); [by intros [? ?]; split; [split|]|].
    unfold apply_step, calls_left. rewrite (wo_crashed w Hw).
    destruct (closer w) as [| |[|a l]] eqn:Hcl; [done|..].
    + destruct (Close_next_end w Hw Hcl) as (snd0 & k & -> & _). cbn. split; [done|lia].
    + unfold Close_next. rewrite Hcl, ?Hcl. cbn. split; [done|lia].
    + unfold Close_next. rewrite Hcl. cbn. split; [done|lia].
  - pose proof (closer_stays s w Hw Hc Hs) as Hcl. unfold calls_left. rewrite Hcl. split; [|destruct s; done || lia].
    split; [done..|by rewrite Hcl].
Qed.

Lemma closing_event e w : closing w ->
  closing (event_step e w) /\ (calls_left (event_step e w) <= calls_left w - closer_turn e)%nat.
Proof.
  intros Hw. destruct e as [s| | | | |]; cbn; try (split; [done|lia]).
  unfold interfere. destruct (by_others s) eqn:Hs; [by apply calls_step|]. split; [done|].
  by destruct s; try lia.
Qed.

Lemma closing_after evs : forall w, closing w ->
  closing (after evs w) /\ (calls_left (after evs w) <= calls_left w - closer_turns evs)%nat.
Proof.
  induction evs as [|e evs IH]; intros w Hw; cbn [after closer_turns]; [split; [done|lia]|].
  destruct (closing_event e w Hw) as [Hw1 Hl]. destruct (IH (event_step e w) Hw1) as [Hw2 Hl2].
  assert ((match e with Other s => after evs (interfere s w) | _ => after evs w end) = after evs (event_step e w))
    as -> by by destruct e. split; [done|lia].
Qed.

(** Once its calls are made, the goroutine's turns count down. *)
Lemma turns_run evs : forall w, closing w -> calls_left w = 0%nat -> Forall event_bounded evs ->
  (turns_left (rx (after evs w)) + turns_taken evs w <= turns_left (rx w))%nat.
Proof.
  induction evs as [|e evs IH]; intros w Hw Hl He; cbn [after turns_taken]; [lia|].
  apply Forall_cons in He as [He Hes]. destruct (closing_event e w Hw) as [Hw1 Hl1].
  specialize (IH (event_step e w) Hw1 ltac:(lia) Hes). destruct e as [s| | | | |]; try exact IH.
  cbn [event_step] in IH. cut ((turns_left (rx (interfere s w)) + (if rx_turn s w then 1 else 0)
    <= turns_left (rx w))%nat); [lia|].
  unfold interfere. destruct (by_others s) eqn:Hs.
  - destruct (closing_released w Hw Hl) as [Hrel _]. apply turn_advances; [apply Hw|apply Hw|done..].
  - destruct s; try discriminate Hs; cbn; lia.
Qed.

(** The wait of [Close]: it returns from a torn-down state, or it has gone
    through all of its events. *)
Lemma wait_done_after : forall evs w, closing w ->
  let '(r, _, w') := wait_done evs w in
  closing w' /\ match r with
     | Ret _ => rx w' = RxExited /\ released (sess w')
     | Blk => w' = after evs w /\ close_returns w' = false
     | _ => False
     end.
Proof.
  assert (forall w, closing w -> close_returns w = true -> closing w /\ rx w = RxExited /\ released (sess w)) as Hret.
  { intros w Hw Hr. split; [done|]. by apply close_returns_released; [apply Hw..|]. }
  induction evs as [|e evs IH]; intros w Hw; cbn [wait_done after]; destruct (close_returns w) eqn:Hr;
    [by apply Hret|done|by apply Hret|].
  pose proof (proj1 (closing_event e w Hw)) as Hw1. destruct e as [s| | | | |]; try by apply IH.
  cbv zeta. cbn in Hw1. rewrite (wo_crashed _ (cg_world _ Hw1)). by apply IH.
Qed.

Lemma after_app evs1 evs2 : forall w, after (evs1 ++ evs2) w = after evs2 (after evs1 w).
Proof. induction evs1 as [|[] evs1 IH]; intros w; cbn; auto. Qed.

(** ** Properties *)

(** C12. [Close] comes back. A call of [Close] on an open session, whatever
    the other goroutines, the network and the terminal do between its calls
    and while it waits, ends with the receive goroutine gone and everything
    it closes closed. While it has not come back: it still has a call to
    make, or the goroutine has a turn it can take, be it blocked on a full
    control channel, on the terminal's pipe or in the socket's read (which
    the closed socket or its deadline ends); and since any point by which
    its own six calls were made, the goroutine has had fewer turns than a
    bound fixed by where it was then. *)
Theorem Close_returns evs w r :
  world_ok w -> closed (sess w) = false -> Forall event_bounded evs ->
  let '(res, _, w') := Session_Close evs w in
  closed (sess w') = true
  /\ match res with
     | Ret _ => rx w' = RxExited /\ released (sess w')
     | Blk =>
         ((0 < calls_left w')%nat
          \/ exists s, rx_turn s w' = true /\ by_others s = true /\ (read_bounded (SRead r) -> read_bounded s))
         /\ forall evs1 evs2, evs = evs1 ++ evs2 -> (6 <= closer_turns evs1)%nat ->
              (turns_taken evs2 (after evs1 (Close w)) < turns_left (rx (after evs1 (Close w))))%nat
     | Err _ | Pan => False
     end.
Proof.
  intros Hw Hc He. unfold Session_Close. rewrite Hc.
  assert (closing (Close w)) as Hcl.
  { split; [by apply Close_ok|apply Close_closed|]. unfold Close. by rewrite Hc. }
  assert (calls_left (Close w) = 6%nat) as H6 by (unfold Close; by rewrite Hc).
  pose proof (wait_done_after evs (Close w) Hcl) as H.
  destruct (wait_done evs (Close w)) as [[[] ?] w']; destruct H as [Hw' H]; (split; [apply Hw'|]); try done.
  destruct H as [-> Hr]. split.
  - destruct (decide (calls_left (after evs (Close w)) = 0%nat)) as [Hl|]; [right|left; lia].
    destruct (closing_released _ Hw' Hl) as [[[e Hctx] _ _ Hpipe] Hcs]. unfold close_returns in Hr. rewrite Hcs in Hr.
    unfold rx_turn. destruct (rx (after evs (Close w))); try done;
      try (exists SRx; by split_and!); [by exists (SRead r)|exists SGiveUp; by rewrite Hctx].
  - intros evs1 evs2 -> H1. apply Forall_app in He as [_ He2]. rewrite after_app in *.
    destruct (closing_after evs1 (Close w) Hcl) as [Hw1 Hl1].
    pose proof (turns_run evs2 (after evs1 (Close w)) Hw1 ltac:(lia) He2) as Ht.
    destruct (closing_after evs2 _ Hw1) as [Hw2 Hl2].
    destruct (closing_released _ Hw2 ltac:(lia)) as [_ Hcs]. unfold close_returns in Hr. rewrite Hcs in Hr.
    revert Ht Hr. set (w2 := after evs2 _). intros Ht Hr.
    assert (0 < turns_left (rx w2))%nat by (destruct (rx w2); [cbn; lia..|done]). lia.
Qed.

(** A session whose control channel is full, closed while the receive
    goroutine is blocked on it. *)
Definition backlog_world : world :=
  mkWorld (set_controlCh (replicate controlCh_cap (mkControl cpTypePacketError [])) sample_session)
    (RxControl (mkControl cpTypePacketError []) [104; 105]) CloseIdle KaSelect [] [] [] false.
Lemma backlog_world_ok : world_ok backlog_world.
Proof. pose proof sample_world_ok as []. split; try done. Qed.

(** [Close] runs up to its cancel, the goroutine leaves the send and goes
    round, [Close] makes its other calls, the goroutine exits. *)
Definition backlog_events : list event :=
  Other <$> [SCloser; SCloser; SGiveUp; SKeepalive; SRx; SCloser; SCloser; SCloser; SCloser; SRx; SRx].

Lemma Close_returns_witness :
  let '(res, _, w') := Session_Close backlog_events backlog_world in
  closed (sess w') = true
  /\ match res with
     | Ret _ => rx w' = RxExited /\ released (sess w')
     | Blk =>
         ((0 < calls_left w')%nat
          \/ exists s, rx_turn s w' = true /\ by_others s = true
               /\ (read_bounded (SRead (ReadFail ErrClosed)) -> read_bounded s))
         /\ forall evs1 evs2, backlog_events = evs1 ++ evs2 -> (6 <= closer_turns evs1)%nat ->
              (turns_taken evs2 (after evs1 (Close backlog_world))
                 < turns_left (rx (after evs1 (Close backlog_world))))%nat
     | Err _ | Pan => False
     end.
Proof.
  apply (Close_returns backlog_events backlog_world (ReadFail ErrClosed)).
  - exact backlog_world_ok.
  - reflexivity.
  - repeat constructor.
Defined.

(** It does come back there. *)
Example backlog_closes :
  let '(r, _, w') := Session_Close backlog_events backlog_world in
  r = Ret tt /\ rx w' = RxExited.
Proof. vm_compute. done. Qed.
