(* ===== verification/Open.v ===== *)
(** * Open (session.go)

    The caller's operations as sequences of the session's atomic steps, so
    that whatever every step preserves (Typing.v) holds of whole operations
    under any schedule; with that, what a call of [Open] leaves behind. *)

From S2P Require Import Prelude GoBytes MacAddr GoHash Protocol Seq BigInt Auth Mtwei Frame Receiver Sockets.
From S2P Require Import Session RxLoop Records SessionOps Handshake Typing.

#[local] Open Scope Z_scope.

(** ** Operations are step sequences *)

(** The caller's own steps. *)
Definition own_step (s : step) : bool :=
  match s with SClose => true | s => negb (by_others s) end.

(** Steps of the caller, or of the others as the events [used] have it. *)
Definition step_from (used : list event) (s : step) : Prop := own_step s = true \/ Other s ∈ used.

(** The outcome of a computation that took such steps only. *)
Definition runs_at {A} (evs : list event) (w : world) (o : res A * list event * world) : Prop :=
  let '(_, evs', w') := o in
  exists used l, evs = used ++ evs' /\ w' = run_steps l w /\ Forall (step_from used) l.
Definition runs {A} (m : M A) : Prop := forall evs w, world_ok w -> runs_at evs w (m evs w).

Lemma run_steps_app l k w : run_steps (l ++ k) w = run_steps k (run_steps l w).
Proof. apply foldl_app. Qed.

Lemma from_app used used' l k :
  Forall (step_from used) l -> Forall (step_from used') k -> Forall (step_from (used ++ used')) (l ++ k).
Proof.
  unfold step_from. rewrite !Forall_forall. intros Hl Hk s Hs.
  apply elem_of_app in Hs as [Hs|Hs]; [destruct (Hl s Hs)|destruct (Hk s Hs)];
    first [by left | right; apply elem_of_app; auto].
Qed.

Lemma runs_at_refl {A} (r : res A) evs w : runs_at evs w (r, evs, w).
Proof. by exists [], []. Qed.
Lemma runs_at_app {A} used evs w l (o : res A * list event * world) :
  Forall (step_from used) l -> runs_at evs (run_steps l w) o -> runs_at (used ++ evs) w o.
Proof.
  intros Hl. destruct o as [[r evs'] w']. intros (used' & k & -> & -> & Hk).
  exists (used ++ used'), (l ++ k).
  split_and!; [by rewrite app_assoc|by rewrite run_steps_app|by apply from_app].
Qed.
Lemma runs_at_own {A} s evs w (o : res A * list event * world) :
  own_step s = true -> runs_at evs (apply_step s w) o -> runs_at evs w o.
Proof. intros Hs. apply (runs_at_app [] evs w [s]). constructor; [by left|constructor]. Qed.
Lemma runs_at_skip {A} e evs w (o : res A * list event * world) : runs_at evs w o -> runs_at (e :: evs) w o.
Proof. apply (runs_at_app [e] evs w []). constructor. Qed.
Lemma runs_at_other {A} s evs w (o : res A * list event * world) :
  runs_at evs (interfere s w) o -> runs_at (Other s :: evs) w o.
Proof.
  unfold interfere. destruct (by_others s); [|apply runs_at_skip].
  apply (runs_at_app [Other s] evs w [s]). constructor; [|constructor]. right. by left.
Qed.

Lemma runs_bind {A B} (m : M A) (k : A -> M B) : runs m -> (forall a, runs (k a)) -> runs (bind m k).
Proof.
  intros Hm Hk evs w Hw. unfold bind. specialize (Hm evs w Hw).
  destruct (m evs w) as [[[a|e| |] evs1] w1]; try done.
  destruct Hm as (used & l & -> & -> & Hl). apply (runs_at_app used evs1 w l); [done|].
  apply Hk. by apply run_steps_ok.
Qed.
Lemma runs_map_err {A} f (m : M A) : runs m -> runs (map_err f m).
Proof. intros Hm evs w Hw. specialize (Hm evs w Hw). unfold map_err. by destruct (m evs w) as [[[] ?] ?]. Qed.
Lemma runs_ret {A} (a : A) : runs (ret a).
Proof. intros evs w _. apply runs_at_refl. Qed.
Lemma runs_throw {A} e : runs (@throw A e).
Proof. intros evs w _. apply runs_at_refl. Qed.
Lemma runs_get {A} (f : world -> A) : runs (get f).
Proof. intros evs w _. apply runs_at_refl. Qed.
Lemma runs_lift {E A} (f : E -> op_error) (o : outcome E A) : runs (lift f o).
Proof. intros evs w _. destruct o; apply runs_at_refl. Qed.

(** A well-formed world has not crashed: each action is its step. *)
Ltac as_step s := intros evs w Hw; apply (runs_at_own s); [done|];
  unfold apply_step; rewrite (wo_crashed w Hw).

Lemma runs_send pkt : runs (send pkt).
Proof.
  as_step (SSend pkt). unfold send. destruct (transmit ByDriver pkt w) as [w1 r]. cbn [fst].
  destruct (crashed w1); [apply runs_at_refl|]. destruct r; apply runs_at_refl.
Qed.
Lemma runs_drain : runs (modify drain_acks).
Proof. as_step SDrain. apply runs_at_refl. Qed.
Lemma runs_terminal : runs (modify (on_sess (set_terminalMode true))).
Proof. as_step STerminal. apply runs_at_refl. Qed.
Lemma runs_reserve plen : runs (reserveM plen).
Proof. as_step (SReserve plen). unfold reserveM. destruct (reserve plen w). apply runs_at_refl. Qed.

Lemma runs_wait_ack want : runs (waitForAck want).
Proof.
  unfold waitForAck. intros evs. induction evs as [|e evs IH]; intros w Hw; [apply runs_at_refl|].
  cbn [wait_ack]. destruct e as [s| | | | |]; try (by apply runs_at_skip, IH).
  - apply runs_at_other. destruct (interfere_caller s w Hw) as [Hw1 _]. cbv zeta.
    rewrite (wo_crashed _ Hw1). by apply IH.
  - apply runs_at_skip, (runs_at_own STakeAck); [done|]. pose proof (apply_step_ok STakeAck w Hw) as Hw1.
    revert Hw1. unfold apply_step. rewrite (wo_crashed w Hw). destruct (take_ack w) as [[w1 got]|]; [|by intros; apply IH].
    intros Hw1. destruct (got =? want); [apply runs_at_refl|by apply IH].
  - apply runs_at_skip, runs_at_refl.
  - apply runs_at_skip. destruct (ctx (sess w)); [apply runs_at_refl|by apply IH].
Qed.

Lemma runs_await want : runs (awaitControl want).
Proof.
  unfold awaitControl. intros evs. induction evs as [|e evs IH]; intros w Hw; [apply runs_at_refl|].
  cbn [wait_control]. destruct e as [s| | | | |]; try (by apply runs_at_skip, IH).
  - apply runs_at_other. destruct (interfere_caller s w Hw) as [Hw1 _]. cbv zeta.
    rewrite (wo_crashed _ Hw1). by apply IH.
  - apply runs_at_skip, (runs_at_own STakeControl); [done|]. pose proof (apply_step_ok STakeControl w Hw) as Hw1.
    revert Hw1. unfold apply_step. rewrite (wo_crashed w Hw).
    destruct (take_control w) as [[w1 cp]|]; [|by intros; apply IH].
    intros Hw1. destruct (cpt cp =? want); [apply runs_at_refl|by apply IH].
  - apply runs_at_skip. destruct (ctx (sess w)); [apply runs_at_refl|by apply IH].
  - apply runs_at_skip, runs_at_refl.
Qed.

Create HintDb runs discriminated.
#[export] Hint Resolve runs_bind runs_map_err runs_lift runs_ret runs_throw runs_get runs_send runs_drain
  runs_terminal runs_reserve runs_wait_ack runs_await : runs.

Lemma runs_attempts pkt want schedule : runs (attempts pkt want schedule).
Proof.
  induction schedule as [|d schedule IH]; [apply runs_throw|]. intros evs w Hw. cbn [attempts].
  pose proof (runs_wait_ack want evs w Hw) as Hwait.
  assert (runs (send pkt;; attempts pkt want schedule)) as Hk by (apply runs_bind; [apply runs_send|done]).
  destruct (waitForAck want evs w) as [[r evs1] w1]. destruct r as [|[]| |]; try done;
    (destruct Hwait as (used & l & -> & -> & Hl); apply (runs_at_app used evs1 w l); [done|];
     by apply Hk, run_steps_ok).
Qed.

Lemma runs_send_first sch payload : runs (send_first sch payload).
Proof.
  unfold send_first. apply runs_bind; [apply runs_drain|intros _]. cbv zeta.
  apply runs_bind; [apply runs_reserve|intros seq]. apply runs_bind; [apply runs_get|intros s].
  apply runs_bind; [apply runs_lift|intros pkt]. apply runs_bind; [apply runs_send|intros _].
  apply runs_bind; [apply runs_get|intros b]. apply runs_ret.
Qed.
Lemma runs_send_wait sch payload : runs (sendDataAndWaitAck sch payload).
Proof. apply runs_bind; [apply runs_send_first|intros [[pkt want] schedule]]. apply runs_attempts. Qed.

Lemma runs_start : runs sendSessionStart.
Proof.
  apply runs_bind; [apply runs_get|intros s]. apply runs_bind; [apply runs_lift|intros [buf n]].
  apply runs_send.
Qed.
Lemma runs_response fuel username password priv clientPub body :
  runs (auth_response fuel username password priv clientPub body).
Proof.
  unfold auth_response. case_decide; [apply runs_ret|]. case_decide; [|apply runs_throw].
  apply runs_map_err, runs_lift.
Qed.
#[export] Hint Resolve runs_send_wait runs_start runs_response : runs.

Lemma runs_handshake sch fuel rand username password cols rows :
  runs (handshake sch fuel rand username password cols rows).
Proof.
  unfold handshake.
  repeat (apply runs_bind; [by eauto with runs|intros]; repeat match goal with x : _ * _ |- _ => destruct x end).
  apply runs_terminal.
Qed.
Lemma runs_prepare_write p : runs (prepare_write p).
Proof.
  unfold prepare_write. apply runs_bind; [apply runs_get|intros []]; [apply runs_throw|].
  case_decide; [apply runs_ret|]. case_decide; [apply runs_throw|].
  apply runs_bind; [apply runs_lift|intros [buf n]]. apply runs_ret.
Qed.
Lemma runs_Write sch p : runs (Write sch p).
Proof. apply runs_bind; [apply runs_prepare_write|intros [payload|]]; eauto with runs. Qed.
Lemma runs_prepare_resize cols rows : runs (prepare_resize cols rows).
Proof.
  unfold prepare_resize. apply runs_bind; [apply runs_get|intros []]; [apply runs_throw|].
  apply runs_bind; [apply runs_lift|intros [buf n]]. apply runs_bind; [apply runs_lift|intros [rest m]].
  apply runs_ret.
Qed.
Lemma runs_Resize sch cols rows : runs (Resize sch cols rows).
Proof. apply runs_bind; [apply runs_prepare_resize|intros payload]. apply runs_send_wait. Qed.

Lemma runs_wait_done : runs wait_done.
Proof.
  intros evs. induction evs as [|e evs IH]; intros w Hw; cbn [wait_done]; destruct (close_returns w);
    try apply runs_at_refl.
  destruct e as [s| | | | |]; try (by apply runs_at_skip, IH). apply runs_at_other.
  destruct (interfere_caller s w Hw) as [Hw1 _]. cbv zeta. rewrite (wo_crashed _ Hw1). by apply IH.
Qed.
Lemma runs_Close : runs Session_Close.
Proof.
  intros evs w Hw. unfold Session_Close. destruct (closed (sess w)) eqn:Hc; [apply runs_at_refl|].
  apply (runs_at_own SClose); [done|]. unfold apply_step. rewrite (wo_crashed w Hw).
  by apply runs_wait_done, Close_ok.
Qed.
#[export] Hint Resolve runs_handshake runs_Write runs_Resize runs_Close : runs.

(** ** What steps preserve, operations preserve *)

(** What an event brings in from outside. *)
Definition event_typed (e : event) : Prop := match e with Other s => step_typed s | _ => True end.

Lemma runs_typed {A} (m : M A) src dst key evs w :
  runs m -> Forall event_typed evs -> typed src dst key w ->
  let '(_, evs', w') := m evs w in Forall event_typed evs' /\ typed src dst key w'.
Proof.
  intros Hm He Ht. specialize (Hm evs w (ty_world _ _ _ _ Ht)).
  destruct (m evs w) as [[r evs'] w']. destruct Hm as (used & l & -> & -> & Hl).
  apply Forall_app in He as [Hu He]. split; [done|]. apply typed_run; [|done].
  eapply Forall_impl; [exact Hl|]. intros s [Hs|Hs]; [by destruct s|].
  rewrite Forall_forall in Hu. exact (Hu _ Hs).
Qed.

(** The raw sender keeps its descriptor and its configuration. *)
Definition same_sender (r r' : rawSender) : Prop :=
  snd_fd r' = snd_fd r /\ snd_ifindex r' = snd_ifindex r /\ snd_srcMAC r' = snd_srcMAC r
  /\ snd_vlanID r' = snd_vlanID r.
#[export] Instance same_sender_preorder : PreOrder same_sender.
Proof.
  split; [by intros r|]. intros r r1 r2 (?&?&?&?) (?&?&?&?). split_and!; congruence.
Qed.
#[local] Abbreviation sender_of w := (sender (sess w)).

Lemma Send_sender r payload dst errno r' pkt addr e :
  Send r payload dst errno = Val (r', pkt, addr, e) -> same_sender r r'.
Proof.
  unfold Send. destruct (buildFrame _ _ _ _ _) as [f| |]; [|done..]. rewrite bind_val.
  destruct errno; by intros [= <- _ _ _].
Qed.
Lemma transmit_sender who p w : same_sender (sender_of w) (sender_of (transmit who p w).1).
Proof.
  unfold transmit. destruct (match kern w with e :: l => (e, l) | [] => (None, []) end) as [errno k].
  destruct (Send _ _ _ _) as [[[[r pkt] addr] e]| |] eqn:Hs; [|done..]. by eapply Send_sender.
Qed.
Lemma transmit_header_sender who h w : same_sender (sender_of w) (sender_of (transmit_header who h w).1).
Proof. unfold transmit_header. destruct (encode _ _ _) as [[buf n]| |]; [apply transmit_sender|done..]. Qed.

Lemma fail_sender w : same_sender (sender_of w) (sender_of (fail w)).
Proof.
  unfold fail, set_errVal. destruct (rx w) as [| | | | |e| |[|a l]| | |]; try done.
  - cbn. by destruct (errVal (sess w)).
  - by destruct (closed (sess w)).
  - cbn. by destruct (shut_one_fields a (sess w)) as (_ & _ & _ & -> & _).
Qed.

Lemma rx_datagram_sender buf w : same_sender (sender_of w) (sender_of (rx_datagram buf w)).
Proof.
  unfold rx_datagram. destruct (_ <? _)%nat; [done|].
  destruct (decodeHeader buf dirToClient) as [[h payload]| |]; [|done..]. repeat case_decide; try done.
  - unfold on_sess, set_ackCh. cbn. by case_match.
  - unfold processInboundData. cbv zeta.
    match goal with |- context [transmit_header ?a ?b ?c] =>
      pose proof (transmit_header_sender a b c) as Htr; destruct (transmit_header a b c) as [w1 r] end.
    destruct (acceptIncoming _ _) as [c []]; exact Htr.
Qed.

Lemma apply_step_sender s w : same_sender (sender_of w) (sender_of (apply_step s w)).
Proof.
  unfold apply_step. destruct (crashed w); [done|]. destruct s as [r| | |n| | | | |e| |plen|p| | | |]; try done.
  - destruct (rx w); try done. destruct r as [buf|[]]; cbn [rx_read]; try done. apply rx_datagram_sender.
  - unfold rx_step. destruct (rx w) as [| |[|b payload]| | | | | | | |]; try done; try apply fail_sender;
      try (by case_match).
    cbn. destruct (control_step _) as [[rec rest]| |]; [|done..]. by repeat case_match.
  - unfold rx_give_up. by repeat case_match.
  - unfold Session_Read. by repeat case_match.
  - unfold keepalive_tick. destruct (ka w); try done; [by destruct (closed _)|apply transmit_header_sender].
  - unfold keepalive_done. by repeat case_match.
  - unfold Close. by destruct (closed _).
  - unfold Close_next. destruct (closer w) as [| |[|a l]]; try done; [apply transmit_header_sender|].
    cbn. by destruct (shut_one_fields a (sess w)) as (_ & _ & _ & -> & _).
  - unfold on_sess, cancel_with. by destruct (ctx (sess w)).
  - apply transmit_sender.
  - unfold take_ack. by destruct (ackCh _).
  - unfold take_control. by destruct (controlCh _).
  - unfold keepalive_start. by destruct (ka w).
Qed.

Lemma run_steps_sender l : forall w, same_sender (sender_of w) (sender_of (run_steps l w)).
Proof. induction l as [|s l IH]; intros w; [done|]. etransitivity; [apply apply_step_sender|apply IH]. Qed.

Lemma runs_sender {A} (m : M A) evs w : runs m -> world_ok w ->
  let '(_, _, w') := m evs w in same_sender (sender_of w) (sender_of w').
Proof.
  intros Hm Hw. specialize (Hm evs w Hw). destruct (m evs w) as [[r evs'] w'].
  destruct Hm as (used & l & _ & -> & _). apply run_steps_sender.
Qed.

(** ** Open *)

(** A session between an interface and a device, over two descriptors that
    were free in [k0]. *)
Record session_between (k0 : kernel) (ifindex : Z) (hw dst : bytes) (vlanID : Z)
    (w : world) (conn : rxConn) (k : kernel) : Prop := {
  sb_typed : typed hw dst (sessionKey (sess w)) w;
  sb_sockets : exists snd, sockets_open ifindex hw vlanID k0 conn snd k /\ same_sender snd (sender (sess w));
}.

(** Nothing of the call is left among the descriptors. *)
Definition nothing_left (k0 k : kernel) : Prop := exists l, reached k0 (k_open k0) l k.

Lemma session_between_keeps {A} (m : M A) k0 ifindex hw dst vlanID evs w conn k :
  runs m -> Forall event_typed evs -> session_between k0 ifindex hw dst vlanID w conn k ->
  let '(_, evs', w') := m evs w in
  Forall event_typed evs' /\ session_between k0 ifindex hw dst vlanID w' conn k.
Proof.
  intros Hm He [Ht (snd & Hs & Hsnd)]. pose proof (runs_typed m _ _ _ evs w Hm He Ht) as Ht'.
  pose proof (runs_sender m evs w Hm (ty_world _ _ _ _ Ht)) as Hs'.
  destruct (m evs w) as [[r evs'] w']. destruct Ht' as [He' Ht']. split; [done|]. split.
  - by rewrite (ty_key _ _ _ _ Ht').
  - exists snd. split; [done|]. by transitivity (sender (sess w)).
Qed.

(** Whatever is left of a session goes: nothing is, or the session is closed
    and the receive goroutine in [fail], or the one call of [Close] that won
    the swap, has at most so many calls to make, each of which it can make
    whatever the others do; and once it has, the descriptors are as they were
    in [k0]. *)
Definition settles (k0 : kernel) (rm : remains) : Prop :=
  match rm with
  | Nothing k => nothing_left k0 k
  | Goroutines w conn k =>
      closed (sess w) = true /\ (teardown_left w <= if by_fail w then 4 else 6)%nat
      /\ forall l, (teardown_left w <= winner_turns (by_fail w) l)%nat ->
           nothing_left k0 (release (run_steps l w) conn k)
  end.

Lemma session_between_settles k0 ifindex hw dst vlanID w conn k :
  session_between k0 ifindex hw dst vlanID w conn k -> closed (sess w) = true ->
  settles k0 (Goroutines w conn k).
Proof.
  intros [Ht (snd & Hs & Hsnd)] Hc. pose proof (ty_world _ _ _ _ Ht) as Hw.
  split_and!; [done|apply teardown_left_bound, Hw|]. intros l Hl.
  destruct (winner_releases l w Hw Hc Hl) as [_ Hcn Hse _]. unfold release. rewrite Hcn, Hse.
  assert (snd_fd (sender (sess (run_steps l w))) = snd_fd snd) as Hfd.
  { destruct Hsnd as (<- & _). apply (run_steps_sender l w). }
  pose proof (sockets_released _ _ _ _ _ _ _ Hs) as Hr.
  change (rawSender_Close (sender (sess (run_steps l w)))) with (close (snd_fd (sender (sess (run_steps l w))))).
  rewrite Hfd. destruct Hs as [_ _ (lo & _ & Hlo) _ _]. eexists. by eapply reached_trans.
Qed.

(** ... at once, when [Close] made the calls. *)
Lemma settles_now k0 w conn k : settles k0 (Goroutines w conn k) -> teardown_left w = 0%nat ->
  nothing_left k0 (release w conn k).
Proof. intros (_ & _ & H) Hl. apply (H []). rewrite Hl. lia. Qed.

(** The documented behaviour of the system calls: hardware addresses are
    bytes, the random session key is two bytes. *)
Definition system_ok (sys : system) : Prop :=
  (forall name i hw, InterfaceByName sys name = Some (i, hw) -> bytes_ok hw)
  /\ (forall sk, rand_key sys = Some sk -> length sk = 2%nat /\ bytes_ok sk).

(** A call of [Open] panics in the curve arithmetic: making the key pair, or
    answering with it a challenge in a DATA datagram of this call's session. *)
Definition open_panics (fuel : nat) (sys : system) (username password : bytes) (evs : list event) : Prop :=
  exchange_panics fuel (rand_ec sys) username password (fun cp =>
    exists sk key, rand_key sys = Some sk /\ be16 sk = Val (E := proto_error) key
      /\ record_received evs key cp).

(** How [Open] may end. *)
Definition open_ok (fuel : nat) (sys : system) (iface mac username password : bytes) (vlanID : Z)
    (evs : list event) (r : open_result) : Prop :=
  match r with
  | Opened w conn k =>
      terminalMode (sess w) = true
      /\ exists dst ifindex hw, parseMAC mac = Val dst /\ InterfaceByName sys iface = Some (ifindex, hw)
           /\ session_between (sys_kernel sys) ifindex hw dst vlanID w conn k
  | OpenFailed e rm =>
      settles (sys_kernel sys) rm
      /\ match rm with Goroutines _ _ _ => exists e', e = ErrHandshake e' | Nothing _ => True end
  | OpenPanic => open_panics fuel sys username password evs
  | OpenBlocked => True
  end.

(** A handshake that succeeds ends in terminal mode. *)
Lemma handshake_terminal sch fuel rand username password cols rows evs w evs' w' :
  handshake sch fuel rand username password cols rows evs w = (Ret tt, evs', w') ->
  terminalMode (sess w') = true.
Proof.
  unfold handshake. intros Hh.
  do 9 (apply bind_ret in Hh as (? & ? & ? & _ & Hh); cbv beta iota in Hh;
        repeat match type of Hh with (match ?x with pair _ _ => _ end) _ _ = _ => destruct x end).
  by injection Hh as _ <-.
Qed.

(** [go s.keepaliveLoop()] changes nothing but that goroutine. *)
Lemma keepalive_start_mode w : terminalMode (sess w) = true -> terminalMode (sess (keepalive_start w)) = true.
Proof. unfold keepalive_start. by destruct (ka w). Qed.
Lemma session_between_start k0 ifindex hw dst vlanID w conn k :
  session_between k0 ifindex hw dst vlanID w conn k ->
  session_between k0 ifindex hw dst vlanID (keepalive_start w) conn k.
Proof.
  intros [Ht (snd & Hs & Hsnd)]. assert (sess (keepalive_start w) = sess w) as Hsess
    by (unfold keepalive_start; by destruct (ka w)).
  split; rewrite Hsess; [|by exists snd].
  unfold keepalive_start. destruct (ka w); [by apply typed_set_ka|done..].
Qed.

(** [Open] from the handshake on. *)
Lemma Open_handshake sch fuel sys iface mac username password cols rows vlanID evs dst ifindex hw w conn k :
  Forall event_typed evs ->
  parseMAC mac = Val dst -> InterfaceByName sys iface = Some (ifindex, hw) ->
  session_between (sys_kernel sys) ifindex hw dst vlanID w conn k ->
  (exists sk, rand_key sys = Some sk /\ be16 sk = Val (E := proto_error) (sessionKey (sess w))) ->
  (forall cp, ~ record_held w cp) ->
  open_ok fuel sys iface mac username password vlanID evs
    match handshake sch fuel (rand_ec sys) username password cols rows evs w with
    | (Ret _, _, w) => Opened (keepalive_start w) conn k
    | (Err e, evs, w) =>
        match Session_Close evs w with
        | (Ret _, _, w) => OpenFailed (ErrHandshake e) (Goroutines w conn k)
        | (Pan, _, _) => OpenPanic
        | _ => OpenBlocked
        end
    | (Pan, _, _) => OpenPanic
    | (Blk, _, _) => OpenBlocked
    end.
Proof.
  intros He Hmac Hif Hw (sk & Hsk & Hkey) Hheld.
  pose proof (ty_world _ _ _ _ (sb_typed _ _ _ _ _ _ _ _ Hw)) as Hok.
  pose proof (session_between_keeps _ _ _ _ _ _ evs w conn k
    (runs_handshake sch fuel (rand_ec sys) username password cols rows) He Hw) as H1.
  pose proof (handshake_panics sch fuel (rand_ec sys) username password cols rows evs w Hok) as Hp.
  destruct (handshake sch fuel (rand_ec sys) username password cols rows evs w) as [[r evs1] w1] eqn:Hh.
  destruct H1 as [He1 Hw1]. destruct r as [[]|e| |]; [| | |done].
  - split; [by apply keepalive_start_mode, (handshake_terminal _ _ _ _ _ _ _ _ _ _ _ Hh)|].
    exists dst, ifindex, hw. by split_and!; [..|apply session_between_start].
  - pose proof (session_between_keeps _ _ _ _ _ _ evs1 w1 conn k runs_Close He1 Hw1) as H2.
    pose proof (Session_Close_spec evs1 w1 (ty_world _ _ _ _ (sb_typed _ _ _ _ _ _ _ _ Hw1))) as Hc.
    destruct (Session_Close evs1 w1) as [[[] evs2] w2]; try done; destruct Hc as (Hw2 & Hc2 & Hx); try done.
    split; [by eapply session_between_settles; [apply H2|]|by exists e].
  - destruct (Hp eq_refl) as [|(priv & pub & cp & Hk & Hcp & [Hh'|Hr] & Hrest)]; [by left|by destruct (Hheld cp)|].
    right. exists priv, pub, cp. split_and!; [done|done|by exists sk, (sessionKey (sess w))|apply Hrest..].
Qed.

Lemma Open_result sch fuel sys iface mac username password cols rows vlanID evs :
  system_ok sys -> Forall event_typed evs ->
  open_ok fuel sys iface mac username password vlanID evs
    (Open sch fuel sys iface mac username password cols rows vlanID evs).
Proof.
  intros [Hifs Hrand] He. unfold Open.
  assert (nothing_left (sys_kernel sys) (sys_kernel sys)) as Hnone by (eexists; apply reached_refl).
  destruct (parseMAC mac) as [dst|e|] eqn:Hmac; [|by split|].
  2: { unfold parseMAC in Hmac. repeat case_match; done. }
  unfold resolveInterface. destruct iface as [|c name]; [by split|].
  destruct (InterfaceByName sys (c :: name)) as [[ifindex hw]|] eqn:Hif; [|by split].
  case_decide as Hl; [by split|].
  pose proof (openSockets_result ifindex hw vlanID (sys_kernel sys)) as Hso.
  destruct (openSockets ifindex hw vlanID (sys_kernel sys)) as [[e|[conn snd]] k]; [by split|].
  destruct (rand_key sys) as [sk|] eqn:Hsk.
  2: { pose proof (sockets_released _ _ _ _ _ _ _ Hso) as Hr. destruct Hso as [_ _ (l & _ & Hk) _ _].
       split; [|done]. eexists. by eapply reached_trans. }
  destruct (Hrand sk eq_refl) as [Hskl Hskok].
  destruct (new_session_typed snd hw dst sk (sendto sys)) as (s & -> & Hsnd & Hkey & Hch & Ht); try done.
  { rewrite (so_sender _ _ _ _ _ _ _ Hso). apply new_sender_mac. }
  { split; [done|by eapply Hifs]. }
  { by apply parseMAC_ok in Hmac. }
  with_strategy opaque [handshake Session_Close]
    apply (Open_handshake sch fuel sys (c :: name) mac username password cols rows vlanID evs dst ifindex hw);
    [done..| |by exists sk|].
  - split; [done|]. exists snd. split; [done|]. cbn. by rewrite Hsnd.
  - intros cp [Hin|[]]. cbn in Hin. rewrite Hch in Hin. by apply elem_of_nil in Hin.
Qed.

(** ** Properties *)

(** C3. [Open], whatever the network, the peer and the other goroutines do.
    A session it returns is in terminal mode and well typed, runs between
    the address of the named interface and the parsed address, and owns
    exactly two descriptors that were free before: the receiving socket the
    VLAN calls for, with its options set before it was bound, and the raw
    sender of that interface and VLAN. An error before the handshake leaves
    every descriptor as it was. An error of the handshake leaves a closed
    session whose one teardown (its own, or that of the receive goroutine
    when the peer ended the session first) is done or has a bounded number
    of calls left, all of them enabled, after which every descriptor is as it
    was. It panics only where making the key pair does, or answering an
    EC-SRP challenge that this session's device sent. *)
Theorem Open_outcome sch fuel sys iface mac username password cols rows vlanID evs :
  system_ok sys -> Forall event_typed evs ->
  match Open sch fuel sys iface mac username password cols rows vlanID evs with
  | Opened w conn k =>
      terminalMode (sess w) = true
      /\ exists dst ifindex hw, parseMAC mac = Val dst /\ InterfaceByName sys iface = Some (ifindex, hw)
           /\ session_between (sys_kernel sys) ifindex hw dst vlanID w conn k
  | OpenFailed e rm =>
      settles (sys_kernel sys) rm
      /\ match rm with Goroutines _ _ _ => exists e', e = ErrHandshake e' | Nothing _ => True end
  | OpenPanic => open_panics fuel sys username password evs
  | OpenBlocked => True
  end.
Proof. apply Open_result. Qed.

(** A machine with one interface, "e"; descriptors 0 to 2 are in use. *)
Definition sample_system : system := {|
  InterfaceByName name := if decide (name = [101]) then Some (3, [2; 0; 0; 0; 0; 1]) else None;
  sys_kernel := mkKernel {[0; 1; 2]}%nat [] [];
  rand_key := Some [0x12; 0x34]; rand_ec := Some (replicate 32 0); sendto := [Some 1];
|}.
Lemma sample_system_ok : system_ok sample_system.
Proof.
  split.
  - intros name i hw. cbn. case_decide; [|discriminate]. intros [= <- <-].
    repeat constructor; discriminate.
  - intros sk [= <-]. split; [reflexivity|]. repeat constructor; discriminate.
Qed.

(** A device that answers, with its own turns and those of the receive
    goroutine in between: the challenge is 16 bytes long (MD5). *)
Definition answering_system : system := {|
  InterfaceByName := InterfaceByName sample_system; sys_kernel := sys_kernel sample_system;
  rand_key := rand_key sample_system; rand_ec := rand_ec sample_system; sendto := [];
|}.
Definition answered : list event :=
  let turn := Other SRx in
  [turn; from_device pTypeAck 53 []; TakeAck;
   turn; from_device pTypeData 0 (control_layout cpTypePassSalt (replicate 16 7)); turn; turn; TakeControl;
   turn; turn; from_device pTypeAck 134 []; TakeAck;
   turn; from_device pTypeData 25 (control_layout cpTypeEndAuth []); turn; turn; TakeControl].

Lemma answered_typed : Forall event_typed answered.
Proof.
  assert (forall b, forallb (fun x => (0 <=? x) && (x <? 256)) b = true -> bytes_ok b) as Hb.
  { intros b. rewrite forallb_forall, Forall_forall. intros H x Hx. specialize (H x (proj1 (list_elem_of_In _ _) Hx)).
    unfold is_u8. lia. }
  repeat (apply Forall_cons_2; [try exact I; apply Hb; vm_compute; reflexivity|]). apply Forall_nil_2.
Qed.

Lemma Open_outcome_witness :
  match Open (mkSchedules [Second] [Second]) 8 answering_system [101] (formatMAC [2; 0; 0; 0; 0; 2])
          [97] [] 80 24 0 answered with
  | Opened w conn k =>
      terminalMode (sess w) = true
      /\ exists dst ifindex hw, parseMAC (formatMAC [2; 0; 0; 0; 0; 2]) = Val dst
           /\ InterfaceByName answering_system [101] = Some (ifindex, hw)
           /\ session_between (sys_kernel answering_system) ifindex hw dst 0 w conn k
  | OpenFailed e rm =>
      settles (sys_kernel answering_system) rm
      /\ match rm with Goroutines _ _ _ => exists e', e = ErrHandshake e' | Nothing _ => True end
  | OpenPanic => open_panics 8 answering_system [97] [] answered
  | OpenBlocked => True
  end.
Proof.
  apply (Open_outcome (mkSchedules [Second] [Second]) 8 answering_system [101] (formatMAC [2; 0; 0; 0; 0; 2])
           [97] [] 80 24 0 answered).
  - exact sample_system_ok.
  - exact answered_typed.
Defined.

(** That call opens a session, over descriptors 3 and 4. *)
Definition open_sample (sys : system) (evs : list event) : open_result :=
  Open (mkSchedules [Second] [Second]) 8 sys [101] (formatMAC [2; 0; 0; 0; 0; 2]) [97] [] 80 24 0 evs.
Example answered_opens :
  match open_sample answering_system answered with
  | Opened w conn k => rx_fd conn = 3%nat /\ snd_fd (sender (sess w)) = 4%nat
      /\ ka w = KaSelect /\ length (driver_sent w) = 3%nat
  | _ => False
  end.
Proof. vm_compute. done. Qed.

(** A kernel that refuses the first datagram: [Close] tears the session
    down, and waits for the receive goroutine. *)
Definition refused : list event :=
  Other <$> [SCloser; SCloser; SRx; SCloser; SCloser; SCloser; SCloser; SRx; SRx].
Lemma refused_typed : Forall event_typed refused.
Proof. by repeat constructor. Qed.
Example refused_fails :
  match open_sample sample_system refused with
  | OpenFailed (ErrHandshake (ErrIn SendSessionStart (ErrSend 1))) (Goroutines w conn k) =>
      teardown_left w = 0%nat /\ rx w = RxExited
  | _ => False
  end.
Proof. vm_compute. done. Qed.

(** The peer ends the session during the handshake: the receive goroutine
    wins the swap, and its cancel wakes the handshake.  [Open]'s own [Close]
    loses the swap and returns at once; [Open] returns its error with both
    sockets open. *)
Example ended_fails_early :
  match open_sample answering_system
          [Other SRx; from_device pTypeEnd 0 []; Other SRx; Other SRx; Other SRx; CtxDone] with
  | OpenFailed (ErrHandshake (ErrIn AuthInit (ErrCtx Canceled))) (Goroutines w conn k) =>
      connClosed (sess w) = false /\ senderClosed (sess w) = false /\ teardown_left w = 3%nat
      /\ elements (k_open (release w conn k)) = elements ({[0; 1; 2; 3; 4]}%nat : gset nat)
  | _ => False
  end.
Proof. vm_compute. done. Qed.
