(* ===== verification/Wire.v ===== *)
(** * From the wire to the terminal (conn.go, loop.go)

    The receive side put together: frames on the interface, the receiver of
    a VLAN, the receive goroutine, the terminal's reads, and the
    acknowledgement that goes back through the raw sender. *)

From S2P Require Import Prelude GoBytes MacAddr Protocol Seq Frame Receiver Sockets Session RxLoop SessionOps Typing Open.

#[local] Open Scope Z_scope.

(** [n, err := s.conn.Read(buf)] of [rxLoop] on a raw receiver, as the step
    it makes; [None] while it blocks. *)
Definition conn_read (r : rawReceiver) (turns : list recv_turn) : option step :=
  match Receiver.Read r (make maxPacket) turns with
  | Some (Val (buf, n)) => Some (SRead (ReadOk (take n buf)))
  | Some (Fail e) => Some (SRead (ReadFail e))
  | Some Panic | None => None
  end.

(** The frame of a payload, read by the receiver it is for. *)
Lemma conn_read_frame fd src dst vlanID ipID payload noise c :
  length src = 6%nat -> length dst = 6%nat -> src <> dst -> 0 < vlanID < 4096 ->
  (length payload <= maxPacket)%nat -> Forall (ignored (mkReceiver fd vlanID dst false)) noise ->
  conn_read (mkReceiver fd vlanID dst false)
    (noise ++ [mkTurn false (RecvFrame (frame_layout src dst vlanID ipID payload)) c])
  = Some (SRead (ReadOk payload)).
Proof.
  intros Hs Hd Hne Hv Hlen Hnoise. unfold conn_read, Receiver.Read, maxPacket in *.
  destruct (read_loop_ignored (mkReceiver fd vlanID dst false) noise [mkTurn false (RecvFrame (frame_layout src dst vlanID ipID payload)) c]
    (make 1500) (make 2048)) as (frame & Hf & ->); [apply length_replicate|done|].
  rewrite read_loop_frame; [|done|].
  2: { rewrite frame_layout_length by done. unfold ethLen, dot1qLen, ipLen, udpLen. case_decide; lia. }
  pose proof (accept_layout fd src dst vlanID ipID payload [] Hs Hd Hne Hv ltac:(lia)) as Hacc.
  cbv zeta in Hacc. rewrite app_nil_r in Hacc. rewrite Hacc. unfold copy_into.
  assert (length (make 1500) = 1500%nat) as -> by apply length_replicate.
  rewrite Nat.min_r by lia. do 3 f_equal. rewrite take_app_length' by (rewrite length_take; lia).
  by rewrite take_ge by lia.
Qed.

(** A fresh datagram of terminal output, in three steps. *)
Lemma datagram_to_pipe w seq p :
  world_ok w -> open_session w -> terminalMode (sess w) = true -> rx w = RxReading ->
  is_u32 seq -> (acceptIncoming (ctrs (sess w)) seq).2 = true -> p <> [] -> plain_tail p ->
  let h := mkHeader protocolVersion pTypeData (dstMAC (sess w)) (srcMAC (sess w)) (sessionKey (sess w)) seq in
  let w' := run_steps [SRead (ReadOk (header_layout h dirToClient ++ p)); SRx; SConsume (length p)] w in
  open_session w' /\ rx w' = RxWalk [] /\ piped w' = piped w ++ p
  /\ sent w' = sent w ++ [(ByRx, header_layout (session_header (sess w) pTypeAck
                                   (ackCounterFor seq (u32 (Z.of_nat (length p))))) dirToServer)].
Proof.
  intros Hw Ho Htm Hrx Hseq Hfresh Hne Hp. cbv zeta. cbn [run_steps foldl].
  set (h := mkHeader _ _ _ _ _ _).
  assert (header_ok h) as Hh by (destruct Hw; split; cbn; try done; auto with mt).
  assert (length (header_layout h dirToClient) = headerLen) as Hl by (by apply header_layout_length).
  assert (exists snd k c, apply_step (SRead (ReadOk (header_layout h dirToClient ++ p))) w
    = mkWorld (set_ctrs c (set_sender snd (sess w))) (RxWalk p) (closer w) (ka w) k
        (sent w ++ [(ByRx, header_layout (session_header (sess w) pTypeAck
                             (ackCounterFor seq (u32 (Z.of_nat (length p))))) dirToServer)])
        (piped w) (crashed w)) as (snd & k & c & ->).
  { unfold apply_step. rewrite (wo_crashed w Hw), Hrx. cbn [rx_read]. unfold rx_datagram.
    rewrite (proj2 (Nat.ltb_ge _ _)) by (rewrite length_app, Hl; lia).
    rewrite decode_layout by done. rewrite decide_False by tauto.
    rewrite decide_False by discriminate. rewrite decide_True by done.
    pose proof (processInboundData_val h p w Hw) as H. cbv zeta in H.
    change (Counter h) with seq in H. rewrite (wo_crashed w Hw) in H.
    destruct (acceptIncoming (ctrs (sess w)) seq) as [c fresh]. cbn in Hfresh. subst fresh.
    destruct H as (snd & k & ->). by exists snd, k, c. }
  destruct Ho as [Hc Hpo]. destruct p as [|b p]; [done|].
  rewrite (wo_crashed w Hw). set (l := sent w ++ _).
  assert (apply_step SRx (mkWorld (set_ctrs c (set_sender snd (sess w))) (RxWalk (b :: p)) (closer w) (ka w) k l (piped w) false)
    = mkWorld (set_ctrs c (set_sender snd (sess w))) (RxPipe (b :: p) []) (closer w) (ka w) k l (piped w) false) as ->.
  { unfold apply_step. cbn [crashed rx_step rx rx_walk]. rewrite control_step_plain by done.
    cbn [CPType Body]. rewrite decide_True by done. cbn [sess terminalMode set_ctrs set_sender]. by rewrite Htm. }
  unfold apply_step. cbn [crashed Session_Read rx sess pipeClosed set_ctrs set_sender].
  rewrite Hpo, drop_all, firstn_all. by split_and!.
Qed.

(** What [Send] puts on the wire. *)
Lemma Send_layout r payload dst errno : length (snd_srcMAC r) = 6%nat -> length dst = 6%nat ->
  exists r' addr, Send r payload dst errno
    = Val (r', frame_layout (snd_srcMAC r) dst (snd_vlanID r) (u16 (snd_ipID r + 1)) payload, addr, errno).
Proof.
  intros Hs Hd. unfold Send. cbn [snd_srcMAC snd_vlanID snd_ipID snd_ifindex snd_sendErrCount].
  rewrite buildFrame_val, bind_val by done. cbv zeta. destruct errno; by do 2 eexists.
Qed.

(** The receiver and the sender of a session on a VLAN. *)
Lemma session_between_vlan k0 ifindex hw dev vlanID w r k :
  session_between k0 ifindex hw dev vlanID w (RxRaw r) k ->
  r = mkReceiver (rcv_fd r) vlanID hw false
  /\ snd_srcMAC (sender (sess w)) = hw /\ snd_vlanID (sender (sess w)) = vlanID.
Proof.
  intros [Ht (snd & [_ _ _ Hsnd Hr] & _ & _ & Hm & Hv)].
  assert (length hw = 6%nat) as Hl.
  { rewrite <- (ty_src _ _ _ _ Ht). apply (proj1 (wo_src w (ty_world _ _ _ _ Ht))). }
  assert (take 6 (hw ++ make 6) = hw) as Htake by (by rewrite take_app_length').
  rewrite Hm, Hv, Hsnd. cbn [new_sender snd_srcMAC snd_vlanID]. split; [|done].
  case_decide; [|done]. injection Hr as Hr. by rewrite Hr, Htake.
Qed.

(** C7. Terminal output travels the whole way. Take a session that [Open]
    returned on a VLAN (1..4095), in terminal mode and waiting in the read
    of its raw receiver; let any frames the receiver ignores arrive, then
    the Ethernet frame of a DATA datagram of the device with fresh counter
    and terminal text. The read returns that datagram; after the receive
    goroutine's turn and the terminal's read, the terminal has exactly that
    text more and the goroutine is ready for the rest; and one datagram has
    been sent, whose frame a receiver at the device, on the VLAN, takes for
    an acknowledgement of exactly this datagram. *)
Theorem wire_to_terminal k0 ifindex hw dev vlanID w r k seq p ipID noise c errno :
  session_between k0 ifindex hw dev vlanID w (RxRaw r) k ->
  0 < vlanID < 4096 -> hw <> dev ->
  open_session w -> terminalMode (sess w) = true -> rx w = RxReading ->
  is_u32 seq -> (acceptIncoming (ctrs (sess w)) seq).2 = true ->
  p <> [] -> plain_tail p -> (length p <= 1478)%nat -> Forall (ignored r) noise ->
  let key := sessionKey (sess w) in
  let datagram := header_layout (mkHeader protocolVersion pTypeData dev hw key seq) dirToClient ++ p in
  exists s, conn_read r (noise ++ [mkTurn false (RecvFrame (frame_layout dev hw vlanID ipID datagram)) c]) = Some s
    /\ let w' := run_steps [s; SRx; SConsume (length p)] w in
       open_session w' /\ rx w' = RxWalk [] /\ piped w' = piped w ++ p
       /\ exists ack snd' frame addr, sent w' = sent w ++ [(ByRx, ack)]
            /\ Send (sender (sess w)) ack dev errno = Val (snd', frame, addr, errno)
            /\ (forall fd, accept_frame (mkReceiver fd vlanID dev false) frame (length frame) = Val (Some ack))
            /\ decodeHeader ack dirToServer
               = Val (mkHeader protocolVersion pTypeAck hw dev key (u32 (seq + Z.of_nat (length p))), []).
Proof.
  intros Hb Hv Hne Ho Htm Hrx Hseq Hfresh Hp Hplain Hlen Hnoise. cbv zeta.
  pose proof (sb_typed _ _ _ _ _ _ _ _ Hb) as Ht. pose proof (ty_world _ _ _ _ Ht) as Hw.
  pose proof (ty_src _ _ _ _ Ht) as Hsrc. pose proof (ty_dst _ _ _ _ Ht) as Hdst.
  pose proof (wo_src w Hw) as Hhw. pose proof (wo_dst w Hw) as Hdev. rewrite Hsrc in Hhw. rewrite Hdst in Hdev.
  destruct (session_between_vlan _ _ _ _ _ _ _ _ Hb) as (Hr & Hsm & Hsv). rewrite Hr in Hnoise |- *.
  rewrite (conn_read_frame (rcv_fd r) dev hw vlanID ipID _ noise c (proj1 Hdev) (proj1 Hhw));
    [|by intros He; apply Hne|done| |done].
  2: { rewrite length_app, header_layout_len by first [apply Hdev|apply Hhw]. unfold maxPacket, headerLen. lia. }
  eexists. split; [done|].
  pose proof (datagram_to_pipe w seq p Hw Ho Htm Hrx Hseq Hfresh Hp Hplain) as H. cbv zeta in H.
  rewrite Hsrc, Hdst in H. destruct H as (Ho' & Hrx' & Hpiped & Hsent). split_and!; [done..|].
  destruct (Send_layout (sender (sess w)) (header_layout (session_header (sess w) pTypeAck
    (ackCounterFor seq (u32 (Z.of_nat (length p))))) dirToServer) dev errno) as (snd' & addr & Hsend);
    [rewrite Hsm; apply Hhw|apply Hdev|].
  do 4 eexists. split; [exact Hsent|]. split; [exact Hsend|]. split.
  - intros fd. rewrite Hsm, Hsv. set (ack := header_layout _ _).
    pose proof (accept_layout fd hw dev vlanID (u16 (snd_ipID (sender (sess w)) + 1)) ack [] (proj1 Hhw) (proj1 Hdev)
      Hne Hv) as Hacc. cbv zeta in Hacc. rewrite app_nil_r in Hacc. apply Hacc. subst ack.
    rewrite header_layout_len by (cbn; rewrite ?Hsrc, ?Hdst; first [apply Hhw|apply Hdev]). done.
  - rewrite <- (app_nil_r (header_layout _ _)). unfold session_header. rewrite Hsrc, Hdst.
    assert (ackCounterFor seq (u32 (Z.of_nat (length p))) = u32 (seq + Z.of_nat (length p))) as ->.
    { unfold ackCounterFor. by rewrite (u32_id (Z.of_nat (length p))) by (unfold is_u32; lia). }
    change (header_layout (mkHeader 0 ?t ?a ?b ?k0 ?n) dirToServer)
      with (header_layout (mkHeader protocolVersion t a b k0 n) dirToServer).
    rewrite decode_layout; [done| |done]. split; cbn; try done; auto with mt. apply (wo_key w Hw).
Qed.

(** A session on VLAN 20 of interface 3, over descriptors 3 and 4, once its
    receive goroutine is in the read. *)
Definition near : bytes := [2; 0; 0; 0; 0; 1].
Definition far : bytes := [2; 0; 0; 0; 0; 2].
Definition vlan_kernel : kernel := mkKernel {[0; 1; 2]}%nat [] [].
Definition vlan_receiver : rawReceiver := mkReceiver 3 20 near false.
Definition vlan_sender : rawSender := new_sender 4 3 near 20.
Definition vlan_session : Session :=
  match new_session vlan_sender near far [0x12; 0x34] with Val s => s | _ => sample_session end.
Definition vlan_world : world := run_steps [STerminal; SStart; SRx] (mkWorld vlan_session RxTop CloseIdle KaOff [] [] [] false).

Example vlan_sockets :
  (openSockets 3 near 20 vlan_kernel).1 = inr (RxRaw vlan_receiver, vlan_sender)
  /\ k_log (openSockets 3 near 20 vlan_kernel).2
     = [SysSocket AF_PACKET SOCK_RAW 0x0300 3; SysBind 3 (LinkAddr 0x0300 3);
        SysSocket AF_PACKET SOCK_RAW 0x0008 4].
Proof. split; vm_compute; reflexivity. Qed.

Lemma vlan_between :
  session_between vlan_kernel 3 near far 20 vlan_world (RxRaw vlan_receiver) (openSockets 3 near 20 vlan_kernel).2.
Proof.
  assert (forall x, is_u8 x -> mac_ok [2; 0; 0; 0; 0; x]) as Hmac.
  { intros x Hx. split; [done|]. repeat (apply Forall_cons_2; [done|]). apply Forall_nil_2. }
  destruct (new_session_typed vlan_sender near far [0x12; 0x34] []) as (s & Hs & Hsnd & _ & _ & Ht); try done;
    [by apply Hmac|by apply Hmac|by repeat constructor|].
  assert (vlan_session = s) as Heq by (unfold vlan_session; by rewrite Hs).
  split.
  - assert (typed near far (sessionKey s) vlan_world) as Ht'.
    { unfold vlan_world. rewrite Heq. apply typed_run; [by repeat constructor|exact Ht]. }
    by rewrite (ty_key _ _ _ _ Ht').
  - exists vlan_sender. pose proof (openSockets_result 3 near 20 vlan_kernel) as H.
    pose proof (proj1 vlan_sockets) as Hv.
    destruct (openSockets 3 near 20 vlan_kernel) as [res k]. cbn in Hv. subst res.
    split; [exact H|]. by vm_compute.
Qed.

Lemma wire_to_terminal_witness :
  let datagram := header_layout (mkHeader protocolVersion pTypeData far near (sessionKey (sess vlan_world)) 7)
                    dirToClient ++ [104; 105] in
  exists s, conn_read vlan_receiver
      ([mkTurn false (RecvFrame [1; 2]) false]
       ++ [mkTurn false (RecvFrame (frame_layout far near 20 9 datagram)) false]) = Some s
    /\ let w' := run_steps [s; SRx; SConsume 2] vlan_world in
       open_session w' /\ rx w' = RxWalk [] /\ piped w' = piped vlan_world ++ [104; 105]
       /\ exists ack snd' frame addr, sent w' = sent vlan_world ++ [(ByRx, ack)]
            /\ Send (sender (sess vlan_world)) ack far None = Val (snd', frame, addr, None)
            /\ (forall fd, accept_frame (mkReceiver fd 20 far false) frame (length frame) = Val (Some ack))
            /\ decodeHeader ack dirToServer
               = Val (mkHeader protocolVersion pTypeAck near far (sessionKey (sess vlan_world))
                        (u32 (7 + Z.of_nat 2)), []).
Proof.
  apply (wire_to_terminal vlan_kernel 3 near far 20 vlan_world vlan_receiver _ 7 [104; 105] 9
           [mkTurn false (RecvFrame [1; 2]) false] false None vlan_between);
    try reflexivity; try discriminate.
  - split; reflexivity.
  - split; reflexivity.
  - split; (discriminate || reflexivity).
  - left. by apply Nat.ltb_lt.
  - by apply Nat.leb_le.
  - repeat constructor. exists [1; 2]. split_and!; [reflexivity|by apply Nat.leb_le|reflexivity].
Defined.
