(* ===== verification/Mndp.v ===== *)
(** * MNDP announcements (internal/mndp/parser.go)

    The type-length-value decoder for neighbour announcements: best effort
    on the attributes, little-endian uptime, clipped strings. *)

From S2P Require Import Prelude GoBytes.

#[local] Open Scope Z_scope.

(** ** Constants *)

Definition headerLen : nat := 4.
Definition minPacketLen : nat := 18.
Definition mndpMaxStringLen : nat := 128.

Definition attrAddress : Z := 0x0001.
Definition attrIdentity : Z := 0x0005.
Definition attrVersion : Z := 0x0007.
Definition attrPlatform : Z := 0x0008.
Definition attrTimestamp : Z := 0x000a.
Definition attrSoftID : Z := 0x000b.
Definition attrHardware : Z := 0x000c.
Definition attrIfname : Z := 0x0010.

(** [time.Second] in nanoseconds. *)
Definition Second : Z := 1000000000.

(** ** Packets *)

Record Packet := mkPacket {
  HeaderVersion : Z;
  TTL : Z;
  Checksum : Z;
  MAC : bytes;
  Identity : bytes;
  Version : bytes;
  Platform : bytes;
  Uptime : Z;             (* nanoseconds *)
  SoftID : bytes;
  Hardware : bytes;
  Iface : bytes;
}.

Inductive mndp_error := ErrShortPacket.

Definition clipString (b : bytes) : outcome mndp_error bytes :=
  if decide (mndpMaxStringLen <= length b)%nat then slice b 0 (mndpMaxStringLen - 1) else Val b.

(** The [switch] of the loop: one attribute into the packet. *)
Definition apply_attr (pkt : Packet) (typ : Z) (val : bytes) : outcome mndp_error Packet :=
  let '(mkPacket hv ttl ck mac id ver plat up soft hw ifn) := pkt in
  if decide (typ = attrAddress) then
    if decide (6 <= length val)%nat then
      m ← slice val 0 6;
      mac ← copy_at mac 0 (length mac) m;
      Val (mkPacket hv ttl ck mac id ver plat up soft hw ifn)
    else Val pkt
  else if decide (typ = attrIdentity) then
    s ← clipString val; Val (mkPacket hv ttl ck mac s ver plat up soft hw ifn)
  else if decide (typ = attrVersion) then
    s ← clipString val; Val (mkPacket hv ttl ck mac id s plat up soft hw ifn)
  else if decide (typ = attrPlatform) then
    s ← clipString val; Val (mkPacket hv ttl ck mac id ver s up soft hw ifn)
  else if decide (typ = attrTimestamp) then
    if decide (4 <= length val)%nat then
      secs ← (slice val 0 4 ≫= le32);
      Val (mkPacket hv ttl ck mac id ver plat (i64 (secs * Second)) soft hw ifn)
    else Val pkt
  else if decide (typ = attrSoftID) then
    s ← clipString val; Val (mkPacket hv ttl ck mac id ver plat up s hw ifn)
  else if decide (typ = attrHardware) then
    s ← clipString val; Val (mkPacket hv ttl ck mac id ver plat up soft s ifn)
  else if decide (typ = attrIfname) then
    s ← clipString val; Val (mkPacket hv ttl ck mac id ver plat up soft hw s)
  else Val pkt.

(** The attribute loop of [ParsePacket]; every turn consumes at least four
    bytes, so one unit of fuel per byte is enough. *)
Fixpoint attr_loop (fuel : nat) (p : bytes) (pkt : Packet) : outcome mndp_error Packet :=
  match fuel with
  | O => Val pkt
  | S fuel =>
      if decide (4 <= length p)%nat then
        typ ← (slice p 0 2 ≫= be16);
        ln ← (slice p 2 4 ≫= be16);
        p ← slice_from p 4;
        let ln := Z.to_nat ln in
        if decide (length p < ln)%nat then Val pkt
        else
          val ← slice p 0 ln;
          p ← slice_from p ln;
          pkt ← apply_attr pkt typ val;
          attr_loop fuel p pkt
      else Val pkt
  end.

Definition ParsePacket (buf : bytes) : outcome mndp_error Packet :=
  if decide (length buf < minPacketLen)%nat then Fail ErrShortPacket
  else
    hv ← index buf 0;
    ttl ← index buf 1;
    ck ← (slice buf 2 4 ≫= be16);
    p ← slice_from buf headerLen;
    attr_loop (length p) p (mkPacket hv ttl ck (make 6) [] [] [] 0 [] [] []).

(** ** Specification *)

(** An attribute, and its bytes on the wire. *)
Definition attr : Type := (Z * bytes).
Definition attr_layout (a : attr) : bytes :=
  put_be16 a.1 ++ put_be16 (Z.of_nat (length a.2)) ++ a.2.
Definition attrs_layout (l : list attr) : bytes := mjoin (attr_layout <$> l).
Definition attr_ok (a : attr) : Prop :=
  is_u16 a.1 /\ Z.of_nat (length a.2) < 2 ^ 16 /\ bytes_ok a.2.

(** Trailing bytes that hold no complete attribute. *)
Definition incomplete (tail : bytes) : Prop :=
  (length tail < 4)%nat
  \/ exists ln, be16 (E := mndp_error) (take 2 (drop 2 tail)) = Val ln
      /\ (length tail < 4 + Z.to_nat ln)%nat.

Definition clip (b : bytes) : bytes := take (if decide (128 <= length b)%nat then 127 else length b) b.

(** The meaning of an attribute: what it makes of a packet. *)
Definition set_attr (pkt : Packet) (a : attr) : Packet :=
  let '(mkPacket hv ttl ck mac id ver plat up soft hw ifn) := pkt in
  let '(typ, v) := a in
  if typ =? 1 then
    mkPacket hv ttl ck (if decide (6 <= length v)%nat then take 6 v else mac) id ver plat up soft hw ifn
  else if typ =? 5 then mkPacket hv ttl ck mac (clip v) ver plat up soft hw ifn
  else if typ =? 7 then mkPacket hv ttl ck mac id (clip v) plat up soft hw ifn
  else if typ =? 8 then mkPacket hv ttl ck mac id ver (clip v) up soft hw ifn
  else if typ =? 10 then
    mkPacket hv ttl ck mac id ver plat
      (match v with
       | b0 :: b1 :: b2 :: b3 :: _ => (b0 + 256 * b1 + 65536 * b2 + 16777216 * b3) * Second
       | _ => up end) soft hw ifn
  else if typ =? 11 then mkPacket hv ttl ck mac id ver plat up (clip v) hw ifn
  else if typ =? 12 then mkPacket hv ttl ck mac id ver plat up soft (clip v) ifn
  else if typ =? 16 then mkPacket hv ttl ck mac id ver plat up soft hw (clip v)
  else pkt.

(** ** Lemmas *)

Lemma clipString_val b : clipString b = Val (clip b).
Proof.
  unfold clipString, clip, mndpMaxStringLen. case_decide as H.
  - rewrite slice_val by lia. by rewrite drop_0.
  - by rewrite firstn_all.
Qed.

Lemma apply_attr_val pkt typ v :
  bytes_ok v -> length (MAC pkt) = 6%nat -> apply_attr pkt typ v = Val (set_attr pkt (typ, v)).
Proof.
  intros Hv Hm. destruct pkt as [hv ttl ck mac id ver plat up soft hw ifn]. cbn [MAC] in Hm.
  unfold apply_attr, set_attr, attrAddress, attrIdentity, attrVersion, attrPlatform, attrTimestamp,
    attrSoftID, attrHardware, attrIfname.
  rewrite !clipString_val, !bind_val.
  destruct (Z.eqb_spec typ 1); [rewrite decide_True by done|rewrite decide_False by done].
  { case_decide; [|done]. rewrite slice_val, bind_val by lia. rewrite drop_0.
    rewrite copy_at_val by (rewrite ?length_take; lia). rewrite bind_val, take_0, drop_ge by lia.
    by rewrite app_nil_r. }
  destruct (Z.eqb_spec typ 5); [by rewrite decide_True by done|rewrite decide_False by done].
  destruct (Z.eqb_spec typ 7); [by rewrite decide_True by done|rewrite decide_False by done].
  destruct (Z.eqb_spec typ 8); [by rewrite decide_True by done|rewrite decide_False by done].
  destruct (Z.eqb_spec typ 10); [rewrite decide_True by done|rewrite decide_False by done].
  { destruct v as [|b0 [|b1 [|b2 [|b3 v]]]]; try done. rewrite decide_True by (cbn; lia).
    rewrite slice_val by (cbn; lia). inv_Forall.
    assert (is_u8 b0 /\ is_u8 b1 /\ is_u8 b2 /\ is_u8 b3) as (? & ? & ? & ?) by done.
    rewrite (bind_val le32), drop_0. change (take (4 - 0) (b0 :: b1 :: b2 :: b3 :: v)) with [b0; b1; b2; b3].
    rewrite le32_arith, bind_val by done.
    do 2 f_equal. unfold Second. rewrite i64_id by word_lia. ring. }
  destruct (Z.eqb_spec typ 11); [by rewrite decide_True by done|rewrite decide_False by done].
  destruct (Z.eqb_spec typ 12); [by rewrite decide_True by done|rewrite decide_False by done].
  destruct (Z.eqb_spec typ 16); [by rewrite decide_True by done|rewrite decide_False by done].
  done.
Qed.

Lemma set_attr_mac pkt a : length (MAC pkt) = 6%nat -> length (MAC (set_attr pkt a)) = 6%nat.
Proof.
  destruct pkt, a as [typ v]. cbn [MAC]. intros Hm. unfold set_attr.
  repeat case_match; cbn [MAC]; try done. rewrite length_take. lia.
Qed.

(** One turn of the loop over a complete attribute. *)
Lemma attr_layout_split a rest :
  attr_layout a ++ rest = put_be16 a.1 ++ put_be16 (Z.of_nat (length a.2)) ++ a.2 ++ rest.
Proof. unfold attr_layout. by rewrite <- !app_assoc. Qed.

Lemma attr_loop_attr fuel a rest pkt : attr_ok a -> length (MAC pkt) = 6%nat ->
  attr_loop (S fuel) (attr_layout a ++ rest) pkt = attr_loop fuel rest (set_attr pkt a).
Proof.
  intros (Ht & Hl & Hv) Hm. rewrite attr_layout_split. destruct a as [typ v]. cbn [fst snd] in *.
  cbn [attr_loop]. rewrite decide_True by (rewrite !length_app; cbn; lia).
  rewrite (slice_val _ 0 2) by (rewrite !length_app; cbn; lia).
  rewrite (slice_val _ 2 4) by (rewrite !length_app; cbn; lia).
  rewrite (slice_from_val _ 4) by (rewrite !length_app; cbn; lia).
  cbn [put_be16 app drop take Nat.sub]. rewrite !bind_val, (be16_cons typ), bind_val by done.
  rewrite (be16_cons (Z.of_nat (length v))), !bind_val by (unfold is_u16; lia). cbv zeta. rewrite Nat2Z.id, drop_0.
  rewrite decide_False by (rewrite length_app; lia).
  rewrite (slice_val _ 0) by (rewrite length_app; lia).
  rewrite slice_from_val by (rewrite length_app; lia).
  rewrite !bind_val, drop_0, Nat.sub_0_r, take_app_length, drop_app_length.
  by rewrite apply_attr_val, bind_val.
Qed.

(** The loop leaves at the first incomplete attribute. *)
Lemma attr_loop_incomplete fuel tail pkt : incomplete tail -> attr_loop fuel tail pkt = Val pkt.
Proof.
  intros Hi. destruct fuel as [|fuel]; [done|]. cbn [attr_loop]. case_decide as H4; [|done].
  destruct Hi as [?|(ln & Hln & Hlt)]; [lia|].
  rewrite (slice_val _ 0 2), (slice_val _ 2 4), (slice_from_val _ 4), !bind_val by lia.
  destruct tail as [|b0 [|b1 [|b2 [|b3 tail]]]]; cbn [length] in *; try lia.
  cbn [take drop Nat.sub be16] in Hln |- *. rewrite !bind_val. injection Hln as Hln.
  rewrite Hln, ?bind_val. cbv zeta. rewrite drop_0. by rewrite decide_True by lia.
Qed.

Lemma attr_loop_layout l : forall fuel tail pkt,
  Forall attr_ok l -> incomplete tail -> length (MAC pkt) = 6%nat -> (length l <= fuel)%nat ->
  attr_loop fuel (attrs_layout l ++ tail) pkt = Val (foldl set_attr pkt l).
Proof.
  induction l as [|a l IH]; intros fuel tail pkt Hok Ht Hm Hf.
  { by apply attr_loop_incomplete. }
  destruct fuel as [|fuel]; cbn [length] in Hf; [lia|]. apply Forall_cons_1 in Hok as [Ha Hl].
  change (attrs_layout (a :: l)) with (attr_layout a ++ attrs_layout l).
  rewrite <- app_assoc, attr_loop_attr by done. cbn [foldl].
  apply IH; auto using set_attr_mac with lia.
Qed.

(** Every string of bytes is a sequence of attributes and a rest that holds
    no complete one. *)
Lemma tlv_split n : forall p, (length p <= n)%nat -> bytes_ok p ->
  exists l tail, p = attrs_layout l ++ tail /\ Forall attr_ok l /\ incomplete tail
    /\ (length l <= length p)%nat.
Proof.
  induction n as [|n IH]; intros p Hn Hp.
  { destruct p; cbn in Hn; [|lia]. exists [], []. repeat split; try done. left. cbn. lia. }
  destruct (decide (length p < 4)%nat).
  { exists [], p. split_and!; [done|done|by left|cbn; lia]. }
  destruct p as [|b0 [|b1 [|b2 [|b3 p]]]]; try (cbn in *; lia).
  cbn [length] in Hn. inv_Forall. set (ln := b2 * 256 + b3).
  destruct (decide (length p < Z.to_nat ln)%nat) as [Hlt|Hge].
  { exists [], (b0 :: b1 :: b2 :: b3 :: p). split_and!; [done|done| |cbn; lia].
    right. exists ln. split; [|cbn; lia]. cbn [take drop]. by apply be16_arith. }
  destruct (IH (drop (Z.to_nat ln) p)) as (l & tail & Hd & Hl & Ht & Hlen).
  { rewrite length_drop. lia. }
  { by apply bytes_ok_drop. }
  assert (0 <= ln < 2 ^ 16) by (subst ln; word_lia).
  exists ((b0 * 256 + b1, take (Z.to_nat ln) p) :: l), tail.
  change (attrs_layout (?a :: l)) with (attr_layout a ++ attrs_layout l).
  rewrite length_drop in Hlen. split_and!; [| |done|cbn; lia].
  - unfold attr_layout. cbn [fst snd]. rewrite put_be16_arith by done.
    rewrite length_take_le, Z2Nat.id by lia. subst ln. rewrite put_be16_arith by done.
    cbn [app]. by rewrite <- !app_assoc, <- Hd, take_drop.
  - apply Forall_cons_2; [|done]. split_and!; cbn [fst snd].
    + word_lia.
    + rewrite length_take_le by lia. lia.
    + by apply bytes_ok_take.
Qed.

(** The packet a header starts from. *)
Definition header_packet (b0 b1 ck : Z) : Packet :=
  mkPacket b0 b1 ck (make 6) [] [] [] 0 [] [] [].

Lemma ParsePacket_header b0 b1 ck p : is_u16 ck -> (14 <= length p)%nat ->
  ParsePacket (b0 :: b1 :: put_be16 ck ++ p) = attr_loop (length p) p (header_packet b0 b1 ck).
Proof.
  intros Hck Hp. unfold ParsePacket, minPacketLen, headerLen.
  rewrite decide_False by (cbn [length]; rewrite length_app; cbn; lia).
  rewrite (slice_val _ 2 4), (slice_from_val _ 4) by (cbn [length]; rewrite length_app; cbn; lia).
  cbn [index lookup list_lookup]. rewrite !bind_val. cbn [put_be16 app drop take Nat.sub].
  by rewrite be16_cons, bind_val.
Qed.

(** What the reported values are limited to. *)
Definition packet_ok (pkt : Packet) : Prop :=
  length (MAC pkt) = 6%nat /\ bytes_ok (MAC pkt)
  /\ Forall (fun s => (length s <= 127)%nat /\ bytes_ok s)
       [Identity pkt; Version pkt; Platform pkt; SoftID pkt; Hardware pkt; Iface pkt]
  /\ 0 <= Uptime pkt <= (2 ^ 32 - 1) * Second.

Lemma clip_ok b : bytes_ok b -> (length (clip b) <= 127)%nat /\ bytes_ok (clip b).
Proof.
  intros Hb. split; [|by apply bytes_ok_take]. unfold clip. rewrite length_take. case_decide; lia.
Qed.

Lemma set_attr_ok pkt a : attr_ok a -> packet_ok pkt -> packet_ok (set_attr pkt a).
Proof.
  destruct pkt, a as [typ v]. intros (_ & _ & Hv) (Hm & Hmo & Hs & Hu). cbn in Hm, Hmo, Hs, Hu, Hv.
  inv_Forall. pose proof (clip_ok v Hv).
  unfold set_attr. repeat case_match; split_and!; cbn -[Second];
    rewrite ?length_take; auto with mt; try lia; try (repeat apply Forall_cons_2; auto);
    inv_Forall; unfold Second in *; word_lia.
Qed.

Lemma header_packet_ok b0 b1 ck : packet_ok (header_packet b0 b1 ck).
Proof.
  split_and!; cbn -[Second]; [done|apply (bytes_ok_replicate 6)| |lia|unfold Second; lia].
  repeat apply Forall_cons_2; try done; by split; [cbn; lia|].
Qed.

Lemma attrs_packet_ok attrs pkt :
  Forall attr_ok attrs -> packet_ok pkt -> packet_ok (foldl set_attr pkt attrs).
Proof.
  intros Ha. revert pkt. induction Ha as [|a l Ha _ IH]; intros pkt Hpkt; [done|].
  cbn [foldl]. apply IH. by apply set_attr_ok.
Qed.

Lemma attrs_layout_length attrs : (length attrs <= length (attrs_layout attrs))%nat.
Proof.
  induction attrs as [|a l IH]; [done|].
  change (attrs_layout (a :: l)) with (attr_layout a ++ attrs_layout l).
  rewrite attr_layout_split, length_app. cbn [length put_be16]. rewrite !length_app. lia.
Qed.

(** A datagram's attributes and its rest. *)
Lemma ParsePacket_split buf : bytes_ok buf -> (18 <= length buf)%nat ->
  exists b0 b1 ck attrs tail,
    buf = b0 :: b1 :: put_be16 ck ++ attrs_layout attrs ++ tail
    /\ is_u16 ck /\ Forall attr_ok attrs /\ incomplete tail
    /\ ParsePacket buf = Val (foldl set_attr (header_packet b0 b1 ck) attrs).
Proof.
  intros Hb Hlen.
  destruct buf as [|b0 [|b1 [|b2 [|b3 p]]]]; cbn [length] in Hlen; try lia. inv_Forall.
  destruct (tlv_split (length p) p) as (l & tail & Hp & Hl & Ht & Hll); [lia|done|].
  exists b0, b1, (b2 * 256 + b3), l, tail. assert (is_u16 (b2 * 256 + b3)) by word_lia.
  rewrite <- Hp, put_be16_arith by done. split_and!; try done.
  change (b0 :: b1 :: b2 :: b3 :: p) with (b0 :: b1 :: [b2; b3] ++ p).
  rewrite <- (put_be16_arith b2 b3), ParsePacket_header by (done || lia).
  rewrite Hp at 2. by apply attr_loop_layout.
Qed.

(** For callers: no panic, and what is returned is within its limits. *)
Lemma ParsePacket_ok buf : bytes_ok buf ->
  ParsePacket buf = Fail ErrShortPacket \/ exists pkt, ParsePacket buf = Val pkt /\ packet_ok pkt.
Proof.
  intros Hb. destruct (decide (length buf < 18)%nat).
  { left. unfold ParsePacket, minPacketLen. by rewrite decide_True. }
  destruct (ParsePacket_split buf) as (b0 & b1 & ck & attrs & tail & _ & _ & Ha & _ & ->);
    [done|lia|]. right. eauto using attrs_packet_ok, header_packet_ok.
Qed.

(** ** Properties *)

(** C27. [ParsePacket] refuses exactly the datagrams shorter than 18 bytes
    and never panics: any other datagram is its four header bytes, a
    sequence of complete type-length-value attributes and a rest that holds
    no complete attribute (ignored), and the result is the header with the
    attributes applied in order, a later attribute of a type overriding an
    earlier one. *)
Theorem ParsePacket_reads_tlvs buf :
  bytes_ok buf ->
  if decide (length buf < 18)%nat then ParsePacket buf = Fail ErrShortPacket
  else exists b0 b1 ck attrs tail,
    buf = b0 :: b1 :: put_be16 ck ++ attrs_layout attrs ++ tail
    /\ is_u16 ck /\ Forall attr_ok attrs /\ incomplete tail
    /\ ParsePacket buf = Val (foldl set_attr (header_packet b0 b1 ck) attrs).
Proof.
  intros Hb. case_decide as Hlen; [|apply ParsePacket_split; [done|lia]].
  unfold ParsePacket, minPacketLen. by rewrite decide_True.
Qed.

(** A device's announcement: address, identity, little-endian uptime of one
    hour, an unknown attribute, and a truncated one. *)
Definition sample_announcement : bytes :=
  [0; 1; 0xbe; 0xef] ++ attrs_layout
    [(1, [0x4c; 0x5e; 0x0c; 1; 2; 3]); (5, bytes_of_string "core"); (10, [0x10; 0x0e; 0; 0]);
     (0x99, [1]); (5, bytes_of_string "edge")] ++ [0; 7; 0; 9; 55].

Lemma ParsePacket_reads_tlvs_witness :
  bytes_ok sample_announcement
  /\ (exists b0 b1 ck attrs tail,
    sample_announcement = b0 :: b1 :: put_be16 ck ++ attrs_layout attrs ++ tail
    /\ is_u16 ck /\ Forall attr_ok attrs /\ incomplete tail
    /\ ParsePacket sample_announcement = Val (foldl set_attr (header_packet b0 b1 ck) attrs)).
Proof.
  assert (bytes_ok sample_announcement) as H by (repeat constructor; discriminate).
  split; [exact H|]. exact (ParsePacket_reads_tlvs sample_announcement H).
Defined.

Example sample_announcement_parsed :
  ParsePacket sample_announcement
  = Val (mkPacket 0 1 0xbeef [0x4c; 0x5e; 0x0c; 1; 2; 3] (bytes_of_string "edge") [] []
           (3600 * Second) [] [] []).
Proof. reflexivity. Qed.

(** Conversely an announcement built from well-formed attributes is
    read back: whatever padding too short for an attribute follows it, the
    packet has the header's fields and the attributes', and every reported
    string is at most 127 bytes, the address six bytes, and the uptime the
    announced number of seconds without overflow of [time.Duration]. *)
Theorem ParsePacket_announcement b0 b1 ck attrs tail :
  is_u8 b0 -> is_u8 b1 -> is_u16 ck -> Forall attr_ok attrs -> (length tail < 4)%nat ->
  (14 <= length (attrs_layout attrs ++ tail))%nat ->
  exists pkt, ParsePacket (b0 :: b1 :: put_be16 ck ++ attrs_layout attrs ++ tail) = Val pkt
    /\ pkt = foldl set_attr (header_packet b0 b1 ck) attrs /\ packet_ok pkt.
Proof.
  intros Hb0 Hb1 Hck Ha Ht Hlen. eexists. rewrite ParsePacket_header by done.
  split_and!; [|done|by apply attrs_packet_ok, header_packet_ok].
  apply attr_loop_layout; [done|by left|done|]. rewrite length_app.
  pose proof (attrs_layout_length attrs). lia.
Qed.

Lemma ParsePacket_announcement_witness :
  exists pkt, ParsePacket (0 :: 1 :: put_be16 7 ++
      attrs_layout [(5, bytes_of_string "core"); (10, [0xff; 0xff; 0xff; 0xff])] ++ [0]) = Val pkt
    /\ pkt = foldl set_attr (header_packet 0 1 7)
               [(5, bytes_of_string "core"); (10, [0xff; 0xff; 0xff; 0xff])]
    /\ packet_ok pkt.
Proof.
  apply (ParsePacket_announcement 0 1 7 _ [0]);
    try (split; [discriminate|reflexivity]); [|by apply Nat.leb_le|by apply Nat.leb_le].
  apply Forall_cons_2; [|apply Forall_cons_2; [|apply Forall_nil_2]];
    (split; [split; [discriminate|reflexivity]|split; [reflexivity|repeat constructor; discriminate]]).
Defined.
