(* ===== verification/Discover.v ===== *)
(** * MNDP discovery (internal/mndp/discover.go, conn.go, types.go)

    The neighbour records, their source addresses as text, the listening
    loop with its clock and deadlines, the deduplicating map, the sorted
    listing and the broadcast address of the SOLICIT packet. *)

From S2P Require Import Prelude GoBytes MacAddr Mndp Sockets.

#[local] Open Scope Z_scope.
#[local] Arguments formatMAC : simpl never.

(** ** IP addresses (net.IP, net/netip) *)

(** A [net.IP] is [None] when nil, its bytes otherwise. *)
Definition IP : Type := option bytes.

Definition v4InV6Prefix : bytes := [0; 0; 0; 0; 0; 0; 0; 0; 0; 0; 255; 255].
Definition net_IPv4 (a b c d : Z) : bytes := v4InV6Prefix ++ [a; b; c; d].

(** [ip.To4()] *)
Definition To4 (ip : bytes) : option bytes :=
  if decide (length ip = 4%nat) then Some ip
  else if decide (length ip = 16%nat /\ take 12 ip = v4InV6Prefix) then Some (drop 12 ip)
  else None.

(** Decimal digits of a byte, hexadecimal digits of a 16-bit group. *)
Definition append_decimal (x : Z) : bytes :=
  (if 100 <=? x then [48 + x / 100] else []) ++ (if 10 <=? x then [48 + x / 10 mod 10] else [])
  ++ [48 + x mod 10].
Definition append_hex (x : Z) : bytes :=
  (if 0x1000 <=? x then [hex_digit (x / 0x1000)] else [])
  ++ (if 0x100 <=? x then [hex_digit (x / 0x100 mod 16)] else [])
  ++ (if 0x10 <=? x then [hex_digit (x / 0x10 mod 16)] else []) ++ [hex_digit (x mod 16)].

Definition dotted (ip : bytes) : bytes :=
  append_decimal (nth 0 ip 0) ++ [46] ++ append_decimal (nth 1 ip 0) ++ [46]
  ++ append_decimal (nth 2 ip 0) ++ [46] ++ append_decimal (nth 3 ip 0).

(** The longest run of at least two zero groups, the first of equals. *)
Fixpoint zero_prefix (l : list Z) : nat :=
  match l with 0 :: l => S (zero_prefix l) | _ => O end.
Definition zero_run (g : list Z) : nat * nat :=
  foldl (fun '(zs, ze) i =>
    let l := zero_prefix (drop i g) in
    if ((2 <=? l) && (ze - zs <? l))%nat then (i, i + l)%nat else (zs, ze))
    (255%nat, 255%nat) (seq 0 8).

Fixpoint emit_groups (fuel : nat) (g : list Z) (zs ze i : nat) : bytes :=
  match fuel with
  | O => []
  | S fuel =>
      if (8 <=? i)%nat then []
      else if (i =? zs)%nat then
        [58; 58] ++ (if (8 <=? ze)%nat then []
                     else append_hex (nth ze g 0) ++ emit_groups fuel g zs ze (S ze))
      else (if (0 <? i)%nat then [58] else []) ++ append_hex (nth i g 0)
           ++ emit_groups fuel g zs ze (S i)
  end.

Fixpoint groups (b : bytes) : list Z :=
  match b with hi :: lo :: b => (hi * 256 + lo) :: groups b | _ => [] end.

(** [ip.String()] *)
Definition IP_String (ip : bytes) : bytes :=
  if decide (ip = []) then bytes_of_string "<nil>"
  else match To4 ip with
  | Some ip4 => dotted ip4
  | None =>
      if decide (length ip = 16%nat) then
        let g := groups ip in
        let '(zs, ze) := zero_run g in emit_groups 9 g zs ze 0
      else [63] ++ mjoin (hex2 <$> ip)
  end.

Example ip6_string : IP_String [0xfe; 0x80; 0; 0; 0; 0; 0; 0; 0x4e; 0x5e; 0x0c; 0xff; 0xfe; 0; 0; 1]
  = bytes_of_string "fe80::4e5e:cff:fe00:1".
Proof. reflexivity. Qed.
Example ip6_loopback : IP_String (replicate 15 0 ++ [1]) = bytes_of_string "::1".
Proof. reflexivity. Qed.
Example ip4_string : IP_String (net_IPv4 192 168 88 1) = bytes_of_string "192.168.88.1".
Proof. reflexivity. Qed.

Record UDPAddr := mkUDPAddr { UDP_IP : IP; UDP_Port : Z }.

(** ** Neighbours *)

Record Neighbor := mkNeighbor {
  MAC : bytes;
  Identity : bytes;
  Platform : bytes;
  Version : bytes;
  Board : bytes;
  SoftwareID : bytes;
  Iface : bytes;
  IPv4 : bytes;
  IPv6 : bytes;
  Uptime : Z;
  SeenAt : Z;
}.

Definition packetToNeighbor (pkt : Packet) (src : option UDPAddr) (now : Z) : Neighbor :=
  let '(v4, v6) :=
    match src with
    | Some (mkUDPAddr (Some ip) _) =>
        match To4 ip with
        | Some ip4 => (IP_String ip4, [])
        | None => ([], IP_String ip)
        end
    | _ => ([], [])
    end in
  mkNeighbor (formatMAC (Mndp.MAC pkt)) (Mndp.Identity pkt) (Mndp.Platform pkt) (Mndp.Version pkt)
    (Hardware pkt) (SoftID pkt) (Mndp.Iface pkt) v4 v6 (Mndp.Uptime pkt) now.

(** Go's [<] on strings: bytewise lexicographic. *)
Fixpoint string_ltb (s t : bytes) : bool :=
  match s, t with
  | _, [] => false
  | [], _ :: _ => true
  | a :: s, b :: t => if a <? b then true else if b <? a then false else string_ltb s t
  end.

(** [sort.Slice]'s order: not strictly greater. *)
Definition mac_le (x y : Neighbor) : Prop := string_ltb (MAC y) (MAC x) = false.
#[export] Instance mac_le_dec x y : Decision (mac_le x y).
Proof. unfold mac_le. apply _. Defined.

(** The values of the map in some order, sorted by address. *)
Definition collectNeighbors (seen : gmap bytes Neighbor) : list Neighbor :=
  merge_sort mac_le (map_to_list seen).*2.

(** ** The SOLICIT's destination *)

Inductive net_addr :=
| IPNet (ip : bytes) (mask : bytes)
| OtherAddr.

Inductive mndp_net_error :=
| errBind (errno : Z)           (* mndp: bind UDP/5678: %w *)
| errInterface (name : bytes)   (* mndp: interface %q: %w *)
| errAddrs (name : bytes)       (* mndp: addrs for %q: %w *)
| errNoIPv4 (name : bytes)      (* mndp: interface %q has no IPv4 address *)
| errRead.                      (* mndp: read: %w *)

Definition IPv4bcast : bytes := net_IPv4 255 255 255 255.

(** [ip4[i] | ^ipnet.Mask[i]] for i = 0..3 into a fresh 4-byte slice. *)
Fixpoint bcast_loop {E} (n i : nat) (ip4 mask out : bytes) : outcome E bytes :=
  match n with
  | O => Val out
  | S n =>
      a ← index ip4 i;
      m ← index mask i;
      out ← set_index out i (Z.lor a (Z.lxor m 255));
      bcast_loop n (S i) ip4 mask out
  end.

Fixpoint first_bcast (name : bytes) (addrs : list net_addr) : outcome mndp_net_error UDPAddr :=
  match addrs with
  | [] => Fail (errNoIPv4 name)
  | OtherAddr :: addrs => first_bcast name addrs
  | IPNet ip mask :: addrs =>
      match To4 ip with
      | None => first_bcast name addrs
      | Some ip4 =>
          b ← bcast_loop 4 0 ip4 mask (make 4);
          Val (mkUDPAddr (Some b) mndpPort)
      end
  end.

(** [interfaces name] is what [net.InterfaceByName(name)] finds, [None] for
    an error: the addresses [Addrs()] returns, [None] again for an error. *)
Definition resolveBroadcast (interfaces : bytes -> option (option (list net_addr))) (iface : bytes)
    : outcome mndp_net_error UDPAddr :=
  if decide (iface = []) then Val (mkUDPAddr (Some IPv4bcast) mndpPort)
  else match interfaces iface with
  | None => Fail (errInterface iface)
  | Some None => Fail (errAddrs iface)
  | Some (Some addrs) => first_bcast iface addrs
  end.

(** ** The listening loop *)

(** What [ReadFromUDP] does in a turn: the read deadline passes, another
    error, or a datagram and its source. *)
Inductive read_result :=
| ReadTimeout
| ReadError
| ReadDatagram (d : bytes) (src : option UDPAddr).

(** One turn of the loop as the environment plays it: the clock at the loop
    condition, whether the context is done, the clock for the read deadline,
    the read, and the clock of [SeenAt]. *)
Record Turn := mkTurn {
  t_cond : Z;
  t_done : bool;
  t_now : Z;
  t_read : read_result;
  t_seen : Z;
}.

Definition maxPacketBuf : nat := 1500.
Definition Millisecond : Z := 1000000.

Record disc_result := mkResult {
  r_neighbors : list Neighbor;
  r_err : option mndp_net_error;
  r_solicit : option UDPAddr;     (* destination of the SOLICIT, if one was sent *)
  r_deadlines : list Z;           (* arguments of SetReadDeadline, newest first *)
}.

Definition read_deadline (deadline now : Z) : Z :=
  let rd := now + 500 * Millisecond in
  if deadline <? rd then deadline else rd.

(** The datagram part of a turn. *)
Definition hear (seen : gmap bytes Neighbor) (d : bytes) (src : option UDPAddr) (now : Z)
    : outcome mndp_net_error (gmap bytes Neighbor) :=
  match ParsePacket (take maxPacketBuf d) with
  | Panic => Panic
  | Fail _ => Val seen
  | Val pkt =>
      if decide (Mndp.MAC pkt = make 6) then Val seen
      else Val (<[Mndp.MAC pkt := packetToNeighbor pkt src now]> seen)
  end.

(** [None]: the turns are used up and the loop is still running. *)
Fixpoint discover_loop (turns : list Turn) (deadline : Z) (seen : gmap bytes Neighbor)
    (sol : option UDPAddr) (rds : list Z) : outcome mndp_net_error (option disc_result) :=
  match turns with
  | [] => Val None
  | t :: turns =>
      if t_cond t <? deadline then
        if t_done t then Val (Some (mkResult (collectNeighbors seen) None sol rds))
        else
          let rds := read_deadline deadline (t_now t) :: rds in
          match t_read t with
          | ReadTimeout => discover_loop turns deadline seen sol rds
          | ReadError => Val (Some (mkResult (collectNeighbors seen) (Some errRead) sol rds))
          | ReadDatagram d src =>
              seen ← hear seen d src (t_seen t);
              discover_loop turns deadline seen sol rds
          end
      else Val (Some (mkResult (collectNeighbors seen) None sol rds))
  end.

Record disc_env := mkDiscEnv {
  e_kernel : kernel;
  e_interfaces : bytes -> option (option (list net_addr));
  e_start : Z;                                        (* time.Now() at the start *)
  e_turns : list Turn;
}.

Definition Discover (env : disc_env) (iface : bytes) (timeout : Z)
    : outcome mndp_net_error (option disc_result) :=
  match (openListener (e_kernel env)).1 with
  | Fail e => Val (Some (mkResult [] (Some (errBind e)) None []))
  | Panic => Panic
  | Val _ =>
      sol ← (match resolveBroadcast (e_interfaces env) iface with
             | Val bcast => Val (Some bcast)
             | Fail _ => Val None
             | Panic => Panic
             end);
      discover_loop (e_turns env) (e_start env + timeout) ∅ sol []
  end.

(** The descriptors once [Discover] has returned: [defer conn.Close()]. *)
Definition after_discover (env : disc_env) : kernel :=
  match openListener (e_kernel env) with (Val fd, k) => (close fd k).2 | (_, k) => k end.

(** ** Lemmas: the order of the listing *)

Lemma string_ltb_irrefl s : string_ltb s s = false.
Proof. induction s as [|a s IH]; [done|]. cbn. by rewrite Z.ltb_irrefl. Qed.

Lemma string_ltb_trans s : forall t u,
  string_ltb t s = false -> string_ltb u t = false -> string_ltb u s = false.
Proof.
  induction s as [|a s IH]; intros [|b t] [|c u]; cbn; try done.
  case_bool_lia; try done. apply IH.
Qed.

Lemma string_ltb_total s : forall t, string_ltb t s = false \/ string_ltb s t = false.
Proof.
  induction s as [|a s IH]; intros [|b t]; cbn; try by eauto. case_bool_lia; eauto.
Qed.

Lemma string_ltb_antisymm s : forall t,
  string_ltb t s = false -> string_ltb s t = false -> s = t.
Proof.
  induction s as [|a s IH]; intros [|b t]; cbn; try done. case_bool_lia; try done.
  intros. f_equal; [lia|auto].
Qed.

#[export] Instance mac_le_trans : Transitive mac_le.
Proof. intros x y z. unfold mac_le. eauto using string_ltb_trans. Qed.
#[export] Instance mac_le_total : Total mac_le.
Proof. intros x y. apply string_ltb_total. Qed.

(** Every entry is filed under the address it displays. *)
Definition seen_ok (seen : gmap bytes Neighbor) : Prop :=
  map_Forall (fun m n => length m = 6%nat /\ bytes_ok m /\ MAC n = formatMAC m) seen.

Lemma seen_MACs_NoDup seen : seen_ok seen -> NoDup (MAC <$> (map_to_list seen).*2).
Proof.
  intros Hok. rewrite <- list_fmap_compose.
  assert (Forall (fun p => length p.1 = 6%nat /\ bytes_ok p.1 /\ MAC p.2 = formatMAC p.1)
            (map_to_list seen)) as HF.
  { apply Forall_forall. intros [m n] Hp. apply elem_of_map_to_list in Hp. exact (Hok m n Hp). }
  pose proof (NoDup_fst_map_to_list seen) as HN. revert HF HN.
  induction (map_to_list seen) as [|[m n] l IH]; cbn; intros HF HN; [apply NoDup_nil_2|].
  apply Forall_cons_1 in HF as [(Hm & Hmo & Hn) HF]. apply NoDup_cons in HN as [Hni HN].
  cbn [fst snd] in *. apply NoDup_cons. split; [|by apply IH].
  intros ([m' n'] & Heq & Hin)%list_elem_of_fmap. cbn in Heq.
  rewrite Forall_forall in HF. destruct (HF _ Hin) as (Hm' & Hmo' & Hn'). cbn [fst snd] in *.
  apply Hni. apply list_elem_of_fmap. exists (m', n'). split; [|done]. cbn.
  apply formatMAC_inj; try done; congruence.
Qed.

Lemma NoDup_fmap_eq {A B} (f : A -> B) l x y :
  NoDup (f <$> l) -> x ∈ l -> y ∈ l -> f x = f y -> x = y.
Proof.
  induction l as [|z l IH]; [by intros _ ?%not_elem_of_nil|]. cbn. rewrite NoDup_cons.
  intros [Hz HN] [->|Hx]%elem_of_cons [->|Hy]%elem_of_cons Hf; auto;
    exfalso; apply Hz; apply list_elem_of_fmap; eauto.
Qed.

(** Any sorted arrangement of the entries is the one the model computes. *)
Lemma collect_unique seen out :
  seen_ok seen -> out ≡ₚ (map_to_list seen).*2 -> StronglySorted mac_le out ->
  out = collectNeighbors seen.
Proof.
  intros Hok Hp Hs. unfold collectNeighbors.
  apply (StronglySorted_unique_strong mac_le); [|done|apply StronglySorted_merge_sort; apply _|].
  - intros x y Hx Hy Hxy Hyx. apply (NoDup_fmap_eq MAC (map_to_list seen).*2).
    + by apply seen_MACs_NoDup.
    + by rewrite <- Hp.
    + by rewrite <- (merge_sort_Permutation mac_le).
    + by apply string_ltb_antisymm.
  - by rewrite merge_sort_Permutation.
Qed.

Lemma elem_of_collect seen n : n ∈ collectNeighbors seen <-> exists m, seen !! m = Some n.
Proof.
  unfold collectNeighbors. rewrite merge_sort_Permutation, list_elem_of_fmap. split.
  - intros ([m n'] & -> & Hp%elem_of_map_to_list). eauto.
  - intros (m & Hm). exists (m, n). split; [done|]. by apply elem_of_map_to_list.
Qed.

(** ** Lemmas: the loop *)

(** The announcement a turn's datagram carries, if it counts. *)
Definition heard (t : Turn) : option (bytes * Neighbor) :=
  match t_read t with
  | ReadDatagram d src =>
      match ParsePacket (take maxPacketBuf d) with
      | Val pkt =>
          if decide (Mndp.MAC pkt = make 6) then None
          else Some (Mndp.MAC pkt, packetToNeighbor pkt src (t_seen t))
      | _ => None
      end
  | _ => None
  end.

(** The last announcement of an address. *)
Fixpoint last_heard (m : bytes) (l : list (bytes * Neighbor)) : option Neighbor :=
  match l with
  | [] => None
  | (m', n) :: l =>
      match last_heard m l with
      | Some n' => Some n'
      | None => if decide (m' = m) then Some n else None
      end
  end.

Definition turn_bytes_ok (t : Turn) : Prop :=
  match t_read t with ReadDatagram d _ => bytes_ok d | _ => True end.

(** The turns after which the loop goes on. *)
Definition continues (deadline : Z) (t : Turn) : Prop :=
  t_cond t < deadline /\ t_done t = false /\ t_read t <> ReadError.

Definition file_heard (seen : gmap bytes Neighbor) (l : list (bytes * Neighbor)) : gmap bytes Neighbor :=
  foldl (fun seen p => <[p.1 := p.2]> seen) seen l.

Lemma file_heard_lookup l : forall seen m,
  file_heard seen l !! m = match last_heard m l with Some n => Some n | None => seen !! m end.
Proof.
  induction l as [|[m' n] l IH]; intros seen m; [done|]. cbn. unfold file_heard in IH. rewrite IH.
  destruct (last_heard m l); [done|]. case_decide; subst; cbn.
  - by rewrite lookup_insert_eq.
  - by rewrite lookup_insert_ne.
Qed.

Lemma hear_heard seen t d src : turn_bytes_ok t -> t_read t = ReadDatagram d src ->
  hear seen d src (t_seen t) = Val (file_heard seen (option_list (heard t))).
Proof.
  unfold turn_bytes_ok, hear, heard. intros Hb Hr. rewrite Hr in *.
  destruct (ParsePacket_ok (take maxPacketBuf d)) as [->|(pkt & -> & _)]; [by apply bytes_ok_take|done|].
  by case_decide.
Qed.

Lemma heard_ok t m n : turn_bytes_ok t -> heard t = Some (m, n) ->
  length m = 6%nat /\ bytes_ok m /\ MAC n = formatMAC m.
Proof.
  unfold turn_bytes_ok, heard. intros Hb Hh. destruct (t_read t) as [| |d src]; try done.
  destruct (ParsePacket_ok (take maxPacketBuf d)) as [Hp|(pkt & Hp & Hok)];
    [by apply bytes_ok_take| |]; rewrite Hp in Hh; [done|]. case_decide; [done|].
  injection Hh as <- <-. destruct Hok as (Hl & Hmo & _). split_and!; try done.
  unfold packetToNeighbor. by case_match.
Qed.

Lemma read_deadline_le deadline now : read_deadline deadline now <= deadline.
Proof. unfold read_deadline. cbv zeta. case_bool_lia. Qed.

Lemma discover_loop_pre pre : forall turns deadline seen sol rds,
  Forall turn_bytes_ok pre -> Forall (continues deadline) pre ->
  exists rds', Forall (fun rd => rd <= deadline) rds' /\ length rds' = length pre
    /\ discover_loop (pre ++ turns) deadline seen sol rds
       = discover_loop turns deadline (file_heard seen (omap heard pre)) sol (rds' ++ rds).
Proof.
  induction pre as [|t pre IH]; intros turns deadline seen sol rds Hb Hc.
  { exists []. by split_and!. }
  apply Forall_cons_1 in Hb as [Hb Hbs], Hc as [(Hd & Hdone & Hr) Hcs].
  cbn [app discover_loop omap list_omap]. rewrite (proj2 (Z.ltb_lt _ _) Hd), Hdone.
  set (rd := read_deadline deadline (t_now t)).
  assert (rd <= deadline) by apply read_deadline_le.
  destruct (t_read t) as [| |d src] eqn:Hread; [|done|].
  - destruct (IH turns deadline seen sol (rd :: rds) Hbs Hcs) as (rds' & ? & Hlen & ->).
    exists (rds' ++ [rd]). rewrite <- app_assoc, length_app, Hlen. split_and!; [|cbn; lia|].
    + apply Forall_app_2; [done|]. by apply Forall_singleton.
    + unfold heard. by rewrite Hread.
  - rewrite (hear_heard _ t), bind_val by done.
    destruct (IH turns deadline (file_heard seen (option_list (heard t))) sol (rd :: rds) Hbs Hcs)
      as (rds' & ? & Hlen & ->).
    exists (rds' ++ [rd]). rewrite <- app_assoc, length_app, Hlen. split_and!; [|cbn; lia|].
    + apply Forall_app_2; [done|]. by apply Forall_singleton.
    + by destruct (heard t).
Qed.

Lemma file_heard_ok l : forall seen, seen_ok seen ->
  Forall (fun p => length p.1 = 6%nat /\ bytes_ok p.1 /\ MAC p.2 = formatMAC p.1) l ->
  seen_ok (file_heard seen l).
Proof.
  induction l as [|[m n] l IH]; intros seen Hs Hl; [done|]. apply Forall_cons_1 in Hl as [Hp Hl].
  cbn [file_heard foldl]. apply IH; [|done]. by apply map_Forall_insert_2.
Qed.

Lemma heards_ok pre : Forall turn_bytes_ok pre ->
  Forall (fun p => length p.1 = 6%nat /\ bytes_ok p.1 /\ MAC p.2 = formatMAC p.1) (omap heard pre).
Proof.
  induction 1 as [|t pre Ht _ IH]; [done|]. cbn. destruct (heard t) as [[m n]|] eqn:Hh; [|done].
  apply Forall_cons_2; [|done]. by eapply heard_ok.
Qed.

Definition mac_lt (x y : Neighbor) : Prop := string_ltb (MAC x) (MAC y) = true.

Lemma NoDup_sorted_strict l :
  NoDup (MAC <$> l) -> StronglySorted mac_le l -> StronglySorted mac_lt l.
Proof.
  induction l as [|x l IH]; intros HN Hs; [constructor|].
  cbn in HN. apply NoDup_cons in HN as [Hx HN]. apply StronglySorted_inv in Hs as [Hs Hxl].
  constructor; [by apply IH|]. apply Forall_forall. intros y Hy.
  rewrite Forall_forall in Hxl. unfold mac_lt. destruct (string_ltb (MAC x) (MAC y)) eqn:Hlt; [done|].
  exfalso. apply Hx. apply list_elem_of_fmap. exists y. split; [|done].
  apply string_ltb_antisymm; [|done]. by apply Hxl.
Qed.

Lemma collect_strict seen : seen_ok seen -> StronglySorted mac_lt (collectNeighbors seen).
Proof.
  intros Hok. unfold collectNeighbors.
  apply NoDup_sorted_strict; [|apply StronglySorted_merge_sort; apply _].
  rewrite merge_sort_Permutation. by apply seen_MACs_NoDup.
Qed.

#[export] Instance continues_dec deadline t : Decision (continues deadline t).
Proof.
  assert (Decision (t_read t = ReadError)) by (destruct (t_read t); (by left) || by right).
  unfold continues. apply _.
Defined.

(** The turn the loop ends in. *)
Lemma discover_loop_stop t turns deadline seen sol rds : ~ continues deadline t ->
  exists r, discover_loop (t :: turns) deadline seen sol rds = Val (Some r)
    /\ r_neighbors r = collectNeighbors seen /\ r_solicit r = sol
    /\ (r_err r = None \/ (r_err r = Some errRead /\ t_read t = ReadError))
    /\ (Forall (fun rd => rd <= deadline) rds -> Forall (fun rd => rd <= deadline) (r_deadlines r)).
Proof.
  intros Hc. cbn [discover_loop]. unfold continues in Hc.
  destruct (Z.ltb_spec (t_cond t) deadline); [|eexists; split; [done|]; cbn; by auto].
  destruct (t_done t) eqn:Hd; [eexists; split; [done|]; cbn; by auto|].
  cbv zeta. destruct (t_read t) eqn:Hr; [by destruct Hc| |by destruct Hc].
  eexists. split; [done|]. cbn. split_and!; auto. intros Hrds. apply Forall_cons_2; [|done].
  apply read_deadline_le.
Qed.

Definition solicited (env : disc_env) (iface : bytes) : option UDPAddr :=
  match resolveBroadcast (e_interfaces env) iface with Val b => Some b | _ => None end.

(** The listener could be bound. *)
Definition e_bind_ok (env : disc_env) : bool :=
  match (openListener (e_kernel env)).1 with Val _ => true | _ => false end.
Lemma Discover_unbound env iface timeout : e_bind_ok env = false ->
  exists e, Discover env iface timeout = Val (Some (mkResult [] (Some (errBind e)) None [])).
Proof.
  unfold e_bind_ok, Discover. pose proof (openListener_cases (e_kernel env)) as H.
  destruct (openListener (e_kernel env)) as [[fd|e|] k]; [done|by eexists|done].
Qed.
Lemma after_discover_open env : k_open (after_discover env) = k_open (e_kernel env).
Proof.
  unfold after_discover. pose proof (openListener_cases (e_kernel env)) as H.
  destruct (openListener (e_kernel env)) as [[fd|e|] k]; [apply H|by destruct H as (l & ? & _)|done].
Qed.

Lemma Discover_loop env iface timeout :
  e_bind_ok env = true -> no_panic (resolveBroadcast (e_interfaces env) iface) ->
  Discover env iface timeout
  = discover_loop (e_turns env) (e_start env + timeout) ∅ (solicited env iface) [].
Proof.
  unfold Discover, solicited, e_bind_ok. destruct (openListener (e_kernel env)).1 as [fd| |]; [|done..]. intros _ Hp.
  by destruct (resolveBroadcast (e_interfaces env) iface).
Qed.

Lemma first_stop deadline turns :
  Forall (continues deadline) turns
  \/ exists pre t rest, turns = pre ++ t :: rest /\ Forall (continues deadline) pre
       /\ ~ continues deadline t.
Proof.
  induction turns as [|t turns IH]; [by left|].
  destruct (decide (continues deadline t)); [|right; by exists [], t, turns].
  destruct IH as [IH|(pre & t' & rest & -> & Hpre & Ht')]; [by left; apply Forall_cons_2|].
  right. exists (t :: pre), t', rest. split_and!; [done|by apply Forall_cons_2|done].
Qed.

(** No datagram makes the loop panic, and its error is only ever a result. *)
Lemma discover_loop_val turns : forall deadline seen sol rds, Forall turn_bytes_ok turns ->
  exists r, discover_loop turns deadline seen sol rds = Val r.
Proof.
  induction turns as [|t turns IH]; intros deadline seen sol rds Hb; [by eexists|].
  apply Forall_cons_1 in Hb as [Hb Hbs]. cbn [discover_loop].
  destruct (t_cond t <? deadline); [|by eexists]. destruct (t_done t); [by eexists|]. cbv zeta.
  destruct (t_read t) as [| |d src] eqn:Hr; [by apply IH|by eexists|].
  rewrite (hear_heard _ t), bind_val by done. by apply IH.
Qed.
Lemma Discover_val env iface timeout :
  no_panic (resolveBroadcast (e_interfaces env) iface) -> Forall turn_bytes_ok (e_turns env) ->
  exists r, Discover env iface timeout = Val r.
Proof.
  intros Hp Hb. destruct (e_bind_ok env) eqn:Hbind.
  - rewrite Discover_loop by done. by apply discover_loop_val.
  - destruct (Discover_unbound env iface timeout Hbind) as (e & ->). by eexists.
Qed.

(** One byte of the broadcast address. *)
Lemma bcast_byte x m : is_u8 x -> is_u8 m ->
  is_u8 (Z.lor x (Z.lxor m 255)) /\ Z.land (Z.lor x (Z.lxor m 255)) m = Z.land x m
  /\ Z.lor (Z.lor x (Z.lxor m 255)) m = 255.
Proof.
  intros Hx Hm.
  pose (P x m := bool_decide (is_u8 (Z.lor x (Z.lxor m 255)))
          && (Z.land (Z.lor x (Z.lxor m 255)) m =? Z.land x m)
          && (Z.lor (Z.lor x (Z.lxor m 255)) m =? 255)).
  assert (forallb (fun x => forallb (P x) (Z.of_nat <$> seq 0 256)) (Z.of_nat <$> seq 0 256) = true)
    as Hall by (vm_compute; reflexivity).
  pose proof (byte_forall _ (byte_forall _ Hall x Hx) m Hm) as HP. subst P. cbv beta in HP.
  rewrite !andb_true_iff, bool_decide_eq_true, !Z.eqb_eq in HP. tauto.
Qed.

(** ** Properties *)

(** C25. What [Discover] returns, whatever order the map is iterated in:
    the loop runs until the clock reaches the deadline, the context is done
    or a read fails, and then the listing is strictly sorted by displayed
    address (so no device appears twice) and consists of exactly the last
    announcement of every non-zero address heard before that; the SOLICIT
    went to the interface's broadcast address if it has one, and no read
    was allowed to outlast the deadline. *)
Theorem Discover_listing env iface timeout pre t rest :
  e_bind_ok env = true -> no_panic (resolveBroadcast (e_interfaces env) iface) ->
  e_turns env = pre ++ t :: rest -> Forall turn_bytes_ok pre ->
  Forall (continues (e_start env + timeout)) pre -> ~ continues (e_start env + timeout) t ->
  exists r, Discover env iface timeout = Val (Some r)
    /\ StronglySorted mac_lt (r_neighbors r)
    /\ (forall n, n ∈ r_neighbors r <-> exists m, last_heard m (omap heard pre) = Some n)
    /\ (r_err r = None \/ (r_err r = Some errRead /\ t_read t = ReadError))
    /\ r_solicit r = solicited env iface
    /\ Forall (fun rd => rd <= e_start env + timeout) (r_deadlines r).
Proof.
  intros Hb Hp Hturns Hok Hpre Ht. rewrite Discover_loop, Hturns by done.
  destruct (discover_loop_pre pre (t :: rest) _ ∅ (solicited env iface) [] Hok Hpre)
    as (rds & Hrds & _ & ->).
  destruct (discover_loop_stop t rest _ (file_heard ∅ (omap heard pre)) (solicited env iface) (rds ++ []) Ht)
    as (r & -> & Hn & Hs & He & Hd).
  exists r. rewrite Hn. split_and!; try done.
  - by apply collect_strict, file_heard_ok, heards_ok.
  - intros n. rewrite elem_of_collect. f_equiv. intros m. rewrite file_heard_lookup.
    destruct (last_heard m _); [done|]. by rewrite lookup_empty.
  - apply Hd. by rewrite app_nil_r.
Qed.

(** Two devices announcing, one of them twice. *)
Definition announce (m : bytes) (name : string) : bytes :=
  [0; 1; 0; 0] ++ attrs_layout [(1, m); (5, bytes_of_string name)].
Definition heard_turn (clock : Z) (d : bytes) : Turn :=
  mkTurn clock false clock
    (ReadDatagram d (Some (mkUDPAddr (Some (net_IPv4 10 0 0 1)) 5678))) clock.
Definition sample_pre : list Turn :=
  [heard_turn 0 (announce [2; 0; 0; 0; 0; 9] "nine"); heard_turn 10 (announce [2; 0; 0; 0; 0; 1] "one");
   mkTurn 20 false 21 ReadTimeout 0; heard_turn 30 (announce [2; 0; 0; 0; 0; 9] "nine again")].
Definition sample_stop : Turn := mkTurn 100 false 100 ReadTimeout 0.
Definition sample_env : disc_env :=
  mkDiscEnv (mkKernel {[0; 1; 2]}%nat [] []) (fun _ => Some (Some [IPNet (net_IPv4 10 0 0 7) [255; 255; 255; 0]])) 0
    (sample_pre ++ [sample_stop]).

Example Discover_sample :
  match Discover sample_env (bytes_of_string "eth0") 50 with
  | Val (Some r) => Some (map Identity (r_neighbors r), r_solicit r)
  | _ => None
  end = Some ([bytes_of_string "one"; bytes_of_string "nine again"],
              Some (mkUDPAddr (Some [10; 0; 0; 255]) 5678)).
Proof. vm_compute. reflexivity. Qed.

Lemma Discover_listing_witness :
  exists r, Discover sample_env (bytes_of_string "eth0") 50 = Val (Some r)
    /\ StronglySorted mac_lt (r_neighbors r)
    /\ (forall n, n ∈ r_neighbors r <-> exists m, last_heard m (omap heard sample_pre) = Some n)
    /\ (r_err r = None \/ (r_err r = Some errRead /\ t_read sample_stop = ReadError))
    /\ r_solicit r = solicited sample_env (bytes_of_string "eth0")
    /\ Forall (fun rd => rd <= e_start sample_env + 50) (r_deadlines r).
Proof.
  apply (Discover_listing sample_env (bytes_of_string "eth0") 50 sample_pre sample_stop []);
    [reflexivity|exact I|reflexivity| | |].
  - apply Forall_cons_2; [|apply Forall_cons_2; [|apply Forall_cons_2; [|apply Forall_cons_2;
      [|apply Forall_nil_2]]]]; try exact I; repeat constructor; discriminate.
  - repeat constructor; discriminate.
  - intros [H _]. discriminate H.
Defined.

(** C26. [Discover] returns: if every turn of the loop takes at least
    [delta] of clock time, it has returned after at most
    [timeout / delta + 1] turns, whatever was received. *)
Theorem Discover_returns env iface timeout delta :
  no_panic (resolveBroadcast (e_interfaces env) iface) ->
  Forall turn_bytes_ok (e_turns env) -> 0 < delta ->
  (forall i t, e_turns env !! i = Some t -> e_start env + Z.of_nat i * delta <= t_cond t) ->
  timeout <= delta * (Z.of_nat (length (e_turns env)) - 1) ->
  e_turns env <> [] ->
  exists r, Discover env iface timeout = Val (Some r).
Proof.
  intros Hp Hok Hd Hclock Hlen Hne. destruct (e_bind_ok env) eqn:Hb.
  2:{ destruct (Discover_unbound env iface timeout Hb) as (e & ->). by eexists. }
  rewrite Discover_loop by done.
  destruct (first_stop (e_start env + timeout) (e_turns env)) as [Hall|(pre & t & rest & Hturns & Hpre & Ht)].
  - exfalso. destruct (exists_last Hne) as (pre & t & Hturns).
    rewrite Hturns in Hclock, Hall, Hlen. apply Forall_app in Hall as [_ Hall]. inv_Forall.
    specialize (Hclock (length pre) t). rewrite list_lookup_middle in Hclock by done.
    specialize (Hclock eq_refl). rewrite length_app in Hlen. cbn in Hlen.
    match goal with H : continues _ t |- _ => destruct H as [Hlt _] end. nia.
  - rewrite Hturns in Hok |- *. apply Forall_app in Hok as [Hok _].
    destruct (discover_loop_pre pre (t :: rest) _ ∅ (solicited env iface) [] Hok Hpre)
      as (rds & _ & _ & ->).
    destruct (discover_loop_stop t rest _ (file_heard ∅ (omap heard pre)) (solicited env iface) (rds ++ []) Ht)
      as (r & -> & _). by exists r.
Qed.

Lemma Discover_returns_witness :
  exists r, Discover sample_env (bytes_of_string "eth0") 40 = Val (Some r).
Proof.
  apply (Discover_returns sample_env (bytes_of_string "eth0") 40 10);
    [exact I| |reflexivity| |discriminate|discriminate].
  - apply Forall_cons_2; [|apply Forall_cons_2; [|apply Forall_cons_2; [|apply Forall_cons_2;
      [|apply Forall_cons_2; [|apply Forall_nil_2]]]]]; try exact I; repeat constructor; discriminate.
  - intros i t. do 5 (destruct i as [|i]; [intros [= <-]; discriminate|]). destruct i; discriminate.
Defined.

(** The map's iteration order does not show: any arrangement of the
    entries that is sorted by displayed address is the listing. *)
Theorem collectNeighbors_deterministic seen out :
  seen_ok seen -> out ≡ₚ (map_to_list seen).*2 -> Sorted mac_le out -> out = collectNeighbors seen.
Proof. intros Hs Hp Hsort. apply collect_unique; [done|done|]. by apply (Sorted_StronglySorted _). Qed.

Definition sample_neighbor (m : bytes) : Neighbor := mkNeighbor (formatMAC m) [] [] [] [] [] [] [] [] 0 0.
Lemma collectNeighbors_deterministic_witness :
  let n1 := sample_neighbor [2; 0; 0; 0; 0; 1] in
  let n2 := sample_neighbor [2; 0; 0; 0; 0; 2] in
  [n1; n2] = collectNeighbors (<[[2; 0; 0; 0; 0; 2] := n2]> {[ [2; 0; 0; 0; 0; 1] := n1 ]}).
Proof.
  cbv zeta. apply collectNeighbors_deterministic.
  - apply map_Forall_insert_2; [|apply map_Forall_singleton];
      (split; [reflexivity|split; [repeat constructor; discriminate|reflexivity]]).
  - rewrite map_to_list_insert by reflexivity. rewrite map_to_list_singleton. apply Permutation_swap.
  - repeat constructor.
Defined.

(** The SOLICIT goes to the directed broadcast address of the
    interface's first IPv4 address: the address's network bits and all host
    bits set, on the discovery port; without one it is an error, and the
    only panic is a mask of fewer than four bytes. *)
Theorem resolveBroadcast_directed interfaces iface pre ip mask rest a b c d :
  iface <> [] -> interfaces iface = Some (Some (pre ++ IPNet ip mask :: rest)) ->
  Forall (fun x => match x with IPNet i _ => To4 i = None | OtherAddr => True end) pre ->
  To4 ip = Some [a; b; c; d] -> bytes_ok [a; b; c; d] -> bytes_ok mask ->
  if decide (4 <= length mask)%nat then
    exists out, resolveBroadcast interfaces iface = Val (mkUDPAddr (Some out) 5678)
      /\ length out = 4%nat /\ bytes_ok out
      /\ forall i x m o, [a; b; c; d] !! i = Some x -> mask !! i = Some m -> out !! i = Some o ->
           Z.land o m = Z.land x m /\ Z.lor o m = 255
  else resolveBroadcast interfaces iface = Panic.
Proof.
  intros Hne Hif Hpre H4 Hip Hm. unfold resolveBroadcast. rewrite (decide_False (P := iface = [])), Hif by done.
  assert (first_bcast iface (pre ++ IPNet ip mask :: rest)
          = (o ← bcast_loop 4 0 [a; b; c; d] mask (make 4);
             Val (mkUDPAddr (Some o) mndpPort))) as ->.
  { clear Hif. induction Hpre as [|[i m|] l Hx _ IH]; cbn; [by rewrite H4|rewrite Hx; exact IH|exact IH]. }
  case_decide as Hlen.
  - destruct mask as [|m0 [|m1 [|m2 [|m3 mask]]]]; cbn [length] in Hlen; try lia. inv_Forall.
    eexists. split; [reflexivity|]. split; [done|].
    assert (forall x m, is_u8 x -> is_u8 m -> is_u8 (Z.lor x (Z.lxor m 255))
              /\ Z.land (Z.lor x (Z.lxor m 255)) m = Z.land x m
              /\ Z.lor (Z.lor x (Z.lxor m 255)) m = 255) as Hbits by (apply bcast_byte).
    split.
    + repeat apply Forall_cons_2; try done; by apply Hbits.
    + intros i x m o. do 4 (destruct i as [|i]; [intros [= <-] [= <-] [= <-]; by apply Hbits|]). done.
  - do 4 (destruct mask as [|? mask]; [done|]). cbn in Hlen. lia.
Qed.

Lemma resolveBroadcast_directed_witness :
  exists out, resolveBroadcast (fun _ => Some (Some [OtherAddr; IPNet (net_IPv4 10 1 2 3) [255; 255; 252; 0]]))
      (bytes_of_string "eth0") = Val (mkUDPAddr (Some out) 5678)
    /\ length out = 4%nat /\ bytes_ok out
    /\ forall i x m o, [10; 1; 2; 3] !! i = Some x -> [255; 255; 252; 0] !! i = Some m ->
         out !! i = Some o -> Z.land o m = Z.land x m /\ Z.lor o m = 255.
Proof.
  exact (resolveBroadcast_directed
    (fun _ => Some (Some [OtherAddr; IPNet (net_IPv4 10 1 2 3) [255; 255; 252; 0]]))
    (bytes_of_string "eth0") [OtherAddr] (net_IPv4 10 1 2 3) [255; 255; 252; 0] [] 10 1 2 3
    ltac:(discriminate) eq_refl ltac:(repeat constructor) eq_refl
    ltac:(repeat constructor; discriminate) ltac:(repeat constructor; discriminate)).
Defined.
