(* ===== verification/GoText.v ===== *)
(** * Go text: UTF-8, strconv and flag

    The parts of the standard library the command handling is written with:
    [range] over a string and [WriteRune], [unicode.IsSpace],
    [strconv.ParseUint], [ParseInt] and [ParseBool], and [flag.FlagSet]'s
    parser with [ContinueOnError].  Text is a list of bytes, a rune a [Z]. *)

From S2P Require Import Prelude GoBytes.

#[local] Open Scope Z_scope.

(** A string literal. *)
Abbreviation lit := bytes_of_string.

(** ** UTF-8 *)

Definition RuneError : Z := 0xFFFD.

Definition cont (b : Z) : bool := (0x80 <=? b) && (b <=? 0xBF).
Definition lead2 (b0 : Z) : bool := (0xC2 <=? b0) && (b0 <=? 0xDF).
(** The second byte's range excludes overlong forms, surrogates and values
    above U+10FFFF. *)
Definition lead3 (b0 b1 : Z) : bool :=
  if b0 =? 0xE0 then (0xA0 <=? b1) && (b1 <=? 0xBF)
  else if b0 =? 0xED then (0x80 <=? b1) && (b1 <=? 0x9F)
  else (0xE1 <=? b0) && (b0 <=? 0xEF) && cont b1.
Definition lead4 (b0 b1 : Z) : bool :=
  if b0 =? 0xF0 then (0x90 <=? b1) && (b1 <=? 0xBF)
  else if b0 =? 0xF4 then (0x80 <=? b1) && (b1 <=? 0x8F)
  else (0xF1 <=? b0) && (b0 <=? 0xF3) && cont b1.

(** The runes [for _, r := range s] yields: an ill-formed byte is
    [RuneError], one byte wide. *)
Fixpoint runes (s : bytes) : list Z :=
  match s with
  | [] => []
  | b0 :: r1 =>
      if b0 <? 0x80 then b0 :: runes r1
      else match r1 with
      | [] => [RuneError]
      | b1 :: r2 =>
          if lead2 b0 && cont b1 then
            Z.lor (Z.shiftl (Z.land b0 0x1F) 6) (Z.land b1 0x3F) :: runes r2
          else match r2 with
          | [] => RuneError :: runes r1
          | b2 :: r3 =>
              if lead3 b0 b1 && cont b2 then
                Z.lor (Z.shiftl (Z.land b0 0x0F) 12)
                  (Z.lor (Z.shiftl (Z.land b1 0x3F) 6) (Z.land b2 0x3F)) :: runes r3
              else match r3 with
              | [] => RuneError :: runes r1
              | b3 :: r4 =>
                  if lead4 b0 b1 && cont b2 && cont b3 then
                    Z.lor (Z.shiftl (Z.land b0 0x07) 18)
                      (Z.lor (Z.shiftl (Z.land b1 0x3F) 12)
                         (Z.lor (Z.shiftl (Z.land b2 0x3F) 6) (Z.land b3 0x3F))) :: runes r4
                  else RuneError :: runes r1
              end
          end
      end
  end.

Definition valid_rune (r : Z) : bool :=
  (0 <=? r) && (r <? 0xD800) || (0xE000 <=? r) && (r <=? 0x10FFFF).

(** [WriteRune] (utf8.AppendRune) *)
Definition encode_rune (r : Z) : bytes :=
  let r := if valid_rune r then r else RuneError in
  if r <? 0x80 then [r]
  else if r <? 0x800 then
    [Z.lor 0xC0 (Z.shiftr r 6); Z.lor 0x80 (Z.land r 0x3F)]
  else if r <? 0x10000 then
    [Z.lor 0xE0 (Z.shiftr r 12); Z.lor 0x80 (Z.land (Z.shiftr r 6) 0x3F); Z.lor 0x80 (Z.land r 0x3F)]
  else
    [Z.lor 0xF0 (Z.shiftr r 18); Z.lor 0x80 (Z.land (Z.shiftr r 12) 0x3F);
     Z.lor 0x80 (Z.land (Z.shiftr r 6) 0x3F); Z.lor 0x80 (Z.land r 0x3F)].
Definition text (rs : list Z) : bytes := mjoin (encode_rune <$> rs).

(** [unicode.IsSpace] *)
Definition IsSpace (r : Z) : bool :=
  ((9 <=? r) && (r <=? 13)) || (r =? 0x20) || (r =? 0x85) || (r =? 0xA0) || (r =? 0x1680)
  || ((0x2000 <=? r) && (r <=? 0x200A)) || (r =? 0x2028) || (r =? 0x2029) || (r =? 0x202F)
  || (r =? 0x205F) || (r =? 0x3000).

(** ** Encoding and decoding *)

Lemma land_ones_mod x k : 0 <= k -> Z.land x (Z.ones k) = x mod 2 ^ k.
Proof. intros. by apply Z.land_ones. Qed.

(** The tag bits of a lead or continuation byte, as arithmetic. *)
Lemma tag_byte t k x : 0 <= k -> 0 <= x < 2 ^ k -> Z.lor (Z.shiftl t k) x = t * 2 ^ k + x.
Proof. intros. rewrite Z.lor_comm, lor_shiftl_add by lia. lia. Qed.
Lemma cont_byte x : Z.lor 0x80 (Z.land x 0x3F) = 128 + x mod 64.
Proof.
  change 0x3F with (Z.ones 6). rewrite Z.land_ones by lia.
  change 0x80 with (Z.shiftl 2 6). rewrite tag_byte; [done|lia|]. apply Z.mod_pos_bound. lia.
Qed.
Lemma cont_byte_ok x : cont (128 + x mod 64) = true.
Proof. pose proof (Z.mod_pos_bound x 64 eq_refl). unfold cont. by apply andb_true_iff; split; apply Z.leb_le; lia. Qed.
Lemma cont_byte_val x : Z.land (128 + x mod 64) 0x3F = x mod 64.
Proof.
  change 0x3F with (Z.ones 6). rewrite Z.land_ones by lia. change (2 ^ 6) with 64.
  rewrite Z.add_mod, Z.mod_mod by lia. change (128 mod 64) with 0. by rewrite Z.add_0_l, Z.mod_mod by lia.
Qed.
(** A lead byte with [k] value bits. *)
Lemma lead_byte t k x : 0 <= k -> 0 <= x < 2 ^ k ->
  Z.lor (Z.shiftl t k) x = t * 2 ^ k + x /\ Z.land (t * 2 ^ k + x) (Z.ones k) = x.
Proof.
  intros Hk Hx. rewrite tag_byte, Z.land_ones by lia. split; [done|].
  rewrite Z.add_comm, Z.mod_add, Z.mod_small by lia. done.
Qed.

Lemma runes_encode r s : valid_rune r = true -> runes (encode_rune r ++ s) = r :: runes s.
Proof.
  intros Hv. unfold encode_rune. rewrite Hv. cbv zeta.
  assert (0 <= r <= 0x10FFFF /\ ~ 0xD800 <= r < 0xE000) as [Hr Hs].
  { unfold valid_rune in Hv. destruct (Z.leb_spec 0 r), (Z.ltb_spec r 0xD800),
      (Z.leb_spec 0xE000 r), (Z.leb_spec r 0x10FFFF); cbn in Hv; try done; lia. }
  destruct (Z.ltb_spec r 0x80) as [H1|H1].
  { cbn [app runes]. by rewrite (proj2 (Z.ltb_lt _ _) H1). }
  rewrite !cont_byte, !Z.shiftr_div_pow2 by lia.
  change (2 ^ 6) with 64. change (2 ^ 12) with 4096. change (2 ^ 18) with 262144.
  destruct (Z.ltb_spec r 0x800) as [H2|H2]; [|destruct (Z.ltb_spec r 0x10000) as [H3|H3]].
  - destruct (lead_byte 6 5 (r / 64)) as [He Hd]; [lia|Z.to_euclidean_division_equations; lia|].
    change 0xC0 with (Z.shiftl 6 5). rewrite He. cbn [app runes].
    assert (lead2 (6 * 2 ^ 5 + r / 64) = true) as ->.
    { unfold lead2. apply andb_true_iff; split; apply Z.leb_le; Z.to_euclidean_division_equations; lia. }
    rewrite (proj2 (Z.ltb_ge _ _)) by (Z.to_euclidean_division_equations; lia).
    rewrite cont_byte_ok, cont_byte_val. cbn [andb]. f_equal.
    change 0x1F with (Z.ones 5). rewrite Hd, Z.lor_comm, lor_shiftl_add by (lia || apply Z.mod_pos_bound; lia).
    Z.to_euclidean_division_equations; lia.
  - destruct (lead_byte 14 4 (r / 4096)) as [He Hd]; [lia|Z.to_euclidean_division_equations; lia|].
    change 0xE0 with (Z.shiftl 14 4). rewrite He. cbn [app runes].
    rewrite (proj2 (Z.ltb_ge _ _)) by (Z.to_euclidean_division_equations; lia).
    assert (lead2 (14 * 2 ^ 4 + r / 4096) = false) as ->.
    { unfold lead2. apply andb_false_iff. right. apply Z.leb_gt. Z.to_euclidean_division_equations; lia. }
    assert (lead3 (14 * 2 ^ 4 + r / 4096) (128 + r / 64 mod 64) = true) as ->.
    { unfold lead3. rewrite cont_byte_ok. case_bool_lia; cbn [andb]; try done;
        Z.to_euclidean_division_equations; lia. }
    rewrite !cont_byte_ok, !cont_byte_val. cbn [andb]. f_equal.
    change 0x0F with (Z.ones 4). rewrite Hd.
    rewrite (Z.lor_comm (Z.shiftl (r / 64 mod 64) 6)), (lor_shiftl_add _ _ 6) by (lia || apply Z.mod_pos_bound; lia).
    rewrite Z.lor_comm, lor_shiftl_add; Z.to_euclidean_division_equations; lia.
  - destruct (lead_byte 30 3 (r / 262144)) as [He Hd]; [lia|Z.to_euclidean_division_equations; lia|].
    change 0xF0 with (Z.shiftl 30 3). rewrite He. cbn [app runes].
    rewrite (proj2 (Z.ltb_ge _ _)) by (Z.to_euclidean_division_equations; lia).
    assert (lead2 (30 * 2 ^ 3 + r / 262144) = false) as ->.
    { unfold lead2. apply andb_false_iff. right. apply Z.leb_gt. Z.to_euclidean_division_equations; lia. }
    assert (lead3 (30 * 2 ^ 3 + r / 262144) (128 + r / 4096 mod 64) = false) as ->.
    { unfold lead3. case_bool_lia; cbn [andb]; try done; Z.to_euclidean_division_equations; lia. }
    assert (lead4 (30 * 2 ^ 3 + r / 262144) (128 + r / 4096 mod 64) = true) as ->.
    { unfold lead4. rewrite cont_byte_ok. case_bool_lia; cbn [andb]; try done;
        Z.to_euclidean_division_equations; lia. }
    rewrite !cont_byte_ok, !cont_byte_val. cbn [andb]. f_equal.
    change 0x07 with (Z.ones 3). rewrite Hd.
    rewrite (Z.lor_comm (Z.shiftl (r / 64 mod 64) 6)), (lor_shiftl_add _ _ 6) by (lia || apply Z.mod_pos_bound; lia).
    rewrite (Z.lor_comm (Z.shiftl (r / 4096 mod 64) 12)), (lor_shiftl_add _ _ 12)
      by (Z.to_euclidean_division_equations; lia).
    rewrite Z.lor_comm, lor_shiftl_add; Z.to_euclidean_division_equations; lia.
Qed.

Lemma runes_text rs : Forall (fun r => valid_rune r = true) rs -> runes (text rs) = rs.
Proof.
  induction 1 as [|r rs Hr _ IH]; [done|]. change (text (r :: rs)) with (encode_rune r ++ text rs).
  by rewrite runes_encode, IH.
Qed.
Lemma encode_rune_nonempty r : encode_rune r <> [].
Proof. unfold encode_rune. cbv zeta. by repeat case_match. Qed.
Lemma text_nil rs : text rs = [] -> rs = [].
Proof.
  destruct rs as [|r rs]; [done|]. change (text (r :: rs)) with (encode_rune r ++ text rs).
  intros [H _]%app_eq_nil. by apply encode_rune_nonempty in H.
Qed.
Lemma text_app a b : text (a ++ b) = text a ++ text b.
Proof. unfold text. by rewrite fmap_app, join_app. Qed.

(** ** strings *)

(** [strings.Split(s, sep)] for a one-byte separator. *)
Fixpoint Split (s : bytes) (sep : Z) : list bytes :=
  match s with
  | [] => [[]]
  | c :: s =>
      if c =? sep then [] :: Split s sep
      else match Split s sep with l :: ls => (c :: l) :: ls | [] => [[c]] end
  end.

Definition HasPrefix (s p : bytes) : bool := bool_decide (take (length p) s = p).
(** [strings.TrimPrefix] and [strings.CutPrefix] *)
Definition CutPrefix (s p : bytes) : option bytes :=
  if HasPrefix s p then Some (drop (length p) s) else None.
Definition TrimPrefix (s p : bytes) : bytes := default s (CutPrefix s p).

(** [strings.Join] *)
Fixpoint Join (l : list bytes) (sep : bytes) : bytes :=
  match l with
  | [] => []
  | [s] => s
  | s :: l => s ++ sep ++ Join l sep
  end.

(** The rest of [s] after a leading space rune: the UTF-8 encodings of the
    runes [IsSpace] accepts.  None of them starts inside another rune, so
    scanning byte by byte finds the same spaces as scanning by rune. *)
Definition cut_space (s : bytes) : option bytes :=
  match s with
  | [] => None
  | c :: r =>
      if ((9 <=? c) && (c <=? 13)) || (c =? 32) then Some r
      else match r with
      | c1 :: r1 =>
          if (c =? 0xC2) && ((c1 =? 0x85) || (c1 =? 0xA0)) then Some r1
          else match r1 with
          | c2 :: r2 =>
              if ((c =? 0xE1) && (c1 =? 0x9A) && (c2 =? 0x80))
                 || ((c =? 0xE2) && (c1 =? 0x80)
                     && (((0x80 <=? c2) && (c2 <=? 0x8A)) || (c2 =? 0xA8) || (c2 =? 0xA9) || (c2 =? 0xAF)))
                 || ((c =? 0xE2) && (c1 =? 0x81) && (c2 =? 0x9F))
                 || ((c =? 0xE3) && (c1 =? 0x80) && (c2 =? 0x80))
              then Some r2 else None
          | [] => None
          end
      | [] => None
      end
  end.
(** The same at the end, on the reversed string. *)
Definition cut_space_rev (s : bytes) : option bytes :=
  match s with
  | [] => None
  | c :: r =>
      if match cut_space [c] with Some _ => true | None => false end then Some r
      else match r with
      | c1 :: r1 =>
          if match cut_space [c1; c] with Some [] => true | _ => false end then Some r1
          else match r1 with
          | c2 :: r2 =>
              if match cut_space [c2; c1; c] with Some [] => true | _ => false end then Some r2 else None
          | [] => None
          end
      | [] => None
      end
  end.
Fixpoint trim_with (cut : bytes -> option bytes) (fuel : nat) (s : bytes) : bytes :=
  match fuel, cut s with
  | S fuel, Some r => trim_with cut fuel r
  | _, _ => s
  end.
(** [strings.TrimSpace] *)
Definition TrimSpace (s : bytes) : bytes :=
  let s := trim_with cut_space (length s) s in
  rev (trim_with cut_space_rev (length s) (rev s)).

(** [strings.Fields] *)
Fixpoint fields_loop (fuel : nat) (cur s : bytes) : list bytes :=
  let done_ := match cur with [] => [] | _ => [cur] end in
  match fuel, s with
  | O, _ | _, [] => done_
  | S fuel, c :: r =>
      match cut_space s with
      | Some r => done_ ++ fields_loop fuel [] r
      | None => fields_loop fuel (cur ++ [c]) r
      end
  end.
Definition Fields (s : bytes) : list bytes := fields_loop (length s) [] s.

(** [strings.ToLower], on ASCII letters. *)
Definition to_lower (c : Z) : Z := if (65 <=? c) && (c <=? 90) then c + 32 else c.

Example trim_example :
  TrimSpace (bytes_of_string "  up " ++ [10; 0xC2; 0xA0]) = bytes_of_string "up".
Proof. reflexivity. Qed.
Example fields_example : Fields (bytes_of_string " eth0.7  VID: 7	 REORDER") =
  bytes_of_string <$> ["eth0.7"; "VID:"; "7"; "REORDER"]%string.
Proof. reflexivity. Qed.

(** ** fmt *)

(** [%d]; twenty digits hold every 64-bit number. *)
Fixpoint dec_digits (fuel : nat) (n : Z) : bytes :=
  match fuel with
  | O => []
  | S fuel => if n <? 10 then [48 + n] else dec_digits fuel (n / 10) ++ [48 + n mod 10]
  end.
Definition itoa (n : Z) : bytes :=
  if n <? 0 then 45 :: dec_digits 20 (- n) else dec_digits 20 n.

(** [%-*s] and [%*s]: a width counts runes. *)
Definition pad (width : nat) (s : bytes) : bytes := replicate (width - length (runes s)) 32.
Definition pad_right (width : nat) (s : bytes) : bytes := s ++ pad width s.
Definition pad_left (width : nat) (s : bytes) : bytes := pad width s ++ s.

Example itoa_max : itoa (2 ^ 64 - 1) = bytes_of_string "18446744073709551615".
Proof. reflexivity. Qed.
Example itoa_neg : itoa (-70) = bytes_of_string "-70".
Proof. reflexivity. Qed.

(** ** io and net errors the program tells apart *)

Inductive io_error :=
| io_EOF                       (* io.EOF *)
| io_ErrClosedPipe             (* io.ErrClosedPipe *)
| io_NoProgress                (* io.ErrNoProgress *)
| io_NetClosed                 (* net.ErrClosed *)
| io_Other (code : Z).

(** ** ASCII text *)

Definition ascii (s : bytes) : Prop := Forall (fun c => 0 <= c < 128) s.

Lemma runes_ascii s : ascii s -> runes s = s.
Proof.
  induction 1 as [|c s Hc _ IH]; [done|]. cbn [runes].
  rewrite (proj2 (Z.ltb_lt c 0x80)) by lia. by rewrite IH.
Qed.
Lemma length_pad_right width s : ascii s -> (length s <= width)%nat -> length (pad_right width s) = width.
Proof.
  intros Ha Hl. unfold pad_right, pad. rewrite length_app, length_replicate, runes_ascii by done. lia.
Qed.
Lemma length_pad_left width s : ascii s -> (length s <= width)%nat -> length (pad_left width s) = width.
Proof.
  intros Ha Hl. unfold pad_left, pad. rewrite length_app, length_replicate, runes_ascii by done. lia.
Qed.

Lemma dec_digits_ascii fuel : forall n, 0 <= n -> ascii (dec_digits fuel n).
Proof.
  induction fuel as [|fuel IH]; intros n Hn; [constructor|]. cbn [dec_digits].
  destruct (Z.ltb_spec n 10); [apply Forall_singleton; lia|].
  apply Forall_app_2; [apply IH, Z.div_pos; lia|]. apply Forall_singleton.
  pose proof (Z.mod_pos_bound n 10). lia.
Qed.
Lemma itoa_ascii n : ascii (itoa n).
Proof.
  unfold itoa. destruct (Z.ltb_spec n 0); [apply Forall_cons_2; [lia|]|]; apply dec_digits_ascii; lia.
Qed.
#[export] Hint Resolve itoa_ascii : mt.
