(* ===== verification/GoFlag.v ===== *)
(** * strconv, time.ParseDuration and flag

    The standard library's number parsers and [flag.FlagSet] with
    [ContinueOnError], as far as the program's command lines and
    environment variables use them.  A duration's fraction goes through
    float64, which is the standard library's [SpecFloat] here. *)

From S2P Require Import Prelude GoBytes GoText.
From Stdlib Require Import Floats.SpecFloat.

#[local] Open Scope Z_scope.

(** ** strconv *)

Definition lower (c : Z) : Z := Z.lor c 32.

(** Value of a digit or letter, in bases up to 36. *)
Definition digit_value (c : Z) : option Z :=
  if (48 <=? c) && (c <=? 57) then Some (c - 48)
  else if (97 <=? lower c) && (lower c <=? 122) then Some (lower c - 97 + 10)
  else None.

(** [underscoreOK]: underscores only between digits or after the prefix.
    [prev] is ['0'] after a digit, ['_'] after an underscore, ['^'] at the
    start and ['!'] after anything else. *)
Fixpoint underscore_loop (hex : bool) (prev : Z) (s : bytes) : bool :=
  match s with
  | [] => negb (prev =? 95)
  | c :: s =>
      if ((48 <=? c) && (c <=? 57)) || (hex && (97 <=? lower c) && (lower c <=? 102)) then
        underscore_loop hex 48 s
      else if c =? 95 then
        if prev =? 48 then underscore_loop hex 95 s else false
      else if prev =? 95 then false
      else underscore_loop hex 33 s
  end.
Definition underscoreOK (s : bytes) : bool :=
  let s := match s with c :: r => if (c =? 45) || (c =? 43) then r else s | [] => s end in
  match s with
  | 48 :: c :: r =>
      if (lower c =? 98) || (lower c =? 111) || (lower c =? 120) then
        underscore_loop (lower c =? 120) 48 r
      else underscore_loop false 94 s
  | _ => underscore_loop false 94 s
  end.

(** The digits of [ParseUint]; the result says whether underscores were
    seen. *)
Fixpoint uint_digits (base0 : bool) (base maxVal n : Z) (under : bool) (s : bytes)
    : option (Z * bool) :=
  match s with
  | [] => Some (n, under)
  | c :: s =>
      if (c =? 95) && base0 then uint_digits base0 base maxVal n true s
      else
        d ← digit_value c;
        if base <=? d then None
        else if (2 ^ 64 - 1) / base + 1 <=? n then None
        else
          let n1 := u64 (n * base + d) in
          if (n1 <? n * base) || (maxVal <? n1) then None
          else uint_digits base0 base maxVal n1 under s
  end.

(** [strconv.ParseUint(s, base, bitSize)] for base 0 or 10, [None] for an
    error. *)
Definition ParseUint (s : bytes) (base bitSize : Z) : option Z :=
  if decide (s = []) then None
  else
    let '(b, digits) :=
      if base =? 0 then
        match s with
        | 48 :: c :: d :: r =>
            if lower c =? 98 then (2, d :: r)
            else if lower c =? 111 then (8, d :: r)
            else if lower c =? 120 then (16, d :: r)
            else (8, c :: d :: r)
        | 48 :: r => (8, r)
        | _ => (10, s)
        end
      else (base, s) in
    match uint_digits (base =? 0) b (2 ^ bitSize - 1) 0 false digits with
    | Some (n, under) => if under && negb (underscoreOK s) then None else Some n
    | None => None
    end.

(** [strconv.ParseInt(s, base, 64)] *)
Definition ParseInt (s : bytes) (base : Z) : option Z :=
  match s with
  | [] => None
  | c :: r =>
      let neg := c =? 45 in
      un ← ParseUint (if (c =? 43) || (c =? 45) then r else s) base 64;
      if negb neg && (2 ^ 63 <=? un) then None
      else if neg && (2 ^ 63 <? un) then None
      else Some (if neg then - un else un)
  end.
Definition Atoi (s : bytes) : option Z := ParseInt s 10.

Definition one_of (s : bytes) (l : list string) : bool :=
  existsb (fun t => bool_decide (bytes_of_string t = s)) l.
Definition ParseBool (s : bytes) : option bool :=
  if one_of s ["1"; "t"; "T"; "true"; "TRUE"; "True"]%string then Some true
  else if one_of s ["0"; "f"; "F"; "false"; "FALSE"; "False"]%string then Some false
  else None.

Example parse_hex : ParseUint (bytes_of_string "0x1F_ff") 0 64 = Some 0x1fff.
Proof. reflexivity. Qed.
Example parse_octal : ParseUint (bytes_of_string "010") 0 64 = Some 8.
Proof. reflexivity. Qed.
Example parse_underscore : ParseUint (bytes_of_string "1__0") 0 64 = None.
Proof. reflexivity. Qed.
Example parse_max : ParseUint (bytes_of_string "18446744073709551615") 10 64 = Some (2 ^ 64 - 1).
Proof. reflexivity. Qed.
Example parse_over : ParseUint (bytes_of_string "18446744073709551616") 10 64 = None.
Proof. reflexivity. Qed.
Example parse_min : ParseInt (bytes_of_string "-9223372036854775808") 0 = Some (- 2 ^ 63).
Proof. reflexivity. Qed.

(** ** time.ParseDuration *)

(** float64, as far as fractions of durations need it. *)
Definition f64 (x : Z) : spec_float := binary_normalize 53 1024 x 0 false.
Definition f64_mul := SFmul 53 1024.
Definition f64_div := SFdiv 53 1024.
(** [uint64(x)] for a non-negative [x] in range. *)
Definition f64_trunc (x : spec_float) : Z :=
  match x with
  | S754_finite _ m e => if 0 <=? e then Z.pos m * 2 ^ e else Z.pos m / 2 ^ (- e)
  | _ => 0
  end.

Definition is_digit (c : Z) : bool := (48 <=? c) && (c <=? 57).

(** [leadingInt]: [None] when it overflows. *)
Fixpoint leadingInt (x : Z) (s : bytes) : option (Z * bytes) :=
  match s with
  | [] => Some (x, [])
  | c :: r =>
      if negb (is_digit c) then Some (x, s)
      else if 2 ^ 63 / 10 <? x then None
      else
        let x := x * 10 + (c - 48) in
        if 2 ^ 63 <? x then None else leadingInt x r
  end.
Fixpoint leadingFraction (x : Z) (scale : spec_float) (overflow : bool) (s : bytes)
    : Z * spec_float * bytes :=
  match s with
  | [] => (x, scale, [])
  | c :: r =>
      if negb (is_digit c) then (x, scale, s)
      else if overflow then leadingFraction x scale true r
      else if (2 ^ 63 - 1) / 10 <? x then leadingFraction x scale true r
      else
        let y := x * 10 + (c - 48) in
        if 2 ^ 63 <? y then leadingFraction x scale true r
        else leadingFraction y (f64_mul scale (f64 10)) false r
  end.

Fixpoint take_unit (s : bytes) : bytes * bytes :=
  match s with
  | [] => ([], [])
  | c :: r =>
      if (c =? 46) || is_digit c then ([], s)
      else let '(u, rest) := take_unit r in (c :: u, rest)
  end.

Definition unit_ns (u : bytes) : option Z :=
  if one_of u ["ns"%string] then Some 1
  else if one_of u ["us"%string] || bool_decide (u = [0xC2; 0xB5; 115])
          || bool_decide (u = [0xCE; 0xBC; 115]) then Some 1000
  else if one_of u ["ms"%string] then Some 1000000
  else if one_of u ["s"%string] then Some 1000000000
  else if one_of u ["m"%string] then Some 60000000000
  else if one_of u ["h"%string] then Some 3600000000000
  else None.

(** The loop over number-unit pairs; each consumes at least one byte. *)
Fixpoint duration_loop (fuel : nat) (d : Z) (s : bytes) : option Z :=
  match fuel, s with
  | _, [] => Some d
  | O, _ => None
  | S fuel, c :: _ =>
      if negb ((c =? 46) || is_digit c) then None
      else
        '(v, s1) ← leadingInt 0 s;
        let pre := negb (length s1 =? length s)%nat in
        let '(f, scale, s2, post) :=
          match s1 with
          | 46 :: r =>
              let '(f, scale, r2) := leadingFraction 0 (f64 1) false r in
              (f, scale, r2, negb (length r2 =? length r)%nat)
          | _ => (0, f64 1, s1, false)
          end in
        if negb pre && negb post then None
        else
          let '(u, s3) := take_unit s2 in
          if decide (u = []) then None
          else
            unit ← unit_ns u;
            if 2 ^ 63 / unit <? v then None
            else
              let v := v * unit in
              let v := if 0 <? f
                       then u64 (v + f64_trunc (f64_mul (f64 f) (f64_div (f64 unit) scale)))
                       else v in
              if 2 ^ 63 <? v then None
              else
                let d := u64 (d + v) in
                if 2 ^ 63 <? d then None else duration_loop fuel d s3
  end.

(** [time.ParseDuration], in nanoseconds. *)
Definition ParseDuration (s : bytes) : option Z :=
  let '(neg, s) :=
    match s with
    | c :: r => if (c =? 45) || (c =? 43) then (c =? 45, r) else (false, s)
    | [] => (false, s)
    end in
  if decide (s = [48]) then Some 0
  else if decide (s = []) then None
  else
    d ← duration_loop (length s) 0 s;
    if neg : bool then Some (i64 (- i64 d))
    else if 2 ^ 63 - 1 <? d then None
    else Some d.

Example duration_10s : ParseDuration (bytes_of_string "10s") = Some 10000000000.
Proof. reflexivity. Qed.
Example duration_mixed : ParseDuration (bytes_of_string "-1h2.5m300ms") = Some (- 3750300000000).
Proof. reflexivity. Qed.
Example duration_tenth : ParseDuration (bytes_of_string ".1s") = Some 100000000.
Proof. reflexivity. Qed.
Example duration_no_unit : ParseDuration (bytes_of_string "10") = None.
Proof. reflexivity. Qed.

(** ** flag *)

(** A flag's current value, of the flag's type. *)
Inductive flag_value :=
| FString (s : bytes)
| FUint (n : Z)
| FInt (n : Z)
| FBool (b : bool)
| FDuration (d : Z).

Inductive flag_error :=
| ErrHelp
| FlagSyntax (arg : bytes)
| FlagUndefined (name : bytes)
| FlagNeedsArg (name : bytes)
| FlagInvalid (name value : bytes).

(** A [FlagSet]'s flags by name, each with its value. *)
Definition FlagSet : Type := list (bytes * flag_value).

Fixpoint flag_get (fs : FlagSet) (name : bytes) : option flag_value :=
  match fs with
  | [] => None
  | (n, v) :: fs => if decide (n = name) then Some v else flag_get fs name
  end.
Fixpoint flag_put (fs : FlagSet) (name : bytes) (v : flag_value) : FlagSet :=
  match fs with
  | [] => []
  | (n, w) :: fs => if decide (n = name) then (n, v) :: fs else (n, w) :: flag_put fs name v
  end.

(** [flag.Value.Set] *)
Definition flag_set (v : flag_value) (s : bytes) : option flag_value :=
  match v with
  | FString _ => Some (FString s)
  | FUint _ => FUint <$> ParseUint s 0 64
  | FInt _ => FInt <$> ParseInt s 0
  | FBool _ => FBool <$> ParseBool s
  | FDuration _ => FDuration <$> ParseDuration s
  end.

(** The first [=] that is not the first character. *)
Fixpoint cut_eq (s : bytes) : option (bytes * bytes) :=
  match s with
  | [] => None
  | c :: r =>
      if c =? 61 then Some ([], r)
      else match cut_eq r with Some (a, b) => Some (c :: a, b) | None => None end
  end.
Definition split_name (name : bytes) : bytes * option bytes :=
  match name with
  | [] => ([], None)
  | c :: r => match cut_eq r with Some (a, v) => (c :: a, Some v) | None => (name, None) end
  end.

(** [fs.Parse(args)]: the flags' values and [fs.Args()]. *)
Fixpoint Parse (fs : FlagSet) (args : list bytes) : outcome flag_error (FlagSet * list bytes) :=
  match args with
  | [] => Val (fs, [])
  | s :: rest =>
      match s with
      | c0 :: c :: more =>
          if negb (c0 =? 45) then Val (fs, args)
          else if (c =? 45) && bool_decide (more = []) then Val (fs, rest)
          else
            let name := if c =? 45 then more else c :: more in
            if match name with c :: _ => (c =? 45) || (c =? 61) | [] => true end
            then Fail (FlagSyntax s)
            else
              let '(name, value) := split_name name in
              match flag_get fs name with
              | None =>
                  if one_of name ["help"; "h"]%string then Fail ErrHelp
                  else Fail (FlagUndefined name)
              | Some (FBool _ as old) =>
                  let value := match value with Some v => v | None => bytes_of_string "true" end in
                  match flag_set old value with
                  | Some v => Parse (flag_put fs name v) rest
                  | None => Fail (FlagInvalid name value)
                  end
              | Some old =>
                  match value, rest with
                  | Some value, _ =>
                      match flag_set old value with
                      | Some v => Parse (flag_put fs name v) rest
                      | None => Fail (FlagInvalid name value)
                      end
                  | None, value :: rest =>
                      match flag_set old value with
                      | Some v => Parse (flag_put fs name v) rest
                      | None => Fail (FlagInvalid name value)
                      end
                  | None, [] => Fail (FlagNeedsArg name)
                  end
              end
      | _ => Val (fs, args)
      end
  end.

(** Dereferencing the pointers the flag definitions return. *)
Definition get_string (fs : FlagSet) (name : string) : bytes :=
  match flag_get fs (bytes_of_string name) with Some (FString s) => s | _ => [] end.
Definition get_uint (fs : FlagSet) (name : string) : Z :=
  match flag_get fs (bytes_of_string name) with Some (FUint n) => n | _ => 0 end.
Definition get_int (fs : FlagSet) (name : string) : Z :=
  match flag_get fs (bytes_of_string name) with Some (FInt n) => n | _ => 0 end.
Definition get_bool (fs : FlagSet) (name : string) : bool :=
  match flag_get fs (bytes_of_string name) with Some (FBool b) => b | _ => false end.
Definition get_duration (fs : FlagSet) (name : string) : Z :=
  match flag_get fs (bytes_of_string name) with Some (FDuration d) => d | _ => 0 end.

Definition flags (l : list (string * flag_value)) : FlagSet :=
  (fun p => (bytes_of_string p.1, p.2)) <$> l.

(** ** Lemmas *)

Lemma uint_digits_range base0 base maxVal s : forall n under n' under',
  2 <= base -> 0 <= n <= maxVal -> maxVal < 2 ^ 64 ->
  uint_digits base0 base maxVal n under s = Some (n', under') -> 0 <= n' <= maxVal.
Proof.
  induction s as [|c s IH]; intros n under n' under' Hb Hn Hm; cbn [uint_digits].
  { by intros [= <- <-]. }
  case_match; [by eapply IH|]. destruct (digit_value c) as [d|]; [|done]. cbn.
  repeat case_match; try done. apply orb_false_iff in H2 as [H2 H3].
  apply Z.ltb_ge in H2, H3. intros Hd. eapply IH in Hd; [done|done| |done].
  split; [|done]. apply Z.mod_pos_bound. lia.
Qed.

Lemma ParseUint_range s base bits n :
  base = 0 \/ base = 10 -> 0 < bits <= 64 -> ParseUint s base bits = Some n -> 0 <= n < 2 ^ bits.
Proof.
  intros Hbase Hbits. unfold ParseUint. case_decide; [done|].
  assert (2 ^ bits <= 2 ^ 64) by (apply Z.pow_le_mono_r; lia).
  assert (0 < 2 ^ bits) by (apply Z.pow_pos_nonneg; lia).
  match goal with |- (let '(b, digits) := ?E in _) = _ -> _ =>
    assert (2 <= E.1) by (destruct Hbase as [-> | ->]; cbn; repeat case_match; cbn; lia);
    destruct E as [b digits] end.
  destruct (uint_digits _ _ _ _ _ _) as [[n' under]|] eqn:Hd; [|done].
  case_match; [done|]. intros [= <-].
  eapply uint_digits_range in Hd; cbn in *; lia.
Qed.

Lemma Parse_no_panic_aux n : forall fs args, (length args <= n)%nat -> Parse fs args <> Panic.
Proof.
  induction n as [|n IH]; intros fs [|s rest] Hn; cbn [length] in Hn; try lia; try done.
  cbn [Parse]. repeat (case_match; try done); apply IH; cbn [length] in *; lia.
Qed.
Lemma Parse_no_panic fs args : Parse fs args <> Panic.
Proof. by apply (Parse_no_panic_aux (length args)). Qed.

Lemma flag_get_put fs name w : forall m v,
  flag_get (flag_put fs name w) m = Some v -> flag_get fs m = Some v \/ v = w.
Proof.
  induction fs as [|[n x] fs IH]; intros m v; [by left|]. cbn [flag_put].
  case_decide; cbn [flag_get]; case_decide; auto. intros [= ->]. by right.
Qed.
Lemma flag_set_uint old v k : flag_set old v = Some (FUint k) -> 0 <= k.
Proof.
  destruct old; cbn; try done.
  - destruct (ParseUint v 0 64) as [n'|] eqn:Hp; [|done]. intros [= <-].
    apply ParseUint_range in Hp; [lia|by left|lia].
  - by destruct (ParseInt v 0).
  - by destruct (ParseBool v).
  - by destruct (ParseDuration v).
Qed.
