(* ===== verification/SshExec.v ===== *)
(** * Command lines and the password prompt (internal/sshserver/exec.go)

    [splitCmd], characterised by a grammar of words, quotes and separators,
    and [readPasswordPrompt] over a buffered reader whose underlying reads
    arrive in arbitrary pieces. *)

From S2P Require Import Prelude GoBytes GoText.

#[local] Open Scope Z_scope.

(** ** splitCmd *)

Inductive split_error := errUnclosedQuote.

(** The loop's variables: the arguments so far, the [strings.Builder], the
    open quote (0 for none) and [hasContent]. *)
Record split_state := mkSplit {
  s_args : list bytes;
  s_cur : bytes;
  s_quote : Z;
  s_has : bool;
}.

Definition split_step (st : split_state) (r : Z) : split_state :=
  let '(mkSplit args cur quoteCh hasContent) := st in
  if negb (quoteCh =? 0) then
    if r =? quoteCh then mkSplit args cur 0 true
    else mkSplit args (cur ++ encode_rune r) quoteCh true
  else if (r =? 34) || (r =? 39) then mkSplit args cur r true
  else if IsSpace r then
    if hasContent then mkSplit (args ++ [cur]) [] 0 false else st
  else mkSplit args (cur ++ encode_rune r) quoteCh true.

Definition splitCmd (s : bytes) : outcome split_error (list bytes) :=
  let '(mkSplit args cur quoteCh hasContent) :=
    foldl split_step (mkSplit [] [] 0 false) (runes s) in
  if negb (quoteCh =? 0) then Fail errUnclosedQuote
  else if hasContent then Val (args ++ [cur])
  else Val args.

(** ** The grammar of commands *)

(** A word is made of plain runes and quoted runs. *)
Inductive piece :=
| Plain (r : Z)
| Quoted (q : Z) (rs : list Z).

Definition is_quote (q : Z) : Prop := q = 34 \/ q = 39.
Definition piece_ok (p : piece) : Prop :=
  match p with
  | Plain r => ~ is_quote r /\ IsSpace r = false
  | Quoted q rs => is_quote q /\ q ∉ rs
  end.
Definition piece_runes (p : piece) : list Z :=
  match p with Plain r => [r] | Quoted q rs => q :: rs ++ [q] end.
Definition piece_text (p : piece) : list Z :=
  match p with Plain r => [r] | Quoted q rs => rs end.

Definition word : Type := list piece.
Definition word_runes (w : word) : list Z := mjoin (piece_runes <$> w).
Definition word_text (w : word) : bytes := text (mjoin (piece_text <$> w)).

(** A further word, after the spaces that separate it. *)
Definition segment : Type := list Z * word.
Definition seg_runes (s : segment) : list Z := s.1 ++ word_runes s.2.
Definition spaces (sp : list Z) : Prop := Forall (fun r => IsSpace r = true) sp.
Definition seg_ok (s : segment) : Prop :=
  s.1 <> [] /\ spaces s.1 /\ s.2 <> [] /\ Forall piece_ok s.2.

(** What the first word (if the command does not start with a space) and the
    further ones denote. *)
Definition first_arg (w : word) : list bytes := match w with [] => [] | _ => [word_text w] end.
Definition segs_runes (segs : list segment) : list Z := mjoin (seg_runes <$> segs).
Definition segs_args (segs : list segment) : list bytes := word_text ∘ snd <$> segs.

(** ** Lemmas *)

Lemma is_quote_eqb q : is_quote q <-> (q =? 34) || (q =? 39) = true.
Proof. unfold is_quote. rewrite orb_true_iff, !Z.eqb_eq. done. Qed.
Lemma not_quote_eqb q : ~ is_quote q -> (q =? 34) || (q =? 39) = false.
Proof. rewrite is_quote_eqb. by destruct (_ || _). Qed.
Lemma space_not_quote r : IsSpace r = true -> ~ is_quote r.
Proof. intros Hs [-> | ->]; done. Qed.

Lemma splitCmd_no_panic s : splitCmd s <> Panic.
Proof. unfold splitCmd. by repeat case_match. Qed.

(** Inside quotes everything up to the closing quote is content. *)
Lemma split_quoted q rs : is_quote q -> q ∉ rs -> forall args cur has,
  foldl split_step (mkSplit args cur q has) rs
  = mkSplit args (cur ++ text rs) q (match rs with [] => has | _ => true end).
Proof.
  intros Hq Hni. induction rs as [|r rs IH]; intros args cur has; cbn [foldl].
  { by rewrite app_nil_r. }
  apply not_elem_of_cons in Hni as [Hne Hni]. cbn [split_step].
  rewrite (proj2 (Z.eqb_neq q 0)) by (destruct Hq; lia). cbn [negb].
  rewrite (proj2 (Z.eqb_neq r q)), IH by congruence.
  change (text (r :: rs)) with (encode_rune r ++ text rs). rewrite app_assoc. by destruct rs.
Qed.

Lemma split_piece p args cur has : piece_ok p ->
  foldl split_step (mkSplit args cur 0 has) (piece_runes p)
  = mkSplit args (cur ++ text (piece_text p)) 0 true.
Proof.
  destruct p as [r|q rs]; cbn [piece_ok piece_runes piece_text].
  - intros [Hq Hs]. cbn. rewrite not_quote_eqb, Hs by done. by rewrite app_nil_r.
  - intros [Hq Hni]. cbn [foldl split_step Z.eqb negb]. rewrite (proj1 (is_quote_eqb q) Hq).
    rewrite foldl_app, split_quoted by done. cbn [foldl split_step].
    rewrite (proj2 (Z.eqb_neq q 0)), Z.eqb_refl by (destruct Hq; lia). done.
Qed.

Lemma split_word w : Forall piece_ok w -> forall args cur has,
  foldl split_step (mkSplit args cur 0 has) (word_runes w)
  = mkSplit args (cur ++ word_text w) 0 (match w with [] => has | _ => true end).
Proof.
  induction 1 as [|p w Hp _ IH]; intros args cur has; [by rewrite app_nil_r|].
  change (word_runes (p :: w)) with (piece_runes p ++ word_runes w).
  rewrite foldl_app, split_piece, IH by done.
  change (word_text (p :: w)) with (text (piece_text p ++ mjoin (piece_text <$> w))).
  rewrite text_app, <- app_assoc. by destruct w.
Qed.

Lemma split_space r args cur has : IsSpace r = true ->
  split_step (mkSplit args cur 0 has) r
  = if has then mkSplit (args ++ [cur]) [] 0 false else mkSplit args cur 0 has.
Proof.
  intros Hs. cbn. rewrite not_quote_eqb, Hs by by apply space_not_quote. done.
Qed.

(** Spaces end the word in progress. *)
Definition finish (st : split_state) : list bytes :=
  if s_has st then s_args st ++ [s_cur st] else s_args st.

Lemma split_spaces sp args cur has : spaces sp -> sp <> [] -> (has = false -> cur = []) ->
  foldl split_step (mkSplit args cur 0 has) sp
  = mkSplit (finish (mkSplit args cur 0 has)) [] 0 false.
Proof.
  intros Hsp Hne Hcur. destruct sp as [|r sp]; [done|]. apply Forall_cons_1 in Hsp as [Hr Hsp].
  cbn [foldl]. rewrite split_space by done. unfold finish. cbn [s_has s_args s_cur].
  assert ((if has then mkSplit (args ++ [cur]) [] 0 false else mkSplit args cur 0 has)
          = mkSplit (if has then args ++ [cur] else args) [] 0 false) as ->.
  { destruct has; [done|]. by rewrite Hcur. }
  induction Hsp as [|r' sp Hr' _ IH]; [done|]. cbn [foldl]. rewrite split_space by done. by apply IH.
Qed.

(** A sequence of further words. *)
Lemma split_segs segs : Forall seg_ok segs -> forall args cur has, (has = false -> cur = []) ->
  exists args' cur' has',
    foldl split_step (mkSplit args cur 0 has) (segs_runes segs) = mkSplit args' cur' 0 has'
    /\ (has' = false -> cur' = [])
    /\ finish (mkSplit args' cur' 0 has') = finish (mkSplit args cur 0 has) ++ segs_args segs.
Proof.
  induction 1 as [|[sp w] segs (Hne & Hsp & Hw & Hok) _ IH]; intros args cur has Hcur.
  { exists args, cur, has. by rewrite app_nil_r. }
  cbn [fst snd] in *. change (segs_runes ((sp, w) :: segs)) with ((sp ++ word_runes w) ++ segs_runes segs).
  rewrite !foldl_app, split_spaces, split_word by done.
  destruct w as [|p w]; [done|]. set (a := finish _).
  destruct (IH a ([] ++ word_text (p :: w)) true) as (args' & cur' & has' & -> & Hc & Hf); [done|].
  exists args', cur', has'. split_and!; [done|done|]. rewrite Hf. unfold finish at 1. cbn [s_has s_args s_cur].
  rewrite <- app_assoc. done.
Qed.

(** What [splitCmd] does with the three parts of a command, and an open
    quote after them. *)
Lemma split_parts w segs trail : Forall piece_ok w -> Forall seg_ok segs -> spaces trail ->
  exists args cur has,
    foldl split_step (mkSplit [] [] 0 false) (word_runes w ++ segs_runes segs ++ trail)
    = mkSplit args cur 0 has
    /\ finish (mkSplit args cur 0 has) = first_arg w ++ segs_args segs.
Proof.
  intros Hw Hsegs Htr. rewrite !foldl_app, split_word by done. cbn [app].
  destruct (split_segs segs Hsegs [] (word_text w) (match w with [] => false | _ => true end))
    as (args & cur & has & -> & Hc & Hf); [by destruct w|].
  destruct trail as [|r trail].
  - exists args, cur, has. split; [done|]. rewrite Hf. by destruct w.
  - rewrite split_spaces by done. eexists _, _, _. split; [done|]. rewrite Hf. by destruct w.
Qed.

Lemma splitCmd_closed s w segs trail :
  Forall piece_ok w -> Forall seg_ok segs -> spaces trail ->
  runes s = word_runes w ++ segs_runes segs ++ trail ->
  splitCmd s = Val (first_arg w ++ segs_args segs).
Proof.
  intros Hw Hsegs Htr Hs. unfold splitCmd. rewrite Hs.
  destruct (split_parts w segs trail) as (args & cur & has & -> & <-); [done..|].
  by destruct has.
Qed.

Lemma splitCmd_open s w segs trail q rest :
  Forall piece_ok w -> Forall seg_ok segs -> spaces trail -> is_quote q -> q ∉ rest ->
  runes s = word_runes w ++ segs_runes segs ++ trail ++ q :: rest ->
  splitCmd s = Fail errUnclosedQuote.
Proof.
  intros Hw Hsegs Htr Hq Hni Hs. unfold splitCmd. rewrite Hs.
  replace (word_runes w ++ segs_runes segs ++ trail ++ q :: rest)
    with ((word_runes w ++ segs_runes segs ++ trail) ++ q :: rest) by by rewrite <- !app_assoc.
  rewrite foldl_app. destruct (split_parts w segs trail) as (args & cur & has & -> & _); [done..|].
  cbn [foldl split_step Z.eqb negb]. rewrite (proj1 (is_quote_eqb q) Hq), split_quoted by done.
  by rewrite (proj2 (Z.eqb_neq q 0)) by (destruct Hq; lia).
Qed.

(** Either a quote closes or it is open to the end. *)
Lemma quote_split (q : Z) rs : q ∉ rs \/ exists a b, rs = a ++ q :: b /\ q ∉ a.
Proof.
  induction rs as [|r rs IH]; [left; apply not_elem_of_nil|].
  destruct (decide (r = q)) as [->|Hne].
  { right. exists [], rs. split; [done|apply not_elem_of_nil]. }
  destruct IH as [IH|(a & b & -> & IH)].
  - left. apply not_elem_of_cons. split; congruence.
  - right. exists (r :: a), b. split; [done|]. apply not_elem_of_cons. split; congruence.
Qed.

(** Every sequence of runes is a command of the grammar, possibly followed by
    a quote that is never closed. *)
Lemma command_parse n : forall rs, (length rs <= n)%nat ->
  exists w segs trail tail, rs = word_runes w ++ segs_runes segs ++ trail ++ tail
    /\ Forall piece_ok w /\ Forall seg_ok segs /\ spaces trail
    /\ (tail = [] \/ exists q rest, tail = q :: rest /\ is_quote q /\ q ∉ rest).
Proof.
  induction n as [|n IH]; intros rs Hn.
  { destruct rs; [|cbn in Hn; lia]. exists [], [], [], []. split_and!; auto; constructor. }
  destruct rs as [|r rs]; [exists [], [], [], []; split_and!; auto; constructor|]. cbn in Hn.
  destruct (decide ((r =? 34) || (r =? 39) = true)) as [Hq|Hq].
  { apply is_quote_eqb in Hq. destruct (quote_split r rs) as [Hni|(a & b & -> & Hni)].
    - exists [], [], [], (r :: rs). split_and!; try done; try apply Forall_nil_2. right. by exists r, rs.
    - destruct (IH b) as (w & segs & trail & tail & -> & Hw & Hs & Ht & Htl).
      { rewrite length_app in Hn. cbn in Hn. lia. }
      exists (Quoted r a :: w), segs, trail, tail.
      change (word_runes (Quoted r a :: w)) with ((r :: a ++ [r]) ++ word_runes w).
      cbn [app]. rewrite <- !app_assoc. split_and!; try done. by apply Forall_cons_2. }
  destruct (IH rs) as (w & segs & trail & tail & -> & Hw & Hs & Ht & Htl); [lia|].
  destruct (IsSpace r) eqn:Hsp.
  - destruct w as [|p w]; [destruct segs as [|[sp w1] segs]|].
    + exists [], [], (r :: trail), tail. split_and!; try done. by apply Forall_cons_2.
    + exists [], ((r :: sp, w1) :: segs), trail, tail. apply Forall_cons_1 in Hs as [(? & ? & ?) Hs].
      split_and!; try done. apply Forall_cons_2; [|done]. split_and!; try done; [by apply Forall_cons_2|tauto..].
    + exists [], (([r], p :: w) :: segs), trail, tail.
      change (segs_runes (([r], p :: w) :: segs)) with ((r :: word_runes (p :: w)) ++ segs_runes segs).
      cbn [app]. rewrite <- !app_assoc. split_and!; try done. apply Forall_cons_2; [|done].
      split_and!; try done. by apply Forall_singleton.
  - exists (Plain r :: w), segs, trail, tail. split_and!; try done. apply Forall_cons_2; [|done].
    split; [|done]. by rewrite is_quote_eqb.
Qed.

(** ** The password prompt *)

Inductive prompt_error :=
| errIO (e : io_error)
| errTooLong                     (* password exceeds maximum length *)
| errTimeout                     (* timeout after %s waiting for password *)
| errContext.                    (* ctx.Err() *)

(** [bufio.Reader]: the unread buffer, the pending error and what the
    underlying reads will return. *)
Record reader := mkReader {
  rd_buf : bytes;
  rd_err : option io_error;
  rd_src : list (bytes * option io_error);
}.

(** [fill] on an empty buffer; [None] while the underlying [Read] blocks. *)
Fixpoint fill (tries : nat) (src : list (bytes * option io_error)) : option reader :=
  match tries with
  | O => Some (mkReader [] (Some io_NoProgress) src)
  | S tries =>
      match src with
      | [] => None
      | (b, Some e) :: src => Some (mkReader b (Some e) src)
      | ([], None) :: src => fill tries src
      | (b, None) :: src => Some (mkReader b None src)
      end
  end.
Definition maxConsecutiveEmptyReads : nat := 100.

Inductive read_byte := RByte (c : Z) (rd : reader) | RErr (e : io_error) (rd : reader) | RBlocked.

(** [ReadByte] on a non-empty or just filled buffer. *)
Definition take_byte (rd : reader) : option read_byte :=
  match rd_buf rd, rd_err rd with
  | c :: b, e => Some (RByte c (mkReader b e (rd_src rd)))
  | [], Some e => Some (RErr e (mkReader [] None (rd_src rd)))
  | [], None => None
  end.
Definition ReadByte (rd : reader) : read_byte :=
  match take_byte rd with
  | Some r => r
  | None =>
      match fill maxConsecutiveEmptyReads (rd_src rd) with
      | None => RBlocked
      | Some rd => default RBlocked (take_byte rd)
      end
  end.

(** How the prompt ends, with what it wrote to the channel. *)
Inductive prompt_result :=
| PwDone (pwd : bytes) (rd : reader) (out : bytes)
| PwErr (e : prompt_error) (out : bytes)
| PwBlocked (out : bytes).

Definition maxLen : nat := 256.

(** The loop; each turn consumes a byte, and [fuel] bounds the bytes. *)
Fixpoint prompt_loop (fuel : nat) (rd : reader) (sb out : bytes) : prompt_result :=
  match fuel with
  | O => PwBlocked out
  | S fuel =>
      match ReadByte rd with
      | RBlocked => PwBlocked out
      | RErr e _ => PwErr (errIO e) out
      | RByte c rd =>
          if (c =? 13) || (c =? 10) then
            let rd :=
              match rd_buf rd with
              | p :: _ =>
                  if (c =? 13) && (p =? 10) then
                    match ReadByte rd with RByte _ rd => rd | RErr _ rd => rd | RBlocked => rd end
                  else rd
              | [] => rd
              end in
            PwDone sb rd (out ++ [13; 10])
          else if (c =? 8) || (c =? 127) then
            prompt_loop fuel rd (if (0 <? length sb)%nat then take (length sb - 1) sb else sb) out
          else if c <? 32 then prompt_loop fuel rd sb out
          else if (maxLen <=? length sb)%nat then PwErr errTooLong out
          else prompt_loop fuel rd (sb ++ [c]) out
      end
  end.

(** The bytes a reader can still deliver. *)
Definition stream (rd : reader) : bytes := rd_buf rd ++ mjoin (fst <$> rd_src rd).

(** [w_err] is the error of writing the prompt, if any. *)
Definition readPasswordPrompt (w_err : option io_error) (rd : reader) : prompt_result :=
  match w_err with
  | Some e => PwErr (errIO e) []
  | None => prompt_loop (S (length (stream rd))) rd [] (bytes_of_string "Password: ")
  end.

(** The ready case the [select] takes. *)
Inductive prompt_case := CaseResult | CaseTimer | CaseCtx.

(** [None]: blocked, no case being ready. *)
Definition readPasswordPromptWithTimeout (w_err : option io_error) (rd : reader) (c : prompt_case)
    : option (outcome prompt_error (bytes * reader)) :=
  match c with
  | CaseTimer => Some (Fail errTimeout)
  | CaseCtx => Some (Fail errContext)
  | CaseResult =>
      match readPasswordPrompt w_err rd with
      | PwDone pwd rd _ => Some (Val (pwd, rd))
      | PwErr e _ => Some (Fail e)
      | PwBlocked _ => None
      end
  end.

(** ** Specification of the prompt *)

(** Line editing on a whole line; [None] when it grows beyond the limit. *)
Fixpoint edit (sb line : bytes) : option bytes :=
  match line with
  | [] => Some sb
  | c :: line =>
      if (c =? 8) || (c =? 127) then edit (take (length sb - 1) sb) line
      else if c <? 32 then edit sb line
      else if (maxLen <=? length sb)%nat then None
      else edit (sb ++ [c]) line
  end.

Definition eol (c : Z) : bool := (c =? 13) || (c =? 10).
Definition no_eol (l : bytes) : Prop := Forall (fun c => eol c = false) l.

(** A source that delivers data and no errors. *)
Definition src_ok (rd : reader) : Prop :=
  rd_err rd = None /\ Forall (fun p => p.1 <> [] /\ p.2 = None) (rd_src rd).

(** ** Lemmas *)

Lemma ReadByte_stream rd : src_ok rd ->
  match stream rd with
  | [] => ReadByte rd = RBlocked
  | c :: s => exists rd', ReadByte rd = RByte c rd' /\ src_ok rd' /\ stream rd' = s
      /\ (rd_src rd = [] -> rd_src rd' = [])
  end.
Proof.
  destruct rd as [b e src]. intros [He Hs]. cbn in He, Hs. subst e. unfold stream. cbn [rd_buf rd_src].
  destruct b as [|c b]; cbn [app].
  - destruct src as [|[b e] src]; [done|]. apply Forall_cons_1 in Hs as [[Hb He] Hs]. cbn in Hb, He.
    subst e. destruct b as [|c b]; [done|]. cbn. by eexists.
  - by eexists.
Qed.

Lemma prompt_loop_line line : forall fuel rd sb out s, src_ok rd -> no_eol line ->
  stream rd = line ++ s -> (length line <= fuel)%nat ->
  match edit sb line with
  | None => prompt_loop fuel rd sb out = PwErr errTooLong out
  | Some sb' => exists rd', src_ok rd' /\ stream rd' = s /\ (rd_src rd = [] -> rd_src rd' = [])
      /\ prompt_loop fuel rd sb out = prompt_loop (fuel - length line) rd' sb' out
  end.
Proof.
  induction line as [|c line IH]; intros fuel rd sb out s Hok Hne Hs Hf.
  { exists rd. rewrite Nat.sub_0_r. done. }
  apply Forall_cons_1 in Hne as [Hc Hne]. destruct fuel as [|fuel]; cbn [length] in Hf; [lia|].
  pose proof (ReadByte_stream rd Hok) as Hrd. rewrite Hs in Hrd. cbn [app] in Hrd.
  destruct Hrd as (rd' & Hr & Hok' & Hs' & Hsrc). unfold eol in Hc.
  assert (forall f, prompt_loop (S f) rd sb out =
    if (c =? 8) || (c =? 127) then prompt_loop f rd' (take (length sb - 1) sb) out
    else if c <? 32 then prompt_loop f rd' sb out
    else if (maxLen <=? length sb)%nat then PwErr errTooLong out
    else prompt_loop f rd' (sb ++ [c]) out) as Hstep.
  { intros f. cbn [prompt_loop]. rewrite Hr, Hc. by destruct sb. }
  cbn [edit]. replace (S fuel - length (c :: line))%nat with (fuel - length line)%nat by (cbn; lia).
  rewrite Hstep. clear Hstep. repeat case_match; try done;
    (match goal with
     | H : edit ?sb' line = Some _ |- _ =>
         specialize (IH fuel rd' sb' out s); rewrite H in IH;
         destruct IH as (rd2 & ? & ? & ? & ?); eauto 8 with lia
     | H : edit ?sb' line = None |- _ =>
         specialize (IH fuel rd' sb' out s); rewrite H in IH; apply IH; auto with lia
     end).
Qed.

Lemma edit_length line : forall sb pw,
  (length sb <= maxLen)%nat -> edit sb line = Some pw -> (length pw <= maxLen)%nat.
Proof.
  induction line as [|c line IH]; intros sb pw Hsb; cbn [edit]; [by intros [= <-]|].
  repeat case_match; try done; apply IH; try done; [rewrite length_take; lia|].
  rewrite length_app. cbn. apply Nat.leb_gt in H1. lia.
Qed.

(** The line ending, with the line feed the reader may already hold. *)
Lemma prompt_loop_eol fuel rd sb out c s : src_ok rd -> stream rd = c :: s -> eol c = true ->
  exists rd', prompt_loop (S fuel) rd sb out = PwDone sb rd' (out ++ [13; 10])
    /\ src_ok rd' /\ (stream rd' = s \/ (c = 13 /\ s = 10 :: stream rd'))
    /\ (rd_src rd = [] -> c = 13 -> forall s', s = 10 :: s' -> stream rd' = s').
Proof.
  intros Hok Hs Hc. pose proof (ReadByte_stream rd Hok) as Hrd. rewrite Hs in Hrd.
  destruct Hrd as (rd1 & Hr & Hok1 & Hs1 & Hsrc1). cbn [prompt_loop]. unfold eol in Hc. rewrite Hr, Hc.
  destruct (rd_buf rd1) as [|p b] eqn:Hb.
  - exists rd1. split_and!; auto. intros Hsrc -> s' ->.
    unfold stream in Hs1. rewrite Hb, Hsrc1 in Hs1 by done. done.
  - destruct ((c =? 13) && (p =? 10)) eqn:Hcp.
    + apply andb_true_iff in Hcp as [->%Z.eqb_eq ->%Z.eqb_eq].
      pose proof (ReadByte_stream rd1 Hok1) as Hrd. unfold stream in Hs1 at 1. rewrite Hb in Hs1.
      cbn [app] in Hs1. rewrite <- Hs1.
      assert (stream rd1 = 10 :: (b ++ mjoin (fst <$> rd_src rd1))) as Hst
        by (unfold stream; by rewrite Hb).
      rewrite Hst in Hrd. destruct Hrd as (rd2 & -> & Hok2 & Hs2 & _).
      exists rd2. rewrite Hs2. split_and!; auto. by intros _ _ s' [= ->].
    + exists rd1. split_and!; auto. intros _ -> s' ->. unfold stream in Hs1. rewrite Hb in Hs1.
      injection Hs1 as -> _. done.
Qed.

(** ** Properties *)

(** C33. [splitCmd] is total and characterised by the grammar of words,
    quoted runs and spaces: every command is a first word (or none), further
    words after spaces, and trailing spaces, and then its arguments are the
    words' texts with the quotes removed, empty quoted words included; or
    it ends in a quote that is never closed, and then it is refused.  Inside
    one kind of quote the other kind and spaces are literal. *)
Theorem splitCmd_grammar s :
  exists w segs trail tail,
    runes s = word_runes w ++ segs_runes segs ++ trail ++ tail
    /\ Forall piece_ok w /\ Forall seg_ok segs /\ spaces trail
    /\ ((tail = [] /\ splitCmd s = Val (first_arg w ++ segs_args segs))
        \/ (exists q rest, tail = q :: rest /\ is_quote q /\ (q ∉ rest)
             /\ splitCmd s = Fail errUnclosedQuote)).
Proof.
  destruct (command_parse (length (runes s)) (runes s)) as (w & segs & trail & tail & Hs & Hw & Hsegs & Ht & Htl);
    [done|]. exists w, segs, trail, tail. split_and!; try done.
  destruct Htl as [->|(q & rest & -> & Hq & Hni)].
  - left. split; [done|]. rewrite app_nil_r in Hs. by eapply splitCmd_closed.
  - right. exists q, rest. split_and!; try done. by eapply splitCmd_open.
Qed.

(** The way to write any argument: every rune in quotes of the other kind. *)
Definition quote_word (rs : list Z) : word :=
  match rs with
  | [] => [Quoted 34 []]
  | _ => (fun r => Quoted (if r =? 34 then 39 else 34) [r]) <$> rs
  end.
Definition command_runes (args : list (list Z)) : list Z :=
  match args with
  | [] => []
  | a :: args => word_runes (quote_word a) ++ segs_runes ((fun a => ([32], quote_word a)) <$> args)
  end.
Definition shell_quote (args : list (list Z)) : bytes := text (command_runes args).

Lemma quote_word_ok rs : Forall piece_ok (quote_word rs) /\ quote_word rs <> []
  /\ word_text (quote_word rs) = text rs.
Proof.
  destruct rs as [|r rs].
  - split_and!; try done. apply Forall_singleton. split; [by left|apply not_elem_of_nil].
  - cbn [quote_word]. split_and!; [|done|].
    + apply Forall_fmap, Forall_true. intros r'. cbn. destruct (Z.eqb_spec r' 34) as [->|Hne].
      * split; [by right|]. apply not_elem_of_cons. split; [done|apply not_elem_of_nil].
      * split; [by left|]. apply not_elem_of_cons. split; [congruence|apply not_elem_of_nil].
    + unfold word_text. f_equal. generalize (r :: rs). intros l.
      induction l as [|x l IH]; [done|]. cbn. by f_equal.
Qed.

Lemma quote_word_valid rs : Forall (fun r => valid_rune r = true) rs ->
  Forall (fun r => valid_rune r = true) (word_runes (quote_word rs)).
Proof.
  intros Hrs. destruct rs as [|r rs]; [by repeat constructor|]. cbn [quote_word].
  revert Hrs. generalize (r :: rs). intros l. induction 1 as [|x l Hx _ IH]; [constructor|].
  change (word_runes ((fun r => Quoted (if r =? 34 then 39 else 34) [r]) <$> (x :: l)))
    with ([if x =? 34 then 39 else 34; x; if x =? 34 then 39 else 34]
          ++ word_runes ((fun r => Quoted (if r =? 34 then 39 else 34) [r]) <$> l)).
  apply Forall_app_2; [|done]. repeat apply Forall_cons_2; try done; by destruct (x =? 34).
Qed.

Lemma command_runes_valid args : Forall (Forall (fun r => valid_rune r = true)) args ->
  Forall (fun r => valid_rune r = true) (command_runes args).
Proof.
  intros Ha. destruct args as [|a args]; [constructor|]. apply Forall_cons_1 in Ha as [Ha Has].
  cbn [command_runes]. apply Forall_app_2; [by apply quote_word_valid|].
  induction Has as [|b args Hb _ IH]; [constructor|].
  change (segs_runes ((fun a => ([32], quote_word a)) <$> (b :: args)))
    with ((32 :: word_runes (quote_word b)) ++ segs_runes ((fun a => ([32], quote_word a)) <$> args)).
  apply Forall_app_2; [|done]. apply Forall_cons_2; [done|by apply quote_word_valid].
Qed.

Lemma quoted_args args : segs_args ((fun a => ([32], quote_word a)) <$> args) = text <$> args.
Proof.
  induction args as [|b args IH]; [done|]. destruct (quote_word_ok b) as (_ & _ & Hb).
  change (word_text (quote_word b) :: segs_args ((fun a => ([32], quote_word a)) <$> args)
          = text b :: (text <$> args)).
  by rewrite Hb, IH.
Qed.

(** Shared with the commands' theorems. *)
Lemma splitCmd_shell_quote args : Forall (Forall (fun r => valid_rune r = true)) args ->
  splitCmd (shell_quote args) = Val (text <$> args).
Proof.
  intros Ha. destruct args as [|a args]; [done|].
  rewrite (splitCmd_closed _ (quote_word a) ((fun a => ([32], quote_word a)) <$> args) []).
  - destruct (quote_word_ok a) as (_ & Hne & Ht). destruct (quote_word a) as [|p w] eqn:Hq; [done|].
    cbn [first_arg app]. by rewrite Ht, quoted_args.
  - apply quote_word_ok.
  - apply Forall_fmap, Forall_true. intros b. destruct (quote_word_ok b) as (? & ? & _).
    split_and!; try done. by apply Forall_singleton.
  - constructor.
  - unfold shell_quote. rewrite runes_text by by apply command_runes_valid. by rewrite app_nil_r.
Qed.

(** Quoting round trip: every list of arguments in valid UTF-8 (empty
    ones, ones with spaces and both kinds of quotes included) has a command
    that [splitCmd] splits back into exactly those arguments. *)
Theorem splitCmd_quoting args : Forall (Forall (fun r => valid_rune r = true)) args ->
  exists cmd, cmd = shell_quote args /\ splitCmd cmd = Val (text <$> args)
    /\ runes cmd = command_runes args.
Proof.
  intros Ha. exists (shell_quote args). split_and!; [done|by apply splitCmd_shell_quote|].
  by apply runes_text, command_runes_valid.
Qed.

Lemma splitCmd_quoting_witness :
  exists cmd, cmd = shell_quote [[109; 110]; []; [34; 39; 32; 0x20AC]]
    /\ splitCmd cmd = Val (text <$> [[109; 110]; []; [34; 39; 32; 0x20AC]])
    /\ runes cmd = command_runes [[109; 110]; []; [34; 39; 32; 0x20AC]].
Proof.
  apply (splitCmd_quoting [[109; 110]; []; [34; 39; 32; 0x20AC]]).
  repeat (apply Forall_cons_2 || apply Forall_nil_2 || reflexivity).
Defined.

(** Text that is not valid UTF-8 does not survive: a Latin-1 e-acute inside
    quotes comes out as the three bytes of U+FFFD. *)
Example splitCmd_latin1 :
  splitCmd [39; 0xE9; 39] = Val [[0xEF; 0xBF; 0xBD]].
Proof. reflexivity. Qed.

(** C35. The password prompt, however the input is cut into pieces: the
    password is the first line after editing (backspace and DEL remove the
    last byte, other control bytes are ignored), at most 256 bytes; a line
    that grows beyond that is refused, an unfinished line blocks.  Nothing
    after the line is lost, except that one line feed directly after a
    carriage return is dropped if the reader already holds it, which it does
    when everything arrived in one piece. *)
Theorem readPasswordPrompt_spec rd line s :
  src_ok rd -> no_eol line -> stream rd = line ++ s ->
  match s with [] => True | c :: _ => eol c = true end ->
  let prompt := bytes_of_string "Password: " in
  match edit [] line with
  | None => readPasswordPrompt None rd = PwErr errTooLong prompt
  | Some pw =>
      (length pw <= 256)%nat
      /\ match s with
         | [] => readPasswordPrompt None rd = PwBlocked prompt
         | c :: rest =>
             exists rd', readPasswordPrompt None rd = PwDone pw rd' (prompt ++ [13; 10])
               /\ src_ok rd' /\ (stream rd' = rest \/ (c = 13 /\ rest = 10 :: stream rd'))
               /\ (rd_src rd = [] -> c = 13 -> forall rest', rest = 10 :: rest' -> stream rd' = rest')
         end
  end.
Proof.
  intros Hok Hne Hs Heol prompt. unfold readPasswordPrompt.
  assert (length (stream rd) = length line + length s)%nat as Hlen by (by rewrite Hs, length_app).
  pose proof (prompt_loop_line line (S (length (stream rd))) rd [] prompt s Hok Hne Hs) as Hl.
  fold prompt. destruct (edit [] line) as [pw|] eqn:He; [|apply Hl; lia].
  split; [apply (edit_length line []); [cbn; lia|done]|].
  destruct Hl as (rd1 & Hok1 & Hs1 & Hsrc1 & ->); [lia|].
  destruct s as [|c rest].
  - replace (S (length (stream rd)) - length line)%nat with 1%nat by (cbn in Hlen; lia).
    pose proof (ReadByte_stream rd1 Hok1) as Hr. rewrite Hs1 in Hr. cbn [prompt_loop]. by rewrite Hr.
  - replace (S (length (stream rd)) - length line)%nat with (S (S (length rest)))%nat by (cbn in Hlen; lia).
    destruct (prompt_loop_eol (S (length rest)) rd1 pw prompt c rest) as (rd' & -> & ? & ? & ?); [done..|].
    exists rd'. split_and!; auto.
Qed.

(** "hunX<BS>ter2" and a carriage return, then the first keystrokes. *)
Definition typed : reader :=
  mkReader [] None [([104; 117; 110; 88; 8], None); ([116; 101; 114; 50; 13; 10; 108], None)].

Lemma readPasswordPrompt_spec_witness :
  (7 <= 256)%nat /\ exists rd',
    readPasswordPrompt None typed
    = PwDone (bytes_of_string "hunter2") rd' (bytes_of_string "Password: " ++ [13; 10])
    /\ src_ok rd' /\ (stream rd' = [10; 108] \/ (13 = 13 /\ [10; 108] = 10 :: stream rd'))
    /\ (rd_src typed = [] -> 13 = 13 -> forall rest', [10; 108] = 10 :: rest' -> stream rd' = rest').
Proof.
  apply (readPasswordPrompt_spec typed [104; 117; 110; 88; 8; 116; 101; 114; 50] [13; 10; 108]);
    [|by repeat constructor|reflexivity|reflexivity].
  split; [reflexivity|]. by repeat constructor.
Defined.

(** A line feed that arrives in the next read is left for the session. *)
Example phantom_newline :
  exists rd', readPasswordPrompt None (mkReader [] None [([112; 13], None); ([10], None)])
    = PwDone [112] rd' (bytes_of_string "Password: " ++ [13; 10]) /\ stream rd' = [10].
Proof. by eexists. Qed.
