(* ===== verification/Relay.v ===== *)
(** * Relaying a terminal over a session

    What [execMactelnet] (sshserver/exec.go) and [runMactelnet]
    (cmd/mactelnet-proxy/mactelnet.go) do with an open session: the pump from
    the input to the session, the pump from the session to the output, the
    goroutine that resizes, the [select] on the first pump to end or the
    context, and the deferred [Close].  They are one state machine, whose
    steps are the atomic actions of these goroutines and of the session's:
    a [Write] or [Resize] first prepares its record, then waits for [dataMu],
    sends, and from there on waits for its acknowledgement one event at a
    time while everything else goes on. *)

From S2P Require Import Prelude GoBytes GoText MacAddr Protocol Seq Sockets Session RxLoop SessionOps Handshake Typing Open.

#[local] Open Scope Z_scope.

(** ** A call in progress

    [sendDataAndWaitAck] after its first transmission is at one of the
    [select]s of [waitForAck], with the intervals left; an event takes it to
    the next one. *)
Inductive call_status :=
| Waits (schedule : list Z)
| Acked
| Failed (e : op_error)
| CallPanics.

Definition call_event (pkt : bytes) (want : Z) (schedule : list Z) (e : event) (w : world)
    : call_status * world :=
  match schedule with
  | [] => (Failed ErrRetransmitExhausted, w)
  | d :: rest =>
      match waitForAck want [e] w with
      | (Blk, _, w) => (Waits (d :: rest), w)
      | (Ret _, _, w) => (Acked, w)
      | (Pan, _, w) => (CallPanics, w)
      | (Err (ErrCtx x), _, w) => (Failed (ErrCtx x), w)
      | (Err _, _, w) =>
          match send pkt [] w with
          | (Ret _, _, w) => (match rest with [] => Failed ErrRetransmitExhausted | _ => Waits rest end, w)
          | (Err x, _, w) => (Failed x, w)
          | (_, _, w) => (CallPanics, w)
          end
      end
  end.

(** ** The goroutines *)

Inductive pump_error :=
| PumpSession (e : op_error)       (* from [sess.Write] *)
| PumpIO (e : io_error).           (* from the other end of a pump *)

(** How the [select] ends. *)
Inductive relay_end :=
| EndCtx
| EndPump (e : option pump_error).

(** The two goroutines that call the session. *)
Inductive caller := Input | Resizer.
#[export] Instance caller_eq_dec : EqDecision caller.
Proof. solve_decision. Defined.

Inductive caller_pc :=
| AtSource                     (* reading its source *)
| WantsLock (payload : bytes)  (* at [s.dataMu.Lock()] *)
| InCall                       (* holding it, in [sendDataAndWaitAck] *)
| Ended.                       (* returned *)

Record held := mkHeld { h_who : caller; h_pkt : bytes; h_want : Z; h_schedule : list Z }.

(** Where the goroutine that opened the session is. *)
Inductive phase :=
| Selecting
| Chosen (e : relay_end)       (* past the [select], before the deferred [Close] *)
| Closing (e : relay_end)      (* in it, having won the swap *)
| Over (e : relay_end)
| Panicked.

Record relay_state := mkRelay {
  r_world : world;
  r_input : caller_pc;
  r_resizer : caller_pc;
  r_held : option held;              (* who holds [dataMu] *)
  r_output : bool;                   (* the output pump runs *)
  r_errCh : list (option pump_error);   (* make(chan error, 2): one per pump *)
  r_ctx : bool;                      (* the caller's context has ended *)
  r_phase : phase;
  r_read : list bytes;               (* the chunks the input pump has read *)
  r_sizes : list (Z * Z);            (* the dimensions the resizer has received *)
  r_winch : list (Z * Z);            (* ... and those on their way to it *)
}.

Definition with_world w r := mkRelay w (r_input r) (r_resizer r) (r_held r) (r_output r) (r_errCh r)
  (r_ctx r) (r_phase r) (r_read r) (r_sizes r) (r_winch r).
Definition with_pc who pc r := mkRelay (r_world r)
  (match who with Input => pc | _ => r_input r end) (match who with Resizer => pc | _ => r_resizer r end)
  (r_held r) (r_output r) (r_errCh r) (r_ctx r) (r_phase r) (r_read r) (r_sizes r) (r_winch r).
Definition with_held h r := mkRelay (r_world r) (r_input r) (r_resizer r) h (r_output r) (r_errCh r)
  (r_ctx r) (r_phase r) (r_read r) (r_sizes r) (r_winch r).
Definition with_output b r := mkRelay (r_world r) (r_input r) (r_resizer r) (r_held r) b (r_errCh r)
  (r_ctx r) (r_phase r) (r_read r) (r_sizes r) (r_winch r).
Definition with_errCh l r := mkRelay (r_world r) (r_input r) (r_resizer r) (r_held r) (r_output r) l
  (r_ctx r) (r_phase r) (r_read r) (r_sizes r) (r_winch r).
Definition with_ctx b r := mkRelay (r_world r) (r_input r) (r_resizer r) (r_held r) (r_output r)
  (r_errCh r) b (r_phase r) (r_read r) (r_sizes r) (r_winch r).
Definition with_phase ph r := mkRelay (r_world r) (r_input r) (r_resizer r) (r_held r) (r_output r)
  (r_errCh r) (r_ctx r) ph (r_read r) (r_sizes r) (r_winch r).
Definition with_read l r := mkRelay (r_world r) (r_input r) (r_resizer r) (r_held r) (r_output r)
  (r_errCh r) (r_ctx r) (r_phase r) l (r_sizes r) (r_winch r).
Definition with_sizes l q r := mkRelay (r_world r) (r_input r) (r_resizer r) (r_held r) (r_output r)
  (r_errCh r) (r_ctx r) (r_phase r) (r_read r) l q.

Definition pc_of (who : caller) (r : relay_state) : caller_pc :=
  match who with Input => r_input r | Resizer => r_resizer r end.

(** The relay as the session has just been opened; [ctx_done] says that the
    context ended meanwhile, [winch] what the resizer's channel will give. *)
Definition start_relay (ctx_done : bool) (winch : list (Z * Z)) (w : world) : relay_state :=
  mkRelay w AtSource AtSource None true [] ctx_done Selecting [] [] winch.

(** A pump returns: [errCh <- err]. *)
Definition pump_ends (e : option pump_error) (r : relay_state) : relay_state :=
  with_errCh (r_errCh r ++ [e]) r.

(** [sess.Write] or [sess.Resize] fails or succeeds: the input pump goes on
    reading or ends, the resizer ignores it. *)
Definition call_returns (who : caller) (e : option op_error) (r : relay_state) : relay_state :=
  match who, e with
  | Input, Some e => pump_ends (Some (PumpSession e)) (with_pc Input Ended r)
  | _, _ => with_pc who AtSource r
  end.

(** The holder of [dataMu] is done, and unlocks it. *)
Definition unlock (who : caller) (e : option op_error) (r : relay_state) : relay_state :=
  call_returns who e (with_held None r).

Definition is_cancel (e : event) : bool := match e with Other (SCancel _) => true | _ => false end.

(** An event of the session: a step of one of its goroutines, or the case
    the call in progress takes. *)
Definition session_event (e : event) (r : relay_state) : relay_state :=
  let r := with_ctx (r_ctx r || is_cancel e) r in
  match r_held r with
  | None =>
      match e with
      | Other s =>
          let w := interfere s (r_world r) in
          if crashed w then with_phase Panicked r else with_world w r
      | _ => r
      end
  | Some h =>
      let '(st, w) := call_event (h_pkt h) (h_want h) (h_schedule h) e (r_world r) in
      let r := with_world w r in
      match st with
      | Waits schedule => with_held (Some (mkHeld (h_who h) (h_pkt h) (h_want h) schedule)) r
      | Acked => unlock (h_who h) None r
      | Failed x => unlock (h_who h) (Some x) r
      | CallPanics => with_phase Panicked r
      end
  end.

Inductive relay_op :=
| RSession (e : event)
| RIn (p : bytes)                   (* the input pump has read [p] *)
| RInEnd (e : option io_error)      (* its source ends, or fails *)
| ROutEnd (e : option io_error)     (* the output pump ends, or fails *)
| RResize                           (* the resizer receives a window change *)
| RLock (who : caller)              (* [dataMu] is given to a waiting call *)
| RSelectCtx                        (* [case <-ctx.Done()] *)
| RSelectErr                        (* [case err := <-errCh] *)
| RClose                            (* the deferred [sess.Close()] *)
| RClosed.                          (* ... returns *)

Section Relay.
Context (sch : schedules).

(** [io.Copy] into the session: a chunk is passed to [Write]. *)
Definition input_read (p : bytes) (r : relay_state) : relay_state :=
  match r_input r with
  | AtSource =>
      if decide (p = []) then r
      else
        let r := with_read (r_read r ++ [p]) r in
        match prepare_write p [] (r_world r) with
        | (Ret (Some payload), _, _) => with_pc Input (WantsLock payload) r
        | (Ret None, _, _) => r
        | (Err e, _, _) => call_returns Input (Some e) r
        | _ => with_phase Panicked r
        end
  | _ => r
  end.

Definition resize_request (r : relay_state) : relay_state :=
  match r_resizer r, r_winch r with
  | AtSource, (cols, rows) :: winch =>
      let r := with_sizes (r_sizes r ++ [(cols, rows)]) winch r in
      match prepare_resize (u16 cols) (u16 rows) [] (r_world r) with
      | (Ret payload, _, _) => with_pc Resizer (WantsLock payload) r
      | (Err e, _, _) => call_returns Resizer (Some e) r
      | _ => with_phase Panicked r
      end
  | _, _ => r
  end.

(** The call that gets [dataMu] sends for the first time. *)
Definition lock (who : caller) (r : relay_state) : relay_state :=
  match r_held r, pc_of who r with
  | None, WantsLock payload =>
      match send_first sch payload [] (r_world r) with
      | (Ret (pkt, want, schedule), _, w) =>
          let r := with_world w r in
          match schedule with
          | [] => call_returns who (Some ErrRetransmitExhausted) r
          | _ => with_held (Some (mkHeld who pkt want schedule)) (with_pc who InCall r)
          end
      | (Err e, _, w) => call_returns who (Some e) (with_world w r)
      | _ => with_phase Panicked r
      end
  | _, _ => r
  end.

(** One action.  The output pump reads the session only while it runs, and
    sees the end of its pipe only once it is closed; nobody but the deferred
    call closes the session. *)
Definition relay_act (op : relay_op) (r : relay_state) : relay_state :=
  match op with
  | RSession (Other SClose) => r
  | RSession (Other (SConsume n)) =>
      if r_output r then session_event (Other (SConsume n)) r else r
  | RSession e => session_event e r
  | RIn p => input_read p r
  | RInEnd e =>
      match r_input r with
      | AtSource => pump_ends (PumpIO <$> e) (with_pc Input Ended r)
      | _ => r
      end
  | ROutEnd e =>
      if r_output r && (bool_decide (is_Some e) || pipeClosed (sess (r_world r)))
      then pump_ends (PumpIO <$> e) (with_output false r) else r
  | RResize => resize_request r
  | RLock who => lock who r
  | RSelectCtx =>
      match r_phase r with
      | Selecting => if r_ctx r then with_phase (Chosen EndCtx) r else r
      | _ => r
      end
  | RSelectErr =>
      match r_phase r, r_errCh r with
      | Selecting, e :: l => with_phase (Chosen (EndPump e)) (with_errCh l r)
      | _, _ => r
      end
  | RClose =>
      match r_phase r with
      | Chosen e =>
          if closed (sess (r_world r)) then with_phase (Over e) r
          else session_event (Other SClose) (with_phase (Closing e) r)
      | _ => r
      end
  | RClosed =>
      match r_phase r with
      | Closing e => if close_returns (r_world r) then with_phase (Over e) r else r
      | _ => r
      end
  end.

(** Nothing is followed past the end of the command. *)
Definition relay_step (r : relay_state) (op : relay_op) : relay_state :=
  match r_phase r with Over _ | Panicked => r | _ => relay_act op r end.
Definition relay (ops : list relay_op) (r : relay_state) : relay_state := foldl relay_step r ops.
End Relay.

(** [errors.Is(err, io.EOF) || ... net.ErrClosed || ... io.ErrClosedPipe] *)
Definition quiet (e : pump_error) : bool :=
  match e with
  | PumpSession ErrNetClosed => true
  | PumpIO io_EOF | PumpIO io_ErrClosedPipe | PumpIO io_NetClosed => true
  | _ => false
  end.

(** ** A whole session

    [Open], the relay and the deferred [Close]: what [Open] is called with
    is kept in the result. *)
Record open_call := mkCall {
  o_iface : bytes; o_mac : bytes; o_user : bytes; o_password : bytes;
  o_cols : Z; o_rows : Z; o_vlan : Z;
}.

Record session_env := mkSessionEnv {
  se_sys : system;
  se_open : list event;            (* the schedule of [Open] *)
  se_winch : list (Z * Z);         (* the window changes its resizer is given *)
  se_relay : list relay_op;
}.

(** How it ends: with the error of [Open], or past the deferred [Close], with
    what is left of the session and the dimensions the resizer received. *)
Inductive session_result :=
| SessFailed (e : open_error) (rm : remains)
| SessEnded (e : relay_end) (rm : remains) (sizes : list (Z * Z))
| SessPanic
| SessBlocked.

Definition run_session (sch : schedules) (fuel : nat) (env : session_env) (c : open_call)
    : session_result :=
  match Open sch fuel (se_sys env) (o_iface c) (o_mac c) (o_user c) (o_password c)
          (o_cols c) (o_rows c) (o_vlan c) (se_open env) with
  | OpenPanic => SessPanic
  | OpenBlocked => SessBlocked
  | OpenFailed e rm => SessFailed e rm
  | Opened w conn k =>
      let r := relay sch (se_relay env) (start_relay (existsb is_cancel (se_open env)) (se_winch env) w) in
      match r_phase r with
      | Over e => SessEnded e (Goroutines (r_world r) conn k) (r_sizes r)
      | Panicked => SessPanic
      | _ => SessBlocked
      end
  end.

(** ** Lemmas: calls *)

Lemma wait_ack_cons want e evs w :
  wait_ack want (e :: evs) w
  = match wait_ack want [e] w with (Blk, _, w') => wait_ack want evs w' | (r, _, w') => (r, evs, w') end.
Proof.
  destruct e as [s| | | | |]; cbn [wait_ack]; try done.
  - cbv zeta. by destruct (crashed (interfere s w)).
  - destruct (take_ack w) as [[w' got]|]; [|done]. by destruct (got =? want).
  - by destruct (ctx (sess w)).
Qed.

Lemma send_events pkt evs w :
  send pkt evs w = let '(r, _, w') := send pkt [] w in (r, evs, w').
Proof.
  unfold send. destruct (transmit ByDriver pkt w) as [w' r]. destruct (crashed w'); [done|]. by destruct r.
Qed.

(** The retransmission loop of SessionOps, one event at a time. *)
Lemma attempts_event pkt want schedule e evs w : schedule <> [] ->
  attempts pkt want schedule (e :: evs) w
  = match call_event pkt want schedule e w with
    | (Waits schedule', w') => attempts pkt want schedule' evs w'
    | (Acked, w') => (Ret tt, evs, w')
    | (Failed x, w') => (Err x, evs, w')
    | (CallPanics, w') => (Pan, evs, w')
    end.
Proof.
  destruct schedule as [|d rest]; [done|intros _]. cbn [attempts call_event]. unfold waitForAck.
  rewrite wait_ack_cons. destruct (wait_ack want [e] w) as [[[[]|x| |] evs1] w1]; try done.
  assert ((send pkt;; attempts pkt want rest) evs w1
    = match (match send pkt [] w1 with
             | (Ret _, _, w2) => (match rest with [] => Failed ErrRetransmitExhausted | _ => Waits rest end, w2)
             | (Err z, _, w2) => (Failed z, w2)
             | (_, _, w2) => (CallPanics, w2)
             end) with
      | (Waits schedule', w') => attempts pkt want schedule' evs w'
      | (Acked, w') => (Ret tt, evs, w')
      | (Failed z, w') => (Err z, evs, w')
      | (CallPanics, w') => (Pan, evs, w')
      end) as Hsend.
  { unfold mbind, M_bind, bind, send. destruct (transmit ByDriver pkt w1) as [w2 r].
    destruct (crashed w2); [done|]. destruct r; [done|]. by destruct rest. }
  destruct x; first [apply Hsend | done].
Qed.

(** ** Lemmas: the relay runs the session *)

(** [w'] comes from [w] by steps of the callers, and of the other goroutines
    as the events [evs] have them. *)
Definition reach (evs : list event) (w w' : world) : Prop :=
  exists l, w' = run_steps l w /\ Forall (step_from evs) l.

Lemma reach_refl evs w : reach evs w w.
Proof. by exists []. Qed.
Lemma reach_mono evs evs' w w' : (forall e, e ∈ evs -> e ∈ evs') -> reach evs w w' -> reach evs' w w'.
Proof.
  intros Hin (l & -> & Hl). exists l. split; [done|]. eapply Forall_impl; [exact Hl|].
  intros s [Hs|Hs]; [by left|right; auto].
Qed.
Lemma reach_trans evs w w1 w2 : reach evs w w1 -> reach evs w1 w2 -> reach evs w w2.
Proof.
  intros (l & -> & Hl) (k & -> & Hk). exists (l ++ k). split; [by rewrite run_steps_app|by apply Forall_app].
Qed.
Lemma reach_runs {A} (m : M A) evs w : runs m -> world_ok w ->
  let '(_, _, w') := m evs w in reach evs w w'.
Proof.
  intros Hm Hw. specialize (Hm evs w Hw). destruct (m evs w) as [[r evs'] w'].
  destruct Hm as (used & l & -> & -> & Hl). apply (reach_mono used); [|by exists l].
  intros e He. apply elem_of_app. by left.
Qed.
Lemma reach_interfere s w : reach [Other s] w (interfere s w).
Proof.
  unfold interfere. destruct (by_others s); [|apply reach_refl]. exists [s]. split; [done|].
  apply Forall_singleton. right. by left.
Qed.

Lemma reach_ok evs w w' : world_ok w -> reach evs w w' -> world_ok w'.
Proof. intros Hw (l & -> & _). by apply run_steps_ok. Qed.
Lemma reach_closed evs w w' : world_ok w -> reach evs w w' ->
  closed (sess w) = true -> closed (sess w') = true.
Proof.
  intros Hw (l & -> & _) Hc. clear evs. revert w Hw Hc. induction l as [|s l IH]; intros w Hw Hc; [done|].
  apply IH; [by apply apply_step_ok|]. by apply (teardown_turn s w Hw).
Qed.

Lemma call_event_reach pkt want schedule e w : world_ok w ->
  reach [e] w (call_event pkt want schedule e w).2.
Proof.
  intros Hw. unfold call_event. destruct schedule as [|d rest]; [apply reach_refl|].
  pose proof (reach_runs _ [e] w (runs_wait_ack want) Hw) as H1.
  destruct (waitForAck want [e] w) as [[r evs1] w1].
  destruct r as [|x| |]; try done.
  pose proof (reach_runs _ [] w1 (runs_send pkt) (reach_ok _ _ _ Hw H1)) as H2.
  destruct (send pkt [] w1) as [[r2 evs2] w2].
  assert (reach [e] w w2) as H by (eapply reach_trans; [exact H1|]; eapply reach_mono; [|exact H2]; set_solver).
  destruct x; try exact H1; by destruct r2.
Qed.

(** What a caller's side has in common before and after a call's event. *)
Record steady (w w' : world) : Prop := {
  st_src : srcMAC (sess w') = srcMAC (sess w);
  st_dst : dstMAC (sess w') = dstMAC (sess w);
  st_key : sessionKey (sess w') = sessionKey (sess w);
  st_out : out (ctrs (sess w')) = out (ctrs (sess w));
  st_mode : terminalMode (sess w') = terminalMode (sess w);
}.
#[export] Instance steady_preorder : PreOrder steady.
Proof. split; [by intros w; split|]. intros x y z [] []. split; congruence. Qed.
Lemma same_caller_steady w w' : same_caller w w' -> steady w w'.
Proof. intros []. by split. Qed.

(** An event of a call in progress: at most one more copy of its packet is
    sent, for the interval it used up; it succeeds on its acknowledgement
    only. *)
Definition call_post (pkt : bytes) (want : Z) (schedule : list Z) (e : event) (w : world)
    (o : call_status * world) : Prop :=
  let '(st, w') := o in
  world_ok w' /\ steady w w' /\ acks_from [e] w w'
  /\ exists k, driver_sent w' = driver_sent w ++ replicate k pkt
     /\ match st with
        | Waits schedule' => schedule' <> [] /\ (k + length schedule' = length schedule)%nat
        | Acked => k = 0%nat /\ (want ∈ ackCh (sess w) \/ peer_acked [e] (sessionKey (sess w)) want)
        | Failed _ => (k <= length schedule)%nat
        | CallPanics => False
        end.

Lemma call_event_spec pkt want schedule e w : world_ok w -> schedule <> [] ->
  call_post pkt want schedule e w (call_event pkt want schedule e w).
Proof.
  intros Hw Hs. destruct schedule as [|d rest]; [done|]. unfold call_event, waitForAck.
  pose proof (wait_ack_spec want [e] w Hw) as H.
  destruct (wait_ack want [e] w) as [[r evs1] w1].
  destruct H as (used & He & Hw1 & Hsame & Hacks & Hr).
  assert (forall x, x ∈ used -> x ∈ [e]) as Hu by (intros x Hx; rewrite He; apply elem_of_app; by left).
  assert (acks_from [e] w w1) as Hacks1.
  { intros c Hc. destruct (Hacks c Hc) as [|Hp]; [by left|right; by eapply peer_acked_mono]. }
  pose proof (same_caller_steady _ _ Hsame) as Hst.
  assert (forall st, match st with Waits s => s = d :: rest | CallPanics => False | Failed _ => True
      | Acked => want ∈ ackCh (sess w) \/ peer_acked [e] (sessionKey (sess w)) want end ->
    call_post pkt want (d :: rest) e w (st, w1)) as Hdone.
  { intros st Hm. split_and!; try done. exists 0%nat. cbn [replicate].
    rewrite (sc_sent _ _ Hsame), app_nil_r. split; [done|]. destruct st; subst; cbn; split_and?; try done; lia. }
  assert (call_post pkt want (d :: rest) e w
    match send pkt [] w1 with
    | (Ret _, _, w2) => (match rest with [] => Failed ErrRetransmitExhausted | _ => Waits rest end, w2)
    | (Err x, _, w2) => (Failed x, w2)
    | (_, _, w2) => (CallPanics, w2)
    end) as Hsend.
  { destruct (send_spec pkt [] w1 Hw1) as (r2 & w2 & -> & Hw2 & Hd2 & Hs2 & Hdm2 & Hk2 & Hc2 & Hm2 & Ha2 & Hr2).
    assert (steady w w2) as Hst2 by (etransitivity; [exact Hst|by split; congruence]).
    assert (acks_from [e] w w2) as Ha by (intros c; rewrite Ha2; apply Hacks1).
    destruct Hr2 as [->|[x ->]]; unfold call_post; (split_and!; [done..|]); exists 1%nat;
      rewrite Hd2, (sc_sent _ _ Hsame); (split; [done|]); [|cbn; lia].
    by destruct rest; cbn; [lia|]. }
  destruct r as [[]|x| |]; [apply Hdone| |done|by apply Hdone].
  - destruct Hr as [|Hp]; [by left|right; by eapply peer_acked_mono].
  - destruct x; first [exact Hsend | by apply Hdone | done].
Qed.

(** A step of another goroutine leaves a call where it is. *)
Lemma call_event_other pkt want schedule s w : world_ok w -> schedule <> [] ->
  call_event pkt want schedule (Other s) w = (Waits schedule, interfere s w).
Proof.
  intros Hw Hs. destruct schedule as [|d rest]; [done|]. unfold call_event, waitForAck. cbn [wait_ack].
  by rewrite (wo_crashed _ (proj1 (interfere_caller s w Hw))).
Qed.

Definition op_events (op : relay_op) : list event :=
  match op with RSession e => [e] | RClose => [Other SClose] | _ => [] end.
Definition held_ok (h : option held) : Prop := match h with Some h => h_schedule h <> [] | None => True end.

Record relay_good (r : relay_state) : Prop := {
  gd_world : world_ok (r_world r);
  gd_held : held_ok (r_held r);
  gd_phase : match r_phase r with
             | Panicked => False
             | Closing _ | Over _ => closed (sess (r_world r)) = true
             | _ => True
             end;
}.

(** The parts a step of the caller's own bookkeeping leaves alone. *)
Definition same_run (r r' : relay_state) : Prop :=
  r_world r' = r_world r /\ r_held r' = r_held r /\ r_phase r' = r_phase r.

Lemma call_returns_same who e r : same_run r (call_returns who e r).
Proof. by destruct who, e. Qed.

Lemma session_event_run e r : world_ok (r_world r) -> held_ok (r_held r) ->
  let r' := session_event e r in
  reach [e] (r_world r) (r_world r') /\ r_phase r' = r_phase r /\ held_ok (r_held r').
Proof.
  intros Hw Hh. unfold session_event. cbv zeta. cbn [r_held with_ctx r_world].
  destruct (r_held r) as [h|] eqn:Hheld.
  - pose proof (call_event_reach (h_pkt h) (h_want h) (h_schedule h) e (r_world r) Hw) as Hreach.
    pose proof (call_event_spec (h_pkt h) (h_want h) (h_schedule h) e (r_world r) Hw Hh) as Hspec.
    destruct (call_event _ _ _ e _) as [st w']. destruct Hspec as (_ & _ & _ & k & _ & Hst).
    assert (forall x, let r' := unlock (h_who h) x (with_world w' (with_ctx (r_ctx r || is_cancel e) r)) in
      reach [e] (r_world r) (r_world r') /\ r_phase r' = r_phase r /\ held_ok (r_held r')) as Hunlock.
    { intros x. unfold unlock. cbv zeta.
      destruct (call_returns_same (h_who h) x
        (with_held None (with_world w' (with_ctx (r_ctx r || is_cancel e) r)))) as (-> & -> & ->). done. }
    destruct st; [|apply Hunlock..|done]. by destruct Hst.
  - destruct e as [s| | | | |]; cbn [r_world r_phase r_held with_ctx]; rewrite ?Hheld;
      try (split_and!; [apply reach_refl|done|done]).
    pose proof (reach_interfere s (r_world r)) as Hreach.
    rewrite (wo_crashed _ (reach_ok _ _ _ Hw Hreach)). cbn. by rewrite Hheld.
Qed.

Lemma session_event_other s r : world_ok (r_world r) -> held_ok (r_held r) ->
  r_world (session_event (Other s) r) = interfere s (r_world r).
Proof.
  intros Hw Hh. unfold session_event. cbv zeta. cbn [r_held with_ctx r_world].
  destruct (r_held r) as [h|]; [by rewrite call_event_other|].
  by rewrite (wo_crashed _ (proj1 (interfere_caller s _ Hw))).
Qed.

Lemma input_read_run p r : same_run r (input_read p r).
Proof.
  unfold input_read. destruct (r_input r); try done. case_decide; [done|].
  pose proof (prepare_write_run p [] (r_world r)) as Hp. cbv zeta. cbn [r_world with_read].
  destruct (closed _); [by rewrite Hp|]. destruct (decide (length p = 0)%nat); [by rewrite Hp|].
  destruct (decide (1469 < length p)%nat); by rewrite Hp.
Qed.
Lemma resize_request_run r : same_run r (resize_request r).
Proof.
  unfold resize_request. destruct (r_resizer r), (r_winch r) as [|[cols rows] q]; try done. cbv zeta. cbn [r_world with_sizes].
  pose proof (prepare_resize_run (u16 cols) (u16 rows) [] (r_world r)) as Hp.
  destruct (closed _); by rewrite Hp.
Qed.

Lemma lock_run sch who r : world_ok (r_world r) -> held_ok (r_held r) ->
  let r' := lock sch who r in
  reach [] (r_world r) (r_world r') /\ r_phase r' = r_phase r /\ held_ok (r_held r').
Proof.
  intros Hw Hh. unfold lock. destruct (r_held r) as [h|] eqn:Hheld.
  { rewrite Hheld. split_and!; [apply reach_refl|done|done]. }
  destruct (pc_of who r) as [|payload| |];
    try (rewrite Hheld; split_and!; [apply reach_refl|done|done]).
  pose proof (reach_runs _ [] _ (runs_send_first sch payload) Hw) as Hreach.
  pose proof (send_first_run sch payload [] _ Hw) as Hf.
  destruct (send_first sch payload [] (r_world r)) as [[x evs'] w'].
  assert (forall e, let r' := call_returns who e (with_world w' r) in
    reach [] (r_world r) (r_world r') /\ r_phase r' = r_phase r /\ held_ok (r_held r')) as Hret.
  { intros e. cbv zeta. destruct (call_returns_same who e (with_world w' r)) as (-> & -> & ->).
    cbn [r_held with_world]. by rewrite Hheld. }
  destruct Hf as (_ & _ & _ & _ & _ & _ & _ & _ & _ & [->|[e ->]]); [|apply Hret].
  destruct (active_schedule sch (r_world r)); [apply Hret|]. done.
Qed.

Lemma relay_act_run sch op r : relay_good r ->
  match r_phase r with Over _ | Panicked => False | _ => True end ->
  relay_good (relay_act sch op r) /\ reach (op_events op) (r_world r) (r_world (relay_act sch op r)).
Proof.
  intros [Hw Hh Hp] Hnot.
  assert (forall r', reach (op_events op) (r_world r) (r_world r') -> r_phase r' = r_phase r ->
            held_ok (r_held r') -> relay_good r' /\ reach (op_events op) (r_world r) (r_world r')) as Hkeep.
  { intros r' Hr Hph Hh'. split; [|done]. split; [by eapply reach_ok|done|]. rewrite Hph.
    destruct (r_phase r); try done. by eapply reach_closed. }
  assert (forall r', same_run r r' -> relay_good r' /\ reach (op_events op) (r_world r) (r_world r')) as Hsame.
  { intros r' (E1 & E2 & E3). apply Hkeep; [rewrite E1; apply reach_refl|done|by rewrite E2]. }
  assert (forall r' e, r_world r' = r_world r -> r_held r' = r_held r -> r_phase r' = Chosen e ->
    relay_good r' /\ reach (op_events op) (r_world r) (r_world r')) as Hchosen.
  { intros r' e E1 E2 E3. rewrite E1. split; [|apply reach_refl]. split; rewrite ?E1, ?E2, ?E3; done. }
  assert (forall e, op_events op = [e] -> relay_good (session_event e r)
            /\ reach (op_events op) (r_world r) (r_world (session_event e r))) as Hev.
  { intros e Hop. destruct (session_event_run e r Hw Hh) as (H1 & H2 & H3). apply Hkeep; by rewrite ?Hop. }
  destruct op as [e|p|e|e| |who| | | |]; cbn [relay_act].
  - destruct e as [[]| | | | |]; try (by apply Hev).
    + destruct (r_output r); [by apply Hev|by apply Hsame].
    + by apply Hsame.
  - apply Hsame, input_read_run.
  - destruct (r_input r); by apply Hsame.
  - destruct (_ && _); by apply Hsame.
  - apply Hsame, resize_request_run.
  - destruct (lock_run sch who r Hw Hh) as (H1 & H2 & H3). by apply Hkeep.
  - destruct (r_phase r) eqn:Hph; try by apply Hsame. destruct (r_ctx r); [by eapply Hchosen|by apply Hsame].
  - destruct (r_phase r) eqn:Hph; try by apply Hsame. destruct (r_errCh r); [by apply Hsame|by eapply Hchosen].
  - destruct (r_phase r) eqn:Hph; try by apply Hsame.
    destruct (closed (sess (r_world r))) eqn:Hc.
    { split; [|apply reach_refl]. by split. }
    destruct (session_event_run (Other SClose) (with_phase (Closing e) r) Hw Hh) as (H1 & H2 & H3).
    split; [|done]. split; [by eapply reach_ok|done|]. rewrite H2. cbn [r_phase with_phase].
    rewrite session_event_other by done. change (interfere SClose _) with (apply_step SClose (r_world r)).
    unfold apply_step. rewrite (wo_crashed _ Hw). apply Close_closed.
  - destruct (r_phase r) eqn:Hph; try by apply Hsame. destruct (close_returns (r_world r)); [|by apply Hsame].
    split; [|apply reach_refl]. by split.
Qed.

Lemma relay_run sch ops : forall r, relay_good r ->
  relay_good (relay sch ops r) /\ reach (ops ≫= op_events) (r_world r) (r_world (relay sch ops r)).
Proof.
  induction ops as [|op ops IH]; intros r Hr; [by split; [|apply reach_refl]|].
  assert (relay_good (relay_step sch r op)
    /\ reach (op_events op) (r_world r) (r_world (relay_step sch r op))) as [H1 H2].
  { unfold relay_step. destruct (r_phase r) eqn:Hph; try (by split; [|apply reach_refl]);
      (apply relay_act_run; [done|by rewrite Hph]). }
  destruct (IH _ H1) as [H3 H4]. split; [done|]. cbn [mbind list_bind].
  eapply reach_trans; (eapply reach_mono; [|eassumption]);
    intros e He; apply elem_of_app; auto.
Qed.

(** ** Lemmas: whole sessions *)

(** The events of a relay bring in bytes. *)
Definition op_typed (op : relay_op) : Prop := Forall event_typed (op_events op).
Definition session_env_ok (env : session_env) : Prop :=
  system_ok (se_sys env) /\ Forall event_typed (se_open env) /\ Forall op_typed (se_relay env).

Lemma reach_between k0 ifindex hw dst vlanID evs w w' conn k :
  Forall event_typed evs -> reach evs w w' ->
  session_between k0 ifindex hw dst vlanID w conn k -> session_between k0 ifindex hw dst vlanID w' conn k.
Proof.
  intros He (l & -> & Hl) [Ht (snd & Hso & Hsnd)].
  assert (Forall step_typed l) as Hlt.
  { eapply Forall_impl; [exact Hl|]. intros s [Hs|Hs]; [by destruct s|].
    rewrite Forall_forall in He. exact (He _ Hs). }
  pose proof (typed_run _ _ _ l w Hlt Ht) as Ht'. split; [by rewrite (ty_key _ _ _ _ Ht')|].
  exists snd. split; [done|]. etransitivity; [exact Hsnd|]. apply run_steps_sender.
Qed.

Lemma start_relay_good b q w : world_ok w -> relay_good (start_relay b q w).
Proof. by split. Qed.

(** The resizer's channel: what it has given and what it will give. *)
Definition winch_of (r : relay_state) : list (Z * Z) := r_sizes r ++ r_winch r.

Lemma call_returns_winch who e r : winch_of (call_returns who e r) = winch_of r.
Proof. by destruct who, e. Qed.
Lemma session_event_winch e r : winch_of (session_event e r) = winch_of r.
Proof.
  unfold session_event. cbv zeta. cbn [r_held with_ctx r_world]. destruct (r_held r) as [h|].
  - destruct (call_event _ _ _ e _) as [st w']. destruct st; try done; unfold unlock; by rewrite call_returns_winch.
  - destruct e; try done. by destruct (crashed _).
Qed.
Lemma relay_act_winch sch op r : winch_of (relay_act sch op r) = winch_of r.
Proof.
  destruct op as [e|p|e|e| |who| | | |]; cbn [relay_act].
  - destruct e as [[]| | | | |]; try apply session_event_winch; [|done].
    destruct (r_output r); [apply session_event_winch|done].
  - unfold input_read. destruct (r_input r); try done. case_decide; [done|]. cbv zeta.
    destruct (prepare_write _ _ _) as [[[[|]|e| |] ?] ?]; done.
  - by destruct (r_input r).
  - by destruct (_ && _).
  - unfold resize_request. destruct (r_resizer r); try done. destruct (r_winch r) as [|[cols rows] q] eqn:Hq; [done|].
    cbv zeta. assert (winch_of (with_sizes (r_sizes r ++ [(cols, rows)]) q r) = winch_of r) as H.
    { unfold winch_of. cbn. by rewrite Hq, <- app_assoc. }
    destruct (prepare_resize _ _ _ _) as [[[|e| |] ?] ?]; exact H.
  - unfold lock. destruct (r_held r); [done|]. destruct (pc_of who r); try done.
    destruct (send_first _ _ _ _) as [[[[[pkt want] l]|e| |] ?] ?]; try done; [|by rewrite call_returns_winch].
    destruct l; [by rewrite call_returns_winch|by destruct who].
  - destruct (r_phase r); try done. by destruct (r_ctx r).
  - destruct (r_phase r); try done. by destruct (r_errCh r).
  - destruct (r_phase r); try done. destruct (closed _); [done|]. by rewrite session_event_winch.
  - destruct (r_phase r); try done. by destruct (close_returns _).
Qed.
Lemma relay_winch sch ops : forall r, winch_of (relay sch ops r) = winch_of r.
Proof.
  induction ops as [|op ops IH]; intros r; [done|].
  change (relay sch (op :: ops) r) with (relay sch ops (relay_step sch r op)). rewrite IH. unfold relay_step.
  destruct (r_phase r); try done; apply relay_act_winch.
Qed.

(** A call of [Open] of an environment panics. *)
Definition session_panics (fuel : nat) (env : session_env) (c : open_call) : Prop :=
  open_panics fuel (se_sys env) (o_user c) (o_password c) (se_open env).

(** How a whole session may end: what is left of it settles, and the resizer
    has received what its channel gave, in order. *)
Definition session_ok (fuel : nat) (env : session_env) (c : open_call) (r : session_result) : Prop :=
  match r with
  | SessFailed _ rm => settles (sys_kernel (se_sys env)) rm
  | SessEnded _ rm sizes =>
      settles (sys_kernel (se_sys env)) rm /\ sizes `prefix_of` se_winch env
      /\ exists w conn k dst ifindex hw, rm = Goroutines w conn k /\ parseMAC (o_mac c) = Val dst
           /\ InterfaceByName (se_sys env) (o_iface c) = Some (ifindex, hw)
           /\ typed hw dst (sessionKey (sess w)) w
  | SessPanic => session_panics fuel env c
  | SessBlocked => True
  end.

Lemma run_session_result sch fuel env c : session_env_ok env ->
  session_ok fuel env c (run_session sch fuel env c).
Proof.
  intros (Hsys & Hopen & Hrelay). unfold run_session.
  pose proof (Open_result sch fuel (se_sys env) (o_iface c) (o_mac c) (o_user c) (o_password c)
    (o_cols c) (o_rows c) (o_vlan c) (se_open env) Hsys Hopen) as Ho.
  destruct (Open _ _ _ _ _ _ _ _ _ _ _) as [w conn k|e rm| |]; [|exact (proj1 Ho)|exact Ho|done].
  destruct Ho as (_ & dst & ifindex & hw & Hmac & Hif & Hw).
  set (r0 := start_relay _ _ w). cbv zeta.
  destruct (relay_run sch (se_relay env) r0) as [[Hok _ Hph] Hreach].
  { apply start_relay_good. exact (ty_world _ _ _ _ (sb_typed _ _ _ _ _ _ _ _ Hw)). }
  assert (Forall event_typed (se_relay env ≫= op_events)) as He.
  { apply Forall_bind. exact Hrelay. }
  pose proof (reach_between _ _ _ _ _ _ _ _ _ _ He Hreach Hw) as Hb.
  pose proof (relay_winch sch (se_relay env) r0) as Hq.
  destruct (r_phase (relay sch (se_relay env) r0)) as [|e|e|e|]; try done.
  split_and!; [by eapply session_between_settles|by eexists; symmetry|].
  do 6 eexists. split; [reflexivity|]. split_and!; [exact Hmac|exact Hif|apply Hb].
Qed.
