(* ===== verification/Keystrokes.v ===== *)
(** * What a relay sends to the device

    The input of the terminal, as the device receives it: over every
    interleaving of the relay's goroutines the datagrams of the two callers
    are the calls of [sendDataAndWaitAck] one after the other, each a number
    of identical copies, and the chunks the input pump reads are sent in
    order, none before the one before it has been acknowledged. *)

From S2P Require Import Prelude GoBytes GoText MacAddr Protocol Seq Sockets Session RxLoop SessionOps Handshake Typing Open Relay.

#[local] Open Scope Z_scope.

(** ** Calls *)

(** A call of [sendDataAndWaitAck] with what became of it: the copies it
    sent, and the events while it waited. *)
Record data_call := mkData {
  d_by : caller;
  d_counter : Z;
  d_payload : bytes;
  d_copies : nat;
  d_events : list event;
}.

(** The counter that acknowledges it, which is the next call's. *)
Definition d_end (d : data_call) : Z := ackCounterFor (d_counter d) (u32 (Z.of_nat (length (d_payload d)))).
Definition datagram (s : Session) (d : data_call) : bytes :=
  header_layout (session_header s pTypeData (d_counter d)) dirToServer ++ d_payload d.
Definition copies (s : Session) (d : data_call) : list bytes := replicate (d_copies d) (datagram s d).
Definition acked (key : Z) (d : data_call) : Prop := peer_acked (d_events d) key (d_end d).

Fixpoint chained (c : Z) (calls : list data_call) : Prop :=
  match calls with
  | [] => True
  | d :: calls => d_counter d = c /\ chained (d_end d) calls
  end.
Fixpoint next_counter (c : Z) (calls : list data_call) : Z :=
  match calls with [] => c | d :: calls => next_counter (d_end d) calls end.

Definition by_caller (who : caller) (calls : list data_call) : list data_call :=
  filter (fun d => d_by d = who) calls.

Lemma next_counter_snoc calls d : forall c, next_counter c (calls ++ [d]) = d_end d.
Proof. by induction calls as [|d1 calls IH]; intros c; cbn. Qed.
Lemma chained_snoc calls d : forall c,
  chained c (calls ++ [d]) <-> chained c calls /\ d_counter d = next_counter c calls.
Proof.
  induction calls as [|d1 calls IH]; intros c; cbn [app chained next_counter]; [tauto|].
  rewrite IH. tauto.
Qed.
Lemma by_caller_snoc who calls d :
  by_caller who (calls ++ [d]) = by_caller who calls ++ (if decide (d_by d = who) then [d] else []).
Proof. unfold by_caller. rewrite filter_app, filter_cons. by case_decide. Qed.
Lemma by_caller_own who calls d : d_by d = who -> by_caller who (calls ++ [d]) = by_caller who calls ++ [d].
Proof. intros Hd. by rewrite by_caller_snoc, decide_True. Qed.
Lemma by_caller_other who calls d : d_by d <> who -> by_caller who (calls ++ [d]) = by_caller who calls.
Proof. intros Hd. by rewrite by_caller_snoc, decide_False, app_nil_r. Qed.

(** The same call after one more event and [k] more copies. *)
Definition went_on (e : event) (k : nat) (d : data_call) : data_call :=
  mkData (d_by d) (d_counter d) (d_payload d) (d_copies d + k) (d_events d ++ [e]).

Lemma copies_went_on s e k d : copies s (went_on e k d) = copies s d ++ replicate k (datagram s d).
Proof. unfold copies. apply replicate_add. Qed.

(** ** The invariant *)

(** The chunks read so far are those of the calls, up to where the pump is;
    only the last may be unacknowledged. *)
Definition input_inv (key : Z) (pc : caller_pc) (ds : list data_call) (read : list bytes) : Prop :=
  match pc with
  | AtSource => read = d_payload <$> ds /\ Forall (acked key) ds
  | WantsLock p => read = (d_payload <$> ds) ++ [p] /\ Forall (acked key) ds
  | InCall => read = d_payload <$> ds /\ exists l d, ds = l ++ [d] /\ Forall (acked key) l
  | Ended => (exists rest, read = (d_payload <$> ds) ++ rest /\ (length rest <= 1)%nat)
             /\ forall l d, ds = l ++ [d] -> Forall (acked key) l
  end.

Definition size_record (d : Z * Z) : bytes := resize_record (u16 d.1) (u16 d.2).
Definition resizer_inv (pc : caller_pc) (ds : list data_call) (sizes : list (Z * Z)) : Prop :=
  match pc with
  | WantsLock p => (d_payload <$> ds) ++ [p] `sublist_of` size_record <$> sizes
  | _ => d_payload <$> ds `sublist_of` size_record <$> sizes
  end.

(** The call in progress, when [dataMu] is held. *)
Definition held_inv (sch : schedules) (s0 : Session) (r : relay_state) (calls : list data_call) : Prop :=
  match r_held r with
  | None => forall who, pc_of who r <> InCall
  | Some h =>
      (forall who, pc_of who r = InCall <-> who = h_who h) /\ h_schedule h <> []
      /\ exists done d, calls = done ++ [d] /\ d_by d = h_who h /\ h_pkt h = datagram s0 d
           /\ h_want h = d_end d
           /\ (d_copies d + length (h_schedule h) = S (length (dataSchedule sch)))%nat
           /\ forall c, c ∈ ackCh (sess (r_world r)) -> peer_acked (d_events d) (sessionKey s0) c
  end.

(** What the device has been sent, and the counters. *)
Record wire_inv (sch : schedules) (w0 : world) (evs : list event) (calls : list data_call)
    (w : world) : Prop := {
  wi_world : world_ok w;
  wi_src : srcMAC (sess w) = srcMAC (sess w0);
  wi_dst : dstMAC (sess w) = dstMAC (sess w0);
  wi_key : sessionKey (sess w) = sessionKey (sess w0);
  wi_mode : terminalMode (sess w) = true;
  wi_sent : driver_sent w = driver_sent w0 ++ (calls ≫= copies (sess w0));
  wi_out : out (ctrs (sess w)) = next_counter (out (ctrs (sess w0))) calls;
  wi_chain : chained (out (ctrs (sess w0))) calls;
  wi_copies : Forall (fun d => (1 <= d_copies d <= S (length (dataSchedule sch)))%nat) calls;
  wi_events : (calls ≫= d_events) `sublist_of` evs;
}.

Record stream_inv (sch : schedules) (w0 : world) (evs : list event) (calls : list data_call)
    (r : relay_state) : Prop := {
  si_wire : wire_inv sch w0 evs calls (r_world r);
  si_held : held_inv sch (sess w0) r calls;
  si_input : input_inv (sessionKey (sess w0)) (r_input r) (by_caller Input calls) (r_read r);
  si_resizer : resizer_inv (r_resizer r) (by_caller Resizer calls) (r_sizes r);
}.

(** ** Steps preserve it *)

Lemma acked_went_on key e k d : acked key d -> acked key (went_on e k d).
Proof. apply peer_acked_mono. intros x Hx. cbn. apply elem_of_app. by left. Qed.

Lemma bind_snoc {A B} (f : A -> list B) l x : (l ++ [x]) ≫= f = (l ≫= f) ++ f x.
Proof. rewrite bind_app. cbn. by rewrite app_nil_r. Qed.

Section Steps.
Context (sch : schedules) (w0 : world).
#[local] Abbreviation winv := (wire_inv sch w0).
#[local] Abbreviation inv := (stream_inv sch w0).
#[local] Abbreviation key := (sessionKey (sess w0)).

Lemma wire_more evs evs' calls w : winv evs calls w -> winv (evs ++ evs') calls w.
Proof. intros []. split; try done. etransitivity; [done|]. by apply sublist_inserts_r. Qed.

Lemma wire_idle evs e calls w w' : winv evs calls w -> world_ok w' -> same_caller w w' ->
  winv (evs ++ [e]) calls w'.
Proof. intros Hw Hok []. apply (wire_more _ [e]) in Hw as []. split; try done; congruence. Qed.

(** The last call sends [k] more copies. *)
Lemma wire_went_on evs e k done d w w' : winv evs (done ++ [d]) w -> world_ok w' -> steady w w' ->
  driver_sent w' = driver_sent w ++ replicate k (datagram (sess w0) d) ->
  (d_copies d + k <= S (length (dataSchedule sch)))%nat ->
  winv (evs ++ [e]) (done ++ [went_on e k d]) w'.
Proof.
  intros [] Hok Hst Hsent Hk. pose proof (st_out _ _ Hst) as Hout. destruct Hst.
  split; try done; try congruence.
  - rewrite Hsent, wi_sent0, !bind_snoc, copies_went_on. by rewrite !app_assoc.
  - rewrite Hout, wi_out0. by rewrite !next_counter_snoc.
  - revert wi_chain0. by rewrite !chained_snoc.
  - apply Forall_app in wi_copies0 as [H1 H2]. inv_Forall. apply Forall_app. split; [done|].
    apply Forall_singleton. cbn in *. lia.
  - rewrite bind_snoc. cbn [d_events went_on]. rewrite app_assoc.
    rewrite bind_snoc in wi_events0. by apply sublist_app.
Qed.

(** A call that has just sent its first copy. *)
Definition first_call (who : caller) (w : world) (payload : bytes) : data_call :=
  mkData who (out (ctrs (sess w))) payload 1 [].

Lemma wire_first evs calls who payload w w' : winv evs calls w -> world_ok w' ->
  driver_sent w' = driver_sent w ++ [next_packet w payload] ->
  srcMAC (sess w') = srcMAC (sess w) -> dstMAC (sess w') = dstMAC (sess w) ->
  sessionKey (sess w') = sessionKey (sess w) -> out (ctrs (sess w')) = next_ack w payload ->
  terminalMode (sess w') = terminalMode (sess w) ->
  winv evs (calls ++ [first_call who w payload]) w'.
Proof.
  intros [] Hok Hsent Hsrc Hdst Hkey Hout Hmode. split; try done; try congruence.
  - rewrite Hsent, wi_sent0, bind_snoc, <- app_assoc. do 2 f_equal. unfold copies, datagram. cbn.
    unfold next_packet, session_header. by rewrite wi_src0, wi_dst0, wi_key0.
  - rewrite Hout, next_counter_snoc. done.
  - apply chained_snoc. by split.
  - apply Forall_app. split; [done|]. apply Forall_singleton. cbn. lia.
  - rewrite bind_snoc. cbn. by rewrite app_nil_r.
Qed.

(** A step that leaves the session and the callers alone. *)
Lemma inv_same evs evs' calls r r' : inv evs calls r ->
  r_world r' = r_world r -> r_held r' = r_held r -> r_input r' = r_input r ->
  r_resizer r' = r_resizer r -> r_read r' = r_read r -> r_sizes r' = r_sizes r ->
  inv (evs ++ evs') calls r'.
Proof.
  intros [] E1 E2 E3 E4 E5 E6. split; rewrite ?E1, ?E3, ?E4, ?E5, ?E6; try done; [by apply wire_more|].
  revert si_held0. unfold held_inv. rewrite E1, E2.
  assert (forall who, pc_of who r' = pc_of who r) as Hpc by (by intros []).
  destruct (r_held r); by repeat setoid_rewrite Hpc.
Qed.

(** The call that holds [dataMu] after an event that kept it waiting. *)
Lemma held_went_on calls done d e k h schedule w' r :
  held_inv sch (sess w0) r calls -> r_held r = Some h -> calls = done ++ [d] ->
  steady (r_world r) w' -> acks_from [e] (r_world r) w' -> sessionKey (sess (r_world r)) = key ->
  schedule <> [] -> (k + length schedule = length (h_schedule h))%nat ->
  held_inv sch (sess w0)
    (with_held (Some (mkHeld (h_who h) (h_pkt h) (h_want h) schedule)) (with_world w' r))
    (done ++ [went_on e k d]).
Proof.
  unfold held_inv. intros Hheld Hh -> Hst Hacks Hkey Hs Hk. rewrite Hh in Hheld. cbn.
  destruct Hheld as (Hpc & _ & done' & d' & [-> [= <-]]%app_inj_2 & Hby & Hpkt & Hwant & Hlen & Ha); [|done].
  split; [|split; [done|]]. { intros who. rewrite <- (Hpc who). by destruct who. }
  exists done', (went_on e k d). cbn. split_and!; try done; [lia|].
  intros c Hc. destruct (Hacks c Hc) as [Hin|Hp].
  - eapply peer_acked_mono; [|by apply Ha]. intros x Hx. apply elem_of_app. by left.
  - rewrite Hkey in Hp. eapply peer_acked_mono; [|exact Hp]. intros x Hx. apply elem_of_app. by right.
Qed.

Lemma input_went_on pc done d e k read :
  input_inv key pc (by_caller Input (done ++ [d])) read ->
  (pc = InCall -> d_by d = Input) -> (pc <> InCall -> d_by d <> Input) ->
  input_inv key pc (by_caller Input (done ++ [went_on e k d])) read.
Proof.
  intros Hi H1 H2. rewrite !by_caller_snoc in *. cbn [d_by went_on].
  destruct (decide (d_by d = Input)) as [Hd|Hd]; [|done].
  destruct pc; try (by destruct H2). cbn in *. rewrite fmap_app in *.
  destruct Hi as (-> & l & d' & [-> _]%app_inj_2 & Hl); [|done]. split; [done|]. by eexists _, _.
Qed.

(** A call returns, with its last copy sent. *)
Lemma inv_returns evs calls done d e r : winv evs calls (r_world r) -> r_held r = None ->
  calls = done ++ [d] -> (forall who, who <> d_by d -> pc_of who r <> InCall) ->
  match d_by d with
  | Input => r_read r = d_payload <$> by_caller Input calls /\ Forall (acked key) (by_caller Input done)
             /\ (e = None -> acked key d)
             /\ resizer_inv (r_resizer r) (by_caller Resizer calls) (r_sizes r)
  | Resizer => input_inv key (r_input r) (by_caller Input calls) (r_read r)
               /\ d_payload <$> by_caller Resizer calls `sublist_of` size_record <$> r_sizes r
  end ->
  inv evs calls (call_returns (d_by d) e r).
Proof.
  intros Hw Hh -> Hpc Hm. destruct (d_by d) eqn:Hd.
  - rewrite (by_caller_own Input), (by_caller_other Resizer) in Hm by congruence.
    destruct Hm as (Hread & Hacked & He & Hsizes).
    destruct e as [x|]; split; cbn; rewrite ?(by_caller_own Input), ?(by_caller_other Resizer) by congruence; try done.
    + unfold held_inv. cbn. rewrite Hh. intros []; cbn; [done|by apply (Hpc Resizer)].
    + split; [exists []; rewrite app_nil_r; split; [done|cbn; lia]|]. intros l d' [<- _]%app_inj_2; done.
    + unfold held_inv. cbn. rewrite Hh. intros []; cbn; [done|by apply (Hpc Resizer)].
    + split; [done|]. apply Forall_app. split; [done|]. apply Forall_singleton. by apply He.
  - destruct Hm as (Hin & Hsizes).
    assert (call_returns Resizer e r = with_pc Resizer AtSource r) as -> by (by destruct e).
    split; cbn; try done.
    unfold held_inv. cbn. rewrite Hh. intros []; cbn; [by apply (Hpc Input)|done].
Qed.

(** An event while [dataMu] is held. *)
Lemma inv_call evs e calls r h : inv evs calls r -> r_held r = Some h ->
  exists calls', inv (evs ++ [e]) calls' (session_event e r).
Proof.
  intros Hinv Hh. apply (inv_same evs [] calls r (with_ctx (r_ctx r || is_cancel e) r)) in Hinv; try done.
  rewrite app_nil_r in Hinv. unfold session_event. cbv zeta. set (r0 := with_ctx _ r) in *.
  assert (r_held r0 = Some h) as Hh0 by done. clearbody r0. clear r Hh. rename r0 into r, Hh0 into Hh.
  rewrite Hh. destruct Hinv as [Hw Hheld Hin Hre]. pose proof Hheld as Hheld'. unfold held_inv in Hheld'.
  rewrite Hh in Hheld'. destruct Hheld' as (Hpc & Hs & done & d & -> & Hby & Hpkt & Hwant & Hlen & Ha).
  pose proof (call_event_spec (h_pkt h) (h_want h) (h_schedule h) e (r_world r) (wi_world _ _ _ _ _ Hw) Hs) as Hspec.
  destruct (call_event _ _ _ e _) as [st w']. destruct Hspec as (Hok & Hst & Hacks & k & Hsent & Hm).
  rewrite Hpkt in Hsent. assert (k <= length (h_schedule h))%nat as Hk by (destruct st; lia || tauto).
  assert (winv (evs ++ [e]) (done ++ [went_on e k d]) w') as Hw'
    by (eapply wire_went_on; [exact Hw|done..|lia]).
  pose proof (wi_key _ _ _ _ _ Hw) as Hkey.
  exists (done ++ [went_on e k d]).
  assert (forall x, (x = None -> acked key (went_on e k d)) ->
    inv (evs ++ [e]) (done ++ [went_on e k d]) (unlock (h_who h) x (with_world w' r))) as Hunlock.
  { intros x Hx. unfold unlock. rewrite <- Hby. change (d_by d) with (d_by (went_on e k d)).
    apply (inv_returns _ _ done (went_on e k d)); try done.
    - intros who Hne Hcall. cbn in Hne. rewrite Hby in Hne. apply Hne, Hpc. by destruct who.
    - cbn [d_by went_on]. destruct (d_by d) eqn:Hd; cbn [r_read r_input r_resizer r_sizes with_held with_world].
      + assert (r_input r = InCall) as Hi by (by apply (Hpc Input)).
        rewrite Hi, (by_caller_own Input) in Hin by done. rewrite (by_caller_own Input) by done.
        cbn in Hin |- *. destruct Hin as (-> & l & d' & [<- _]%app_inj_2 & Hl); [|done].
        rewrite !fmap_app. split_and!; try done. rewrite (by_caller_other Resizer) in Hre |- * by (cbn; congruence).
        exact Hre.
      + split.
        * apply input_went_on; [done| |by rewrite Hd]. intros Hc. apply (Hpc Input) in Hc. congruence.
        * assert (r_resizer r = InCall) as Hi by (by apply (Hpc Resizer)).
          rewrite Hi, (by_caller_own Resizer) in Hre by done. rewrite (by_caller_own Resizer) by done.
          cbn in Hre |- *. by rewrite fmap_app in *. }
  destruct st as [schedule| |x|]; [| |by apply Hunlock|done].
  - destruct Hm as [Hne Hlen']. split; cbn [r_world with_held with_world r_input r_read r_resizer r_sizes].
    + done.
    + by eapply held_went_on.
    + apply input_went_on; [done|..].
      * intros Hc. apply (Hpc Input) in Hc. congruence.
      * intros Hc Hd. apply Hc, (Hpc Input). congruence.
    + destruct (decide (d_by d = Resizer)); [|rewrite (by_caller_other Resizer) in * by (cbn; congruence); exact Hre].
      rewrite by_caller_own in * by done. unfold resizer_inv in *. rewrite !fmap_app in *. exact Hre.
  - apply Hunlock. intros _. destruct Hm as [-> [Hin'|Hp]].
    + rewrite Hwant in Hin'. eapply peer_acked_mono; [|by apply Ha].
      intros x Hx. cbn. apply elem_of_app. by left.
    + rewrite Hwant, Hkey in Hp. eapply peer_acked_mono; [|exact Hp].
      intros x Hx. cbn. apply elem_of_app. by right.
Qed.

(** A waiting call is given [dataMu]. *)
Lemma inv_lock evs calls who r : inv evs calls r -> exists calls', inv evs calls' (lock sch who r).
Proof.
  intros Hinv. unfold lock. destruct (r_held r) as [h|] eqn:Hh; [by exists calls|].
  destruct (pc_of who r) as [|payload| |] eqn:Hpc; try by exists calls.
  destruct Hinv as [Hw Hheld Hin Hre]. unfold held_inv in Hheld. rewrite Hh in Hheld.
  pose proof (send_first_run sch payload [] (r_world r) (wi_world _ _ _ _ _ Hw)) as Hf.
  destruct (send_first sch payload [] (r_world r)) as [[x evs'] w'].
  destruct Hf as (_ & Hok & Hsent & Hsrc & Hdst & Hkey & Hout & Hmode & Hack & Hx).
  pose proof (wire_first evs calls who payload _ w' Hw Hok Hsent Hsrc Hdst Hkey Hout Hmode) as Hw'.
  set (d := first_call who (r_world r) payload) in *.
  assert (d_by d = who /\ d_payload d = payload) as [Hby Hpay] by done.
  exists (calls ++ [d]).
  assert (forall e, inv evs (calls ++ [d]) (call_returns who (Some e) (with_world w' r))) as Hret.
  { intros e. rewrite <- Hby. apply (inv_returns _ _ calls d); try done; clearbody d.
    { intros who' _. destruct who'; [exact (Hheld Input)|exact (Hheld Resizer)]. }
    destruct who; rewrite Hby; cbn in Hpc |- *.
    - rewrite (by_caller_own Input), (by_caller_other Resizer) by congruence. rewrite Hpc in Hin.
      destruct Hin as [Hr Ha]. rewrite fmap_app. cbn. by rewrite Hpay.
    - rewrite (by_caller_own Resizer), (by_caller_other Input) by congruence. split; [done|].
      rewrite Hpc in Hre. cbn in Hre. rewrite fmap_app. cbn. by rewrite Hpay. }
  destruct Hx as [->|[e ->]]; [|apply Hret]. unfold active_schedule. rewrite (wi_mode _ _ _ _ _ Hw).
  destruct (dataSchedule sch) as [|i intervals] eqn:Hsched; [apply Hret|].
  assert (forall who', pc_of who' (with_pc who InCall r) = InCall <-> who' = who) as Hiff.
  { intros who'. split; [|intros ->; by destruct who]. intros Hc. destruct who, who'; try done; cbn in Hc;
      [by destruct (Hheld Resizer)|by destruct (Hheld Input)]. }
  split; [exact Hw'|..].
  - unfold held_inv. cbn. split; [intros who'; rewrite <- Hiff; by destruct who'|]. split; [done|].
    exists calls, d. split_and!; try done; [|by rewrite Hsched|].
    + unfold datagram, d. cbn. unfold next_packet, session_header.
      by rewrite (wi_src _ _ _ _ _ Hw), (wi_dst _ _ _ _ _ Hw), (wi_key _ _ _ _ _ Hw).
    + intros c. rewrite Hack. by intros ?%not_elem_of_nil.
  - clearbody d. destruct who; cbn in Hpc |- *.
    + rewrite (by_caller_own Input) by done. rewrite Hpc in Hin. destruct Hin as [-> Ha]. cbn.
      rewrite fmap_app. cbn. rewrite Hpay. split; [done|]. by eexists _, _.
    + by rewrite (by_caller_other Input) by congruence.
  - clearbody d. destruct who; cbn in Hpc |- *.
    + by rewrite (by_caller_other Resizer) by congruence.
    + rewrite (by_caller_own Resizer) by done. rewrite Hpc in Hre. cbn in Hre |- *. rewrite fmap_app.
      cbn. by rewrite Hpay.
Qed.

(** A caller outside [sendDataAndWaitAck] moves on outside it. *)
Lemma held_with_pc calls who pc r r' : held_inv sch (sess w0) r calls ->
  pc_of who r <> InCall -> pc <> InCall ->
  r_world r' = r_world r -> r_held r' = r_held r ->
  (forall who', pc_of who' r' = pc_of who' (with_pc who pc r)) -> held_inv sch (sess w0) r' calls.
Proof.
  unfold held_inv. intros Hh H1 H2 E1 E2 E3. rewrite E1, E2.
  assert (forall who', pc_of who' r' = InCall <-> pc_of who' r = InCall) as Hiff.
  { intros who'. rewrite E3. destruct who, who'; cbn in *; tauto. }
  destruct (r_held r); by repeat setoid_rewrite Hiff.
Qed.

Lemma ended_inv calls rest read : (length rest <= 1)%nat -> Forall (acked key) calls ->
  read = (d_payload <$> calls) ++ rest -> input_inv key Ended calls read.
Proof.
  intros Hl Ha ->. split; [by eexists|]. intros l d ->. by apply Forall_app in Ha as [].
Qed.

Lemma inv_input evs calls p r : inv evs calls r -> inv evs calls (input_read p r).
Proof.
  intros Hinv. unfold input_read. destruct (r_input r) eqn:Hpc; try done. case_decide as Hp; [done|].
  destruct Hinv as [Hw Hh Hin Hre]. rewrite Hpc in Hin. destruct Hin as [Hr Ha]. cbv zeta.
  assert (length p <> 0%nat) as Hlen by (by intros ?%nil_length_inv).
  pose proof (prepare_write_run p [] (r_world r)) as Hrun. cbn [r_world with_read].
  assert (forall pc r', pc <> InCall -> r_world r' = r_world r -> r_held r' = r_held r -> r_input r' = pc ->
    r_resizer r' = r_resizer r -> r_read r' = r_read r ++ [p] -> r_sizes r' = r_sizes r ->
    input_inv key pc (by_caller Input calls) ((d_payload <$> by_caller Input calls) ++ [p]) ->
    inv evs calls r') as Hgo.
  { intros pc r' Hne E1 E2 E3 E4 E5 E6 Hi. split; [by rewrite E1| |by rewrite E3, E5, Hr|by rewrite E4, E6].
    eapply (held_with_pc calls Input pc r); try done; cbn; [by rewrite Hpc|]. intros []; cbn; congruence. }
  destruct (closed _); [rewrite Hrun; eapply (Hgo Ended); try done; by apply (ended_inv _ [p])|].
  rewrite decide_False in Hrun by done.
  destruct (decide (1469 < length p)%nat); rewrite Hrun.
  - eapply (Hgo Ended); try done. by apply (ended_inv _ [p]).
  - by eapply (Hgo (WantsLock p)).
Qed.

Lemma inv_resize evs calls r : inv evs calls r -> inv evs calls (resize_request r).
Proof.
  intros Hinv. unfold resize_request. destruct (r_resizer r) eqn:Hpc; try done.
  destruct (r_winch r) as [|[cols rows] q]; [done|].
  destruct Hinv as [Hw Hh Hin Hre]. rewrite Hpc in Hre. cbn in Hre. cbv zeta.
  pose proof (prepare_resize_run (u16 cols) (u16 rows) [] (r_world r)) as Hrun. cbn [r_world with_sizes].
  assert (forall pc, pc <> InCall ->
    resizer_inv pc (by_caller Resizer calls) (r_sizes r ++ [(cols, rows)]) ->
    inv evs calls (with_pc Resizer pc (with_sizes (r_sizes r ++ [(cols, rows)]) q r))) as Hgo.
  { intros pc Hne Hi. split; try done.
    eapply (held_with_pc calls Resizer pc r); try done; cbn; by rewrite Hpc. }
  destruct (closed _); rewrite Hrun; apply Hgo; try done; cbn; rewrite fmap_app.
  - by apply sublist_inserts_r.
  - by apply sublist_app.
Qed.

Lemma inv_session evs e calls r : inv evs calls r -> exists calls', inv (evs ++ [e]) calls' (session_event e r).
Proof.
  intros Hinv. destruct (r_held r) as [h|] eqn:Hh; [by eapply inv_call|]. exists calls.
  unfold session_event. cbv zeta. cbn [r_held with_ctx r_world]. rewrite Hh.
  destruct e as [s| | | | |]; try by eapply inv_same.
  pose proof (wi_world _ _ _ _ _ (si_wire _ _ _ _ _ Hinv)) as Hok.
  destruct (interfere_caller s _ Hok) as [Hok' [Hsame _]]. rewrite (wo_crashed _ Hok').
  destruct Hinv as [Hw Hheld Hin Hre]. split; cbn; try done; [by eapply wire_idle|].
  unfold held_inv in *. cbn. by rewrite Hh in *.
Qed.

Lemma inv_act evs op calls r : inv evs calls r ->
  exists calls', inv (evs ++ op_events op) calls' (relay_act sch op r).
Proof.
  intros Hinv.
  assert (forall evs' r', r_world r' = r_world r -> r_held r' = r_held r -> r_input r' = r_input r ->
    r_resizer r' = r_resizer r -> r_read r' = r_read r -> r_sizes r' = r_sizes r ->
    exists calls', inv (evs ++ evs') calls' r') as Hsame by (intros; exists calls; by eapply inv_same).
  destruct op as [e|p|e|e| |who| | | |]; cbn [relay_act op_events]; rewrite ?app_nil_r.
  - destruct e as [[]| | | | |]; try (by eapply inv_session); try by eapply Hsame.
    destruct (r_output r); [by eapply inv_session|by eapply Hsame].
  - exists calls. by apply inv_input.
  - exists calls. destruct (r_input r) eqn:Hpc; try done.
    destruct Hinv as [Hw Hheld Hin Hre]. rewrite Hpc in Hin. destruct Hin as [Hr Ha].
    split; cbn; try done; [|by apply (ended_inv _ []); [cbn; lia|done|rewrite app_nil_r]].
    eapply (held_with_pc calls Input Ended r); try done; cbn; by rewrite Hpc.
  - rewrite <- (app_nil_r evs). destruct (_ && _); by eapply Hsame.
  - exists calls. by apply inv_resize.
  - by eapply inv_lock.
  - rewrite <- (app_nil_r evs). destruct (r_phase r); try by eapply Hsame. destruct (r_ctx r); by eapply Hsame.
  - rewrite <- (app_nil_r evs). destruct (r_phase r); try by eapply Hsame. destruct (r_errCh r); by eapply Hsame.
  - destruct (r_phase r); try by eapply Hsame. destruct (closed _); [by eapply Hsame|].
    eapply inv_session. rewrite <- (app_nil_r evs). by eapply inv_same.
  - rewrite <- (app_nil_r evs). destruct (r_phase r); try by eapply Hsame. destruct (close_returns _); by eapply Hsame.
Qed.

Lemma inv_run ops b winch : world_ok w0 -> terminalMode (sess w0) = true ->
  exists calls, inv (ops ≫= op_events) calls (relay sch ops (start_relay b winch w0)).
Proof.
  intros Hok Hmode. induction ops as [|op ops [calls IH]] using rev_ind.
  { exists []. split; [|by intros []|by split; [|apply Forall_nil_2]|apply sublist_nil_l].
    split; try done. by rewrite app_nil_r. }
  unfold relay. rewrite foldl_app, bind_snoc. cbn [foldl]. unfold relay_step at 1.
  fold (relay sch ops (start_relay b winch w0)).
  destruct (r_phase (relay sch ops (start_relay b winch w0))); try (by eapply inv_act);
    exists calls; by eapply inv_same.
Qed.
End Steps.

(** ** Properties *)

(** C2. What the user types reaches the device in order, over every
    interleaving of the relay's goroutines, the session's and the network.
    The datagrams sent for [Write] and [Resize] are those of one call after
    the other, a call's copies all identical, one for the first transmission
    and at most one per interval of the data schedule, each call at the
    counter its predecessor ended with.  The calls of the input pump carry
    the chunks it has read, whole and in order, with at most one chunk not
    sent; every one of them but the last was acknowledged by the device
    while it was waiting, and all of them when the pump reads again.  The
    other calls carry dimensions the resizer received, in order, which are
    the first its channel gave. *)
Theorem keystrokes_in_order sch ops b winch w0 :
  world_ok w0 -> terminalMode (sess w0) = true ->
  let r := relay sch ops (start_relay b winch w0) in
  let key := sessionKey (sess w0) in
  exists calls,
    driver_sent (r_world r) = driver_sent w0 ++ (calls ≫= copies (sess w0))
    /\ chained (out (ctrs (sess w0))) calls
    /\ Forall (fun d => (1 <= d_copies d <= S (length (dataSchedule sch)))%nat) calls
    /\ (calls ≫= d_events) `sublist_of` (ops ≫= op_events)
    /\ (exists rest, r_read r = (d_payload <$> by_caller Input calls) ++ rest /\ (length rest <= 1)%nat)
    /\ (forall l d, by_caller Input calls = l ++ [d] -> Forall (acked key) l)
    /\ (r_input r = AtSource ->
        r_read r = d_payload <$> by_caller Input calls /\ Forall (acked key) (by_caller Input calls))
    /\ (d_payload <$> by_caller Resizer calls) `sublist_of` (size_record <$> r_sizes r)
    /\ r_sizes r `prefix_of` winch.
Proof.
  intros Hok Hmode. cbv zeta. destruct (inv_run sch w0 ops b winch Hok Hmode) as (calls & [Hw _ Hin Hre]).
  exists calls. destruct Hw. split_and!; try done.
  - destruct (r_input _); cbn in Hin; [..|by destruct Hin as [? _]];
      destruct Hin as [-> _]; [exists []|eexists [_]|exists []]; rewrite ?app_nil_r; (split; [done|cbn; lia]).
  - intros l d Hl. destruct (r_input _); cbn in Hin; [| | |by eapply Hin].
    + destruct Hin as [_ Ha]. rewrite Hl in Ha. by apply Forall_app in Ha as [].
    + destruct Hin as [_ Ha]. rewrite Hl in Ha. by apply Forall_app in Ha as [].
    + destruct Hin as [_ (l' & d' & Hl' & Ha)]. rewrite Hl in Hl'. by apply app_inj_2 in Hl' as [-> _].
  - intros Hpc. by rewrite Hpc in Hin.
  - destruct (r_resizer _); cbn in Hre; try done. etransitivity; [|exact Hre]. by apply sublist_inserts_r.
  - exists (r_winch (relay sch ops (start_relay b winch w0))). symmetry. apply (relay_winch sch ops (start_relay b winch w0)).
Qed.

(** ** A relay at work *)

(** Two chunks, the first retransmitted once, with a resize in between; then
    the input ends, the session is closed and its receive goroutine leaves. *)
Definition sample_sch : schedules := mkSchedules [Second] [Second; Second].
Definition sample_size : bytes := resize_record 80 24.
Definition sample_relay : list relay_op :=
  [RIn [108; 115]; RResize; RLock Input; RLock Resizer; RSession Timer;
   RSession (sample_ack 42); RSession (Other SRx); RSession TakeAck; RLock Resizer; RIn [13];
   RSession (sample_ack 64); RSession (Other SRx); RSession TakeAck; RLock Input;
   RSession (sample_ack 65); RSession TakeAck; RInEnd None; RSelectErr; RClose]
  ++ (RSession <$> (Other <$> [SCloser; SCloser; SRx; SCloser; SCloser; SRx; SCloser; SCloser; SRx])) ++ [RClosed].
#[local] Abbreviation sample_end := (relay sample_sch sample_relay (start_relay false [(80, 24)] sample_world)).

Example sample_relay_result :
  r_phase sample_end = Over (EndPump None)
  /\ drop headerLen <$> driver_sent (r_world sample_end)
     = [[108; 115]; [108; 115]; sample_size; [13]].
Proof. vm_compute. done. Qed.

Lemma keystrokes_in_order_witness :
  let r := sample_end in
  let key := sessionKey (sess sample_world) in
  exists calls,
    driver_sent (r_world r) = driver_sent sample_world ++ (calls ≫= copies (sess sample_world))
    /\ chained (out (ctrs (sess sample_world))) calls
    /\ Forall (fun d => (1 <= d_copies d <= S (length (dataSchedule sample_sch)))%nat) calls
    /\ (calls ≫= d_events) `sublist_of` (sample_relay ≫= op_events)
    /\ (exists rest, r_read r = (d_payload <$> by_caller Input calls) ++ rest /\ (length rest <= 1)%nat)
    /\ (forall l d, by_caller Input calls = l ++ [d] -> Forall (acked key) l)
    /\ (r_input r = AtSource ->
        r_read r = d_payload <$> by_caller Input calls /\ Forall (acked key) (by_caller Input calls))
    /\ (d_payload <$> by_caller Resizer calls) `sublist_of` (size_record <$> r_sizes r)
    /\ r_sizes r `prefix_of` [(80, 24)].
Proof.
  apply (keystrokes_in_order sample_sch sample_relay false [(80, 24)] sample_world); [exact sample_world_ok|reflexivity].
Defined.

(** A resize that waits for [dataMu] while the peer ends the session: the
    write gives up and unlocks, and the resize, which has looked at [closed]
    before, sends through the descriptor [fail] has already closed. *)
Definition late_resize : list relay_op :=
  [RIn [108; 115]; RLock Input; RResize;
   RSession (Other (SRead (ReadOk (header_layout (mkHeader 1 pTypeEnd [2; 0; 0; 0; 0; 2] [2; 0; 0; 0; 0; 1] 0x1234 0)
                                     dirToClient))))]
  ++ (RSession <$> (Other <$> [SRx; SRx; SRx; SRx; SRx])) ++ [RSession CtxDone; RLock Resizer].
Example send_after_close :
  let before := r_world (relay sample_sch (take 10 late_resize) (start_relay false [(80, 24)] sample_world)) in
  let after := r_world (relay sample_sch late_resize (start_relay false [(80, 24)] sample_world)) in
  senderClosed (sess before) = true
  /\ drop headerLen <$> driver_sent after = (drop headerLen <$> driver_sent before) ++ [sample_size].
Proof. vm_compute. done. Qed.
