(* ===== verification/GoOS.v ===== *)
(** * Paths, files and interface data of the operating system

    [path/filepath] on slash-separated paths, a file system as the program
    sees it through [os.ReadFile], [os.MkdirAll] and [os.WriteFile], and the
    text forms of [net.HardwareAddr], [net.Flags] and [net.IPNet]. *)

From S2P Require Import Prelude GoBytes GoText MacAddr Discover.

#[local] Open Scope Z_scope.

(** ** path/filepath *)

Definition slash : Z := 47.
Definition dot : bytes := [46].
Definition dotdot : bytes := [46; 46].

(** [Clean]'s stack of elements, innermost first. *)
Definition clean_step (rooted : bool) (stack : list bytes) (e : bytes) : list bytes :=
  if decide (e = [] \/ e = dot) then stack
  else if decide (e = dotdot) then
    match stack with
    | top :: rest => if decide (top = dotdot) then e :: stack else rest
    | [] => if rooted then [] else [e]
    end
  else e :: stack.

Definition is_rooted (p : bytes) : bool := bool_decide (head p = Some slash).

Definition Clean (p : bytes) : bytes :=
  let stack := foldl (clean_step (is_rooted p)) [] (Split p slash) in
  let s := GoText.Join (rev stack) [slash] in
  if is_rooted p then slash :: s else if decide (s = []) then dot else s.

(** [filepath.Join] *)
Fixpoint path_join (l : list bytes) : bytes :=
  match l with
  | [] => []
  | [] :: l => path_join l
  | _ => Clean (GoText.Join l [slash])
  end.

(** The part up to the last slash, and what follows it. *)
Fixpoint split_last_slash (p : bytes) : option (bytes * bytes) :=
  match p with
  | [] => None
  | c :: r =>
      match split_last_slash r with
      | Some (a, b) => Some (c :: a, b)
      | None => if c =? slash then Some ([c], r) else None
      end
  end.
Definition Dir (p : bytes) : bytes :=
  match split_last_slash p with Some (d, _) => Clean d | None => dot end.

Fixpoint drop_slashes_rev (l : bytes) : bytes :=
  match l with c :: r => if c =? slash then drop_slashes_rev r else l | [] => [] end.
Definition Base (p : bytes) : bytes :=
  if decide (p = []) then dot
  else
    let p := rev (drop_slashes_rev (rev p)) in
    let b := match split_last_slash p with Some (_, b) => b | None => p end in
    if decide (b = []) then [slash] else b.

Example clean_example : Clean (bytes_of_string "/a//b/../c/./") = bytes_of_string "/a/c".
Proof. reflexivity. Qed.
Example clean_up : Clean (bytes_of_string "a/../../b") = bytes_of_string "../b".
Proof. reflexivity. Qed.
Example dir_example : Dir (bytes_of_string "/etc/mactelnet-proxy/key") = bytes_of_string "/etc/mactelnet-proxy".
Proof. reflexivity. Qed.
Example base_example : Base (bytes_of_string "../bond0") = bytes_of_string "bond0".
Proof. reflexivity. Qed.

(** ** Files *)

Inductive fs_error := ErrNotExist | ErrFS (errno : Z).

Record file := mkFile { f_mode : Z; f_data : bytes }.

(** The regular files, and what the system refuses: reading, creating
    directories, writing. *)
Record fsys := mkFS {
  fs_files : gmap bytes file;
  fs_read_err : bytes -> option Z;
  fs_mkdir_err : bytes -> option Z;
  fs_write_err : bytes -> option Z;
}.

Definition ReadFile (fs : fsys) (path : bytes) : fs_error + bytes :=
  match fs_read_err fs path with
  | Some e => inl (ErrFS e)
  | None =>
      match fs_files fs !! path with
      | Some f => inr (f_data f)
      | None => inl ErrNotExist
      end
  end.
Definition MkdirAll (fs : fsys) (path : bytes) : option Z := fs_mkdir_err fs path.
(** A new file gets [mode]; an existing one keeps its own. *)
Definition WriteFile (fs : fsys) (path data : bytes) (mode : Z) : option Z * fsys :=
  match fs_write_err fs path with
  | Some e => (Some e, fs)
  | None =>
      let mode := match fs_files fs !! path with Some f => f_mode f | None => mode end in
      (None, mkFS (<[path := mkFile mode data]> (fs_files fs)) (fs_read_err fs) (fs_mkdir_err fs)
               (fs_write_err fs))
  end.

(** ** Text forms of package net *)

Definition HardwareAddr_String (hw : bytes) : bytes := GoText.Join (hex2 <$> hw) [58].

Definition FlagUp : Z := 1.
Definition FlagBroadcast : Z := 2.
Definition FlagLoopback : Z := 4.
Definition FlagPointToPoint : Z := 8.
Definition FlagMulticast : Z := 16.
Definition FlagRunning : Z := 32.
Definition flag_names : list (Z * string) :=
  [(FlagUp, "up"); (FlagBroadcast, "broadcast"); (FlagLoopback, "loopback");
   (FlagPointToPoint, "pointtopoint"); (FlagMulticast, "multicast"); (FlagRunning, "running")]%string.
Definition Flags_String (f : Z) : bytes :=
  let l := omap (fun p => if Z.land f p.1 =? 0 then None else Some (bytes_of_string p.2)) flag_names in
  if decide (l = []) then [48] else GoText.Join l [124].

(** The leading one bits of a byte. *)
Fixpoint ones_loop (n : nat) (v count : Z) : Z * Z :=
  match n with
  | O => (count, v)
  | S n => if Z.land v 0x80 =? 0 then (count, v) else ones_loop n (u8 (Z.shiftl v 1)) (count + 1)
  end.
(** [simpleMaskLength]: [None] for -1. *)
Fixpoint simpleMaskLength (mask : bytes) : option Z :=
  match mask with
  | [] => Some 0
  | v :: rest =>
      if v =? 0xff then Z.add 8 <$> simpleMaskLength rest
      else
        let '(n, v) := ones_loop 8 v 0 in
        if negb (v =? 0) then None
        else if forallb (Z.eqb 0) rest then Some n else None
  end.
Definition IPNet_String (ip mask : bytes) : bytes :=
  let nil_ := bytes_of_string "<nil>" in
  match (match To4 ip with
         | Some ip4 => Some ip4
         | None => if decide (length ip = 16%nat) then Some ip else None
         end) with
  | None => nil_
  | Some ip =>
      let m :=
        if decide (length mask = 4%nat) then if decide (length ip = 4%nat) then Some mask else None
        else if decide (length mask = 16%nat) then
          Some (if decide (length ip = 4%nat) then drop 12 mask else mask)
        else None in
      match m with
      | None => nil_
      | Some m =>
          match simpleMaskLength m with
          | Some l => IP_String ip ++ [slash] ++ itoa l
          | None => IP_String ip ++ [slash] ++ mjoin (hex2 <$> m)
          end
      end
  end.

Example ipnet_example :
  IPNet_String (net_IPv4 192 168 88 1) [255; 255; 255; 0] = bytes_of_string "192.168.88.1/24".
Proof. reflexivity. Qed.
Example flags_example : Flags_String 51 = bytes_of_string "up|broadcast|multicast|running".
Proof. reflexivity. Qed.
