(* ===== verification/Ifaces.v ===== *)
(** * Interface listing (internal/sshserver/ifaces.go)

    [execIfaces]: classification of an interface from sysfs and procfs, the
    summary record, the filter and order of the listing, and the table.
    The two virtual file systems are the [readers] record; the JSON encoder
    is a parameter. *)

From S2P Require Import Prelude GoBytes GoText GoFlag Discover GoOS.

#[local] Open Scope Z_scope.

(** ** Data *)

(** [net.Interface], and what its [Addrs] method answers ([None] for an
    error). *)
Record Interface := mkInterface {
  Index : Z;
  MTU : Z;
  Name : bytes;
  HardwareAddr : bytes;
  Flags : Z;
  Addrs : option (list net_addr);
}.

(** [os.ReadFile], [os.Stat] and [os.Readlink] on the paths this file uses:
    [None] or [false] for an error. *)
Record readers := mkReaders {
  read_file : bytes -> option bytes;
  stat_ok : bytes -> bool;
  read_link : bytes -> option bytes;
}.

Record ifaceInfo := mkInfo {
  i_Name : bytes;
  i_Index : Z;
  i_MAC : bytes;
  i_MTU : Z;
  i_Flags : bytes;
  i_Kind : bytes;
  i_Parent : bytes;
  i_VID : Z;
  i_Master : bytes;
  i_Oper : bytes;
  i_IPv4 : list bytes;
  i_IPv6 : list bytes;
}.



(** ** sysfs and procfs *)

Definition sys_class_net : bytes := lit "/sys/class/net".

Definition readSysNet (os : readers) (name file : bytes) : bytes :=
  match read_file os (path_join [sys_class_net; name; file]) with
  | None => []
  | Some b => TrimSpace b
  end.

(** The first line with the prefix [DEVTYPE=]. *)
Fixpoint devtype (lines : list bytes) : option bytes :=
  match lines with
  | [] => None
  | l :: lines =>
      match CutPrefix l (lit "DEVTYPE=") with Some v => Some v | None => devtype lines end
  end.

Definition readKind (os : readers) (iface : Interface) : bytes :=
  if negb (Z.land (Flags iface) FlagLoopback =? 0) then lit "loopback"
  else
    let uevent := readSysNet os (Name iface) (lit "uevent") in
    match devtype (Split uevent 10) with
    | Some v => v
    | None =>
        if stat_ok os (path_join [sys_class_net; Name iface; lit "wireless"]) then lit "wireless"
        else if negb (Z.land (Flags iface) FlagPointToPoint =? 0) then lit "ptp"
        else lit "ether"
    end.

Definition readMaster (os : readers) (name : bytes) : bytes :=
  match read_link os (path_join [sys_class_net; name; lit "master"]) with
  | None => []
  | Some target => Base target
  end.

(** The fields of a line: a number after [VID:], unless one was found. *)
Fixpoint vid_fields (fields : list bytes) (vid : Z) : Z :=
  match fields with
  | f :: ((g :: _) as rest) =>
      let vid :=
        if decide (f = lit "VID:") then
          match Atoi g with Some v => if vid =? 0 then v else vid | None => vid end
        else vid in
      vid_fields rest vid
  | _ => vid
  end.

Definition vlan_line (acc : bytes * Z) (line : bytes) : bytes * Z :=
  let '(parent, vid) := acc in
  let vid := vid_fields (Fields line) vid in
  if HasPrefix (TrimSpace line) (lit "Device:") then
    (TrimSpace (TrimPrefix (TrimSpace line) (lit "Device:")), vid)
  else (parent, vid).

Definition readVLAN (os : readers) (name : bytes) : bytes * Z :=
  match read_file os (path_join [lit "/proc/net/vlan"; name]) with
  | None => ([], 0)
  | Some b => foldl vlan_line ([], 0) (Split b 10)
  end.

Definition readOper (os : readers) (name : bytes) : bytes :=
  let op := readSysNet os name (lit "operstate") in
  let carrier := readSysNet os name (lit "carrier") in
  if decide (op = lit "up" /\ carrier = lit "0") then lit "no-carrier" else op.

(** ** The summary *)

Definition add_addr (info : ifaceInfo) (a : net_addr) : ifaceInfo :=
  match a with
  | OtherAddr => info
  | IPNet ip mask =>
      let s := IPNet_String ip mask in
      let '(mkInfo n i m t f k p v ma o v4 v6) := info in
      match To4 ip with
      | Some _ => mkInfo n i m t f k p v ma o (v4 ++ [s]) v6
      | None => mkInfo n i m t f k p v ma o v4 (v6 ++ [s])
      end
  end.

Definition summarize (os : readers) (iface : Interface) : ifaceInfo :=
  let kind := readKind os iface in
  let mac := if (0 <? length (HardwareAddr iface))%nat
             then HardwareAddr_String (HardwareAddr iface) else [] in
  let '(parent, vid) := if decide (kind = lit "vlan") then readVLAN os (Name iface) else ([], 0) in
  let info := mkInfo (Name iface) (Index iface) mac (MTU iface) (Flags_String (Flags iface)) kind
                parent vid (readMaster os (Name iface)) (readOper os (Name iface)) [] [] in
  match Addrs iface with
  | None => info
  | Some addrs => foldl add_addr info addrs
  end.

(** ** The table *)

Definition metaLine (r : ifaceInfo) : bytes :=
  let field label v := if decide (v = []) then [] else [lit label ++ v] in
  GoText.Join
    (field "kind="%string (i_Kind r) ++ field "parent="%string (i_Parent r)
     ++ (if i_VID r =? 0 then [] else [lit "vid=" ++ itoa (i_VID r)])
     ++ field "master="%string (i_Master r) ++ field "oper="%string (i_Oper r))
    (lit "  ").

Definition max_width (label : string) (f : ifaceInfo -> bytes) (rows : list ifaceInfo) : nat :=
  foldl (fun w r => if (w <? length (f r))%nat then length (f r) else w) (String.length label) rows.

(** A row: its main line, and a continuation line for the summary of the
    kind and for each address. *)
Definition row_line (nameW macW mtuW : nat) (r : ifaceInfo) : bytes :=
  let mac := if decide (i_MAC r = []) then lit "-" else i_MAC r in
  pad_right nameW (i_Name r) ++ lit "  " ++ pad_left 3 (itoa (i_Index r)) ++ lit "  "
  ++ pad_right macW mac ++ lit "  " ++ pad_left mtuW (itoa (i_MTU r)) ++ lit "  " ++ i_Flags r.
Definition cont_prefix (nameW macW mtuW : nat) : bytes :=
  pad_right nameW [] ++ lit "        " ++ pad_right macW [] ++ lit "  " ++ pad_left mtuW [] ++ lit "    ".
Definition row_lines (nameW macW mtuW : nat) (r : ifaceInfo) : list bytes :=
  let cont s := cont_prefix nameW macW mtuW ++ s in
  [row_line nameW macW mtuW r]
  ++ (if decide (metaLine r = []) then [] else [cont (metaLine r)])
  ++ (cont <$> i_IPv4 r) ++ (cont <$> i_IPv6 r).

Definition table_lines (rows : list ifaceInfo) : list bytes :=
  let nameW := max_width "NAME" i_Name rows in
  let macW := max_width "MAC" i_MAC rows in
  let mtuW := max_width "MTU" (fun r => itoa (i_MTU r)) rows in
  let header := pad_right nameW (lit "NAME") ++ lit "  " ++ pad_left 3 (lit "IDX") ++ lit "  "
                ++ pad_right macW (lit "MAC") ++ lit "  " ++ pad_left mtuW (lit "MTU") ++ lit "  "
                ++ lit "FLAGS / ADDRS" in
  [header; replicate (length header) 45] ++ mjoin (row_lines nameW macW mtuW <$> rows).

(** What is written to the channel: each line with its newline. *)
Definition print_lines (l : list bytes) : bytes := mjoin ((fun s => s ++ [10]) <$> l).
Definition writeIfaceTable (rows : list ifaceInfo) : bytes := print_lines (table_lines rows).

(** ** The command *)

(** Standard error of the command, message by message. *)
Inductive ifaces_diag :=
| IFlag (e : flag_error)
| IEnumerate
| INotFound (name : bytes)
| IEncode.

Definition idx_le (x y : ifaceInfo) : Prop := i_Index x <= i_Index y.
#[export] Instance idx_le_dec x y : Decision (idx_le x y).
Proof. unfold idx_le. apply _. Defined.

Definition ifaces_flags : FlagSet := flags [("j", FBool false); ("i", FString [])]%string.

(** The interfaces that pass the filter, summarised and sorted by index. *)
Definition listing (os : readers) (only : bytes) (all : list Interface) : list ifaceInfo :=
  let keep := fun iface => negb (bool_decide (only <> []) && bool_decide (Name iface <> only)) in
  merge_sort idx_le (summarize os <$> filter (fun iface => keep iface = true) all).

Section Command.
(** [json.Encoder] with indentation, [None] for an error. *)
Context (encode_json : list ifaceInfo -> option bytes).

(** Exit code, output and diagnostics; [all] is what [net.Interfaces()]
    returns. *)
Definition execIfaces (os : readers) (all : option (list Interface)) (args : list bytes)
    : Z * bytes * list ifaces_diag :=
  match Parse ifaces_flags args with
  | Val (fs, _) =>
      let asJSON := get_bool fs "j" in
      let only := get_string fs "i" in
      match all with
      | None => (1, [], [IEnumerate])
      | Some all =>
          let out := listing os only all in
          if decide (only <> [] /\ length out = 0%nat) then (1, [], [INotFound only])
          else if asJSON then
            match encode_json out with
            | Some text => (0, text, [])
            | None => (1, [], [IEncode])
            end
          else (0, writeIfaceTable out, [])
      end
  | Fail e => (2, [], [IFlag e])
  | Panic => (2, [], [])
  end.
End Command.

(** ** Lemmas *)

Lemma max_width_spec label f rows :
  (String.length label <= max_width label f rows)%nat
  /\ Forall (fun r => (length (f r) <= max_width label f rows)%nat) rows.
Proof.
  unfold max_width. generalize (String.length label). induction rows as [|r rows IH]; intros w; [done|].
  cbn [foldl]. set (w' := if (w <? length (f r))%nat then length (f r) else w).
  assert (w <= w' /\ length (f r) <= w')%nat as [H1 H2] by (subst w'; case_bool_lia).
  destruct (IH w') as [Hw HF]. split; [lia|]. apply Forall_cons_2; [lia|done].
Qed.

(** The columns before the flags. *)
Definition flags_column (rows : list ifaceInfo) : nat :=
  max_width "NAME" i_Name rows + max_width "MAC" i_MAC rows
  + max_width "MTU" (fun r => itoa (i_MTU r)) rows + 11.

Definition info_ascii (r : ifaceInfo) : Prop :=
  ascii (i_Name r) /\ ascii (i_MAC r) /\ 0 <= i_Index r < 1000.

Lemma index_width i : 0 <= i < 1000 -> (length (itoa i) <= 3)%nat.
Proof.
  intros Hi. unfold itoa. rewrite (proj2 (Z.ltb_ge i 0)) by lia. cbn [dec_digits].
  destruct (Z.ltb_spec i 10); [cbn; lia|]. destruct (Z.ltb_spec (i / 10) 10); [cbn; lia|].
  destruct (Z.ltb_spec (i / 10 / 10) 10) as [|Hbig]; [cbn; lia|].
  exfalso. rewrite Z.div_div in Hbig by lia. Z.to_euclidean_division_equations. lia.
Qed.

Lemma replicate_app_spaces n m : replicate n 32 ++ replicate m 32 = replicate (n + m) 32.
Proof. by rewrite replicate_add. Qed.

Lemma cont_prefix_spaces nameW macW mtuW :
  cont_prefix nameW macW mtuW = replicate (nameW + macW + mtuW + 14) 32.
Proof.
  unfold cont_prefix, pad_right, pad_left, pad. cbn [runes length app]. rewrite !Nat.sub_0_r.
  change (lit "        ") with (replicate 8 32). change (lit "  ") with (replicate 2 32).
  change (lit "    ") with (replicate 4 32). rewrite app_nil_r, !replicate_app_spaces. f_equal. lia.
Qed.

Lemma row_cells nameW macW mtuW r :
  info_ascii r -> (length (i_Name r) <= nameW)%nat -> (length (i_MAC r) <= macW)%nat ->
  (1 <= macW)%nat -> (length (itoa (i_MTU r)) <= mtuW)%nat ->
  exists cells, row_line nameW macW mtuW r = cells ++ i_Flags r
    /\ length cells = (nameW + macW + mtuW + 11)%nat.
Proof.
  intros (Hn & Hm & Hi) Hln Hlm H1 Hlu. unfold row_line.
  set (mac := if decide (i_MAC r = []) then lit "-" else i_MAC r).
  assert (ascii mac /\ (length mac <= macW)%nat) as [Ha Hl].
  { subst mac. case_decide; [|done]. split; [by repeat constructor|cbn; lia]. }
  exists (pad_right nameW (i_Name r) ++ lit "  " ++ pad_left 3 (itoa (i_Index r)) ++ lit "  "
    ++ pad_right macW mac ++ lit "  " ++ pad_left mtuW (itoa (i_MTU r)) ++ lit "  ").
  split; [by rewrite <- !app_assoc|].
  rewrite !length_app, !length_pad_right, !length_pad_left by (auto using index_width with mt).
  change (length (lit "  ")) with 2%nat. lia.
Qed.

Lemma max_width_pos label f rows :
  String.length label <> 0%nat -> (1 <= max_width label f rows)%nat.
Proof. intros. pose proof (proj1 (max_width_spec label f rows)). lia. Qed.

Lemma listing_perm os only all :
  listing os only all ≡ₚ
    summarize os <$> filter (fun iface => only = [] \/ Name iface = only) all.
Proof.
  unfold listing. rewrite merge_sort_Permutation.
  rewrite (list_filter_iff _ (fun iface => only = [] \/ Name iface = only)); [done|].
  intros iface. rewrite negb_true_iff, andb_false_iff, !bool_decide_eq_false.
  destruct (decide (only = [])), (decide (Name iface = only)); tauto.
Qed.

Lemma listing_empty os only all : only <> [] ->
  length (listing os only all) = 0%nat <-> Forall (fun i => Name i <> only) all.
Proof.
  intros Hne. rewrite listing_perm, length_fmap. induction all as [|i all IH]; [by split|].
  rewrite Forall_cons, <- IH, filter_cons. case_decide as Hi; cbn [length]; [|tauto].
  split; [done|]. intros [? _]. by destruct Hi.
Qed.

(** ** Properties *)

(** C37. The [ifaces] command on every branch: malformed options exit with 2
    before anything is read; a failing enumeration exits with 1; otherwise
    the rows are exactly the interfaces that pass the [-i] filter, each
    summarised once, in increasing order of index, printed as a table or as
    JSON; and the command exits with 1 for a filter that matches nothing. *)
Theorem execIfaces_spec encode_json os all args :
  match Parse ifaces_flags args with
  | Val (fs, _) =>
      match all with
      | None => execIfaces encode_json os all args = (1, [], [IEnumerate])
      | Some ifs =>
          let only := get_string fs "i" in
          exists rows, rows ≡ₚ summarize os <$> filter (fun i => only = [] \/ Name i = only) ifs
            /\ Sorted idx_le rows
            /\ if decide (only <> [] /\ Forall (fun i => Name i <> only) ifs) then
                 execIfaces encode_json os all args = (1, [], [INotFound only])
               else if get_bool fs "j" then
                 match encode_json rows with
                 | Some text => execIfaces encode_json os all args = (0, text, [])
                 | None => execIfaces encode_json os all args = (1, [], [IEncode])
                 end
               else execIfaces encode_json os all args = (0, writeIfaceTable rows, [])
      end
  | Fail e => execIfaces encode_json os all args = (2, [], [IFlag e])
  | Panic => False
  end.
Proof.
  destruct (Parse ifaces_flags args) as [[fs rest]|e|] eqn:Hp; unfold execIfaces; rewrite ?Hp; [|done|].
  2: { exact (Parse_no_panic ifaces_flags args Hp). }
  destruct all as [ifs|]; [|done]. cbv zeta.
  set (only := get_string fs "i"). set (rows := listing os only ifs). exists rows.
  assert (rows ≡ₚ summarize os <$> filter (fun i => only = [] \/ Name i = only) ifs) as Hperm
    by apply listing_perm.
  split_and!; [done|apply Sorted_merge_sort; intros x y; unfold idx_le; lia|].
  pose proof (listing_empty os only ifs) as Hempty. fold rows in Hempty.
  case_decide; case_decide; try tauto. case_match; [|done]. by case_match.
Qed.

Lemma header_cells rows :
  exists cells rest, table_lines rows = (cells ++ lit "FLAGS / ADDRS")
      :: replicate (length (cells ++ lit "FLAGS / ADDRS")) 45 :: rest
    /\ length cells = flags_column rows
    /\ rest = mjoin (row_lines (max_width "NAME" i_Name rows) (max_width "MAC" i_MAC rows)
                       (max_width "MTU" (fun r => itoa (i_MTU r)) rows) <$> rows).
Proof.
  set (nameW := max_width "NAME" i_Name rows). set (macW := max_width "MAC" i_MAC rows).
  set (mtuW := max_width "MTU" (fun r => itoa (i_MTU r)) rows).
  assert (4 <= nameW /\ 3 <= macW /\ 3 <= mtuW)%nat as (H1 & H2 & H3).
  { split_and!; [exact (proj1 (max_width_spec "NAME" i_Name rows))|exact (proj1 (max_width_spec "MAC" i_MAC rows))
      |exact (proj1 (max_width_spec "MTU" (fun r => itoa (i_MTU r)) rows))]. }
  exists (pad_right nameW (lit "NAME") ++ lit "  " ++ pad_left 3 (lit "IDX") ++ lit "  "
    ++ pad_right macW (lit "MAC") ++ lit "  " ++ pad_left mtuW (lit "MTU") ++ lit "  "), (mjoin (row_lines nameW macW mtuW <$> rows)).
  unfold table_lines. fold nameW macW mtuW. cbv zeta. rewrite <- !app_assoc.
  split_and!; [reflexivity| |reflexivity]. unfold flags_column. fold nameW macW mtuW.
  rewrite !length_app, !length_pad_right, !length_pad_left by (by repeat constructor).
  change (length (lit "  ")) with 2%nat. lia.
Qed.

(** The table lines up: for interfaces with ASCII names and indices
    below 1000, the flags of every row start in the column of the heading
    [FLAGS / ADDRS], the rule under the heading has its length, and every
    continuation line (kind summary and addresses, in the order IPv4, IPv6)
    is indented by three columns more than that. *)
Theorem writeIfaceTable_aligned rows : Forall info_ascii rows ->
  exists heading,
    table_lines rows
    = (heading ++ lit "FLAGS / ADDRS") :: replicate (length (heading ++ lit "FLAGS / ADDRS")) 45
      :: mjoin (row_lines (max_width "NAME" i_Name rows) (max_width "MAC" i_MAC rows)
                  (max_width "MTU" (fun r => itoa (i_MTU r)) rows) <$> rows)
    /\ length heading = flags_column rows
    /\ Forall (fun r => exists cells,
         length cells = flags_column rows
         /\ row_lines (max_width "NAME" i_Name rows) (max_width "MAC" i_MAC rows)
              (max_width "MTU" (fun r => itoa (i_MTU r)) rows) r
            = (cells ++ i_Flags r)
              :: ((fun s => replicate (flags_column rows + 3) 32 ++ s)
                  <$> ((if decide (metaLine r = []) then [] else [metaLine r]) ++ i_IPv4 r ++ i_IPv6 r)))
         rows.
Proof.
  intros Hrows. destruct (header_cells rows) as (heading & rest & -> & Hlen & ->).
  exists heading. split_and!; [done|done|].
  pose proof (proj2 (max_width_spec "NAME" i_Name rows)) as Hn.
  pose proof (proj2 (max_width_spec "MAC" i_MAC rows)) as Hm.
  pose proof (proj2 (max_width_spec "MTU" (fun r => itoa (i_MTU r)) rows)) as Hu.
  assert (1 <= max_width "MAC" i_MAC rows)%nat as H1 by by apply max_width_pos.
  rewrite Forall_forall in Hrows, Hn, Hm, Hu |- *. intros r Hr.
  destruct (row_cells _ _ _ r (Hrows r Hr) (Hn r Hr) (Hm r Hr) H1 (Hu r Hr)) as (cells & Hl & Hc).
  exists cells. split; [exact Hc|]. unfold row_lines. cbv zeta. rewrite Hl, cont_prefix_spaces.
  replace (flags_column rows + 3)%nat with
    (max_width "NAME" i_Name rows + max_width "MAC" i_MAC rows
     + max_width "MTU" (fun r => itoa (i_MTU r)) rows + 14)%nat by (unfold flags_column; lia).
  rewrite !fmap_app. cbn [app]. f_equal. f_equal. by case_decide.
Qed.

Definition sample_info : ifaceInfo :=
  mkInfo (lit "eth0.20") 12 (lit "4c:5e:0c:01:02:03") 1500 (lit "up|broadcast") (lit "vlan")
    (lit "eth0") 20 [] (lit "up") [lit "10.0.0.2/24"] [].
Definition sample_lo : ifaceInfo :=
  mkInfo (lit "lo") 1 [] 65536 (lit "up|loopback") (lit "loopback") [] 0 [] (lit "unknown") [] [].

Lemma writeIfaceTable_aligned_witness :
  exists heading,
    table_lines [sample_lo; sample_info]
    = (heading ++ lit "FLAGS / ADDRS") :: replicate (length (heading ++ lit "FLAGS / ADDRS")) 45
      :: mjoin (row_lines (max_width "NAME" i_Name [sample_lo; sample_info])
                  (max_width "MAC" i_MAC [sample_lo; sample_info])
                  (max_width "MTU" (fun r => itoa (i_MTU r)) [sample_lo; sample_info])
                <$> [sample_lo; sample_info])
    /\ length heading = flags_column [sample_lo; sample_info]
    /\ Forall (fun r => exists cells,
         length cells = flags_column [sample_lo; sample_info]
         /\ row_lines (max_width "NAME" i_Name [sample_lo; sample_info])
              (max_width "MAC" i_MAC [sample_lo; sample_info])
              (max_width "MTU" (fun r => itoa (i_MTU r)) [sample_lo; sample_info]) r
            = (cells ++ i_Flags r)
              :: ((fun s => replicate (flags_column [sample_lo; sample_info] + 3) 32 ++ s)
                  <$> ((if decide (metaLine r = []) then [] else [metaLine r]) ++ i_IPv4 r ++ i_IPv6 r)))
         [sample_lo; sample_info].
Proof.
  apply (writeIfaceTable_aligned [sample_lo; sample_info]).
  repeat (apply Forall_cons_2 || apply Forall_nil_2);
    (split; [repeat constructor; discriminate|split; [repeat constructor; discriminate|split; [discriminate|reflexivity]]]).
Defined.

(** A VLAN sub-interface in the kernel's format. *)
Definition vlan_proc : bytes :=
  lit "eth0.20  VID: 20	 REORDER_HDR: 1  dev->priv_flags: 1021" ++ [10]
  ++ lit "         total frames received            0" ++ [10]
  ++ lit "Device: eth0" ++ [10].
Definition vlan_readers : readers :=
  mkReaders
    (fun p => if decide (p = lit "/sys/class/net/eth0.20/uevent") then
                Some (lit "DEVTYPE=vlan" ++ [10] ++ lit "INTERFACE=eth0.20" ++ [10])
              else if decide (p = lit "/proc/net/vlan/eth0.20") then Some vlan_proc
              else if decide (p = lit "/sys/class/net/eth0.20/operstate") then Some (lit "up" ++ [10])
              else if decide (p = lit "/sys/class/net/eth0.20/carrier") then Some (lit "0" ++ [10])
              else None)
    (fun _ => false) (fun _ => None).
Example summarize_vlan :
  summarize vlan_readers
    (mkInterface 12 1500 (lit "eth0.20") [0x4c; 0x5e; 0x0c; 1; 2; 3] 3
       (Some [IPNet (net_IPv4 10 0 0 2) [255; 255; 255; 0]]))
  = mkInfo (lit "eth0.20") 12 (lit "4c:5e:0c:01:02:03") 1500 (lit "up|broadcast") (lit "vlan")
      (lit "eth0") 20 [] (lit "no-carrier") [lit "10.0.0.2/24"] [].
Proof. vm_compute. reflexivity. Qed.
