(* ===== verification/ExecCmds.v ===== *)
(** * The exec commands (internal/sshserver/exec.go)

    [dispatchExec] and its engines: [execMactelnet] from its command line
    through the password prompt to the relayed session, [execMndp] from its
    command line to the table, and [execIfaces] of Ifaces.v.  The message
    log and the JSON encoder are outside; standard error is a list of
    messages. *)

From S2P Require Import Prelude GoBytes GoText GoFlag MacAddr Protocol Seq Auth Mtwei Sockets Session RxLoop SessionOps Handshake.
From S2P Require Import Typing Open Mndp Discover SshExec Relay GoOS Ifaces.
From Stdlib Require Import Floats.SpecFloat.

#[local] Open Scope Z_scope.

(** ** Configuration and results *)

(** The fields of [Config] the engines use. *)
Record Config := mkConfig { cfg_Iface : bytes; cfg_VlanID : Z }.

Inductive diag :=
| DFlag (e : flag_error)
| DUsage
| DVlan                                 (* -vlan must be in 1..4094 (or 0 ...) *)
| DPassword (e : prompt_error)          (* read password: %v *)
| DOpen (e : open_error)
| DPump (e : pump_error)
| DTimeout                              (* -t must be positive *)
| DSearching
| DDiscover (e : mndp_net_error)
| DEncode
| DIfaces (d : ifaces_diag)
| DBadCommand                           (* bad command: unclosed quote *)
| DEmptyCommand
| DUnknown (name : bytes).

(** A finished command; [x_session] is the call of [mactelnet.Open] it
    made, with how the session went. *)
Record exec_result := mkExec {
  x_code : Z;
  x_out : bytes;
  x_diag : list diag;
  x_session : option (open_call * session_result);
}.

(** A panic carries the call of [mactelnet.Open] in progress, if there is one. *)
Inductive exec_outcome :=
| ExecExit (r : exec_result)
| ExecBlocked
| ExecPanic (call : option open_call).

Definition exit_with (code : Z) (d : list diag) : exec_outcome := ExecExit (mkExec code [] d None).

(** What a command finds outside: its input, what the [select] of the prompt
    takes, the session's environment, the discovery's, and the host's
    interfaces. *)
Record exec_env := mkExecEnv {
  e_stdin : reader;
  e_write_err : option io_error;
  e_prompt : prompt_case;
  e_session : session_env;
  e_mndp : disc_env;
  e_os : readers;
  e_ifaces : option (list Interface);
}.

(** ** mactelnet *)

Definition mactelnet_flags (cfg : Config) : FlagSet :=
  flags [("u", FString []); ("p", FString []); ("i", FString (cfg_Iface cfg));
         ("vlan", FUint (cfg_VlanID cfg))]%string.

(** The exit code and message once the session is over. *)
Definition end_code (e : relay_end) : Z * list diag :=
  match e with
  | EndCtx => (0, [])
  | EndPump None => (0, [])
  | EndPump (Some e) => if quiet e then (0, []) else (1, [DPump e])
  end.

Definition prompt_output (w_err : option io_error) (rd : reader) : bytes :=
  match readPasswordPrompt w_err rd with PwDone _ _ o | PwErr _ o | PwBlocked o => o end.

Section Engines.
Context (sch : schedules) (fuel : nat).
Context (encode_ifaces : list ifaceInfo -> option bytes)
        (encode_neighbors : list Neighbor -> option bytes).

(** The session with its deferred [Close], and the exit code. *)
Definition serve_session (env : session_env) (c : open_call) (out : bytes) : exec_outcome :=
  match run_session sch fuel env c with
  | SessPanic => ExecPanic (Some c)
  | SessBlocked => ExecBlocked
  | SessFailed e rm => ExecExit (mkExec 1 out [DOpen e] (Some (c, SessFailed e rm)))
  | SessEnded e rm sizes =>
      let '(code, d) := end_code e in
      ExecExit (mkExec code out d (Some (c, SessEnded e rm sizes)))
  end.

Definition execMactelnet (cfg : Config) (env : exec_env) (args : list bytes) (cols rows : Z)
    : exec_outcome :=
  match Parse (mactelnet_flags cfg) args with
  | Panic => ExecPanic None
  | Fail e => exit_with 2 [DFlag e]
  | Val (fs, rest) =>
      let user := get_string fs "u" in
      let pass := get_string fs "p" in
      let iface := get_string fs "i" in
      let vlanID := get_uint fs "vlan" in
      if decide (user = [] \/ iface = [] \/ length rest <> 1%nat) then exit_with 2 [DUsage]
      else if decide (4094 < vlanID) then exit_with 2 [DVlan]
      else
        let mac := nth 0 rest [] in
        let call := fun password =>
          mkCall iface mac user password (u16 cols) (u16 rows) (u16 vlanID) in
        if decide (pass = []) then
          let out := prompt_output (e_write_err env) (e_stdin env) in
          match readPasswordPromptWithTimeout (e_write_err env) (e_stdin env) (e_prompt env) with
          | None => ExecBlocked
          | Some Panic => ExecPanic None
          | Some (Fail e) => ExecExit (mkExec 1 out [DPassword e] None)
          | Some (Val (password, _)) => serve_session (e_session env) (call password) out
          end
        else serve_session (e_session env) (call pass) []
  end.

(** ** mndp *)

Definition mndp_flags (cfg : Config) : FlagSet :=
  flags [("t", FInt 5); ("i", FString (cfg_Iface cfg)); ("j", FBool false)]%string.

(** [int(d.Seconds())]: the float64 sum of the whole and the fraction. *)
Definition int_seconds (d : Z) : Z :=
  f64_trunc (SFadd 53 1024 (f64 (Z.quot d Second)) (f64_div (f64 (Z.rem d Second)) (f64 Second))).

(** One neighbour's line, without the newline. *)
Definition mndp_line (n : Neighbor) : bytes :=
  pad_right 15 (IPv4 n) ++ [32] ++ pad_right 17 (Discover.MAC n) ++ [32] ++ Discover.Identity n
  ++ (if decide (Discover.Platform n = []) then []
      else lit " (" ++ Discover.Platform n ++ [32] ++ Discover.Version n ++ [32] ++ Board n ++ lit ")")
  ++ (if decide (0 < Discover.Uptime n) then
        let secs := int_seconds (Discover.Uptime n) in
        lit "  up " ++ itoa (Z.quot secs 86400) ++ lit " days "
        ++ itoa (Z.quot (Z.rem secs 86400) 3600) ++ lit " hours"
      else [])
  ++ (if decide (SoftwareID n = []) then [] else lit "  " ++ SoftwareID n)
  ++ (if decide (Discover.Iface n = []) then [] else [32] ++ Discover.Iface n).

Definition mndp_heading : bytes :=
  pad_right 15 (lit "IP") ++ [32] ++ pad_right 17 (lit "MAC-Address") ++ [32]
  ++ lit "Identity (platform version hardware) uptime".
Definition mndp_table (l : list Neighbor) : bytes :=
  [10] ++ mndp_heading ++ [10] ++ print_lines (mndp_line <$> l).

Definition execMndp (cfg : Config) (env : exec_env) (args : list bytes) : exec_outcome :=
  match Parse (mndp_flags cfg) args with
  | Panic => ExecPanic None
  | Fail e => exit_with 2 [DFlag e]
  | Val (fs, _) =>
      let timeout := get_int fs "t" in
      let iface := get_string fs "i" in
      let asJSON := get_bool fs "j" in
      if decide (timeout <= 0) then exit_with 2 [DTimeout]
      else
        let d := if asJSON then [] else [DSearching] in
        match Discover (e_mndp env) iface (i64 (timeout * Second)) with
        | Panic => ExecPanic None
        | Fail e => exit_with 1 (d ++ [DDiscover e])
        | Val None => ExecBlocked
        | Val (Some r) =>
            match r_err r with
            | Some e => exit_with 1 (d ++ [DDiscover e])
            | None =>
                if asJSON then
                  match encode_neighbors (r_neighbors r) with
                  | Some text => ExecExit (mkExec 0 text d None)
                  | None => exit_with 1 (d ++ [DEncode])
                  end
                else ExecExit (mkExec 0 (mndp_table (r_neighbors r)) d None)
            end
        end
  end.

(** ** dispatchExec *)

Definition dispatchExec (cfg : Config) (env : exec_env) (cmdline : bytes) (cols rows : Z)
    : exec_outcome :=
  match splitCmd cmdline with
  | Panic => ExecPanic None
  | Fail errUnclosedQuote => exit_with 2 [DBadCommand]
  | Val [] => exit_with 2 [DEmptyCommand]
  | Val (name :: args) =>
      if decide (name = lit "mactelnet") then execMactelnet cfg env args cols rows
      else if decide (name = lit "mndp") then execMndp cfg env args
      else if decide (name = lit "ifaces") then
        let '(code, out, d) := execIfaces encode_ifaces (e_os env) (e_ifaces env) args in
        ExecExit (mkExec code out (DIfaces <$> d) None)
      else exit_with 127 [DUnknown name]
  end.
End Engines.

Example int_seconds_day : int_seconds (90061 * Second) = 90061.
Proof. reflexivity. Qed.

(** ** Lemmas: option parsing *)

(** A flag name as the program's command lines have them. *)
Definition plain_name (name : bytes) : bool :=
  match name with
  | c :: r => negb (c =? 45) && negb (c =? 61) && match cut_eq r with None => true | Some _ => false end
  | [] => false
  end.

Definition is_bool_flag (v : flag_value) : bool := match v with FBool _ => true | _ => false end.

Lemma Parse_value fs name v args old w :
  plain_name name = true -> flag_get fs name = Some old -> is_bool_flag old = false ->
  flag_set old v = Some w ->
  Parse fs ((45 :: name) :: v :: args) = Parse (flag_put fs name w) args.
Proof.
  intros Hn Hget Hb Hset. destruct name as [|c r]; [done|]. cbn in Hn.
  apply andb_true_iff in Hn as [[Hc He]%andb_true_iff Hcut].
  apply negb_true_iff in Hc, He. cbn [Parse].
  assert ((c =? 45) && bool_decide (r = []) = false) as -> by by rewrite Hc.
  rewrite Hc, He. cbn [orb]. unfold split_name. destruct (cut_eq r); [done|].
  cbv beta iota. rewrite Hget. destruct old; try done; cbv beta iota; rewrite Hset, ?Hc; done.
Qed.

(** An argument that is not an option ends the options. *)
Definition positional (s : bytes) : Prop :=
  match s with c :: _ :: _ => c <> 45 | _ => True end.
Lemma Parse_positional fs s rest : positional s -> Parse fs (s :: rest) = Val (fs, s :: rest).
Proof.
  intros Hp. cbn [Parse]. destruct s as [|c [|c2 s]]; [done..|]. cbn in Hp.
  by rewrite (proj2 (Z.eqb_neq c 45)).
Qed.

(** Decimal VLAN identifiers are read back. *)
Lemma ParseUint_itoa n : 0 <= n <= 4094 -> ParseUint (itoa n) 0 64 = Some n.
Proof.
  intros Hn.
  assert (forallb (fun k => bool_decide (ParseUint (itoa (Z.of_nat k)) 0 64 = Some (Z.of_nat k)))
            (seq 0 4095) = true) as Hall by (vm_compute; reflexivity).
  rewrite forallb_forall in Hall. specialize (Hall (Z.to_nat n)).
  rewrite bool_decide_eq_true, Z2Nat.id in Hall by lia. apply Hall.
  apply in_seq. lia.
Qed.

Lemma text_ascii s : ascii s -> text s = s.
Proof.
  induction 1 as [|c s Hc _ IH]; [done|]. change (text (c :: s)) with (encode_rune c ++ text s).
  rewrite IH. unfold encode_rune, valid_rune.
  rewrite (proj2 (Z.leb_le 0 c)), (proj2 (Z.ltb_lt c 0xD800)) by lia. cbn [andb orb]. cbv zeta.
  by rewrite (proj2 (Z.ltb_lt c 0x80)) by lia.
Qed.
Lemma ascii_valid s : ascii s -> Forall (fun r => valid_rune r = true) s.
Proof.
  intros Ha. eapply Forall_impl; [exact Ha|]. intros c Hc. cbv beta in Hc. unfold valid_rune.
  by rewrite (proj2 (Z.leb_le 0 c)), (proj2 (Z.ltb_lt c 0xD800)) by lia.
Qed.

(** The options of a [mactelnet] command. *)
Lemma mactelnet_args cfg user pass iface mac vlan :
  positional mac -> 0 <= vlan <= 4094 ->
  Parse (mactelnet_flags cfg)
    [lit "-u"; user; lit "-p"; pass; lit "-i"; iface; lit "-vlan"; itoa vlan; mac]
  = Val (flags [("u", FString user); ("p", FString pass); ("i", FString iface);
                ("vlan", FUint vlan)]%string, [mac]).
Proof.
  intros Hmac Hvlan.
  change (lit "-u") with (45 :: lit "u"). change (lit "-p") with (45 :: lit "p").
  change (lit "-i") with (45 :: lit "i"). change (lit "-vlan") with (45 :: lit "vlan").
  rewrite (Parse_value _ (lit "u") user _ (FString []) (FString user)) by reflexivity.
  rewrite (Parse_value _ (lit "p") pass _ (FString []) (FString pass)) by reflexivity.
  rewrite (Parse_value _ (lit "i") iface _ (FString (cfg_Iface cfg)) (FString iface)) by reflexivity.
  rewrite (Parse_value _ (lit "vlan") (itoa vlan) _ (FUint (cfg_VlanID cfg)) (FUint vlan));
    [|reflexivity..|cbn [flag_set]; by rewrite ParseUint_itoa].
  by rewrite Parse_positional.
Qed.

(** ** Lemmas: outcomes *)

Definition env_ok (env : exec_env) : Prop :=
  session_env_ok (e_session env)
  /\ (forall name, no_panic (resolveBroadcast (e_interfaces (e_mndp env)) name))
  /\ Forall turn_bytes_ok (e_turns (e_mndp env)).

(** A call of [mactelnet.Open] with the session it led to: its arguments
    passed the guards, the session ended as [session_ok] has it, and the
    exit code says whether it could be opened. *)
Definition call_ok (fuel : nat) (env : session_env) (code : Z) (c : open_call) (s : session_result) : Prop :=
  o_user c <> [] /\ o_iface c <> [] /\ 0 <= o_vlan c <= 4094
  /\ is_u16 (o_cols c) /\ is_u16 (o_rows c)
  /\ session_ok fuel env c s
  /\ match s with
     | SessFailed _ _ => code = 1
     | SessEnded _ _ _ => code = 0 \/ code = 1
     | _ => False
     end.

(** What holds of a finished command. *)
Definition exec_ok (fuel : nat) (env : session_env) (r : exec_result) : Prop :=
  x_code r ∈ [0; 1; 2; 127]
  /\ match x_session r with
     | None => True
     | Some (c, s) => call_ok fuel env (x_code r) c s
     end.

Definition outcome_ok (fuel : nat) (env : session_env) (o : exec_outcome) : Prop :=
  match o with
  | ExecExit r => exec_ok fuel env r
  | ExecBlocked => True
  | ExecPanic (Some c) => session_panics fuel env c
  | ExecPanic None => False
  end.

Lemma exit_with_ok fuel env code d : code ∈ [0; 1; 2; 127] -> outcome_ok fuel env (exit_with code d).
Proof. by split. Qed.
Lemma mkExec_ok fuel env code out d :
  code ∈ [0; 1; 2; 127] -> outcome_ok fuel env (ExecExit (mkExec code out d None)).
Proof. by split. Qed.

Ltac code_tac := rewrite !elem_of_cons, elem_of_nil; lia.

Lemma serve_session_ok sch fuel env c out : session_env_ok env ->
  o_user c <> [] -> o_iface c <> [] -> 0 <= o_vlan c <= 4094 ->
  is_u16 (o_cols c) -> is_u16 (o_rows c) ->
  outcome_ok fuel env (serve_session sch fuel env c out).
Proof.
  intros Hsys Hu Hi [Hv1 Hv2] Hcols Hrows. unfold serve_session.
  pose proof (run_session_result sch fuel env c Hsys) as Hr.
  destruct (run_session sch fuel env c) as [e rm|e rm sizes| |]; try done.
  - split; [cbn; code_tac|]. cbn [x_session x_code]. unfold call_ok. by split_and!.
  - assert ((end_code e).1 = 0 \/ (end_code e).1 = 1) as Hcode
      by (destruct e as [|[e|]]; cbn; [by left| |by left]; destruct (quiet e); cbn; lia).
    destruct (end_code e) as [code d]. cbn [fst] in Hcode.
    split; [cbn; code_tac|]. cbn [x_session x_code]. unfold call_ok. by split_and!.
Qed.

(** What parsing guarantees of the values read afterwards. *)
Lemma Parse_uint_nonneg n : forall fs args fs' rest name,
  (length args <= n)%nat -> Parse fs args = Val (fs', rest) ->
  (forall m k, flag_get fs m = Some (FUint k) -> 0 <= k) ->
  (forall k, flag_get fs' name = Some (FUint k) -> 0 <= k).
Proof.
  induction n as [|n IH]; intros fs [|s args] fs' rest name Hn Hp Hfs; cbn [length] in Hn; try lia;
    try (injection Hp as <- <-; by apply Hfs).
  assert (forall old v w nm, flag_get fs nm = Some old -> flag_set old v = Some w ->
            forall m k, flag_get (flag_put fs nm w) m = Some (FUint k) -> 0 <= k) as Hput.
  { intros old v w nm Hget Hset m k Hm. apply flag_get_put in Hm as [Hm|Hm]; [by eapply Hfs|].
    subst w. by eapply flag_set_uint. }
  cbn [Parse] in Hp.
  repeat match type of Hp with
  | context [match ?x with _ => _ end] => destruct x eqn:?
  end; try discriminate Hp; try (injection Hp as <- <-; by apply Hfs);
    (eapply IH; [|exact Hp|eapply Hput; eassumption]; cbn [length] in *; lia).
Qed.

Lemma Parse_get_uint fs args fs' rest name : Parse fs args = Val (fs', rest) ->
  (forall m k, flag_get fs m = Some (FUint k) -> 0 <= k) -> 0 <= get_uint fs' name.
Proof.
  intros Hp Hfs. unfold get_uint. fold (lit name). destruct (flag_get fs' (lit name)) as [[]|] eqn:Hg; try lia.
  by eapply (Parse_uint_nonneg (length args) _ _ _ _ (lit name)); [done|exact Hp|..].
Qed.

Lemma execMactelnet_ok sch fuel cfg env args cols rows :
  is_u16 (cfg_VlanID cfg) -> session_env_ok (e_session env) ->
  outcome_ok fuel (e_session env) (execMactelnet sch fuel cfg env args cols rows).
Proof.
  intros Hcfg Hsys. unfold execMactelnet.
  destruct (Parse (mactelnet_flags cfg) args) as [[fs rest]|e|] eqn:Hp;
    [|by apply exit_with_ok; code_tac|by destruct (Parse_no_panic _ _ Hp)].
  cbv zeta. case_decide as Hreq; [by apply exit_with_ok; code_tac|].
  case_decide as Hvl; [by apply exit_with_ok; code_tac|].
  assert (0 <= get_uint fs "vlan") as Hv0.
  { apply (Parse_get_uint _ _ _ _ _ Hp).
    intros m k. unfold mactelnet_flags, flags. cbn [fmap list_fmap fst snd flag_get].
    repeat (case_decide; [intros [=]; unfold is_u16 in Hcfg; lia|]). done. }
  assert (forall pw, let c := mkCall (get_string fs "i") (nth 0 rest []) (get_string fs "u") pw
            (u16 cols) (u16 rows) (u16 (get_uint fs "vlan")) in
            o_user c <> [] /\ o_iface c <> [] /\ 0 <= o_vlan c <= 4094
            /\ is_u16 (o_cols c) /\ is_u16 (o_rows c)) as Hcall.
  { intros pw. cbn. rewrite (u16_id (get_uint fs "vlan")) by (unfold is_u16; lia).
    split_and!; auto with mt; try lia; tauto. }
  assert (forall pw out, outcome_ok fuel (e_session env)
            (serve_session sch fuel (e_session env)
               (mkCall (get_string fs "i") (nth 0 rest []) (get_string fs "u") pw
                  (u16 cols) (u16 rows) (u16 (get_uint fs "vlan"))) out)) as Hserve.
  { intros pw out. destruct (Hcall pw) as (? & ? & ? & ? & ?). by apply serve_session_ok. }
  case_decide; [|apply Hserve]. unfold readPasswordPromptWithTimeout.
  destruct (e_prompt env); [|by apply mkExec_ok; code_tac..].
  destruct (readPasswordPrompt _ _); [apply Hserve|by apply mkExec_ok; code_tac|done].
Qed.

Lemma execMndp_ok fuel senv encode_neighbors cfg env args :
  (forall name, no_panic (resolveBroadcast (e_interfaces (e_mndp env)) name)) ->
  Forall turn_bytes_ok (e_turns (e_mndp env)) ->
  outcome_ok fuel senv (execMndp encode_neighbors cfg env args).
Proof.
  intros Hb Ht. unfold execMndp.
  destruct (Parse (mndp_flags cfg) args) as [[fs rest]|e|] eqn:Hp;
    [|by apply exit_with_ok; code_tac|by destruct (Parse_no_panic _ _ Hp)].
  cbv zeta. case_decide; [by apply exit_with_ok; code_tac|].
  destruct (Discover_val (e_mndp env) (get_string fs "i") (i64 (get_int fs "t" * Second)) (Hb _) Ht)
    as [[r|] ->]; [|done].
  destruct (r_err r); [by apply exit_with_ok; code_tac|].
  destruct (get_bool fs "j"); [|by apply mkExec_ok; code_tac].
  destruct (encode_neighbors _); [apply mkExec_ok|apply exit_with_ok]; code_tac.
Qed.

Lemma execIfaces_code encode os all args :
  let '(code, _, _) := execIfaces encode os all args in code ∈ [0; 1; 2].
Proof.
  unfold execIfaces. destruct (Parse ifaces_flags args) as [[fs rest]|e|]; [|code_tac|code_tac].
  destruct all as [ifs|]; [|code_tac]. cbv zeta. case_decide; [code_tac|].
  destruct (get_bool fs "j"); [|code_tac]. destruct (encode _); code_tac.
Qed.

Lemma dispatchExec_ok sch fuel encode_ifaces encode_neighbors cfg env cmdline cols rows :
  is_u16 (cfg_VlanID cfg) -> env_ok env ->
  outcome_ok fuel (e_session env)
    (dispatchExec sch fuel encode_ifaces encode_neighbors cfg env cmdline cols rows).
Proof.
  intros Hcfg (Hsys & Hb & Ht). unfold dispatchExec.
  destruct (splitCmd cmdline) as [[|name args]|[]|] eqn:Hs;
    [by apply exit_with_ok; code_tac| |by apply exit_with_ok; code_tac|by destruct (splitCmd_no_panic _ Hs)].
  case_decide; [by apply execMactelnet_ok|]. case_decide; [by apply execMndp_ok|].
  case_decide; [|by apply exit_with_ok; code_tac].
  pose proof (execIfaces_code encode_ifaces (e_os env) (e_ifaces env) args) as Hc.
  destruct (execIfaces _ _ _ _) as [[code out] d]. apply mkExec_ok.
  rewrite !elem_of_cons, elem_of_nil in Hc. code_tac.
Qed.

(** ** Properties *)

(** C9. Whatever command line a client sends, to a server with a 16-bit
    default VLAN: the command exits with 0, 1, 2 or 127, or is still
    waiting; it panics only where the call of [Open] it has made does, making
    its key pair or answering a challenge its device sent; a MAC-Telnet
    session is opened only with a user, an interface, a VLAN of at most 4094
    and 16-bit terminal dimensions; and when the command has finished, the
    session, if it could be opened, ran well typed between the interface's
    and the given address, resized as its channel asked, and is closed; what
    is left of its teardown settles with every descriptor as it was; and the
    code is 1 if it could not be opened. *)
Theorem dispatchExec_outcome sch fuel encode_ifaces encode_neighbors cfg env cmdline cols rows :
  is_u16 (cfg_VlanID cfg) -> env_ok env ->
  outcome_ok fuel (e_session env)
    (dispatchExec sch fuel encode_ifaces encode_neighbors cfg env cmdline cols rows).
Proof. apply dispatchExec_ok. Qed.

(** An environment in which the device answers the handshake (Open.v), the
    user resizes the window to 132 columns, and the input ends once the
    device has acknowledged that; then the deferred [Close]. *)
Definition session_ops : list relay_op :=
  [RResize; RLock Resizer; RSession (Other SRx); RSession (Other SRx);
   RSession (from_device pTypeAck 156 []); RSession TakeAck; RInEnd None; RSelectErr; RClose]
  ++ (RSession <$> (Other <$> [SCloser; SCloser; SRx; SCloser; SCloser; SRx; SCloser; SCloser; SRx])) ++ [RClosed].
Definition sample_exec_env : exec_env :=
  mkExecEnv typed None CaseResult (mkSessionEnv answering_system answered [(132, 43)] session_ops) sample_env
    vlan_readers (Some []).
Lemma sample_turns_ok : Forall turn_bytes_ok (e_turns sample_env).
Proof.
  repeat (apply Forall_cons_2 || apply Forall_nil_2); try exact I; repeat constructor; discriminate.
Qed.
Lemma sample_env_ok : env_ok sample_exec_env.
Proof.
  split; [|split; [intros name|exact sample_turns_ok]].
  - split; [exact sample_system_ok|]. split; [exact answered_typed|].
    repeat (apply Forall_cons_2; [|]); try apply Forall_nil_2; repeat constructor; try discriminate.
  - cbv [no_panic resolveBroadcast sample_exec_env e_mndp sample_env e_interfaces].
    destruct (decide (name = [])); exact I.
Qed.
Lemma dispatchExec_outcome_witness :
  outcome_ok 8 (e_session sample_exec_env)
    (dispatchExec (mkSchedules [Second] [Second]) 8 (fun _ => None) (fun _ => None)
       (mkConfig (lit "e") 0) sample_exec_env (lit "mactelnet -u a -p x 02:00:00:00:00:02") 80 24).
Proof.
  apply (dispatchExec_outcome (mkSchedules [Second] [Second]) 8 (fun _ => None) (fun _ => None)
           (mkConfig (lit "e") 0) sample_exec_env).
  - split; [discriminate|reflexivity].
  - exact sample_env_ok.
Defined.

(** That command ends with 0, its session torn down, after one resize. *)
Example sample_command :
  match dispatchExec (mkSchedules [Second] [Second]) 8 (fun _ => None) (fun _ => None)
          (mkConfig (lit "e") 0) sample_exec_env (lit "mactelnet -u a -p x 02:00:00:00:00:02") 80 24 with
  | ExecExit (mkExec 0 [] [] (Some (c, SessEnded (EndPump None) (Goroutines w conn k) [(132, 43)]))) =>
      o_mac c = lit "02:00:00:00:00:02" /\ teardown_left w = 0%nat /\ rx w = RxExited
      /\ length (driver_sent w) = 4%nat
  | _ => False
  end.
Proof. vm_compute. done. Qed.

(** C34. Commands reach the engine unaltered: for every user, password,
    interface and address in valid UTF-8 (spaces and quotes included) and
    every VLAN up to 4094, there is a command line for which the server calls
    [mactelnet.Open] with exactly these values, the terminal dimensions
    reduced to 16 bits, and exits as the session ends. *)
Theorem exec_mactelnet_roundtrip sch fuel encode_ifaces encode_neighbors cfg env
    user pass iface mac vlan cols rows :
  Forall (Forall (fun r => valid_rune r = true)) [user; pass; iface; mac] ->
  user <> [] -> pass <> [] -> iface <> [] -> positional (text mac) -> 0 <= vlan <= 4094 ->
  dispatchExec sch fuel encode_ifaces encode_neighbors cfg env
    (shell_quote [lit "mactelnet"; lit "-u"; user; lit "-p"; pass; lit "-i"; iface;
                  lit "-vlan"; itoa vlan; mac]) cols rows
  = serve_session sch fuel (e_session env)
      (mkCall (text iface) (text mac) (text user) (text pass) (u16 cols) (u16 rows) vlan) [].
Proof.
  intros Hvalid Hu Hp Hi Hmac Hvlan. inv_Forall. unfold dispatchExec.
  rewrite splitCmd_shell_quote.
  2: { repeat (apply Forall_cons_2 || apply Forall_nil_2); try done;
         try (by apply ascii_valid, itoa_ascii); by apply ascii_valid; repeat constructor. }
  cbn [fmap list_fmap]. rewrite (text_ascii (itoa vlan)) by apply itoa_ascii.
  rewrite !(text_ascii (lit _)) by (by repeat constructor).
  rewrite decide_True by done. unfold execMactelnet.
  rewrite mactelnet_args by done.
  change (get_string (flags _) "u") with (text user). change (get_string (flags _) "p") with (text pass).
  change (get_string (flags _) "i") with (text iface). change (get_uint (flags _) "vlan") with vlan.
  cbv zeta. cbn [length nth].
  assert (text user <> [] /\ text pass <> [] /\ text iface <> []) as (Hu' & Hp' & Hi')
    by (split_and!; by intros ?%text_nil).
  rewrite decide_False by tauto. rewrite decide_False by lia. rewrite decide_False by done.
  by rewrite (u16_id vlan) by (unfold is_u16; lia).
Qed.

Lemma exec_mactelnet_roundtrip_witness :
  dispatchExec (mkSchedules [Second] [Second]) 8 (fun _ => None) (fun _ => None)
    (mkConfig (lit "e") 20) sample_exec_env
    (shell_quote [lit "mactelnet"; lit "-u"; [0x41; 34; 32]; lit "-p"; [0x20AC]; lit "-i"; lit "e";
                  lit "-vlan"; itoa 100; lit "02:00:00:00:00:02"]) 65616 24
  = serve_session (mkSchedules [Second] [Second]) 8 (e_session sample_exec_env)
      (mkCall (text (lit "e")) (text (lit "02:00:00:00:00:02")) (text [0x41; 34; 32]) (text [0x20AC])
         (u16 65616) (u16 24) 100) [].
Proof.
  apply (exec_mactelnet_roundtrip (mkSchedules [Second] [Second]) 8 (fun _ => None) (fun _ => None)
    (mkConfig (lit "e") 20) sample_exec_env [0x41; 34; 32] [0x20AC] (lit "e")
    (lit "02:00:00:00:00:02") 100 65616 24); try discriminate.
  - repeat (apply Forall_cons_2 || apply Forall_nil_2 || reflexivity).
  - split; discriminate.
Defined.
