(* ===== verification/Keys.v ===== *)
(** * Host key and authorized keys (internal/sshserver/keys.go, server.go)

    [loadOrCreateHostKey], [generateHostKey], [loadAuthorizedKeys],
    [keyMatch], and the server's key set with [New], [reload] and
    [authPublicKey].  Package golang.org/x/crypto/ssh is an interface of
    functions on abstract keys. *)

From S2P Require Import Prelude GoBytes GoText GoOS.

#[local] Open Scope Z_scope.

(** ** The ssh package *)

Class SshKeys := {
  PublicKey : Type;
  PrivateKey : Type;
  Signer : Type;
  Marshal : PublicKey -> bytes;                       (* key.Marshal() *)
  ParseAuthorizedKey : bytes -> option PublicKey;
  ParsePrivateKey : bytes -> option Signer;
  MarshalPrivateKey : PrivateKey -> option bytes;     (* PEM encoded *)
  NewSignerFromKey : PrivateKey -> option Signer;
}.

(** Documented behaviour: an encoded private key is parsed back to the
    signer of that key. *)
Class SshKeysLaws `{SshKeys} := {
  parse_marshal priv pem s :
    MarshalPrivateKey priv = Some pem -> NewSignerFromKey priv = Some s ->
    ParsePrivateKey pem = Some s;
}.

Inductive key_error :=
| errReadHostKey (errno : Z)
| errParseHostKey
| errGenerate
| errMarshal
| errMkdir (errno : Z)
| errWriteHostKey (errno : Z)
| errSigner
| errCreateAuthorized (errno : Z)
| errReadAuthorized (errno : Z).

Definition mode_0600 : Z := 0x180.
Definition newline : Z := 10.

Section Keys.
Context `{SshKeys}.

(** ** Host key *)

(** [rand_priv] is the key [ed25519.GenerateKey] draws, [None] when the
    random source fails. *)
Definition generateHostKey (rand_priv : option PrivateKey) (path : bytes) (fs : fsys)
    : (key_error + Signer) * fsys :=
  match rand_priv with
  | None => (inl errGenerate, fs)
  | Some priv =>
      match MarshalPrivateKey priv with
      | None => (inl errMarshal, fs)
      | Some pem =>
          match MkdirAll fs (Dir path) with
          | Some e => (inl (errMkdir e), fs)
          | None =>
              match WriteFile fs path pem mode_0600 with
              | (Some e, fs) => (inl (errWriteHostKey e), fs)
              | (None, fs) =>
                  match NewSignerFromKey priv with
                  | None => (inl errSigner, fs)
                  | Some s => (inr s, fs)
                  end
              end
          end
      end
  end.

Definition loadOrCreateHostKey (rand_priv : option PrivateKey) (path : bytes) (fs : fsys)
    : (key_error + Signer) * fsys :=
  match ReadFile fs path with
  | inl ErrNotExist => generateHostKey rand_priv path fs
  | inl (ErrFS e) => (inl (errReadHostKey e), fs)
  | inr data =>
      match ParsePrivateKey data with
      | None => (inl errParseHostKey, fs)
      | Some s => (inr s, fs)
      end
  end.

(** ** authorized_keys *)

Definition stub : bytes :=
  lit "# mactelnet-proxy authorized_keys" ++ [newline]
  ++ lit "# Append OpenSSH public keys (one per line) to grant access." ++ [newline].

(** The key of a line, if it has one. *)
Definition line_key (line : bytes) : option PublicKey :=
  let trimmed := TrimSpace line in
  if decide (trimmed = []) then None
  else if HasPrefix trimmed (lit "#") then None
  else ParseAuthorizedKey line.

Definition loadAuthorizedKeys (path : bytes) (fs : fsys) : (key_error + list PublicKey) * fsys :=
  match ReadFile fs path with
  | inl ErrNotExist =>
      match MkdirAll fs (Dir path) with
      | Some e => (inl (errMkdir e), fs)
      | None =>
          match WriteFile fs path stub mode_0600 with
          | (Some e, fs) => (inl (errCreateAuthorized e), fs)
          | (None, fs) => (inr [], fs)
          end
      end
  | inl (ErrFS e) => (inl (errReadAuthorized e), fs)
  | inr data => (inr (omap line_key (Split data newline)), fs)
  end.

Definition keyMatch (offered : PublicKey) (keys : list PublicKey) : bool :=
  existsb (fun k => bool_decide (Marshal k = Marshal offered)) keys.

(** ** The server's keys *)

Record Server := mkServer {
  srv_host_path : bytes;
  srv_keys_path : bytes;
  srv_signer : Signer;
  srv_keys : list PublicKey;
}.

(** [s.reload()]: a failure leaves the keys as they were. *)
Definition reload (s : Server) (fs : fsys) : option key_error * Server * fsys :=
  match loadAuthorizedKeys (srv_keys_path s) fs with
  | (inl e, fs) => (Some e, s, fs)
  | (inr keys, fs) => (None, mkServer (srv_host_path s) (srv_keys_path s) (srv_signer s) keys, fs)
  end.

(** The SIGHUP entry point. *)
Definition ReloadAuthorizedKeys (s : Server) (fs : fsys) : option key_error * Server * fsys := reload s fs.

(** [New]: the host key, then the authorized keys. *)
Definition New (rand_priv : option PrivateKey) (host_path keys_path : bytes) (fs : fsys)
    : (key_error + Server) * fsys :=
  match loadOrCreateHostKey rand_priv host_path fs with
  | (inl e, fs) => (inl e, fs)
  | (inr signer, fs) =>
      match reload (mkServer host_path keys_path signer []) fs with
      | (Some e, _, fs) => (inl e, fs)
      | (None, s, fs) => (inr s, fs)
      end
  end.

(** [authPublicKey]: is the offered key accepted? *)
Definition authPublicKey (s : Server) (key : PublicKey) : bool := keyMatch key (srv_keys s).

(** A sequence of reloads, each against the file system of its moment. *)
Definition reload_all (s : Server) (fss : list fsys) : Server :=
  foldl (fun s fs => (reload s fs).1.2) s fss.

(** ** Lemmas *)

Lemma keyMatch_spec offered keys :
  keyMatch offered keys = true <-> exists k, k ∈ keys /\ Marshal k = Marshal offered.
Proof.
  unfold keyMatch. rewrite existsb_exists. setoid_rewrite bool_decide_eq_true.
  f_equiv. intros k. by rewrite <- list_elem_of_In.
Qed.

(** The keys a file grants. *)
Definition granted (data : bytes) (key : PublicKey) : Prop :=
  exists line k, line ∈ Split data newline
    /\ TrimSpace line <> [] /\ HasPrefix (TrimSpace line) (lit "#") = false
    /\ ParseAuthorizedKey line = Some k /\ Marshal k = Marshal key.

Lemma granted_keys data key :
  keyMatch key (omap line_key (Split data newline)) = true <-> granted data key.
Proof.
  rewrite keyMatch_spec. setoid_rewrite list_elem_of_omap. split.
  - intros (k & (line & Hl & Hk) & Hm). unfold line_key in Hk. cbv zeta in Hk.
    case_decide; [done|]. case_match; [done|]. by exists line, k.
  - intros (line & k & Hl & Ht & Hp & Hk & Hm). exists k. split; [|done]. exists line. split; [done|].
    unfold line_key. cbv zeta. by rewrite decide_False, Hp by done.
Qed.

Lemma stub_grants_nobody key : ~ granted stub key.
Proof.
  intros (line & k & Hl & Ht & Hp & _). revert Hl Ht Hp.
  change (Split stub newline) with
    [lit "# mactelnet-proxy authorized_keys";
     lit "# Append OpenSSH public keys (one per line) to grant access."; []].
  rewrite !elem_of_cons, elem_of_nil. by intros [->|[->|[->|[]]]].
Qed.

(** ** Properties *)

(** C32. The host key survives restarts: if a boot finds no key file and
    succeeds, it has written the key with mode 0600 under the requested
    path and changed no other file, and every later boot that can read the
    file returns the same signer, whatever the random source yields then,
    and writes nothing. *)
Theorem host_key_stable `{!SshKeysLaws} rand_priv path fs s fs' :
  fs_files fs !! path = None ->
  loadOrCreateHostKey rand_priv path fs = (inr s, fs') ->
  (exists pem, fs_files fs' = <[path := mkFile mode_0600 pem]> (fs_files fs))
  /\ forall rand_priv' fs'', fs_files fs'' !! path = fs_files fs' !! path ->
       fs_read_err fs'' path = None ->
       loadOrCreateHostKey rand_priv' path fs'' = (inr s, fs'').
Proof.
  intros Hnone. unfold loadOrCreateHostKey at 1, ReadFile.
  destruct (fs_read_err fs path); [done|]. rewrite Hnone. unfold generateHostKey.
  destruct rand_priv as [priv|]; [|done]. destruct (MarshalPrivateKey priv) as [pem|] eqn:Hpem; [|done].
  destruct (MkdirAll fs (Dir path)); [done|]. unfold WriteFile.
  destruct (fs_write_err fs path); [done|]. rewrite Hnone.
  destruct (NewSignerFromKey priv) as [s'|] eqn:Hs; [|done]. intros [= <- <-]. cbn [fs_files].
  split; [by exists pem|]. intros rand_priv' fs''. rewrite lookup_insert_eq. intros Hf Hr.
  unfold loadOrCreateHostKey, ReadFile. rewrite Hr, Hf. cbn [f_data].
  by rewrite (parse_marshal priv pem s').
Qed.

(** C10. Who gets in: after any sequence of reloads, a key is accepted
    exactly if the last authorized_keys file that could be read grants it on
    a line that is neither blank nor a comment; a reload that fails changes
    nothing, and one that finds no file creates an empty list that grants
    nobody. *)
Theorem authPublicKey_reloads srv fss fs key :
  let s := reload_all srv fss in
  let s' := reload_all srv (fss ++ [fs]) in
  match ReadFile fs (srv_keys_path srv) with
  | inr data => authPublicKey s' key = true <-> granted data key
  | inl (ErrFS _) => s' = s
  | inl ErrNotExist =>
      match MkdirAll fs (Dir (srv_keys_path srv)), fst (WriteFile fs (srv_keys_path srv) stub mode_0600) with
      | None, None => authPublicKey s' key = false /\ ~ granted stub key
          /\ fs_files (reload s fs).2 = <[srv_keys_path srv := mkFile mode_0600 stub]> (fs_files fs)
      | _, _ => s' = s
      end
  end.
Proof.
  cbv zeta.
  assert (srv_keys_path (reload_all srv fss) = srv_keys_path srv) as Hpath.
  { unfold reload_all. revert srv. induction fss as [|f fss IH]; intros srv; [done|]. cbn [foldl].
    rewrite IH. unfold reload. by destruct (loadAuthorizedKeys _ _) as [[] ?]. }
  assert (reload_all srv (fss ++ [fs]) = (reload (reload_all srv fss) fs).1.2) as ->.
  { unfold reload_all. by rewrite foldl_app. }
  set (s := reload_all srv fss) in *. unfold reload, loadAuthorizedKeys. rewrite Hpath.
  destruct (ReadFile fs (srv_keys_path srv)) as [[|e]|data] eqn:Hrd; [|done|].
  - destruct (MkdirAll fs (Dir (srv_keys_path srv))); [done|].
    unfold ReadFile in Hrd. destruct (fs_read_err fs (srv_keys_path srv)); [done|].
    destruct (fs_files fs !! srv_keys_path srv) eqn:Hf; [done|].
    unfold WriteFile. pose proof (stub_grants_nobody key).
    by destruct (fs_write_err fs (srv_keys_path srv)); cbn; rewrite ?Hf.
  - cbn. unfold authPublicKey. cbn [srv_keys]. apply granted_keys.
Qed.
End Keys.

(** ** Instances the theorems apply to *)

(** Keys that are their own encodings. *)
#[local] Instance plain_keys : SshKeys := {|
  PublicKey := bytes; PrivateKey := bytes; Signer := bytes;
  Marshal k := k;
  ParseAuthorizedKey l := if HasPrefix l (lit "ssh-") then Some (TrimSpace l) else None;
  ParsePrivateKey b := Some b;
  MarshalPrivateKey k := Some k;
  NewSignerFromKey k := Some k;
|}.
#[local] Instance plain_laws : SshKeysLaws.
Proof. constructor. intros priv pem s. cbn. congruence. Qed.

Definition empty_fs : fsys := mkFS ∅ (fun _ => None) (fun _ => None) (fun _ => None).

Lemma host_key_stable_witness :
  (exists pem, fs_files (loadOrCreateHostKey (Some [1; 2]) (lit "/k") empty_fs).2
     = <[lit "/k" := mkFile mode_0600 pem]> (fs_files empty_fs))
  /\ forall rand_priv' fs'',
       fs_files fs'' !! lit "/k"
       = fs_files (loadOrCreateHostKey (Some [1; 2]) (lit "/k") empty_fs).2 !! lit "/k" ->
       fs_read_err fs'' (lit "/k") = None ->
       loadOrCreateHostKey rand_priv' (lit "/k") fs'' = (inr [1; 2], fs'').
Proof.
  exact (host_key_stable (Some [1; 2]) (lit "/k") empty_fs [1; 2]
    (loadOrCreateHostKey (Some [1; 2]) (lit "/k") empty_fs).2 eq_refl eq_refl).
Defined.

Example new_server_grants :
  match New (Some [7]) (lit "/keys/host") (lit "/keys/authorized_keys")
          (mkFS {[ lit "/keys/authorized_keys"
                   := mkFile mode_0600 (lit "# admins" ++ [10] ++ lit "ssh-ed25519 AAAA" ++ [10]) ]}
             (fun _ => None) (fun _ => None) (fun _ => None)) with
  | (inr s, _) => (authPublicKey s (lit "ssh-ed25519 AAAA"), authPublicKey s (lit "# admins"))
  | _ => (false, true)
  end = (true, false).
Proof. vm_compute. reflexivity. Qed.
