(* ===== verification/SshServer.v ===== *)
(** * Connections and session channels (internal/sshserver/server.go)

    [handleSession] and [handleReq] as a state machine: the request loop, the
    command's goroutine, the window-change channel between them and the
    exit-status reply; its refinement of what RFC 4254 section 6.5 asks of a
    session channel; and the accept loops of [handleConn] and [Serve]. *)

From S2P Require Import Prelude GoBytes GoText.

#[local] Open Scope Z_scope.

(** ** Requests *)

(** The payload structs, and golang.org/x/crypto/ssh's [Unmarshal] at each
    of them ([None] for an error). *)
Record ptyReqMsg := mkPty {
  Term : bytes; p_Cols : Z; p_Rows : Z; p_WidthPx : Z; p_HeightPx : Z; Modes : bytes;
}.
Record winChangeMsg := mkWinMsg { w_Cols : Z; w_Rows : Z; w_WidthPx : Z; w_HeightPx : Z }.
Record execMsg := mkExecMsg { Command : bytes }.

Class SshWire := {
  Unmarshal_pty : bytes -> option ptyReqMsg;
  Unmarshal_winch : bytes -> option winChangeMsg;
  Unmarshal_exec : bytes -> option execMsg;
}.

Record winChange := mkWinch { cols : Z; rows : Z }.

Section Server.
Context `{SshWire}.

Definition parsePTYReq (payload : bytes) : bytes * Z * Z * bool :=
  match Unmarshal_pty payload with
  | None => ([], 0, 0, false)
  | Some m => (Term m, p_Cols m, p_Rows m, true)
  end.
Definition parseWinChange (payload : bytes) : Z * Z * bool :=
  match Unmarshal_winch payload with
  | None => (0, 0, false)
  | Some m => (w_Cols m, w_Rows m, true)
  end.
Definition parseExec (payload : bytes) : bytes * bool :=
  match Unmarshal_exec payload with
  | None => ([], false)
  | Some m => (Command m, true)
  end.

(** ** The channel *)

(** Where the request loop is, and where the command's goroutine is. *)
Inductive loop_pc := Looping | WaitingDone | Returned.
Inductive exec_pc :=
| NotStarted
| Spawned (cmdline : bytes)      (* before it reads the dimensions *)
| Running                        (* in [dispatchExec] *)
| Finished.                      (* its code is in [execDone] *)

(** What leaves the channel: replies, the launch of a command with the
    terminal's dimensions, the exit status, the close. *)
Inductive output :=
| Reply (ok : bool)
| Launch (cmdline : bytes) (c r : Z)
| ExitStatus (code : Z)
| ChannelClose.

Record chan := mkChan {
  ptyCols : Z;
  ptyRows : Z;
  execStarted : bool;
  execDone : list Z;             (* make(chan int, 1) *)
  winchCh : list winChange;      (* make(chan winChange, 4) *)
  winchTaken : list winChange;   (* what the command has received from it *)
  canceled : bool;               (* sessCtx *)
  loop : loop_pc;
  goroutine : exec_pc;
  outputs : list output;         (* oldest first *)
}.
Definition winchCh_cap : nat := 4.

Definition new_chan : chan := mkChan 0 0 false [] [] [] false Looping NotStarted [].

Record request := mkReq { Type_ : bytes; Payload : bytes }.

Definition emit (o : output) (c : chan) : chan :=
  mkChan (ptyCols c) (ptyRows c) (execStarted c) (execDone c) (winchCh c) (winchTaken c) (canceled c) (loop c)
    (goroutine c) (outputs c ++ [o]).
Definition set_pty (cl rw : Z) (c : chan) : chan :=
  mkChan cl rw (execStarted c) (execDone c) (winchCh c) (winchTaken c) (canceled c) (loop c) (goroutine c) (outputs c).
Definition set_winch (l : list winChange) (c : chan) : chan :=
  mkChan (ptyCols c) (ptyRows c) (execStarted c) (execDone c) l (winchTaken c) (canceled c) (loop c) (goroutine c) (outputs c).
Definition take_winch (x : winChange) (l : list winChange) (c : chan) : chan :=
  mkChan (ptyCols c) (ptyRows c) (execStarted c) (execDone c) l (winchTaken c ++ [x]) (canceled c) (loop c)
    (goroutine c) (outputs c).
Definition set_done (l : list Z) (c : chan) : chan :=
  mkChan (ptyCols c) (ptyRows c) (execStarted c) l (winchCh c) (winchTaken c) (canceled c) (loop c) (goroutine c) (outputs c).
Definition set_exec (b : bool) (g : exec_pc) (c : chan) : chan :=
  mkChan (ptyCols c) (ptyRows c) b (execDone c) (winchCh c) (winchTaken c) (canceled c) (loop c) g (outputs c).
Definition cancel (c : chan) : chan :=
  mkChan (ptyCols c) (ptyRows c) (execStarted c) (execDone c) (winchCh c) (winchTaken c) true (loop c) (goroutine c) (outputs c).
Definition set_loop (l : loop_pc) (c : chan) : chan :=
  mkChan (ptyCols c) (ptyRows c) (execStarted c) (execDone c) (winchCh c) (winchTaken c) (canceled c) l (goroutine c) (outputs c).

Definition handleReq (req : request) (c : chan) : chan :=
  if decide (Type_ req = lit "pty-req") then
    let '(_, cl, rw, ok) := parsePTYReq (Payload req) in
    let c := if ok : bool then set_pty cl rw c else c in
    emit (Reply ok) c
  else if decide (Type_ req = lit "window-change") then
    let '(cl, rw, ok) := parseWinChange (Payload req) in
    let c := if ok : bool then
               if (length (winchCh c) <? winchCh_cap)%nat
               then set_winch (winchCh c ++ [mkWinch cl rw]) c else c
             else c in
    emit (Reply ok) c
  else if decide (Type_ req = lit "exec") then
    let '(cmdline, ok) := parseExec (Payload req) in
    let c := emit (Reply ok) c in
    if negb ok || execStarted c then c
    else set_exec true (Spawned cmdline) c
  else emit (Reply false) c.

(** The deferred [cancel] and [ch.Close]. *)
Definition return_ (c : chan) : chan := emit ChannelClose (set_loop Returned (cancel c)).

Definition sendExitStatus (code : Z) (c : chan) : chan := emit (ExitStatus (u32 code)) c.

(** ** Steps *)

Inductive chan_step :=
| Req (req : request)          (* a request arrives *)
| ReqsClosed                   (* the request channel is closed *)
| Start                        (* the goroutine evaluates its arguments *)
| TakeWinch                    (* the command takes a window change *)
| Finish (code : Z)            (* [dispatchExec] returns, [execDone <- code] *)
| TakeDone                     (* the loop receives from [execDone] *)
| ParentDone.                  (* the server's context ends, and [sessCtx] with it *)

Definition apply_chan (s : chan_step) (c : chan) : chan :=
  match s with
  | Req req => match loop c with Looping => handleReq req c | _ => c end
  | ReqsClosed =>
      match loop c with
      | Looping => let c := cancel c in
                   if execStarted c then set_loop WaitingDone c else return_ c
      | _ => c
      end
  | Start =>
      match goroutine c with
      | Spawned cmdline => set_exec (execStarted c) Running (emit (Launch cmdline (ptyCols c) (ptyRows c)) c)
      | _ => c
      end
  | TakeWinch =>
      match goroutine c, winchCh c with
      | Running, x :: l => take_winch x l c
      | _, _ => c
      end
  | Finish code =>
      match goroutine c with
      | Running => set_exec (execStarted c) Finished (set_done (execDone c ++ [code]) c)
      | _ => c
      end
  | TakeDone =>
      match execDone c with
      | code :: l =>
          match loop c with
          | Looping => return_ (sendExitStatus code (set_done l c))
          | WaitingDone => return_ (set_done l c)
          | Returned => c
          end
      | [] => c
      end
  | ParentDone => cancel c
  end.

Definition run_chan (l : list chan_step) (c : chan) : chan := foldl (fun c s => apply_chan s c) c l.

(** ** Connections *)

(** A new channel: its type, and whether [Accept] succeeds. *)
Record new_channel := mkNew { ch_type : bytes; ch_accept : bool }.

Inductive conn_action :=
| RejectedChannel           (* Reject(ssh.UnknownChannelType, ...) *)
| AcceptFailed
| SessionStarted.           (* go s.handleSession(...) *)

Definition handle_new (n : new_channel) : conn_action :=
  if decide (ch_type n <> lit "session") then RejectedChannel
  else if ch_accept n then SessionStarted else AcceptFailed.

(** [handleConn]: nothing happens before the handshake has succeeded. *)
Definition handleConn (handshake_ok : bool) (chans : list new_channel) : list conn_action :=
  if negb handshake_ok then [] else handle_new <$> chans.

(** What [listener.Accept] returns. *)
Inductive accept_result := AConn | AClosed | AOther.

(** The loop of [Serve]: the connections it started handling, and whether it
    has returned. *)
Fixpoint serve_loop (l : list accept_result) : nat * bool :=
  match l with
  | [] => (O, false)
  | AClosed :: _ => (O, true)
  | AOther :: l => serve_loop l
  | AConn :: l => let '(n, b) := serve_loop l in (S n, b)
  end.
Inductive serve_result := ServeListenError | ServeNil (conns : nat) | ServeRunning (conns : nat).
Definition Serve (listen_ok : bool) (l : list accept_result) : serve_result :=
  if negb listen_ok then ServeListenError
  else let '(n, b) := serve_loop l in if b : bool then ServeNil n else ServeRunning n.

(** ** The abstract session channel

    RFC 4254, section 6.5: one command per channel; 6.10: its exit status
    may be returned once, after it finished; 5.3: nothing follows the
    close.  The code a command finishes with is the machine's to choose. *)

Inductive spec :=
| SIdle
| SRunning
| SExited            (* the exit status was returned *)
| SClosed.

(** What the client sees of it: replies are left out. *)
Inductive spec_step : spec -> output -> spec -> Prop :=
| spec_launch cmdline c r : spec_step SIdle (Launch cmdline c r) SRunning
| spec_exit code : spec_step SRunning (ExitStatus code) SExited
| spec_close s : s <> SClosed -> spec_step s ChannelClose SClosed.

Inductive spec_run : spec -> list output -> spec -> Prop :=
| spec_done s : spec_run s [] s
| spec_more s o s1 l s2 : spec_step s o s1 -> spec_run s1 l s2 -> spec_run s (o :: l) s2.

Definition visible (o : output) : bool := match o with Reply _ => false | _ => true end.
Definition seen_by_client (c : chan) : list output := filter (fun o => visible o = true) (outputs c).

(** The abstraction: where the abstract channel is. *)
Definition abs (c : chan) : spec :=
  match loop c with
  | Returned => SClosed
  | _ => match goroutine c with NotStarted | Spawned _ => SIdle | _ => SRunning end
  end.

(** ** Invariant *)

Record chan_ok (c : chan) : Prop := {
  co_started : execStarted c = true <-> goroutine c <> NotStarted;
  co_done : match goroutine c, loop c with
            | Finished, Returned => execDone c = []
            | Finished, _ => length (execDone c) = 1%nat
            | _, _ => execDone c = []
            end;
  co_winch : (length (winchCh c) <= winchCh_cap)%nat;
  co_returned : loop c = Returned -> goroutine c = NotStarted \/ goroutine c = Finished;
  co_waiting : loop c = WaitingDone -> execStarted c = true;
  co_cancel : loop c <> Looping -> canceled c = true;
}.

Lemma new_chan_ok : chan_ok new_chan.
Proof. constructor; cbn; try done; try (unfold winchCh_cap; lia). Qed.

(** A request changes neither goroutine's place, except that an [exec] can
    spawn the command. *)
Lemma handleReq_cases req c : loop c = Looping ->
  let c' := handleReq req c in
  exists ok, outputs c' = outputs c ++ [Reply ok]
    /\ loop c' = Looping /\ execDone c' = execDone c /\ canceled c' = canceled c
    /\ ((length (winchCh c) <= winchCh_cap)%nat -> (length (winchCh c') <= winchCh_cap)%nat)
    /\ ((goroutine c' = goroutine c /\ execStarted c' = execStarted c)
        \/ (execStarted c = false /\ execStarted c' = true /\ exists cmd, goroutine c' = Spawned cmd)).
Proof.
  intros Hl. cbv zeta. unfold handleReq. case_decide; [|case_decide; [|case_decide]].
  - destruct (parsePTYReq (Payload req)) as [[[t cl] rw] ok]. exists ok. destruct ok; cbn; split_and!; auto.
  - destruct (parseWinChange (Payload req)) as [[cl rw] ok]. exists ok.
    destruct ok; [|cbn; by split_and!; auto].
    destruct (Nat.ltb_spec (length (winchCh c)) winchCh_cap); cbn; [|by split_and!; auto].
    split_and!; auto. intros _. rewrite length_app. cbn. lia.
  - destruct (parseExec (Payload req)) as [cmd ok]. exists ok.
    destruct ok; cbn; [|by split_and!; auto]. destruct (execStarted c) eqn:He; cbn; [by split_and!; auto|].
    split_and!; auto. right. eauto.
  - exists false. cbn. split_and!; auto.
Qed.

Lemma apply_chan_ok s c : chan_ok c -> chan_ok (apply_chan s c).
Proof.
  intros Hc. pose proof Hc as [Hs Hd Hw Hr Hwt Hcn].
  destruct s as [req| | | |code| |]; cbn [apply_chan].
  - destruct (loop c) eqn:Hl; [|done..].
    destruct (handleReq_cases req c Hl) as (ok & _ & Hl' & Hd' & _ & Hw' & Hg).
    constructor; rewrite ?Hl'; try done; [| |by apply Hw'].
    + destruct Hg as [[-> ->]|(_ & -> & cmd & ->)]; [done|by split].
    + rewrite Hd'. destruct Hg as [[-> _]|(He & _ & cmd & ->)]; [done|].
      destruct (goroutine c); try done. by rewrite He in Hs; destruct Hs as [_ Hs]; specialize (Hs ltac:(done)).
  - destruct (loop c) eqn:Hl; [|done..]. cbv zeta. cbn [execStarted cancel].
    destruct (execStarted c) eqn:He.
    + constructor; cbn; try done. by rewrite He.
    + assert (goroutine c = NotStarted) as Hg
        by (destruct (goroutine c); try done; destruct Hs as [_ Hs]; by specialize (Hs ltac:(done))).
      constructor; cbn; rewrite ?Hg; auto; [by rewrite He|by rewrite Hg in Hd|done].
  - destruct (goroutine c) eqn:Hg; try done. constructor; cbn; try done.
    + split; [done|]. intros _. by apply Hs.
    + intros Hl. by destruct (Hr Hl).
  - destruct (goroutine c) eqn:Hg; try done. destruct (winchCh c) as [|x l] eqn:Hwc; [done|].
    constructor; cbn; rewrite ?Hg; try done. cbn in Hw. lia.
  - destruct (goroutine c) eqn:Hg; try done. constructor; cbn; try done.
    + split; [done|]. intros _. by apply Hs.
    + rewrite Hd. destruct (loop c) eqn:Hl; [done|done|]. by destruct (Hr eq_refl).
    + intros _. by right.
  - destruct (execDone c) as [|code l] eqn:He; [done|].
    assert (goroutine c = Finished) as Hg by by destruct (goroutine c).
    rewrite Hg in *. destruct (loop c) eqn:Hl; try done;
      (constructor; cbn; rewrite ?Hg; auto; by destruct l).
  - by constructor.
Qed.

Lemma run_chan_ok l c : chan_ok c -> chan_ok (run_chan l c).
Proof. revert c. induction l as [|s l IH]; intros c Hc; [done|]. cbn. by apply IH, apply_chan_ok. Qed.

(** ** Simulation *)

Lemma spec_run_app s1 l1 s2 l2 s3 : spec_run s1 l1 s2 -> spec_run s2 l2 s3 -> spec_run s1 (l1 ++ l2) s3.
Proof. induction 1 as [|s o s' l s'' Hst _ IH]; [done|]. intros Hr. by eapply spec_more; [|apply IH]. Qed.

Lemma seen_emit o c : seen_by_client (emit o c) = seen_by_client c ++ (if visible o then [o] else []).
Proof. unfold seen_by_client. cbn. rewrite filter_app. by destruct o. Qed.

Lemma sim_step s c : chan_ok c ->
  exists os, seen_by_client (apply_chan s c) = seen_by_client c ++ os
    /\ spec_run (abs c) os (abs (apply_chan s c)).
Proof.
  intros [Hs Hd Hw Hr Hwt Hcn].
  assert (forall c', seen_by_client c' = seen_by_client c -> abs c' = abs c ->
    exists os, seen_by_client c' = seen_by_client c ++ os /\ spec_run (abs c) os (abs c')) as Hstutter.
  { intros c' -> ->. exists []. rewrite app_nil_r. split; [done|constructor]. }
  destruct s as [req| | | |code| |]; cbn [apply_chan].
  - destruct (loop c) eqn:Hl; [|by apply Hstutter..].
    destruct (handleReq_cases req c Hl) as (ok & Ho & Hl' & _ & _ & _ & Hg).
    apply Hstutter.
    + unfold seen_by_client. rewrite Ho, filter_app. cbn. by rewrite app_nil_r.
    + unfold abs. rewrite Hl, Hl'. destruct Hg as [[-> _]|(He & _ & cmd & ->)]; [done|].
      destruct (goroutine c); try done; destruct Hs as [_ Hs]; rewrite He in Hs; by specialize (Hs ltac:(done)).
  - destruct (loop c) eqn:Hl; [|by apply Hstutter..]. cbv zeta. cbn [execStarted cancel].
    destruct (execStarted c); [apply Hstutter; [done|]; unfold abs; cbn; by rewrite Hl|].
    exists [ChannelClose]. unfold return_. rewrite seen_emit. split; [done|].
    unfold abs at 1. rewrite Hl. eapply spec_more; [|constructor].
    constructor. by destruct (goroutine c).
  - destruct (goroutine c) eqn:Hg; try by apply Hstutter.
    exists [Launch cmdline (ptyCols c) (ptyRows c)]. split.
    + change (seen_by_client (set_exec (execStarted c) Running (emit (Launch cmdline (ptyCols c) (ptyRows c)) c)))
        with (seen_by_client (emit (Launch cmdline (ptyCols c) (ptyRows c)) c)).
      by rewrite seen_emit.
    + unfold abs. cbn. rewrite Hg. destruct (loop c) eqn:Hl; [| |by destruct (Hr eq_refl)];
        (eapply spec_more; [constructor|constructor]).
  - destruct (goroutine c) eqn:Hg; try by apply Hstutter.
    destruct (winchCh c); [by apply Hstutter|]. apply Hstutter; [done|]. unfold abs. cbn. by rewrite Hg.
  - destruct (goroutine c) eqn:Hg; try by apply Hstutter.
    apply Hstutter; [done|]. unfold abs. cbn. by rewrite Hg.
  - destruct (execDone c) as [|code l] eqn:He; [by apply Hstutter|].
    assert (goroutine c = Finished) as Hg by by destruct (goroutine c).
    destruct (loop c) eqn:Hl; [| |by apply Hstutter].
    + exists [ExitStatus (u32 code); ChannelClose]. unfold return_, sendExitStatus.
      rewrite seen_emit. change (seen_by_client (set_loop Returned (cancel ?x))) with (seen_by_client x).
      rewrite seen_emit, <- app_assoc. split; [done|]. unfold abs at 1. rewrite Hl, Hg.
      eapply spec_more; [constructor|]. eapply spec_more; [by constructor|constructor].
    + exists [ChannelClose]. unfold return_. rewrite seen_emit. split; [done|].
      unfold abs at 1. rewrite Hl, Hg. eapply spec_more; [by constructor|constructor].
  - by apply Hstutter.
Qed.

Lemma sim_run l : forall c, chan_ok c ->
  exists os, seen_by_client (run_chan l c) = seen_by_client c ++ os
    /\ spec_run (abs c) os (abs (run_chan l c)).
Proof.
  induction l as [|s l IH]; intros c Hc.
  { exists []. rewrite app_nil_r. split; [done|constructor]. }
  destruct (sim_step s c Hc) as (os1 & Hs1 & Hr1).
  destruct (IH (apply_chan s c) (apply_chan_ok s c Hc)) as (os2 & Hs2 & Hr2).
  exists (os1 ++ os2). change (run_chan (s :: l) c) with (run_chan l (apply_chan s c)).
  rewrite Hs2, Hs1, app_assoc. split; [done|]. by eapply spec_run_app.
Qed.

(** Exit statuses come from finished commands. *)
Definition codes_from (l : list chan_step) (c : chan) : Prop :=
  (forall code, code ∈ execDone c -> Finish code ∈ l)
  /\ (forall n, ExitStatus n ∈ outputs c -> exists code, Finish code ∈ l /\ n = u32 code).

Lemma codes_step l s c : codes_from l c -> codes_from (l ++ [s]) (apply_chan s c).
Proof.
  intros [Hd Ho].
  assert (forall c', execDone c' = execDone c ->
            (forall n, ExitStatus n ∈ outputs c' -> ExitStatus n ∈ outputs c) ->
            codes_from (l ++ [s]) c') as Hkeep.
  { intros c' Hd' Ho'. split.
    - intros code. rewrite Hd', elem_of_app. auto.
    - intros n Hn. destruct (Ho n (Ho' n Hn)) as (code & ? & ->). exists code. rewrite elem_of_app. auto. }
  assert (forall o n, (forall m, o <> ExitStatus m) -> ExitStatus n ∈ outputs c ++ [o] ->
            ExitStatus n ∈ outputs c) as Hother.
  { intros o n Hne [?|Hin]%elem_of_app; [done|]. apply list_elem_of_singleton in Hin. by destruct (Hne n). }
  destruct s as [req| | | |code| |]; cbn [apply_chan].
  - destruct (loop c) eqn:Hl; [|by apply Hkeep..].
    destruct (handleReq_cases req c Hl) as (ok & Hout & _ & Hd' & _).
    apply Hkeep; [done|]. intros n. rewrite Hout. by apply Hother.
  - destruct (loop c); [|by apply Hkeep..]. cbv zeta. cbn [execStarted cancel].
    destruct (execStarted c); (apply Hkeep; [done|]); [done|]. intros n. by apply Hother.
  - destruct (goroutine c); try by apply Hkeep. apply Hkeep; [done|]. intros n. by apply Hother.
  - destruct (goroutine c); try by apply Hkeep. destruct (winchCh c); by apply Hkeep.
  - destruct (goroutine c); try by apply Hkeep. split; cbn.
    + intros code'. rewrite !elem_of_app, list_elem_of_singleton. intros [?| ->]; [by left; apply Hd|].
      right. by apply list_elem_of_singleton.
    + intros n Hn. destruct (Ho n Hn) as (code' & ? & ->). exists code'. rewrite elem_of_app. auto.
  - destruct (execDone c) as [|code l'] eqn:He; [by apply Hkeep|].
    destruct (loop c); [| |by apply Hkeep]; cbn; split; cbn.
    + intros code' Hc. rewrite elem_of_app. left. apply Hd. by apply list_elem_of_further.
    + intros n [[Hn|Hn%list_elem_of_singleton]%elem_of_app|Hn%list_elem_of_singleton]%elem_of_app; [| |done].
      * destruct (Ho n Hn) as (code' & ? & ->). exists code'. rewrite elem_of_app. auto.
      * injection Hn as ->. exists code. rewrite elem_of_app. split; [|done]. left. apply Hd, list_elem_of_here.
    + intros code' Hc. rewrite elem_of_app. left. apply Hd. by apply list_elem_of_further.
    + intros n [Hn|Hn%list_elem_of_singleton]%elem_of_app; [|done].
      destruct (Ho n Hn) as (code' & ? & ->). exists code'. rewrite elem_of_app. auto.
  - by apply Hkeep.
Qed.

Lemma codes_run l : codes_from l (run_chan l new_chan).
Proof.
  induction l as [|s l IH] using rev_ind.
  { split; cbn; intros ? []%not_elem_of_nil. }
  unfold run_chan. rewrite foldl_app. by apply codes_step.
Qed.

(** Window changes: the ones a channel's steps ask for, and those that have
    come through. *)
Definition window_change (s : chan_step) : option winChange :=
  match s with
  | Req req =>
      if decide (Type_ req = lit "window-change") then
        m ← Unmarshal_winch (Payload req); Some (mkWinch (w_Cols m) (w_Rows m))
      else None
  | _ => None
  end.

Lemma winch_step s c changes : winchTaken c ++ winchCh c `sublist_of` changes ->
  winchTaken (apply_chan s c) ++ winchCh (apply_chan s c) `sublist_of` changes ++ omap window_change [s].
Proof.
  intros Hc.
  assert (forall c' l, winchTaken c' = winchTaken c -> winchCh c' = winchCh c ->
    winchTaken c' ++ winchCh c' `sublist_of` changes ++ l) as Hsame.
  { intros c' l -> ->. by apply sublist_inserts_r. }
  destruct s as [req| | | |code| |]; cbn [apply_chan].
  - destruct (loop c); try by apply Hsame. unfold handleReq. cbn [omap list_omap window_change].
    case_decide as H1; [|case_decide as H2; [|case_decide; [|by apply Hsame]]].
    + destruct (parsePTYReq _) as [[[t cl] rw] []]; by apply Hsame.
    + unfold parseWinChange. destruct (Unmarshal_winch (Payload req)) as [m|]; [|by apply Hsame].
      destruct (length (winchCh c) <? winchCh_cap)%nat; cbn; [|by apply sublist_inserts_r].
      rewrite app_assoc. by apply sublist_app.
    + destruct (parseExec _) as [cmd ok]. destruct (negb ok || _); by apply Hsame.
  - destruct (loop c); try by apply Hsame. cbv zeta. cbn [execStarted cancel].
    destruct (execStarted c); by apply Hsame.
  - destruct (goroutine c); by apply Hsame.
  - destruct (goroutine c); try by apply Hsame. destruct (winchCh c) as [|x l] eqn:Hw; [by apply Hsame|].
    cbn. rewrite <- app_assoc. by apply sublist_inserts_r.
  - destruct (goroutine c); by apply Hsame.
  - destruct (execDone c); [by apply Hsame|]. destruct (loop c); by apply Hsame.
  - by apply Hsame.
Qed.

Lemma winch_run l : winchTaken (run_chan l new_chan) ++ winchCh (run_chan l new_chan)
  `sublist_of` omap window_change l.
Proof.
  induction l as [|s l IH] using rev_ind; [apply sublist_nil_l|].
  unfold run_chan. rewrite foldl_app, omap_app. by apply winch_step.
Qed.

(** ** Properties *)

(** C8. A session channel refines the abstract channel of RFC 4254, under
    every sequence of requests and every interleaving with the command's
    goroutine: at most one command is launched, the exit status is returned
    at most once, only after the launch and with the 32-bit code the command
    finished with, and nothing follows the close.  A finished command always
    lets the channel be closed, the requests of a closed channel are never
    waited for in vain by a command's goroutine (its code fits the buffer),
    and pending window changes stay within their buffer. *)
Theorem handleSession_refines l :
  let c := run_chan l new_chan in
  spec_run SIdle (seen_by_client c) (abs c)
  /\ (forall n, ExitStatus n ∈ outputs c -> exists code, Finish code ∈ l /\ n = u32 code)
  /\ (goroutine c = Finished -> loop (apply_chan TakeDone c) = Returned)
  /\ (length (execDone c) <= 1)%nat /\ (length (winchCh c) <= 4)%nat
  /\ (loop c <> Looping -> canceled c = true).
Proof.
  cbv zeta. pose proof (run_chan_ok l new_chan new_chan_ok) as Hc.
  destruct (sim_run l new_chan new_chan_ok) as (os & Hs & Hr).
  change (seen_by_client new_chan) with (@nil output) in Hs. change (abs new_chan) with SIdle in Hr.
  destruct Hc as [_ Hd Hw _ _ Hcn]. split_and!; [by rewrite Hs|apply codes_run| | |done|done].
  - intros Hg. rewrite Hg in Hd. cbn [apply_chan].
    destruct (execDone (run_chan l new_chan)); [|by destruct (loop (run_chan l new_chan))].
    by destruct (loop (run_chan l new_chan)).
  - destruct (goroutine _), (loop _); rewrite Hd; cbn; lia.
Qed.

(** A second [exec] request on a channel is told that it succeeded, although
    nothing is run for it. *)
Theorem second_exec_acknowledged req c m :
  Type_ req = lit "exec" -> Unmarshal_exec (Payload req) = Some m -> execStarted c = true ->
  handleReq req c = emit (Reply true) c.
Proof.
  intros Ht Hm He. unfold handleReq. rewrite Ht. rewrite !decide_False by done. rewrite decide_True by done.
  unfold parseExec. rewrite Hm. cbn [negb orb]. change (execStarted (emit (Reply true) c)) with (execStarted c).
  by rewrite He.
Qed.

(** With four window changes pending it is the newest size that is lost. *)
Theorem newest_resize_dropped req c m :
  Type_ req = lit "window-change" -> Unmarshal_winch (Payload req) = Some m ->
  length (winchCh c) = winchCh_cap -> handleReq req c = emit (Reply true) c.
Proof.
  intros Ht Hm Hl. unfold handleReq. rewrite Ht. rewrite decide_False by done. rewrite decide_True by done.
  unfold parseWinChange. rewrite Hm. by rewrite Hl.
Qed.
End Server.
