(* ===== verification/System.v ===== *)
(** * The server as a whole (internal/sshserver)

    [Serve], [handleConn] and [handleSession] put together with the key set
    and the commands: connections are authenticated by [authPublicKey]
    against the keys of that moment, their session channels run the state
    machine of SshServer, and what a channel launches is [dispatchExec] of
    ExecCmds, whose code it returns.  The SSH handshake is an interface with
    the one law that an authenticated key was accepted by the callback. *)

From S2P Require Import Prelude GoBytes GoText Protocol Seq Session SessionOps Open Relay Handshake.
From S2P Require Import Discover SshExec Ifaces GoOS ExecCmds Keys SshServer.

#[local] Open Scope Z_scope.

(** ** The handshake of a connection

    [ssh.NewServerConn] with a [PublicKeyCallback] and no other method of
    authentication; the keys' mutex makes each call of the callback see one
    key set. *)
Class SshConn `{SshKeys} := {
  Client : Type;
  NewServerConn : (PublicKey -> bool) -> Client -> option PublicKey;
}.
Class SshConnLaws `{SshConn} := {
  authenticated cb cl key : NewServerConn cb cl = Some key -> cb key = true;
}.

Section System.
Context `{SshWire, SshConn}.
Context (sch : schedules) (fuel : nat).
Context (encode_ifaces : list ifaceInfo -> option bytes) (encode_neighbors : list Neighbor -> option bytes).
Context (cfg : Config).

(** ** The process *)

Record connection := mkConn { cn_key : PublicKey; cn_chans : list chan }.
Record process := mkProc {
  pr_server : Server;
  pr_conns : list connection;
  pr_listening : bool;
  pr_panicked : bool;            (* a panic of any goroutine ends the process *)
}.

(** What can happen next. *)
Inductive sys_step :=
| Hup (fs : fsys)                          (* SIGHUP *)
| Connect (cl : Client)                    (* a connection is accepted *)
| NewChannel (i : nat) (n : new_channel)
| OnChannel (i j : nat) (s : chan_step)
| CommandReturns (i j : nat) (env : exec_env)
| Shutdown.                                (* the context ends, the listener closes *)

Definition with_conns (l : list connection) (p : process) : process :=
  mkProc (pr_server p) l (pr_listening p) (pr_panicked p).

(** The command a channel has launched. *)
Fixpoint first_launch (os : list output) : option (bytes * Z * Z) :=
  match os with
  | [] => None
  | Launch cmd cl rw :: _ => Some (cmd, cl, rw)
  | _ :: os => first_launch os
  end.

(** The dimensions of a window change, as the resizer reads them. *)
Definition size_of (x : winChange) : Z * Z := (cols x, rows x).

(** What a command finds outside, its session's resizer being given [sizes]. *)
Definition with_winch (sizes : list (Z * Z)) (env : exec_env) : exec_env :=
  let s := e_session env in
  mkExecEnv (e_stdin env) (e_write_err env) (e_prompt env)
    (mkSessionEnv (se_sys s) (se_open s) sizes (se_relay s)) (e_mndp env) (e_os env) (e_ifaces env).

(** The goroutine of a command that runs: what it returns, or a panic.  The
    channel it reads window changes from has handed it [winchTaken]. *)
Definition command_result (c : chan) (env : exec_env) : option exec_outcome :=
  match goroutine c, first_launch (outputs c) with
  | Running, Some (cmd, cl, rw) =>
      Some (dispatchExec sch fuel encode_ifaces encode_neighbors cfg
              (with_winch (size_of <$> winchTaken c) env) cmd cl rw)
  | _, _ => None
  end.

Definition on_channel (i j : nat) (f : chan -> chan) (p : process) : process :=
  with_conns (alter (fun cn => mkConn (cn_key cn) (alter f j (cn_chans cn))) i (pr_conns p)) p.

Definition get_chan (i j : nat) (p : process) : option chan :=
  cn ← pr_conns p !! i; cn_chans cn !! j.

(** The dimensions the session of a finished command was resized to. *)
Definition result_sizes (r : exec_result) : list (Z * Z) :=
  match x_session r with Some (_, SessEnded _ _ sizes) => sizes | _ => [] end.

Definition apply_sys (s : sys_step) (p : process) : process :=
  if pr_panicked p then p
  else
    match s with
    | Hup fs => mkProc (reload (pr_server p) fs).1.2 (pr_conns p) (pr_listening p) false
    | Connect cl =>
        if negb (pr_listening p) then p
        else
          match NewServerConn (authPublicKey (pr_server p)) cl with
          | Some key => with_conns (pr_conns p ++ [mkConn key []]) p
          | None => p                                    (* handleConn returns *)
          end
    | NewChannel i n =>
        match handle_new n with
        | SessionStarted =>
            with_conns (alter (fun cn => mkConn (cn_key cn) (cn_chans cn ++ [new_chan])) i (pr_conns p)) p
        | _ => p
        end
    | OnChannel i j s =>
        match s with
        | Finish _ | ParentDone => p        (* only as [CommandReturns] and [Shutdown] *)
        | _ => on_channel i j (apply_chan s) p
        end
    | CommandReturns i j env =>
        match get_chan i j p with
        | None => p
        | Some c =>
            match command_result c env with
            | Some (ExecExit r) => on_channel i j (apply_chan (Finish (x_code r))) p
            | Some (ExecPanic _) => mkProc (pr_server p) (pr_conns p) (pr_listening p) true
            | _ => p
            end
        end
    | Shutdown =>
        mkProc (pr_server p)
          ((fun cn => mkConn (cn_key cn) (apply_chan ParentDone <$> cn_chans cn)) <$> pr_conns p) false false
    end.

Definition run_sys (l : list sys_step) (p : process) : process := foldl (fun p s => apply_sys s p) p l.

(** The process once [New] has returned a server and the listener is up. *)
Definition boot (srv : Server) : process := mkProc srv [] true false.

(** [Run]: [New] and [Serve], for callers without the reload hook. *)
Definition Run (rand_priv : option PrivateKey) (host_path keys_path : bytes) (fs : fsys)
    (listen_ok : bool) (l : list accept_result) : key_error + serve_result :=
  match New rand_priv host_path keys_path fs with
  | (inl e, _) => inl e
  | (inr _, _) => inr (Serve listen_ok l)
  end.

(** ** Where connections and channels come from *)

Definition hups (l : list sys_step) : list fsys :=
  omap (fun s => match s with Hup fs => Some fs | _ => None end) l.

(** The connection's key was accepted with the keys of the moment. *)
Definition conn_history (srv : Server) (l : list sys_step) (cn : connection) : Prop :=
  exists l1 cl l2, l = l1 ++ Connect cl :: l2
    /\ NewServerConn (authPublicKey (reload_all srv (hups l1))) cl = Some (cn_key cn).

(** The window changes the client asked for on a channel. *)
Definition changes_at (i j : nat) (l : list sys_step) : list winChange :=
  omap (fun s => match s with
                 | OnChannel i' j' s => if decide ((i', j') = (i, j)) then window_change s else None
                 | _ => None
                 end) l.

(** What a code of a channel's command comes from. *)
Definition code_of_command (l : list sys_step) (i j : nat) (os : list output) (code : Z) : Prop :=
  exists env sizes r cmd cl rw, CommandReturns i j env ∈ l /\ Launch cmd cl rw ∈ os
    /\ sizes `sublist_of` (size_of <$> changes_at i j l)
    /\ dispatchExec sch fuel encode_ifaces encode_neighbors cfg (with_winch sizes env) cmd cl rw = ExecExit r
    /\ code = x_code r.
Definition chan_history (l : list sys_step) (i j : nat) (c : chan) : Prop :=
  exists lc, c = run_chan lc new_chan /\ omap window_change lc `sublist_of` changes_at i j l
    /\ forall code, Finish code ∈ lc -> code_of_command l i j (outputs c) code.

Record sys_inv (srv : Server) (l : list sys_step) (p : process) : Prop := {
  si_server : pr_panicked p = false -> pr_server p = reload_all srv (hups l);
  si_conns : forall i cn, pr_conns p !! i = Some cn ->
    conn_history srv l cn /\ forall j c, cn_chans cn !! j = Some c -> chan_history l i j c;
  si_panic : pr_panicked p = true -> exists i j env sizes cmd cl rw c call,
    CommandReturns i j env ∈ l /\ get_chan i j p = Some c /\ Launch cmd cl rw ∈ outputs c
    /\ dispatchExec sch fuel encode_ifaces encode_neighbors cfg (with_winch sizes env) cmd cl rw = ExecPanic call;
}.

(** ** Lemmas *)

Lemma outputs_grow s c : exists os, outputs (apply_chan s c) = outputs c ++ os.
Proof.
  assert (forall o, exists os, outputs c ++ [o] = outputs c ++ os) as Hone by (intros o; by exists [o]).
  assert (exists os, outputs c = outputs c ++ os) as Hnone by (exists []; by rewrite app_nil_r).
  destruct s as [req| | | |code| |]; cbn [apply_chan]; [..|exact Hnone].
  - destruct (loop c) eqn:Hl; try done. destruct (handleReq_cases req c Hl) as (ok & -> & _). apply Hone.
  - destruct (loop c); try done. cbv zeta. cbn. destruct (execStarted c); [done|apply Hone].
  - destruct (goroutine c); try done. apply Hone.
  - destruct (goroutine c); try done. by destruct (winchCh c).
  - by destruct (goroutine c).
  - destruct (execDone c); [done|]. destruct (loop c); cbn; [|apply Hone|done].
    eexists. by rewrite <- app_assoc.
Qed.

Lemma first_launch_in os cmd cl rw : first_launch os = Some (cmd, cl, rw) -> Launch cmd cl rw ∈ os.
Proof.
  induction os as [|o os IH]; [done|]. cbn. destruct o; try (intros; right; by apply IH).
  intros [= -> -> ->]. left.
Qed.

Lemma changes_app i j l l' : changes_at i j (l ++ l') = changes_at i j l ++ changes_at i j l'.
Proof. apply omap_app. Qed.

Lemma code_mono l l' i j os os' code :
  code_of_command l i j os code -> code_of_command (l ++ l') i j (os ++ os') code.
Proof.
  intros (env & sizes & r & cmd & cl & rw & Hin & Ho & Hs & H2 & Hc). exists env, sizes, r, cmd, cl, rw.
  split; [apply elem_of_app; by left|]. split; [apply elem_of_app; by left|]. split_and!; try done.
  rewrite changes_app, fmap_app. by apply sublist_inserts_r.
Qed.
Lemma conn_mono srv l l' cn : conn_history srv l cn -> conn_history srv (l ++ l') cn.
Proof. intros (l1 & cl & l2 & -> & Hk). exists l1, cl, (l2 ++ l'). by rewrite <- app_assoc. Qed.

(** A step of a channel, with the code of a command when it is a [Finish]. *)
Lemma chan_step_history l l' i j c s : chan_history l i j c ->
  omap window_change [s] `sublist_of` changes_at i j l' ->
  (forall code, s = Finish code -> code_of_command (l ++ l') i j (outputs c) code) ->
  chan_history (l ++ l') i j (apply_chan s c).
Proof.
  intros (lc & -> & Hch & Hlc) Hwin Hs. exists (lc ++ [s]). split; [unfold run_chan; by rewrite foldl_app|].
  split; [rewrite omap_app, changes_app; by apply sublist_app|].
  destruct (outputs_grow s (run_chan lc new_chan)) as (os & ->).
  intros code [Hin|Hin%list_elem_of_singleton]%elem_of_app.
  - by apply code_mono, Hlc.
  - rewrite <- (app_nil_r (l ++ l')). by apply code_mono, Hs.
Qed.
Lemma chan_mono l l' i j c : chan_history l i j c -> chan_history (l ++ l') i j c.
Proof.
  intros (lc & -> & Hch & Hlc). exists lc. split; [done|].
  split; [rewrite changes_app; by apply sublist_inserts_r|]. intros code Hin.
  rewrite <- (app_nil_r (outputs _)). by apply code_mono, Hlc.
Qed.
Lemma new_chan_history l i j : chan_history l i j new_chan.
Proof. exists []. split; [done|]. split; [apply sublist_nil_l|]. by intros code Hin%not_elem_of_nil. Qed.

(** What a channel has handed over is what its client asked for. *)
Lemma taken_sizes l i j c : chan_history l i j c -> winchTaken c `sublist_of` changes_at i j l.
Proof.
  intros (lc & -> & Hch & _). etransitivity; [|exact Hch]. etransitivity; [|apply winch_run].
  by apply sublist_inserts_r.
Qed.

(** The connections of [p'] are those of [p], with their channels changed by
    the step [s] or new. *)
Definition derived (l : list sys_step) (s : sys_step) (p p' : process) : Prop :=
  forall i cn', pr_conns p' !! i = Some cn' ->
    exists cn, pr_conns p !! i = Some cn /\ cn_key cn' = cn_key cn
      /\ forall j c', cn_chans cn' !! j = Some c' ->
           (exists c, cn_chans cn !! j = Some c /\ (chan_history l i j c -> chan_history (l ++ [s]) i j c'))
           \/ c' = new_chan.

Lemma derived_conns srv l s p p' : sys_inv srv l p -> derived l s p p' ->
  forall i cn, pr_conns p' !! i = Some cn ->
    conn_history srv (l ++ [s]) cn
    /\ forall j c, cn_chans cn !! j = Some c -> chan_history (l ++ [s]) i j c.
Proof.
  intros Hp Hd i cn' Hi. destruct (Hd i cn' Hi) as (cn & Hcn & Hk & Hc).
  destruct (si_conns _ _ _ Hp i cn Hcn) as [Hh Hch]. split.
  - apply conn_mono. destruct Hh as (l1 & cl & l2 & H3 & H4). exists l1, cl, l2. by rewrite Hk.
  - intros j c' Hj. destruct (Hc j c' Hj) as [(c & Hj' & Hstep)| ->]; [|apply new_chan_history].
    by apply Hstep, Hch.
Qed.

Lemma derived_same l s p p' : pr_conns p' = pr_conns p -> derived l s p p'.
Proof.
  intros Hp i cn Hi. rewrite Hp in Hi. exists cn. split_and!; [done..|]. intros j c Hj. left. exists c.
  split; [done|]. apply chan_mono.
Qed.

Lemma derived_on_channel l s i j f p :
  (forall c, get_chan i j p = Some c -> chan_history l i j c -> chan_history (l ++ [s]) i j (f c)) ->
  derived l s p (on_channel i j f p).
Proof.
  intros Hf i' cn' Hi. cbn in Hi. destruct (decide (i' = i)) as [->|Hne].
  - rewrite list_lookup_alter_eq in Hi. apply fmap_Some_1 in Hi as (cn & Hcn & ->).
    exists cn. split_and!; [done..|]. intros j' c' Hj. cbn in Hj. left.
    destruct (decide (j' = j)) as [->|Hnj].
    + rewrite list_lookup_alter_eq in Hj. apply fmap_Some_1 in Hj as (c & Hc & ->). exists c. split; [done|].
      apply Hf. unfold get_chan. by rewrite Hcn.
    + rewrite list_lookup_alter_ne in Hj by done. exists c'. split; [done|apply chan_mono].
  - rewrite list_lookup_alter_ne in Hi by done. by apply (derived_same l s p p).
Qed.

Lemma derived_new_channel l s i p :
  derived l s p (with_conns (alter (fun cn => mkConn (cn_key cn) (cn_chans cn ++ [new_chan])) i (pr_conns p)) p).
Proof.
  intros i' cn' Hi. cbn in Hi. destruct (decide (i' = i)) as [->|Hne].
  - rewrite list_lookup_alter_eq in Hi. apply fmap_Some_1 in Hi as (cn & Hcn & ->).
    exists cn. split_and!; [done..|]. intros j c Hj. cbn in Hj.
    apply lookup_app_Some in Hj as [Hj|[_ Hj]]; [left; exists c; split; [done|apply chan_mono]|right].
    by apply list_lookup_singleton_Some in Hj as [_ <-].
  - rewrite list_lookup_alter_ne in Hi by done. by apply (derived_same l s p p).
Qed.

Lemma derived_shutdown l s p :
  derived l s p (apply_sys Shutdown (mkProc (pr_server p) (pr_conns p) (pr_listening p) false)).
Proof.
  intros i cn' Hi. cbn in Hi. rewrite list_lookup_fmap in Hi. apply fmap_Some_1 in Hi as (cn & Hcn & ->).
  exists cn. split_and!; [done..|]. intros j c' Hj. cbn in Hj. rewrite list_lookup_fmap in Hj.
  apply fmap_Some_1 in Hj as (c & Hc & ->). left. exists c. split; [done|]. intros Hh.
  apply chan_step_history; [done|apply sublist_nil_l|done].
Qed.

Lemma sys_step_inv srv l s p : sys_inv srv l p -> sys_inv srv (l ++ [s]) (apply_sys s p).
Proof.
  intros Hp.
  assert (hups (l ++ [s]) = hups l ++ match s with Hup fs => [fs] | _ => [] end) as Hh.
  { unfold hups. rewrite omap_app. by destruct s. }
  unfold apply_sys. destruct (pr_panicked p) eqn:Hpan.
  { split; [by rewrite Hpan|by apply (derived_conns srv l s p p Hp), derived_same|]. intros _.
    destruct (si_panic _ _ _ Hp Hpan) as (i & j & env & sizes & cmd & cl & rw & c & call & Hin & Hd').
    exists i, j, env, sizes, cmd, cl, rw, c, call. split; [apply elem_of_app; by left|done]. }
  assert (forall p', derived l s p p' ->
    (pr_panicked p' = false -> pr_server p' = reload_all srv (hups (l ++ [s]))) ->
    pr_panicked p' = false -> sys_inv srv (l ++ [s]) p') as Hstep.
  { intros p' Hd Hs Hpan'. split; [done|by eapply derived_conns|congruence]. }
  pose proof (si_server _ _ _ Hp Hpan) as Hsrv.
  destruct s as [fs|cl|i n|i j s|i j env|]; try rewrite app_nil_r in Hh; try rewrite <- Hh in Hsrv.
  - apply Hstep; [by apply derived_same| |done]. intros _. cbn. rewrite Hh, Hsrv. unfold reload_all.
    by rewrite foldl_app.
  - destruct (negb (pr_listening p)); [by apply Hstep; [by apply derived_same|..]|].
    destruct (NewServerConn _ cl) as [key|] eqn:Hkey; [|by apply Hstep; [by apply derived_same|..]].
    split; [done| |cbn; congruence]. intros i cn Hi. cbn in Hi.
    apply lookup_app_Some in Hi as [Hi|[_ Hi]].
    + by eapply derived_conns; [exact Hp|by apply (derived_same _ _ p p)|].
    + apply list_lookup_singleton_Some in Hi as [_ <-]. split; [|by intros j c Hj].
      exists l, cl, []. split; [done|]. cbn. rewrite Hh in Hsrv. by rewrite <- Hsrv.
  - destruct (handle_new n); apply Hstep; try done; first [by apply derived_same|apply derived_new_channel].
  - destruct s as [req| | | |code| |]; try (apply Hstep; [by apply derived_same|done|done]);
      (apply Hstep; [|done|done]; apply derived_on_channel; intros c _ Hc;
       apply chan_step_history; [done| |done]; unfold changes_at; cbn [omap list_omap];
       by rewrite decide_True by done).
  - destruct (get_chan i j p) as [c|] eqn:Hget; [|by apply Hstep; [by apply derived_same|..]].
    unfold command_result.
    destruct (goroutine c) eqn:Hg; try by apply Hstep; [by apply derived_same|..].
    destruct (first_launch (outputs c)) as [[[cmd cl] rw]|] eqn:Hfl; [|by apply Hstep; [by apply derived_same|..]].
    apply first_launch_in in Hfl.
    assert (CommandReturns i j env ∈ l ++ [CommandReturns i j env]) as Hin
      by (apply elem_of_app; right; by left).
    destruct (dispatchExec _ _ _ _ _ _ _ _ _) as [r| |call] eqn:Hx; [|by apply Hstep; [by apply derived_same|..]|].
    + apply Hstep; [|done|done]. apply derived_on_channel. intros c' Hget' Hc.
      assert (c' = c) as -> by congruence. apply chan_step_history; [done|apply sublist_nil_l|].
      intros code [= <-]. exists env, (size_of <$> winchTaken c), r, cmd, cl, rw. split_and!; try done.
      rewrite changes_app, fmap_app. apply sublist_inserts_r, fmap_sublist. by apply taken_sizes.
    + split; [done| |].
      * apply (derived_conns srv l _ p _ Hp). by apply derived_same.
      * intros _. by exists i, j, env, (size_of <$> winchTaken c), cmd, cl, rw, c, call.
  - pose proof (derived_shutdown l Shutdown p) as Hd. by apply Hstep.
Qed.

Lemma boot_inv srv : sys_inv srv [] (boot srv).
Proof. split; [done| |done]. by intros i cn Hi. Qed.

Lemma run_sys_inv srv l : sys_inv srv l (run_sys l (boot srv)).
Proof.
  induction l as [|s l IH] using rev_ind; [apply boot_inv|].
  unfold run_sys. rewrite foldl_app. by apply sys_step_inv.
Qed.

(** An exit status a client sees is the code of its command. *)
Lemma exit_status_code l i j c n : chan_history l i j c -> ExitStatus n ∈ outputs c ->
  exists code, code_of_command l i j (outputs c) code /\ n = u32 code.
Proof.
  intros (lc & Hc & _ & Hlc) Hn. destruct (codes_run lc) as [_ Hcodes]. rewrite <- Hc in Hcodes.
  destruct (Hcodes n Hn) as (code & Hin & ->). exists code. split; [|done]. by apply Hlc.
Qed.

(** The resizer of a finished command has had what its channel gave. *)
Lemma exec_sizes sizes env r : exec_ok fuel (e_session (with_winch sizes env)) r -> result_sizes r `sublist_of` sizes.
Proof.
  intros [_ Hs]. unfold result_sizes. destruct (x_session r) as [[c [e rm|e rm got| |]]|]; try apply sublist_nil_l.
  destruct Hs as (_ & _ & _ & _ & _ & (_ & [q Hq] & _) & _). cbn in Hq. rewrite Hq. by apply sublist_inserts_r.
Qed.

Lemma code_u32 code : code ∈ [0; 1; 2; 127] -> u32 code = code.
Proof. rewrite !elem_of_cons, elem_of_nil. intros [->|[->|[->|[->|[]]]]]; reflexivity. Qed.

(** A panic of the process is one of a command's curve arithmetic. *)
Definition command_panics (l : list sys_step) (p : process) : Prop :=
  exists i j env sizes cmd cl rw c call,
    CommandReturns i j env ∈ l /\ get_chan i j p = Some c /\ Launch cmd cl rw ∈ outputs c
    /\ dispatchExec sch fuel encode_ifaces encode_neighbors cfg (with_winch sizes env) cmd cl rw = ExecPanic (Some call)
    /\ session_panics fuel (e_session env) call.

Lemma with_winch_ok sizes env : env_ok env -> env_ok (with_winch sizes env).
Proof. done. Qed.

Lemma run_sys_panics srv l : is_u16 (cfg_VlanID cfg) ->
  (forall i j env, CommandReturns i j env ∈ l -> env_ok env) ->
  pr_panicked (run_sys l (boot srv)) = true -> command_panics l (run_sys l (boot srv)).
Proof.
  intros Hcfg Henv Hp.
  destruct (si_panic _ _ _ (run_sys_inv srv l) Hp) as (i & j & env & sizes & cmd & ccols & rw & c & call & Hin & Hc & Hla & Hx).
  pose proof (dispatchExec_ok sch fuel encode_ifaces encode_neighbors cfg (with_winch sizes env) cmd ccols rw Hcfg
    (with_winch_ok sizes env (Henv i j env Hin))) as Hok. rewrite Hx in Hok. destruct call as [call|]; [|done].
  by exists i, j, env, sizes, cmd, ccols, rw, c, call.
Qed.

(** ** Properties *)

(** C6. What the server does for whom, over any interleaving of
    connections, channels, requests, commands, SIGHUPs and the shutdown.
    Every connection belongs to a key that the authorized keys of the moment
    it was made accepted; every channel of it refines the abstract session
    channel; every exit status a client sees is 0, 1, 2 or 127, and is the
    code of [dispatchExec] on the very command line and dimensions the
    channel launched, whose MAC-Telnet session, if it opened one, was resized
    only to dimensions the client asked for on this channel, in their order,
    and is over with nothing left open; and the process panics only in the curve
    arithmetic of some command's handshake. *)
Theorem server_commands `{!SshConnLaws} srv l :
  is_u16 (cfg_VlanID cfg) -> (forall i j env, CommandReturns i j env ∈ l -> env_ok env) ->
  let p := run_sys l (boot srv) in
  (forall i cn, pr_conns p !! i = Some cn ->
     (exists l1 cl l2, l = l1 ++ Connect cl :: l2
        /\ authPublicKey (reload_all srv (hups l1)) (cn_key cn) = true)
     /\ forall j c, cn_chans cn !! j = Some c ->
          spec_run SIdle (seen_by_client c) (abs c)
          /\ forall n, ExitStatus n ∈ outputs c ->
               n ∈ [0; 1; 2; 127]
               /\ exists env sizes r cmd cl rw, CommandReturns i j env ∈ l /\ Launch cmd cl rw ∈ outputs c
                    /\ dispatchExec sch fuel encode_ifaces encode_neighbors cfg (with_winch sizes env) cmd cl rw
                       = ExecExit r
                    /\ x_code r = n /\ exec_ok fuel (e_session (with_winch sizes env)) r
                    /\ result_sizes r `sublist_of` (size_of <$> changes_at i j l))
  /\ (pr_panicked p = true -> command_panics l p).
Proof.
  intros Hcfg Henv. cbv zeta. destruct (run_sys_inv srv l) as [_ Hconns _]. split.
  - intros i cn Hi. destruct (Hconns i cn Hi) as [(l1 & cl & l2 & Hl & Hk) Hch]. split.
    { exists l1, cl, l2. split; [done|]. by eapply authenticated. }
    intros j c Hj. specialize (Hch j c Hj). split.
    { destruct Hch as (lc & -> & _). destruct (sim_run lc new_chan new_chan_ok) as (os & Hs & Hr).
      by rewrite Hs. }
    intros n Hn. destruct (exit_status_code l i j c n Hch Hn) as (code & Hcode & ->).
    destruct Hcode as (env & sizes & r & cmd & ccols & rw & Hin & Hla & Hsz & Hx & ->).
    pose proof (dispatchExec_ok sch fuel encode_ifaces encode_neighbors cfg (with_winch sizes env) cmd ccols rw Hcfg
      (with_winch_ok sizes env (Henv i j env Hin))) as Hok. rewrite Hx in Hok. pose proof Hok as [Hcodes Hsess].
    rewrite code_u32 by done. split; [done|]. exists env, sizes, r, cmd, ccols, rw. split_and!; try done.
    etransitivity; [|exact Hsz]. by eapply exec_sizes.
  - by apply run_sys_panics.
Qed.
End System.

(** ** A client at work *)

#[local] Instance plain_keys : SshKeys := {|
  PublicKey := bytes; PrivateKey := bytes; Signer := bytes;
  Marshal k := k;
  ParseAuthorizedKey l := if HasPrefix l (lit "ssh-") then Some (TrimSpace l) else None;
  ParsePrivateKey b := Some b;
  MarshalPrivateKey k := Some k;
  NewSignerFromKey k := Some k;
|}.
#[local] Instance plain_wire : SshWire := {|
  Unmarshal_pty b := None;
  Unmarshal_winch b := match b with [c; r] => Some (mkWinMsg c r 0 0) | _ => None end;
  Unmarshal_exec b := Some (mkExecMsg b);
|}.
(** A client offers one key. *)
#[local] Instance plain_conn : SshConn := {|
  Client := bytes; NewServerConn cb cl := if cb cl then Some cl else None;
|}.
#[local] Instance plain_conn_laws : SshConnLaws.
Proof. constructor. cbn. intros cb cl key. destruct (cb cl) eqn:Hcb; [|done]. by intros [= <-]. Qed.

Definition sample_server : Server := mkServer (lit "/h") (lit "/a") (lit "host") [lit "ssh-a"].
(** The kernel refuses the first datagram of the session. *)
Definition refused_env : exec_env :=
  mkExecEnv typed None CaseResult (mkSessionEnv sample_system refused [] []) sample_env vlan_readers (Some []).
Definition sample_cmdline : bytes := lit "mactelnet -u a -p x 02:00:00:00:00:02".
Definition sample_steps : list sys_step :=
  [Connect (lit "ssh-b"); Connect (lit "ssh-a"); NewChannel 0 (mkNew (lit "session") true);
   OnChannel 0 0 (Req (mkReq (lit "exec") sample_cmdline)); OnChannel 0 0 Start;
   NewChannel 0 (mkNew (lit "session") true);
   OnChannel 0 1 (Req (mkReq (lit "exec") sample_cmdline)); OnChannel 0 1 Start;
   OnChannel 0 0 (Req (mkReq (lit "window-change") [132; 43])); OnChannel 0 0 TakeWinch; Hup empty_fs;
   CommandReturns 0 1 refused_env; OnChannel 0 1 TakeDone;
   CommandReturns 0 0 sample_exec_env; OnChannel 0 0 TakeDone; Connect (lit "ssh-a")].
#[local] Abbreviation sample_run := (run_sys (mkSchedules [Second] [Second]) 8 (fun _ => None) (fun _ => None)
  (mkConfig (lit "e") 0) sample_steps (boot sample_server)).

(** The second client is let in; the command of its first channel opens a
    session, resizes it, and ends with 0, that of its second fails with 1; the
    keys are gone after the SIGHUP, which lets nobody in. *)
Example sample_run_outputs :
  (fun cn => (cn_key cn, outputs <$> cn_chans cn)) <$> pr_conns sample_run
  = [(lit "ssh-a", [[Reply true; Launch sample_cmdline 0 0; Reply true; ExitStatus 0; ChannelClose];
                    [Reply true; Launch sample_cmdline 0 0; ExitStatus 1; ChannelClose]])].
Proof. vm_compute. reflexivity. Qed.

Lemma refused_env_ok : env_ok refused_env.
Proof.
  split; [split; [exact sample_system_ok|split; [exact refused_typed|constructor]]|].
  split; [intros name|exact sample_turns_ok].
  cbv [no_panic resolveBroadcast refused_env e_mndp sample_env e_interfaces]. by destruct (decide (name = [])).
Qed.

Lemma sample_steps_ok i j env : CommandReturns i j env ∈ sample_steps -> env_ok env.
Proof.
  unfold sample_steps. rewrite !elem_of_cons, elem_of_nil. intros Hin.
  decompose [or] Hin; try discriminate; [..|done];
    match goal with H : CommandReturns _ _ _ = _ |- _ => injection H as _ _ -> end;
    [exact refused_env_ok|exact sample_env_ok].
Qed.

Lemma server_commands_witness :
  (forall i cn, pr_conns sample_run !! i = Some cn ->
     (exists l1 cl l2, sample_steps = l1 ++ Connect cl :: l2
        /\ authPublicKey (reload_all sample_server (hups l1)) (cn_key cn) = true)
     /\ forall j c, cn_chans cn !! j = Some c ->
          spec_run SIdle (seen_by_client c) (abs c)
          /\ forall n, ExitStatus n ∈ outputs c ->
               n ∈ [0; 1; 2; 127]
               /\ exists env sizes r cmd cl rw, CommandReturns i j env ∈ sample_steps /\ Launch cmd cl rw ∈ outputs c
                    /\ dispatchExec (mkSchedules [Second] [Second]) 8 (fun _ => None) (fun _ => None)
                         (mkConfig (lit "e") 0) (with_winch sizes env) cmd cl rw = ExecExit r
                    /\ x_code r = n /\ exec_ok 8 (e_session (with_winch sizes env)) r
                    /\ result_sizes r `sublist_of` (size_of <$> changes_at i j sample_steps))
  /\ (pr_panicked sample_run = true ->
      command_panics (mkSchedules [Second] [Second]) 8 (fun _ => None) (fun _ => None) (mkConfig (lit "e") 0)
        sample_steps sample_run).
Proof.
  apply (server_commands (mkSchedules [Second] [Second]) 8 (fun _ => None) (fun _ => None)
           (mkConfig (lit "e") 0) sample_server sample_steps).
  - split; [discriminate|reflexivity].
  - exact sample_steps_ok.
Defined.
