(* ===== verification/Cmd.v ===== *)
(** * The command line (cmd/mactelnet-proxy)

    [main]'s dispatch, [runServe] with its flags, environment variables and
    defaults, [runMactelnet], [runMndp] with [printTable], and the
    environment readers.  The process environment is a function from names
    to values, empty when unset. *)

From S2P Require Import Prelude GoBytes GoText GoFlag MacAddr Protocol Seq Mtwei Sockets Session SessionOps Handshake.
From S2P Require Import Typing Open Mndp Discover SshExec Relay GoOS Ifaces ExecCmds Keys SshServer System.

#[local] Open Scope Z_scope.

(** ** Environment variables *)

Section Env.
Context (getenv : bytes -> bytes).

Definition envOr (name fallback : bytes) : bytes :=
  let v := getenv name in if decide (v <> []) then v else fallback.

(** The value, and whether a warning about the variable is printed. *)
Definition envDurationOr (name : bytes) (fallback : Z) : Z * bool :=
  let v := getenv name in
  if decide (v = []) then (fallback, false)
  else match ParseDuration v with Some d => (d, false) | None => (fallback, true) end.

Definition envUintOr (name : bytes) (fallback : Z) : Z * bool :=
  let v := getenv name in
  if decide (v = []) then (fallback, false)
  else match ParseUint v 10 32 with Some n => (n, false) | None => (fallback, true) end.

(** [strings.ToLower] is applied rune by rune; of the runes it maps to
    ASCII only U+0130 and U+212A are not ASCII themselves, and neither
    occurs in the four words once lowered ("i" with a dot, "k"). *)
Definition envBoolOr (name : bytes) (fallback : bool) : bool :=
  let v := getenv name in
  if decide (v = []) then fallback
  else negb (one_of (to_lower <$> v) ["0"; "false"; "no"; "off"]%string).

(** ** serve *)

Definition defaultKeysDir : bytes := lit "/etc/mactelnet-proxy".
Definition defaultHostKeyName : bytes := lit "mactel_ed25519_key".
Definition defaultAuthorizedKeysName : bytes := lit "authorized_keys".

Definition serve_flags : FlagSet :=
  flags [("listen", FString (envOr (lit "MACTELNET_PROXY_LISTEN") (lit "0.0.0.0:22")));
         ("keys-dir", FString (envOr (lit "MACTELNET_PROXY_KEYS_DIR") defaultKeysDir));
         ("authorized-keys", FString (envOr (lit "MACTELNET_PROXY_AUTHORIZED_KEYS") []));
         ("host-key", FString (envOr (lit "MACTELNET_PROXY_HOST_KEY") []));
         ("interface", FString (envOr (lit "MACTELNET_PROXY_INTERFACE") []));
         ("vlan", FUint (envUintOr (lit "MACTELNET_PROXY_VLAN") 0).1);
         ("auth-timeout", FDuration (envDurationOr (lit "MACTELNET_PROXY_AUTH_TIMEOUT") (10 * Second)).1);
         ("data-timeout", FDuration (envDurationOr (lit "MACTELNET_PROXY_DATA_TIMEOUT") 0).1);
         ("debug", FBool (envBoolOr (lit "MACTELNET_PROXY_DEBUG") false));
         ("version", FBool false)]%string.

(** What [runServe] starts the server with. *)
Record serve_config := mkServe {
  c_listen : bytes;
  c_host_key : bytes;
  c_authorized_keys : bytes;
  c_interface : bytes;
  c_vlan : Z;
  c_auth_timeout : Z;
  c_data_timeout : Z;
  c_debug : bool;
}.

Inductive serve_start :=
| BadFlags (e : flag_error)
| ShowVersion
| BadVlan (n : Z)
| StartWith (c : serve_config)
| ParsePanic.

Definition serve_options (args : list bytes) : serve_start :=
  match Parse serve_flags args with
  | Panic => ParsePanic
  | Fail e => BadFlags e
  | Val (fs, _) =>
      if get_bool fs "version" then ShowVersion
      else
        let keysDir := get_string fs "keys-dir" in
        let hostKey := get_string fs "host-key" in
        let hostKey := if decide (hostKey = []) then path_join [keysDir; defaultHostKeyName] else hostKey in
        let authKeys := get_string fs "authorized-keys" in
        let authKeys := if decide (authKeys = []) then path_join [keysDir; defaultAuthorizedKeysName]
                        else authKeys in
        let vlanID := get_uint fs "vlan" in
        if decide (4094 < vlanID) then BadVlan vlanID
        else StartWith (mkServe (get_string fs "listen") hostKey authKeys (get_string fs "interface")
               (u16 vlanID) (get_duration fs "auth-timeout") (get_duration fs "data-timeout")
               (get_bool fs "debug"))
  end.

(** How the server process goes on after its options are known. *)
Inductive serve_run `{SshKeys} :=
| ServeExit (code : Z)
| ServeUp (p : process)          (* still accepting *)
| ServeHung                      (* [Configure] does not end within the fuel *)
| ServePanic.

(** What [listener.Accept] sees of the steps of the process. *)
Definition accepts `{SshConn} (steps : list sys_step) : list accept_result :=
  omap (fun s => match s with
                 | Connect _ => Some AConn
                 | Shutdown => Some AClosed
                 | _ => None
                 end) steps.

(** [fuel] bounds the construction of the schedules and the search for curve
    points; [listen_ok] is whether the address can be listened on. *)
Definition runServe `{SshWire, SshConn} (fuel : nat)
    (encode_ifaces : list ifaceInfo -> option bytes) (encode_neighbors : list Neighbor -> option bytes)
    (rand_priv : option PrivateKey) (fs : fsys)
    (listen_ok : bool) (steps : list sys_step) (args : list bytes) : serve_run :=
  match serve_options args with
  | ParsePanic => ServePanic
  | BadFlags _ => ServeExit 2
  | ShowVersion => ServeExit 0
  | BadVlan _ => ServeExit 2
  | StartWith c =>
      match Configure fuel (c_auth_timeout c) (c_data_timeout c) with
      | None => ServeHung
      | Some sch =>
          match New rand_priv (c_host_key c) (c_authorized_keys c) fs with
          | (inl _, _) => ServeExit 1
          | (inr srv, _) =>
              let p := run_sys sch fuel encode_ifaces encode_neighbors
                         (mkConfig (c_interface c) (c_vlan c)) steps (boot srv) in
              match Serve listen_ok (accepts steps) with
              | ServeListenError => ServeExit 1
              | ServeNil _ => if pr_panicked p then ServePanic else ServeExit 0
              | ServeRunning _ => if pr_panicked p then ServePanic else ServeUp p
              end
          end
      end
  end.

(** ** mactelnet *)

Definition cli_flags : FlagSet :=
  flags [("u", FString []); ("i", FString []); ("p", FString []); ("vlan", FUint 0)]%string.

Inductive cli_message :=
| MFlag (e : flag_error) | MUsage | MVlan | MPassword | MOpen (e : open_error)
| MClosed                        (* Connection closed. *)
| MPump (e : pump_error) | MTimeout | MSearching | MDiscover (e : mndp_net_error) | MEncode
| MUnknown (name : bytes)        (* unknown subcommand %q *)
| MText (text : bytes).

Inductive cli_result :=
| CliExit (code : Z) (msgs : list cli_message) (session : option (open_call * session_result))
| CliBlocked
| CliPanic (call : option open_call).   (* the call of [Open] in progress *)

(** [getTermSize]: the ioctl's answer, columns and rows. *)
Definition getTermSize (ws : option (Z * Z)) : Z * Z := default (0, 0) ws.

Definition runMactelnet (sch : schedules) (fuel : nat) (env : session_env) (ws : option (Z * Z))
    (args : list bytes) : cli_result :=
  match Parse cli_flags args with
  | Panic => CliPanic None
  | Fail e => CliExit 2 [MFlag e] None
  | Val (fs, rest) =>
      let user := get_string fs "u" in
      let iface := get_string fs "i" in
      let vlanID := get_uint fs "vlan" in
      if decide (user = [] \/ iface = [] \/ length rest <> 1%nat) then CliExit 2 [MUsage] None
      else if decide (4094 < vlanID) then CliExit 2 [MVlan] None
      else
        let mac := nth 0 rest [] in
        let password := get_string fs "p" in
        let password := if decide (password = []) then getenv (lit "MACTELNET_PASSWORD") else password in
        if decide (password = []) then CliExit 2 [MPassword] None
        else
          let '(cols, rows) := getTermSize ws in
          let c := mkCall iface mac user password cols rows (u16 vlanID) in
          match run_session sch fuel env c with
          | SessPanic => CliPanic (Some c)
          | SessBlocked => CliBlocked
          | SessFailed e rm => CliExit 1 [MOpen e] (Some (c, SessFailed e rm))
          | SessEnded e rm sizes =>
              let '(code, msgs) :=
                match e with
                | EndCtx => (0, [])
                | EndPump (Some e) => if quiet e then (0, [MClosed]) else (1, [MPump e])
                | EndPump None => (0, [MClosed])
                end in
              CliExit code msgs (Some (c, SessEnded e rm sizes))
          end
  end.
End Env.

(** ** mndp *)

Definition cli_mndp_flags : FlagSet :=
  flags [("t", FInt 5); ("i", FString []); ("j", FBool false)]%string.

(** The heading is bold: ESC[1m ... ESC[m. *)
Definition printTable (l : list Neighbor) : bytes :=
  [10; 27] ++ lit "[1m" ++ mndp_heading ++ [27] ++ lit "[m" ++ [10] ++ print_lines (mndp_line <$> l).

Definition runMndp (encode_neighbors : list Neighbor -> option bytes) (env : disc_env)
    (args : list bytes) : outcome mndp_net_error (option (Z * bytes * list cli_message)) :=
  match Parse cli_mndp_flags args with
  | Panic => Panic
  | Fail e => Val (Some (2, [], [MFlag e]))
  | Val (fs, _) =>
      let timeout := get_int fs "t" in
      let asJSON := get_bool fs "j" in
      if decide (timeout <= 0) then Val (Some (2, [], [MTimeout]))
      else
        let m := if asJSON then [] else [MSearching] in
        found ← Discover env (get_string fs "i") (i64 (timeout * Second));
        Val (match found with
             | None => None
             | Some r =>
                 match r_err r with
                 | Some e => Some (1, [], m ++ [MDiscover e])
                 | None =>
                     if asJSON then
                       match encode_neighbors (r_neighbors r) with
                       | Some text => Some (0, text, m)
                       | None => Some (1, [], m ++ [MEncode])
                       end
                     else Some (0, printTable (r_neighbors r), m)
                 end
             end)
  end.

(** ** main *)

(** The subcommand [main] runs, with its arguments. *)
Inductive subcommand :=
| SubServe (args : list bytes)
| SubMactelnet (args : list bytes)
| SubMndp (args : list bytes)
| SubVersion
| SubHelp
| SubUnknown (name : bytes).

Definition subcommand_of (args : list bytes) : subcommand :=
  let '(sub, args) :=
    match args with
    | a :: rest => if HasPrefix a (lit "-") then ([], args) else (a, rest)
    | [] => ([], [])
    end in
  if one_of sub [""; "serve"]%string then SubServe args
  else if one_of sub ["mactelnet"%string] then SubMactelnet args
  else if one_of sub ["mndp"%string] then SubMndp args
  else if one_of sub ["version"%string] then SubVersion
  else if one_of sub ["help"; "-h"; "--help"]%string then SubHelp
  else SubUnknown sub.

(** The usage text of [-h] and [--help] cannot be reached: an argument that
    starts with a dash belongs to [serve]. *)
Lemma main_dash a args : HasPrefix a (lit "-") = true -> subcommand_of (a :: args) = SubServe (a :: args).
Proof. intros Ha. unfold subcommand_of. by rewrite Ha. Qed.

Definition version : bytes := lit "dev".

Definition printRootUsage : bytes :=
  print_lines
    [lit "usage: mactelnet-proxy [serve|mactelnet|mndp|version|help] [flags]"; [];
     lit "  serve      run the embedded SSH server (default)";
     lit "  mactelnet  open one MAC-Telnet session and pipe stdio";
     lit "  mndp       run MNDP discovery and print neighbors";
     lit "  version    print version and exit"; [];
     lit "Run `mactelnet-proxy <subcommand> -h` for subcommand-specific flags."].

(** What a run of the program meets. *)
Record main_env `{SshConn} := mkMainEnv {
  m_getenv : bytes -> bytes;
  m_rand_priv : option PrivateKey;
  m_fs : fsys;
  m_listen_ok : bool;
  m_steps : list sys_step;           (* of the server *)
  m_session : session_env;           (* of [mactelnet] *)
  m_winsize : option (Z * Z);
  m_disc : disc_env;                 (* of [mndp] *)
}.

(** How it ends: with an exit code, the standard output of [main] and
    [runMndp], the messages on standard error, and the session [mactelnet]
    had. *)
Inductive main_result `{SshKeys} :=
| MainExit (code : Z) (out : bytes) (msgs : list cli_message) (session : option (open_call * session_result))
| MainServing (p : process)
| MainBlocked
| MainHung
| MainPanic.

Definition main `{SshWire, SshConn} (fuel : nat)
    (encode_ifaces : list ifaceInfo -> option bytes) (encode_neighbors : list Neighbor -> option bytes)
    (env : main_env) (args : list bytes) : main_result :=
  match subcommand_of args with
  | SubServe args =>
      match runServe (m_getenv env) fuel encode_ifaces encode_neighbors (m_rand_priv env) (m_fs env)
              (m_listen_ok env) (m_steps env) args with
      | ServeExit code => MainExit code [] [] None
      | ServeUp p => MainServing p
      | ServeHung => MainHung
      | ServePanic => MainPanic
      end
  | SubMactelnet args =>
      match default_schedules with
      | None => MainHung
      | Some sch =>
          match runMactelnet (m_getenv env) sch fuel (m_session env) (m_winsize env) args with
          | CliExit code msgs session => MainExit code [] msgs session
          | CliBlocked => MainBlocked
          | CliPanic _ => MainPanic
          end
      end
  | SubMndp args =>
      match runMndp encode_neighbors (m_disc env) args with
      | Val (Some (code, out, msgs)) => MainExit code out msgs None
      | Val None => MainBlocked
      | _ => MainPanic
      end
  | SubVersion => MainExit 0 (lit "mactelnet-proxy " ++ version ++ [10]) [] None
  | SubHelp => MainExit 0 printRootUsage [] None
  | SubUnknown name =>
      MainExit 2 [] [MUnknown name; MText printRootUsage] None
  end.

(** ** Options on a command line *)

(** [-name value] for each option. *)
Definition option_args (opts : list (bytes * bytes)) : list bytes :=
  mjoin ((fun o => [45 :: o.1; o.2]) <$> opts).

(** The last value given to an option, if any. *)
Definition given (opts : list (bytes * bytes)) (name : string) : option bytes :=
  snd <$> last (filter (fun o => o.1 = lit name) opts).

Definition put_option (fs : FlagSet) (o : bytes * bytes) : FlagSet :=
  match flag_get fs o.1 with
  | Some old => match flag_set old o.2 with Some w => flag_put fs o.1 w | None => fs end
  | None => fs
  end.

(** An option that takes a value, and a value it takes. *)
Definition accepted (fs : FlagSet) (o : bytes * bytes) : Prop :=
  plain_name o.1 = true
  /\ match flag_get fs o.1 with
     | Some old => is_bool_flag old = false /\ flag_set old o.2 <> None
     | None => False
     end.

Lemma flag_get_put_eq fs name w old : flag_get fs name = Some old -> flag_get (flag_put fs name w) name = Some w.
Proof.
  induction fs as [|[n v] fs IH]; [done|]. cbn. case_decide; cbn; [by rewrite decide_True|].
  by rewrite decide_False.
Qed.
Lemma flag_get_put_ne fs name w m : m <> name -> flag_get (flag_put fs name w) m = flag_get fs m.
Proof.
  intros Hne. induction fs as [|[n v] fs IH]; [done|]. cbn. case_decide; cbn; [|by rewrite IH].
  subst. by rewrite !decide_False by congruence.
Qed.

(** Setting a flag keeps its type. *)
Lemma flag_set_kind old v w : flag_set old v = Some w ->
  is_bool_flag w = is_bool_flag old /\ forall s, flag_set w s = flag_set old s.
Proof.
  destruct old as [s|n|n|b|d]; cbn [flag_set]; [by intros [= <-]|..];
    intros H; apply fmap_Some_1 in H as (x & _ & ->); done.
Qed.

Lemma put_option_get fs o name :
  flag_get (put_option fs o) name
  = match flag_get fs name with
    | Some old => if decide (o.1 = name) then Some (default old (flag_set old o.2)) else Some old
    | None => None
    end.
Proof.
  unfold put_option. destruct (decide (o.1 = name)) as [<-|Hne].
  - destruct (flag_get fs o.1) as [old|] eqn:Hg; [|done].
    destruct (flag_set old o.2); [by eapply flag_get_put_eq|done].
  - destruct (flag_get fs o.1); [|by destruct (flag_get fs name)].
    case_match; [rewrite flag_get_put_ne by done|]; by destruct (flag_get fs name).
Qed.

Lemma accepted_put fs o o' : accepted fs o' -> accepted (put_option fs o) o'.
Proof.
  intros [Hn Ha]. split; [done|]. rewrite put_option_get.
  destruct (flag_get fs o'.1) as [old|]; [|done]. case_decide; [|done].
  destruct (flag_set old o.2) as [w|] eqn:Hs; [|done]. cbn.
  by destruct (flag_set_kind _ _ _ Hs) as [-> ->].
Qed.

(** The parser stores the options one after the other... *)
Lemma Parse_options opts : forall fs, Forall (accepted fs) opts ->
  Parse fs (option_args opts) = Val (foldl put_option fs opts, []).
Proof.
  induction opts as [|[n v] opts IH]; intros fs Ha; [done|]. inversion Ha as [|? ? [Hn Ho] Hr]; subst.
  cbn in Hn, Ho. destruct (flag_get fs n) as [old|] eqn:Hg; [|done]. destruct Ho as [Hb Hs].
  destruct (flag_set old v) as [w|] eqn:Hw; [|done].
  change (option_args ((n, v) :: opts)) with ((45 :: n) :: v :: option_args opts).
  rewrite (Parse_value fs n v _ old w) by done. cbn [foldl].
  assert (flag_put fs n w = put_option fs (n, v)) as -> by (unfold put_option; cbn; by rewrite Hg, Hw).
  apply IH. eapply Forall_impl; [exact Hr|]. intros o. apply accepted_put.
Qed.

Definition last_set (old : flag_value) (opts : list (bytes * bytes)) (name : string) (w : flag_value) : Prop :=
  match given opts name with Some v => flag_set old v = Some w | None => w = old end.

(** ...so that the last one counts. *)
Lemma foldl_put_get fs name old opts : Forall (accepted fs) opts ->
  flag_get fs (lit name) = Some old ->
  exists w, flag_get (foldl put_option fs opts) (lit name) = Some w /\ last_set old opts name w.
Proof.
  intros Ha Hg. induction opts as [|o opts IH] using rev_ind; [by exists old|].
  apply Forall_app in Ha as [Ha Ho]. destruct (IH Ha) as (w & Hw & Hl).
  apply Forall_singleton in Ho as [_ Ho]. rewrite foldl_snoc, put_option_get, Hw.
  unfold last_set, given in *. rewrite filter_app, filter_cons, filter_nil.
  destruct (decide (o.1 = lit name)) as [He|He]; [|rewrite app_nil_r; by exists w].
  rewrite last_snoc. cbn [fmap option_fmap option_map]. rewrite He, Hg in Ho. destruct Ho as [_ Ho].
  destruct (flag_set old o.2) as [x|] eqn:Hx; [|done]. exists x. split; [|done].
  assert (forall s, flag_set w s = flag_set old s) as ->; [|by rewrite Hx].
  destruct (last _); cbn in Hl; [|by subst]. by apply flag_set_kind in Hl as [_ ?].
Qed.

(** ** How a run of the program ends *)

Lemma cli_flags_uint m k : flag_get cli_flags m = Some (FUint k) -> 0 <= k.
Proof.
  unfold cli_flags, flags. cbn [fmap list_fmap fst snd flag_get].
  repeat (case_decide; [by intros [=]; lia|]). done.
Qed.

(** [runMactelnet]: 2 without a session, otherwise as the session ended. *)
Lemma runMactelnet_ok getenv sch fuel env ws args : session_env_ok env ->
  (forall c r, ws = Some (c, r) -> is_u16 c /\ is_u16 r) ->
  match runMactelnet getenv sch fuel env ws args with
  | CliExit code _ None => code = 2
  | CliExit code _ (Some (c, s)) => call_ok fuel env code c s /\ o_password c <> []
  | CliBlocked => True
  | CliPanic (Some c) => session_panics fuel env c
  | CliPanic None => False
  end.
Proof.
  intros Henv Hws. unfold runMactelnet.
  destruct (Parse cli_flags args) as [[fs rest]|e|] eqn:Hp; [|done|by destruct (Parse_no_panic _ _ Hp)].
  cbv zeta. case_decide as Hreq; [done|]. case_decide as Hvl; [done|]. case_decide as Hpw; [done|].
  pose proof (Parse_get_uint _ _ _ _ "vlan" Hp cli_flags_uint) as Hv0.
  assert (is_u16 (getTermSize ws).1 /\ is_u16 (getTermSize ws).2) as [Hc Hr].
  { unfold getTermSize. destruct ws as [[c r]|]; [by apply Hws|]. cbn. unfold is_u16. lia. }
  destruct (getTermSize ws) as [cols rows]. cbn [fst snd] in Hc, Hr.
  set (c := mkCall _ _ _ _ _ _ _). pose proof (run_session_result sch fuel env c Henv) as Hres.
  assert (forall code s, session_ok fuel env c s ->
    match s with SessFailed _ _ => code = 1 | SessEnded _ _ _ => code = 0 \/ code = 1 | _ => False end ->
    call_ok fuel env code c s /\ o_password c <> []) as Hcall.
  { intros code s' Hs Hcode. split; [|done]. unfold call_ok. subst c. cbn [o_user o_iface o_vlan o_cols o_rows].
    rewrite (u16_id (get_uint fs "vlan")) by (unfold is_u16; lia).
    split_and!; try done; try lia; tauto. }
  destruct (run_session sch fuel env c) as [e rm|e rm sizes| |]; [by apply Hcall| |done|done].
  destruct e as [|[e|]]; [|destruct (quiet e)|]; (apply Hcall; [exact Hres|]); auto.
Qed.

Lemma runMndp_ok encode_neighbors env args :
  (forall name, no_panic (resolveBroadcast (e_interfaces env) name)) ->
  Forall turn_bytes_ok (e_turns env) ->
  exists r, runMndp encode_neighbors env args = Val r
    /\ match r with Some (code, _, _) => code ∈ [0; 1; 2] | None => True end.
Proof.
  intros Hb Ht. unfold runMndp.
  destruct (Parse cli_mndp_flags args) as [[fs rest]|e|] eqn:Hp; [| |by destruct (Parse_no_panic _ _ Hp)].
  2: { eexists. split; [done|]. code_tac. }
  cbv zeta. case_decide; [eexists; split; [done|]; code_tac|].
  destruct (Discover_val env (get_string fs "i") (i64 (get_int fs "t" * Second)) (Hb _) Ht) as (r & ->).
  rewrite bind_val. eexists. split; [done|]. destruct r as [r|]; [|done].
  destruct (r_err r); [code_tac|]. destruct (get_bool fs "j"); [|code_tac].
  destruct (encode_neighbors _); code_tac.
Qed.

Lemma serve_options_vlan getenv args c :
  serve_options getenv args = StartWith c -> is_u16 (c_vlan c).
Proof.
  unfold serve_options. destruct (Parse _ args) as [[fs rest]|e|]; [|done..].
  destruct (get_bool fs "version"); [done|]. cbv zeta. case_decide; [done|]. intros [= <-]. apply u16_range.
Qed.

Section Main.
Context `{SshWire, SshConn}.

(** What the theorems ask of the outside: typed data, and interfaces whose
    masks are as long as their addresses. *)
Definition main_env_ok (env : main_env) : Prop :=
  session_env_ok (m_session env)
  /\ (forall c r, m_winsize env = Some (c, r) -> is_u16 c /\ is_u16 r)
  /\ (forall name, no_panic (resolveBroadcast (e_interfaces (m_disc env)) name))
  /\ Forall turn_bytes_ok (e_turns (m_disc env))
  /\ (forall i j e, CommandReturns i j e ∈ m_steps env -> env_ok e).

(** The server that a run's options and files describe. *)
Definition serves (fuel : nat) (encode_ifaces : list ifaceInfo -> option bytes)
    (encode_neighbors : list Neighbor -> option bytes) (env : main_env) (args : list bytes)
    (P : serve_config -> schedules -> process -> Prop) : Prop :=
  exists c sch srv, serve_options (m_getenv env) args = StartWith c
    /\ Configure fuel (c_auth_timeout c) (c_data_timeout c) = Some sch
    /\ (New (m_rand_priv env) (c_host_key c) (c_authorized_keys c) (m_fs env)).1 = inr srv
    /\ P c sch (run_sys sch fuel encode_ifaces encode_neighbors (mkConfig (c_interface c) (c_vlan c))
                  (m_steps env) (boot srv)).

(** A command of the server panics in its call of [Open]. *)
Definition serve_panics (fuel : nat) (encode_ifaces : list ifaceInfo -> option bytes)
    (encode_neighbors : list Neighbor -> option bytes) (env : main_env) (args : list bytes) : Prop :=
  serves fuel encode_ifaces encode_neighbors env args (fun c sch p =>
    command_panics sch fuel encode_ifaces encode_neighbors (mkConfig (c_interface c) (c_vlan c)) (m_steps env) p).

Lemma runServe_ok fuel encode_ifaces encode_neighbors env args : main_env_ok env ->
  match runServe (m_getenv env) fuel encode_ifaces encode_neighbors (m_rand_priv env) (m_fs env)
          (m_listen_ok env) (m_steps env) args with
  | ServeExit code => code ∈ [0; 1; 2]
  | ServeUp p => serves fuel encode_ifaces encode_neighbors env args (fun _ _ q => p = q)
  | ServeHung => True
  | ServePanic => serve_panics fuel encode_ifaces encode_neighbors env args
  end.
Proof.
  intros (_ & _ & _ & _ & Henv). unfold runServe.
  destruct (serve_options (m_getenv env) args) as [e| |n|c|] eqn:Ho; [code_tac..| |].
  2: { unfold serve_options in Ho. destruct (Parse _ args) as [[fs rest]|e|] eqn:Hp; [|done|].
       - destruct (get_bool fs "version"); [done|]. cbv zeta in Ho. by case_decide.
       - by destruct (Parse_no_panic _ _ Hp). }
  destruct (Configure fuel _ _) as [sch|] eqn:Hc; [|done].
  destruct (New _ _ _ _) as [[e|srv] fs'] eqn:Hn; [code_tac|]. cbv zeta.
  pose proof (run_sys_panics sch fuel encode_ifaces encode_neighbors (mkConfig (c_interface c) (c_vlan c))
    srv (m_steps env) (serve_options_vlan _ _ _ Ho) Henv) as Hp.
  set (p := run_sys sch fuel encode_ifaces encode_neighbors (mkConfig (c_interface c) (c_vlan c))
    (m_steps env) (boot srv)) in *.
  assert (forall P : serve_config -> schedules -> process -> Prop, P c sch p ->
    serves fuel encode_ifaces encode_neighbors env args P) as Hserves.
  { intros P HP. exists c, sch, srv. by rewrite Hn. }
  destruct (Serve _ _); [code_tac|..]; (destruct (pr_panicked p) eqn:Hb; [by apply Hserves, Hp|]); [code_tac|].
  by apply Hserves.
Qed.

(** C18. The program on any command line and in any environment. It exits
    with 0, 1 or 2; a [mactelnet] session is opened only with a user, an
    interface, a password, and a VLAN of at most 4094, and when the program
    exits that session has ended, what is left of it settling with every
    descriptor as it was, and 1 is the code if it could not be opened; the
    server it runs is the one its options, environment and key files
    describe; and whatever subcommand runs, it panics only where a call of
    [Open] does, that of [mactelnet] or one made by a command a channel of
    the server launched: making the key pair, or answering a challenge the
    call's device sent. *)
Theorem main_outcome fuel encode_ifaces encode_neighbors env args : main_env_ok env ->
  match main fuel encode_ifaces encode_neighbors env args with
  | MainExit code _ _ session => code ∈ [0; 1; 2]
      /\ match session with
         | None => True
         | Some (c, s) => call_ok fuel (m_session env) code c s /\ o_password c <> []
         end
  | MainServing p => exists args', subcommand_of args = SubServe args'
      /\ serves fuel encode_ifaces encode_neighbors env args' (fun _ _ q => p = q)
  | MainPanic =>
      (exists args' sch call, subcommand_of args = SubMactelnet args' /\ default_schedules = Some sch
        /\ runMactelnet (m_getenv env) sch fuel (m_session env) (m_winsize env) args' = CliPanic (Some call)
        /\ session_panics fuel (m_session env) call)
      \/ exists args', subcommand_of args = SubServe args'
           /\ serve_panics fuel encode_ifaces encode_neighbors env args'
  | MainBlocked => exists args', subcommand_of args = SubMactelnet args' \/ subcommand_of args = SubMndp args'
  | MainHung => exists args', subcommand_of args = SubServe args'
  end.
Proof.
  intros Henv. unfold main. destruct (subcommand_of args) as [args'|args'|args'| | |name] eqn:Hsub.
  - pose proof (runServe_ok fuel encode_ifaces encode_neighbors env args' Henv) as Hr.
    destruct (runServe _ _ _ _ _ _ _ _ _) as [code|p| |]; [done|by exists args'|by exists args'|].
    right. by exists args'.
  - destruct default_schedules as [sch|] eqn:Hd; [|vm_compute in Hd; discriminate Hd].
    destruct Henv as (Hs & Hws & _).
    pose proof (runMactelnet_ok (m_getenv env) sch fuel (m_session env) (m_winsize env) args' Hs Hws) as Hr.
    destruct (runMactelnet _ _ _ _ _ _) as [code msgs [[c s]|]| |[call|]] eqn:Hrun; [..|done].
    + split; [|done]. destruct Hr as [(_ & _ & _ & _ & _ & _ & Hcode) _]. destruct s; try done; [|];
        first [subst; code_tac | destruct Hcode; subst; code_tac].
    + subst. split; [code_tac|done].
    + exists args'. by left.
    + left. by exists args', sch, call.
  - destruct Henv as (_ & _ & Hb & Ht & _).
    destruct (runMndp_ok encode_neighbors (m_disc env) args' Hb Ht) as ([[[code out] msgs]|] & -> & Hr); [done|].
    exists args'. by right.
  - split; [code_tac|done].
  - split; [code_tac|done].
  - split; [code_tac|done].
Qed.
End Main.

(** ** Properties *)

Section Precedence.
Context (getenv : bytes -> bytes) (opts : list (bytes * bytes)).

(** A setting's value: the last option, else the environment variable if it
    is not empty, else the default. *)
Definition setting (name var : string) (dflt : bytes) : bytes :=
  match given opts name with
  | Some v => v
  | None => if decide (getenv (lit var) = []) then dflt else getenv (lit var)
  end.

(** A setting with a parsed value: a variable that does not parse (nor is
    empty) counts as unset. *)
Definition parsed_setting (parse_option parse_env : bytes -> option Z)
    (name var : string) (dflt : Z) : Z :=
  match given opts name with
  | Some v => default 0 (parse_option v)
  | None => default dflt (parse_env (getenv (lit var)))
  end.

Definition expected_start : serve_start :=
  let keysDir := setting "keys-dir" "MACTELNET_PROXY_KEYS_DIR" (lit "/etc/mactelnet-proxy") in
  let in_keysDir (file : string) p := if decide (p = []) then path_join [keysDir; lit file] else p in
  let vlan := parsed_setting (fun s => ParseUint s 0 64) (fun s => ParseUint s 10 32)
                "vlan" "MACTELNET_PROXY_VLAN" 0 in
  if decide (4094 < vlan) then BadVlan vlan
  else StartWith (mkServe
    (setting "listen" "MACTELNET_PROXY_LISTEN" (lit "0.0.0.0:22"))
    (in_keysDir "mactel_ed25519_key"%string (setting "host-key" "MACTELNET_PROXY_HOST_KEY" []))
    (in_keysDir "authorized_keys"%string (setting "authorized-keys" "MACTELNET_PROXY_AUTHORIZED_KEYS" []))
    (setting "interface" "MACTELNET_PROXY_INTERFACE" [])
    vlan
    (parsed_setting ParseDuration ParseDuration "auth-timeout" "MACTELNET_PROXY_AUTH_TIMEOUT" (10 * 10 ^ 9))
    (parsed_setting ParseDuration ParseDuration "data-timeout" "MACTELNET_PROXY_DATA_TIMEOUT" 0)
    (negb (one_of (to_lower <$> getenv (lit "MACTELNET_PROXY_DEBUG"))
             ["0"; "false"; "no"; "off"; ""]%string))).

(** The values a flag ends up with, for each kind of flag. *)
Lemma serve_string name var dflt :
  Forall (accepted (serve_flags getenv)) opts ->
  flag_get (serve_flags getenv) (lit name) = Some (FString (envOr getenv (lit var) dflt)) ->
  get_string (foldl put_option (serve_flags getenv) opts) name = setting name var dflt.
Proof.
  intros Ha Hg. destruct (foldl_put_get _ name _ opts Ha Hg) as (w & Hw & Hl).
  unfold get_string. fold (lit name). rewrite Hw. unfold last_set, setting in *.
  destruct (given opts name); [by injection Hl as <-|]. subst w. unfold envOr.
  by repeat case_decide.
Qed.

Lemma serve_uint name parse_env var dflt d :
  Forall (accepted (serve_flags getenv)) opts ->
  flag_get (serve_flags getenv) (lit name) = Some (FUint d) ->
  d = default dflt (parse_env (getenv (lit var))) ->
  get_uint (foldl put_option (serve_flags getenv) opts) name
  = parsed_setting (fun s => ParseUint s 0 64) parse_env name var dflt.
Proof.
  intros Ha Hg Hd. destruct (foldl_put_get _ name _ opts Ha Hg) as (w & Hw & Hl).
  unfold get_uint. fold (lit name). rewrite Hw. unfold last_set, parsed_setting in *.
  destruct (given opts name) as [v|]; [|by subst w].
  cbn [flag_set] in Hl. apply fmap_Some_1 in Hl as (x & -> & ->). done.
Qed.

Lemma serve_duration name parse_env var dflt d :
  Forall (accepted (serve_flags getenv)) opts ->
  flag_get (serve_flags getenv) (lit name) = Some (FDuration d) ->
  d = default dflt (parse_env (getenv (lit var))) ->
  get_duration (foldl put_option (serve_flags getenv) opts) name
  = parsed_setting ParseDuration parse_env name var dflt.
Proof.
  intros Ha Hg Hd. destruct (foldl_put_get _ name _ opts Ha Hg) as (w & Hw & Hl).
  unfold get_duration. fold (lit name). rewrite Hw. unfold last_set, parsed_setting in *.
  destruct (given opts name) as [v|]; [|by subst w].
  cbn [flag_set] in Hl. apply fmap_Some_1 in Hl as (x & -> & ->). done.
Qed.

(** Options that take a separate value never touch a boolean flag. *)
Lemma accepted_bool fs name b : Forall (accepted fs) opts ->
  flag_get fs (lit name) = Some (FBool b) -> get_bool (foldl put_option fs opts) name = b.
Proof.
  intros Ha Hg. destruct (foldl_put_get _ name _ opts Ha Hg) as (w & Hw & Hl).
  unfold get_bool. fold (lit name). rewrite Hw. unfold last_set, given in Hl.
  destruct (last _) as [o|] eqn:Hlast; cbn in Hl; [|by subst].
  apply last_Some_elem_of, list_elem_of_filter in Hlast as [Hn Hin].
  rewrite Forall_forall in Ha. destruct (Ha _ Hin) as [_ Ho]. rewrite Hn, Hg in Ho. by destruct Ho.
Qed.

Lemma envDurationOr_default name dflt :
  (envDurationOr getenv name dflt).1 = default dflt (ParseDuration (getenv name)).
Proof. unfold envDurationOr. case_decide as Hn; [by rewrite Hn|]. by destruct (ParseDuration _). Qed.
Lemma envUintOr_default name dflt :
  (envUintOr getenv name dflt).1 = default dflt (ParseUint (getenv name) 10 32).
Proof. unfold envUintOr. case_decide as Hn; [by rewrite Hn|]. by destruct (ParseUint _ _ _). Qed.
Lemma envBoolOr_false name :
  envBoolOr getenv name false
  = negb (one_of (to_lower <$> getenv name) ["0"; "false"; "no"; "off"; ""]%string).
Proof.
  unfold envBoolOr. case_decide as Hn; [by rewrite Hn|]. destruct (getenv name) as [|c r]; [done|].
  reflexivity.
Qed.

Lemma parsed_vlan_range :
  0 <= parsed_setting (fun s => ParseUint s 0 64) (fun s => ParseUint s 10 32)
         "vlan" "MACTELNET_PROXY_VLAN" 0.
Proof.
  unfold parsed_setting. destruct (given opts "vlan") as [v|].
  - destruct (ParseUint v 0 64) eqn:Hp; [|done]. apply ParseUint_range in Hp; [cbn; lia|by left|lia].
  - destruct (ParseUint _ 10 32) eqn:Hp; [|done]. apply ParseUint_range in Hp; [cbn; lia|by right|lia].
Qed.
End Precedence.

(** A number of seconds beyond the range of a duration passes the guard of
    [-t] and wraps: the listening window is over before it begins. *)
Example huge_timeout_hears_nothing :
  runMndp (fun _ => None) sample_env [lit "-t"; lit "9223372037"] = Val (Some (0, printTable [], [MSearching]))
  /\ runMndp (fun _ => None) sample_env [lit "-t"; lit "5"] <> Val (Some (0, printTable [], [MSearching])).
Proof. split; [vm_compute; reflexivity|vm_compute; discriminate]. Qed.

(** C36. Where the server's settings come from. For any environment and any
    options [-name value] with acceptable values, in any order and number:
    each setting is the last option given for it, else its environment
    variable if that is not empty (and, for VLAN and timeouts, parses), else
    the documented default; the host key and the authorized keys fall back
    to their file in the keys directory; a VLAN above 4094 is the one thing
    that refuses to start. *)
Theorem runServe_precedence getenv opts :
  Forall (accepted (serve_flags getenv)) opts ->
  serve_options getenv (option_args opts) = expected_start getenv opts.
Proof.
  intros Ha. unfold serve_options. rewrite Parse_options by done.
  rewrite (accepted_bool opts _ "version" false), (accepted_bool opts _ "debug" _ Ha eq_refl) by done.
  rewrite (serve_string getenv opts "keys-dir" "MACTELNET_PROXY_KEYS_DIR" defaultKeysDir),
    (serve_string getenv opts "listen" "MACTELNET_PROXY_LISTEN" (lit "0.0.0.0:22")),
    (serve_string getenv opts "host-key" "MACTELNET_PROXY_HOST_KEY" []),
    (serve_string getenv opts "authorized-keys" "MACTELNET_PROXY_AUTHORIZED_KEYS" []),
    (serve_string getenv opts "interface" "MACTELNET_PROXY_INTERFACE" []) by done.
  rewrite (serve_uint getenv opts "vlan" (fun s => ParseUint s 10 32) "MACTELNET_PROXY_VLAN" 0 _ Ha eq_refl)
    by apply envUintOr_default.
  rewrite (serve_duration getenv opts "auth-timeout" ParseDuration "MACTELNET_PROXY_AUTH_TIMEOUT"
             (10 * 10 ^ 9) _ Ha eq_refl), (serve_duration getenv opts "data-timeout" ParseDuration
             "MACTELNET_PROXY_DATA_TIMEOUT" 0 _ Ha eq_refl) by apply envDurationOr_default.
  pose proof (parsed_vlan_range getenv opts) as Hv. unfold expected_start. cbv zeta. rewrite envBoolOr_false.
  case_decide; [done|]. by rewrite u16_id by (unfold is_u16; lia).
Qed.

(** An environment that sets a VLAN, a malformed timeout and a listening
    address, which the command line overrides. *)
Definition sample_getenv (name : bytes) : bytes :=
  if decide (name = lit "MACTELNET_PROXY_VLAN") then lit "10"
  else if decide (name = lit "MACTELNET_PROXY_AUTH_TIMEOUT") then lit "ten seconds"
  else if decide (name = lit "MACTELNET_PROXY_LISTEN") then lit "0.0.0.0:2222"
  else [].
Definition sample_options : list (bytes * bytes) :=
  [(lit "listen", lit "[::]:22"); (lit "data-timeout", lit "2s"); (lit "keys-dir", lit "/data");
   (lit "listen", lit "10.0.0.1:22")].

Example sample_start : expected_start sample_getenv sample_options
  = StartWith (mkServe (lit "10.0.0.1:22") (lit "/data/mactel_ed25519_key") (lit "/data/authorized_keys")
      [] 10 10000000000 2000000000 false).
Proof. vm_compute. reflexivity. Qed.

Lemma runServe_precedence_witness :
  serve_options sample_getenv (option_args sample_options) = expected_start sample_getenv sample_options.
Proof.
  apply (runServe_precedence sample_getenv sample_options).
  repeat (apply List.Forall_cons; [split; [reflexivity|vm_compute; split; [reflexivity|discriminate]]|]).
  constructor.
Defined.

(** A server's run, and the other two subcommands' surroundings. *)
#[local] Existing Instances System.plain_keys System.plain_wire System.plain_conn.

Definition sample_main_env : main_env := {|
  m_getenv := sample_getenv; m_rand_priv := Some (lit "host");
  m_fs := mkFS {[ lit "/etc/mactelnet-proxy/authorized_keys" := mkFile mode_0600 (lit "ssh-a" ++ [10]) ]}
            (fun _ => None) (fun _ => None) (fun _ => None);
  m_listen_ok := true; m_steps := sample_steps;
  m_session := mkSessionEnv sample_system refused [] []; m_winsize := Some (80, 24);
  m_disc := sample_env;
|}.

Lemma sample_main_env_ok : main_env_ok sample_main_env.
Proof.
  split; [split; [exact sample_system_ok|split; [exact refused_typed|constructor]]|]. split; [by intros c r [= <- <-]|].
  split; [intros name; apply refused_env_ok|]. split; [exact sample_turns_ok|].
  intros i j env. exact (sample_steps_ok i j env).
Qed.

(** The server comes up with the environment's VLAN, and has let the owner
    of the key in. *)
Example sample_main_serves :
  match main 20 (fun _ => None) (fun _ => None) sample_main_env [lit "serve"; lit "-interface"; lit "e"] with
  | MainServing p => length (pr_conns p) = 1%nat
  | _ => False
  end.
Proof. vm_compute. reflexivity. Qed.

(** The session's first datagram is refused: code 1, nothing left open. *)
Example sample_main_mactelnet :
  match main 20 (fun _ => None) (fun _ => None) sample_main_env
          [lit "mactelnet"; lit "-u"; lit "admin"; lit "-p"; lit "x"; lit "-i"; lit "e"; lit "02:00:00:00:00:02"] with
  | MainExit code _ _ (Some (_, SessFailed _ rm)) =>
      (code, bool_decide (k_open (descriptors rm) = {[0; 1; 2]}%nat)) = (1, true)
  | _ => False
  end.
Proof. vm_compute. reflexivity. Qed.

Lemma main_outcome_witness :
  match main 20 (fun _ => None) (fun _ => None) sample_main_env [lit "serve"; lit "-interface"; lit "e"] with
  | MainExit code _ _ session => code ∈ [0; 1; 2]
      /\ match session with
         | None => True
         | Some (c, s) => call_ok 20 (m_session sample_main_env) code c s /\ o_password c <> []
         end
  | MainServing p => exists args', subcommand_of [lit "serve"; lit "-interface"; lit "e"] = SubServe args'
      /\ serves 20 (fun _ => None) (fun _ => None) sample_main_env args' (fun _ _ q => p = q)
  | MainPanic =>
      (exists args' sch call, subcommand_of [lit "serve"; lit "-interface"; lit "e"] = SubMactelnet args'
        /\ default_schedules = Some sch
        /\ runMactelnet (m_getenv sample_main_env) sch 20 (m_session sample_main_env)
             (m_winsize sample_main_env) args' = CliPanic (Some call)
        /\ session_panics 20 (m_session sample_main_env) call)
      \/ exists args', subcommand_of [lit "serve"; lit "-interface"; lit "e"] = SubServe args'
           /\ serve_panics 20 (fun _ => None) (fun _ => None) sample_main_env args'
  | MainBlocked => exists args', subcommand_of [lit "serve"; lit "-interface"; lit "e"] = SubMactelnet args'
                     \/ subcommand_of [lit "serve"; lit "-interface"; lit "e"] = SubMndp args'
  | MainHung => exists args', subcommand_of [lit "serve"; lit "-interface"; lit "e"] = SubServe args'
  end.
Proof.
  apply (main_outcome 20 (fun _ => None) (fun _ => None) sample_main_env [lit "serve"; lit "-interface"; lit "e"]).
  exact sample_main_env_ok.
Defined.
